(* ===== verification/_CoqProject ===== *)
-Q . S2P
Prelude.v
GoSort.v
Stats.v
World.v
Node.v
KV.v
Tree.v
TreePath.v
Cursor.v
CursorSpec.v
Cow.v
Bucket.v
Spill.v
Tx.v
DB.v
Snapshot.v
CowSpec.v
BucketSpec.v
BucketThm.v
CursorBack.v
Regroup.v
Frame.v
FrameSpill.v
SpillSpec.v
Marked.v
MarkedPath.v
SpillTree.v
FinalizeTree.v
KeysFit.v
Publish.v
Isolation.v
System.v
TxSpec.v
Directory.v
LeafBucket.v
Ripe.v
TreeBucket.v
CommitSpec.v
Orderly.v
SpillThm.v
DBSpec.v
Session.v
Managed.v
Refine.v
Check.v
CheckSpec.v
Batch.v
BatchSpec.v
Shown.v
ViewRefine.v
Passing.v
SnapshotSpec.v
RestoreSpec.v
OpenSpec.v
Fixture.v
History.v
Defects.v
Verify.v
Logger.v
Errors.v
