(* ===== verification/Prelude.v ===== *)
(** * vmbolt: a verified model of an in-memory B+tree key/value store

    vmbolt keeps buckets of sorted key/value pairs in memory.  One database
    ([db.go]) publishes an immutable state (bucket names to B+tree roots) through
    an atomic pointer.  A transaction ([tx.go]) pins the state at its start; a
    read transaction only walks trees ([cursor.go], [bucket.go]), a write
    transaction copies the nodes it touches ([Bucket.writableRoot],
    [Bucket.childForWrite]), and its commit rebalances, splits and links the
    copies ([node.go]), detaches them and swaps the pointer.  Snapshots
    ([snapshot.go]) serialize what a transaction sees; [Tx.Check]
    ([tx_check.go]) validates it; [DB.Batch] combines calls of many goroutines.

    ** Modelling

    The program state is one record, [World.world]: heaps of nodes, bucket handles
    and transactions indexed by pointers, and the database with its lock.  Code
    runs in a state monad ([ST], notation [let! x := m in ...]) whose outcomes are
    a value, a Go panic, a blocked lock, or exhausted fuel.  Pointers are shared
    as in Go, so copy-on-write, aliasing of published nodes and parent links are
    in the model and not assumed.  Integers that can wrap are kept at their width
    ([wrap64]); slices of bytes are lists of bytes, and a nil result is [None].

    - [Prelude]: bytes, [bytes.Compare], the monad, wrap-around, automation.
    - [GoSort], [Stats]: [sort.Search], [sort.Strings]; counters of [tx.go], [db.go].
    - [World], [Node], [Cursor], [Cow], [Bucket], [Spill], [Tx], [DB], [Snapshot],
      [Check], [Batch]: the translation, one Definition or Fixpoint per Go
      function, under the Go name (methods that clash carry their type:
      [Bucket_ForEach] and [Tx_ForEach] for [Bucket.ForEach] and [Tx.ForEach]).
      [Batch] is a step relation, because its goroutines interleave.
    - [KV], [Tree], [TreePath]: the specification: sorted association lists and
      mathematical trees; [rep h T] says that the heap [h] holds the tree [T].
    - [CursorSpec], [CursorBack], [CowSpec], [BucketSpec], [BucketThm]: cursors and
      bucket operations refine the sorted list.
    - [Regroup], [SpillSpec], [SpillThm]: splitting and linking one node.
    - [Marked], [MarkedPath], [SpillTree], [FinalizeTree], [KeysFit]: [finalize] on a
      tree of several levels, as steps on trees whose nodes carry the progress of
      the commit; room in the branches.
    - [LeafBucket], [Ripe], [TreeBucket], [CommitSpec], [Orderly]: the states of a
      bucket a commit can finish, what keeps them, and the commit.
    - [Frame], [FrameSpill], [Publish], [Isolation], [System]: ownership.  A node is
      owned by one open handle or frozen; the invariant [sane] is kept by every
        API call, in any interleaving ([System.step]), and gives isolation.  [Update]
      and [Restore] are made of such calls ([Update_steps], [Restore_steps]).
    - [TxSpec], [Directory]: the bucket directory of a transaction.
    - [DBSpec], [Managed]: begin, the single writer, [Update] and [View].
    - [Session], [Refine], [ViewRefine], [Passing]: the database as a map of maps:
      scripts of operations, their simulation inside a transaction, [Update] and
      [View] against the map, and that what is stored passes [Check].
    - [History]: histories of calls, of copying the database to a file among the
      files of the machine, closing it and opening that file, against the map.
    - [CheckSpec], [BatchSpec], [Shown], [SnapshotSpec], [RestoreSpec], [OpenSpec]:
      the contracts of [Check], [Batch], [Inspect], [WriteTo], [Restore], [Open].
    - [Fixture], [Verify], [Logger], [Errors]: [internal/btesting],
      [internal/common/verify.go], [logger.go] and the error variables.
    - [Defects]: concrete runs on which the code departs from its intent.

    ** What the theorems show

    Isolation and atomicity ([System], [Managed], [DBSpec]) hold for all trees and
    all interleavings of API calls, panicking commits included: readers never see
    a change, published trees never change, only a commit that returns nil
    publishes; [Managed.Update_atomic] adds what an [Update] that returns nil makes
    visible.  Bucket operations ([BucketThm]) are correct on trees of any shape.
    The full contract of a commit ([CommitSpec.Commit_correct]: it returns nil and
    publishes what the transaction saw) is proved for transactions whose opened
    buckets are single leaves of any size, or trees of any height in which nothing
    is to be merged and no branch outgrows its node; [Defects] shows that it does
    not hold for all trees, since merging and branch splits have errors.  On top of
    it, [Refine.Update_refines] and [ViewRefine.View_refines] say that the database
    is a map of maps for callers that put, get, delete and scan keys and create,
    delete and list buckets, as long as the keys of a bucket (without the values) fit one node;
    [History.history_refines] extends this to histories of such calls in which the
    database is also copied to a file, closed and opened again; and
    [Passing.serving_checks] that its states pass [Tx.Check].  Callers have to stay
    clear of the defects: keys are deleted only in buckets that are one node (which
    buckets are is part of the specification, [Session.abs]), since a delete in a
    larger tree can lead to a merge, and no bucket name is deleted twice in a
    transaction.  [BucketThm] has deletes in trees of any shape, up to the commit.
    Snapshots round trip, with any [io.Writer] that keeps its contract (class
    [LawfulWriter]).

    ** Bounds and fuel

    Recursions through pointers and cursor loops take fuel.  Each theorem states
    how much is enough, in terms of the tree ([tsize], the depth) or the number of
    pairs, and that the call then returns; no theorem assumes that it returns.
    [Last_diverges] holds for every amount of fuel.  The sizes of Go allocations
    in [Restore] are bounded by the parameter [maxAlloc], at least [MaxValueSize].

    ** Parameters

    The order in which Go ranges over a map ([iteration], [fair]), the durations
    measured by a commit, the writer and the file given by the caller, and the
    user's functions: arbitrary computations for [Update], [View] and [Batch],
    with those that go through the API ([api_prog]) for the atomicity theorem and
    scripts for the refinement; [fmt.Sprint], [fmt.Sprintf] and time stamps for the
    logger.

    ** Not modelled

    What the library logs, the version string, the delay of a batch (time is
    nondeterminism in [Batch]), the log and the printing of the test helper,
    [String] methods, [strings.ToLower] outside ASCII, and
    a reader that fails other than by ending.
    Commit handlers are numbers, recorded when they run: what a handler does and
    its panics are left out.  [FillPercent] is a finite rational (no NaN), and an
    assignment to it on a handle that cannot write, which nothing in the library
    reads, leaves the model's handle as it is.  Sizes of nodes, buckets and
    transactions are integers without wrap-around: they are sums of lengths of
    slices in memory.  [n.inodes = child.inodes[:]]
    (node.go:324) is a copy here: the child that shares the array is detached at
    that point.  Each API call is one step of [System.step], so the Go memory
    model inside a call is not in question: a transaction belongs to one
    goroutine, and transactions share only frozen nodes and the two locks. *)
From stdpp Require Export base gmap list sorting fin_maps fin_sets.
From Stdlib Require Export Strings.Byte.
From Stdlib Require Export ZArith Lia.

(** ** Go byte slices *)

(** Contents of a Go [[]byte] (or of a Go [string]). *)
Abbreviation bytes := (list byte).

#[export] Instance byte_eq_dec : EqDecision byte := Byte.byte_eq_dec.
#[export] Program Instance byte_countable : Countable byte :=
  inj_countable Byte.to_N Byte.of_N _.
Next Obligation. apply Byte.of_to_N. Qed.

Lemma to_N_inj (a b : byte) : Byte.to_N a = Byte.to_N b → a = b.
Proof.
  intros H. apply (f_equal Byte.of_N) in H.
  rewrite !Byte.of_to_N in H. by injection H.
Qed.

(** [bytes.Compare]: lexicographic comparison, -1, 0 or 1. *)
Fixpoint Compare (a b : bytes) : Z :=
  match a, b with
  | [], [] => 0
  | [], _ :: _ => -1
  | _ :: _, [] => 1
  | x :: a', y :: b' =>
      if (Byte.to_N x <? Byte.to_N y)%N then -1
      else if (Byte.to_N y <? Byte.to_N x)%N then 1
      else Compare a' b'
  end.

Definition blt (a b : bytes) : Prop := Compare a b = (-1)%Z.
Definition ble (a b : bytes) : Prop := Compare b a ≠ (-1)%Z.

Declare Scope bytes_scope.
Delimit Scope bytes_scope with bytes.
Infix "≺" := blt (at level 70) : bytes_scope.
Infix "≼" := ble (at level 70) : bytes_scope.
Local Open Scope bytes_scope.

#[export] Instance blt_dec a b : Decision (a ≺ b) := Z.eq_dec _ _.
#[export] Instance ble_dec a b : Decision (a ≼ b).
Proof. unfold ble. apply _. Defined.

Lemma Compare_refl a : Compare a a = 0%Z.
Proof.
  induction a as [|x a IH]; [done|]; simpl. by rewrite N.ltb_irrefl.
Qed.

Lemma Compare_range a b : Compare a b = (-1)%Z ∨ Compare a b = 0%Z ∨ Compare a b = 1%Z.
Proof.
  revert b. induction a as [|x a IH]; intros [|y b]; simpl; auto.
  repeat case_match; auto.
Qed.

Lemma Compare_eq a b : Compare a b = 0%Z ↔ a = b.
Proof.
  split; [|intros ->; apply Compare_refl].
  revert b. induction a as [|x a IH]; intros [|y b]; simpl; try done.
  destruct (N.ltb_spec (Byte.to_N x) (Byte.to_N y)); [done|].
  destruct (N.ltb_spec (Byte.to_N y) (Byte.to_N x)); [done|].
  intros ?%IH. f_equal; [|done]. apply to_N_inj. lia.
Qed.

Lemma Compare_antisym a b : Compare b a = (- Compare a b)%Z.
Proof.
  revert b. induction a as [|x a IH]; intros [|y b]; simpl; try done.
  destruct (N.ltb_spec (Byte.to_N x) (Byte.to_N y)),
    (N.ltb_spec (Byte.to_N y) (Byte.to_N x)); try lia; auto.
Qed.

Lemma blt_trans a b c : a ≺ b → b ≺ c → a ≺ c.
Proof.
  unfold blt. revert b c. induction a as [|x a IH]; intros [|y b] [|z c]; simpl; try done.
  destruct (N.ltb_spec (Byte.to_N x) (Byte.to_N y)),
    (N.ltb_spec (Byte.to_N y) (Byte.to_N x)),
    (N.ltb_spec (Byte.to_N y) (Byte.to_N z)),
    (N.ltb_spec (Byte.to_N z) (Byte.to_N y)),
    (N.ltb_spec (Byte.to_N x) (Byte.to_N z)),
    (N.ltb_spec (Byte.to_N z) (Byte.to_N x)); try lia; try done. apply IH.
Qed.

Lemma blt_irrefl a : ¬ a ≺ a.
Proof. unfold blt. by rewrite Compare_refl. Qed.

#[export] Instance blt_strict : StrictOrder blt.
Proof. split; [intros a; apply blt_irrefl|intros a b c; apply blt_trans]. Qed.

Lemma ble_cases a b : a ≼ b ↔ a ≺ b ∨ a = b.
Proof.
  unfold ble, blt. rewrite <- Compare_eq, (Compare_antisym a b).
  destruct (Compare_range a b) as [-> | [-> | ->]]; naive_solver lia.
Qed.

Lemma blt_total a b : a ≺ b ∨ a = b ∨ b ≺ a.
Proof.
  unfold blt. rewrite <- Compare_eq, (Compare_antisym a b).
  destruct (Compare_range a b) as [-> | [-> | ->]]; auto.
Qed.

Lemma not_blt a b : ¬ a ≺ b ↔ b ≼ a.
Proof. done. Qed.

Lemma ble_refl a : a ≼ a.
Proof. apply ble_cases; auto. Qed.

Lemma blt_ble a b : a ≺ b → a ≼ b.
Proof. rewrite ble_cases; auto. Qed.

Lemma ble_blt_trans a b c : a ≼ b → b ≺ c → a ≺ c.
Proof. rewrite ble_cases. intros [?| ->]; [by etrans|done]. Qed.

Lemma blt_ble_trans a b c : a ≺ b → b ≼ c → a ≺ c.
Proof. rewrite ble_cases. intros ? [?| <-]; [by etrans|done]. Qed.

Lemma ble_trans a b c : a ≼ b → b ≼ c → a ≼ c.
Proof. rewrite !ble_cases. intros [?| ->] [?| ->]; eauto using blt_trans. Qed.

#[export] Instance ble_preorder : PreOrder ble.
Proof. split; [intros a; apply ble_refl|intros a b c; apply ble_trans]. Qed.

Lemma blt_neq a b : a ≺ b → a ≠ b.
Proof. intros H ->. by apply blt_irrefl in H. Qed.

Lemma blt_asym a b : a ≺ b → ¬ b ≺ a.
Proof. intros H1 H2. exact (blt_irrefl _ (blt_trans _ _ _ H1 H2)). Qed.

Lemma Compare_ne_m1 a b : bool_decide (Compare a b ≠ (-1)%Z) = bool_decide (b ≼ a).
Proof. done. Qed.

(** [bytes.Equal]. *)
Definition Equal (a b : bytes) : bool := bool_decide (a = b).

Lemma Equal_spec a b : Equal a b = true ↔ a = b.
Proof. apply bool_decide_eq_true. Qed.

(** ** Outcomes of Go computations *)

(** Why a goroutine panicked.  The constructors are the panics the sources can
    raise: explicit [panic]/[common.Assert] calls, nil dereferences, nil-map
    writes, out-of-range indexing, over-long [make], and panics raised by code
    the library calls back (a user's transaction function). *)
Inductive panic :=
| PNilDeref
| PNilMapWrite
| PIndexOutOfRange
| PMakeLen
| PAssert
| PChildAtLeaf
| PZeroOldKey
| PZeroNewKey
| PFinalizeNoInodes
| PFinalizeZeroKey
| PSearchNilNode
| PUser (code : nat).

#[export] Instance panic_eq_dec : EqDecision panic.
Proof. solve_decision. Defined.

(** A computation returns, panics, blocks on a lock that is held, or runs out of
    the fuel that bounds the model's loops. *)
Inductive res (A : Type) :=
| Ret (a : A)
| Panic (p : panic)
| Blocked
| NoFuel.
Arguments Ret {A} a.
Arguments Panic {A} p.
Arguments Blocked {A}.
Arguments NoFuel {A}.

(** State and failure; the state survives a panic, because Go's deferred calls
    and [recover] observe it. *)
Definition ST (S A : Type) : Type := S → res A * S.

Section monad.
Context {S : Type}.

Definition st_ret {A} (a : A) : ST S A := λ s, (Ret a, s).
Definition st_bind {A B} (m : ST S A) (f : A → ST S B) : ST S B := λ s,
  match m s with
  | (Ret a, s') => f a s'
  | (Panic p, s') => (Panic p, s')
  | (Blocked, s') => (Blocked, s')
  | (NoFuel, s') => (NoFuel, s')
  end.
Definition st_panic {A} (p : panic) : ST S A := λ s, (Panic p, s).
Definition st_blocked {A} : ST S A := λ s, (Blocked, s).
Definition st_nofuel {A} : ST S A := λ s, (NoFuel, s).
Definition st_get : ST S S := λ s, (Ret s, s).
Definition st_put (s' : S) : ST S unit := λ _, (Ret tt, s').
Definition st_gets {A} (f : S → A) : ST S A := λ s, (Ret (f s), s).
Definition st_modify (f : S → S) : ST S unit := λ s, (Ret tt, f s).
(** [common.Assert] (internal/common/verify.go). *)
Definition Assert (condition : bool) : ST S unit :=
  if condition then st_ret tt else st_panic PAssert.
(** [a[i]] on a slice, with Go's bounds check. *)
Definition st_index {A} (l : list A) (i : Z) : ST S A :=
  if (i <? 0)%Z then st_panic PIndexOutOfRange else
  match l !! Z.to_nat i with
  | Some x => st_ret x
  | None => st_panic PIndexOutOfRange
  end.
(** [*p], with Go's nil check. *)
Definition st_deref {A} (o : option A) : ST S A :=
  match o with Some x => st_ret x | None => st_panic PNilDeref end.

(** [for _, x := range l { ... }] *)
Fixpoint st_iter {A} (f : A → ST S unit) (l : list A) : ST S unit :=
  match l with
  | [] => st_ret tt
  | x :: l' => st_bind (f x) (λ _, st_iter f l')
  end.
End monad.

#[global] Arguments st_bind {S A B} m f s : simpl never.
#[global] Arguments st_index {S A} l i s : simpl never.

Declare Scope st_scope.
Delimit Scope st_scope with st.
Notation "'let!' x := c 'in' k" := (st_bind c (λ x, k))
  (at level 10, x pattern, c at level 100, k at level 200) : st_scope.
Notation "c ;! k" := (st_bind c (λ _, k))
  (at level 100, k at level 200, right associativity) : st_scope.
Local Open Scope st_scope.

(** Running a bind whose first half is known. *)
Lemma bind_Ret {S A B} (m : ST S A) (f : A → ST S B) s a s' :
  m s = (Ret a, s') → st_bind m f s = f a s'.
Proof. unfold st_bind. by intros ->. Qed.

Lemma bind_Panic {S A B} (m : ST S A) (f : A → ST S B) s p s' :
  m s = (Panic p, s') → st_bind m f s = (Panic p, s').
Proof. unfold st_bind. by intros ->. Qed.

Lemma bind_then {S A B C} (m : ST S A) (f : A → ST S B) (k : ST S C) s b s' :
  st_bind m f s = (Ret b, s') → st_bind m (λ a, st_bind (f a) (λ _, k)) s = k s'.
Proof.
  unfold st_bind. destruct (m s) as [[a| | |] s1]; [|done..]. by intros ->.
Qed.

Lemma bind_Ret_inv {S A B} (m : ST S A) (f : A → ST S B) s b s' :
  st_bind m f s = (Ret b, s') →
  ∃ a s1, m s = (Ret a, s1) ∧ f a s1 = (Ret b, s').
Proof. unfold st_bind. destruct (m s) as [[] s1]; naive_solver. Qed.

(** ** Lists *)

Section lists.
Context {A : Type}.
Implicit Types l : list A.

Lemma drop_lookup_cons l i x : l !! i = Some x → drop i l = x :: drop (S i) l.
Proof. apply drop_S. Qed.

Lemma take_drop_lookup l i x : l !! i = Some x → l = take i l ++ x :: drop (S i) l.
Proof. intros H. by rewrite take_drop_middle. Qed.
End lists.

(** Strictly increasing keys. *)
Abbreviation ssorted := (StronglySorted blt).

Lemma ssorted_app (l1 l2 : list bytes) :
  ssorted (l1 ++ l2) ↔
  ssorted l1 ∧ ssorted l2 ∧ (∀ x y, x ∈ l1 → y ∈ l2 → x ≺ y).
Proof.
  induction l1 as [|a l1 IH]; simpl.
  - split; [|naive_solver]. intros H. split_and!; [constructor|done|]. set_solver.
  - rewrite !StronglySorted_cons, IH, Forall_app, !Forall_forall. set_solver.
Qed.

Lemma ssorted_lookup (l : list bytes) i j x y :
  ssorted l → l !! i = Some x → l !! j = Some y → i < j → x ≺ y.
Proof.
  intros Hs Hi Hj Hlt. rewrite (take_drop_lookup l i x) in Hs by done.
  apply ssorted_app in Hs as (_ & Hs & _).
  apply StronglySorted_inv in Hs as [_ Hs]. rewrite Forall_forall in Hs. apply Hs.
  apply list_elem_of_lookup. exists (j - S i). rewrite lookup_drop. by replace (S i + (j - S i)) with j by lia.
Qed.

Lemma ssorted_lookup_le (l : list bytes) i j x y :
  ssorted l → l !! i = Some x → l !! j = Some y → i ≤ j → x ≼ y.
Proof.
  intros Hs Hi Hj Hle. destruct (decide (i = j)) as [->|].
  - simplify_eq. apply ble_refl.
  - apply blt_ble. eapply (ssorted_lookup l i j); eauto; lia.
Qed.

(** ** Machine integers *)

(** Two's-complement wrap-around of a Go [int64] (and of [int] on amd64). *)
Definition wrap64 (z : Z) : Z := ((z + 2 ^ 63) mod 2 ^ 64 - 2 ^ 63)%Z.

Definition in_int64 (z : Z) : Prop := (- 2 ^ 63 ≤ z < 2 ^ 63)%Z.

Lemma wrap64_id z : in_int64 z → wrap64 z = z.
Proof. unfold in_int64, wrap64. intros ?. rewrite Z.mod_small; lia. Qed.

Lemma wrap64_range z : in_int64 (wrap64 z).
Proof.
  unfold in_int64, wrap64.
  pose proof (Z.mod_pos_bound (z + 2 ^ 63) (2 ^ 64)). lia.
Qed.

Lemma wrap64_mod z : (wrap64 z mod 2 ^ 64 = z mod 2 ^ 64)%Z.
Proof.
  unfold wrap64. rewrite Zminus_mod_idemp_l. f_equal. lia.
Qed.

Lemma wrap64_congr x y : (x mod 2 ^ 64 = y mod 2 ^ 64)%Z → wrap64 x = wrap64 y.
Proof.
  intros H. unfold wrap64. rewrite <- (Zplus_mod_idemp_l x), <- (Zplus_mod_idemp_l y), H. done.
Qed.

(** ** Automation *)

Create HintDb vmbolt discriminated.
#[export] Hint Resolve ble_refl blt_ble blt_irrefl blt_neq : vmbolt.

(** Split the hypotheses and take one step of every [match] in sight. *)
Ltac dmatch :=
  repeat match goal with
  | H : context [match ?x with _ => _ end] |- _ => destruct x eqn:?; simplify_eq/=
  | |- context [match ?x with _ => _ end] => destruct x eqn:?; simplify_eq/=
  end.
