(* ===== verification/GoSort.v ===== *)
(** * Go's [sort] package, as far as vmbolt uses it

    [sort.Search] (node.go, cursor.go) as the binary search the standard library
    runs, with a closure that may update a captured variable (cursor.go's
    [searchNode] sets [exact] from inside the closure), and [sort.Strings]
    (tx.go, tx_check.go) as insertion into a sorted list of distinct names. *)
From S2P Require Import Prelude.
Local Open Scope bytes_scope.

(** ** [sort.Search] *)

Section search.
Context {S : Type}.

(** [for i < j { h := (i+j)>>1; if !f(h) { i = h+1 } else { j = h } }] *)
Fixpoint Search_loop (fuel : nat) (f : nat → S → bool * S) (i j : nat) (s : S) : nat * S :=
  match fuel with
  | O => (i, s)
  | Datatypes.S fuel' =>
      if i <? j then
        let h := Nat.div2 (i + j) in
        let '(b, s') := f h s in
        if b then Search_loop fuel' f i h s' else Search_loop fuel' f (Datatypes.S h) j s'
      else (i, s)
  end.

(** The interval shrinks in every round, so [n] rounds are enough. *)
Definition Search_st (n : nat) (f : nat → S → bool * S) (s : S) : nat * S :=
  Search_loop n f 0 n s.
End search.

(** [sort.Search(n, f)] with a pure predicate. *)
Definition Search (n : nat) (f : nat → bool) : nat :=
  (Search_st n (λ i (_ : unit), (f i, tt)) tt).1.

Lemma div2_between i j : i < j → i ≤ Nat.div2 (i + j) < j.
Proof.
  intros H. rewrite Nat.div2_div.
  split; [apply Nat.div_le_lower_bound; lia|apply Nat.Div0.div_lt_upper_bound; lia].
Qed.

(** Loop invariant of the binary search: everything below [i] was rejected and
    everything from [j] on is accepted; at the end [i] is the boundary. *)
Lemma Search_loop_spec {S} (f : nat → S → bool * S) (p : nat → bool) n fuel :
  (∀ h s, h < n → (f h s).1 = p h) →
  (∀ a b, a ≤ b → b < n → p a = true → p b = true) →
  ∀ i j s, j - i ≤ fuel → i ≤ j → j ≤ n →
    (∀ a, a < i → p a = false) → (∀ a, j ≤ a → a < n → p a = true) →
    let r := (Search_loop fuel f i j s).1 in
    i ≤ r ∧ r ≤ j ∧ (∀ a, a < r → p a = false) ∧ (∀ a, r ≤ a → a < n → p a = true).
Proof.
  intros Hf Hmono. induction fuel as [|fuel IH]; intros i j s Hfuel Hij Hjn Hlo Hhi r.
  - assert (i = j) by lia. subst. split_and!; auto; lia.
  - subst r; simpl. destruct (Nat.ltb_spec i j) as [Hlt|]; simpl.
    2:{ assert (i = j) by lia. subst. split_and!; auto; lia. }
    destruct (div2_between i j Hlt) as [Hh1 Hh2]. set (h := Nat.div2 (i + j)) in *.
    specialize (Hf h s ltac:(lia)) as Hp. destruct (f h s) as [b s']; simpl in Hp; subst b.
    destruct (p h) eqn:Eph.
    + destruct (IH i h s') as (?&?&?&?); try lia; auto.
      { intros a ??. apply (Hmono h a); auto. }
      split_and!; auto; lia.
    + destruct (IH (Datatypes.S h) j s') as (?&?&?&?); try lia; auto.
      { intros a ?. destruct (p a) eqn:?; [|done]. rewrite (Hmono a h) in Eph; auto; lia. }
      split_and!; auto; lia.
Qed.

(** [sort.Search] returns the least index the (monotone) predicate accepts. *)
Lemma Search_st_spec {S} (f : nat → S → bool * S) (p : nat → bool) n s :
  (∀ h s, h < n → (f h s).1 = p h) →
  (∀ a b, a ≤ b → b < n → p a = true → p b = true) →
  let r := (Search_st n f s).1 in
  r ≤ n ∧ (∀ a, a < r → p a = false) ∧ (∀ a, r ≤ a → a < n → p a = true).
Proof.
  intros Hf Hmono. pose proof (Search_loop_spec f p n n Hf Hmono 0 n s) as H.
  unfold Search_st. cbv zeta in *. destruct H as (?&?&?&?); auto; lia.
Qed.

Lemma Search_spec (p : nat → bool) n :
  (∀ a b, a ≤ b → b < n → p a = true → p b = true) →
  let r := Search n p in
  r ≤ n ∧ (∀ a, a < r → p a = false) ∧ (∀ a, r ≤ a → a < n → p a = true).
Proof. intros Hmono. apply (Search_st_spec (λ i (_ : unit), (p i, tt)) p); auto. Qed.

(** The closure's captured state: if it only changes at indices satisfying [q],
    and then to [true], it ends up [true] only if such an index was probed. *)
Lemma Search_loop_flag fuel (p q : nat → bool) i j s n :
  j ≤ n →
  let r := Search_loop fuel (λ h (s : bool), (p h, s || q h)) i j s in
  r.2 = true → s = true ∨ ∃ a, a < n ∧ q a = true.
Proof.
  revert i j s. induction fuel as [|fuel IH]; intros i j s Hjn; simpl; auto.
  destruct (Nat.ltb_spec i j) as [Hlt|]; simpl; auto.
  destruct (div2_between i j Hlt).
  assert (s || q (Nat.div2 (i + j)) = true → s = true ∨ ∃ a, a < n ∧ q a = true).
  { destruct s; simpl; eauto. intros. right. exists (Nat.div2 (i + j)). split; [lia|done]. }
  case_match; intros Hr; apply IH in Hr as [?|?]; auto; lia.
Qed.

Lemma Search_loop_flag_mono fuel (p q : nat → bool) i j :
  (Search_loop fuel (λ h (s : bool), (p h, s || q h)) i j true).2 = true.
Proof.
  revert i j. induction fuel as [|fuel IH]; intros i j; simpl; auto.
  repeat case_match; simpl; auto.
Qed.

(** The boundary index itself is always probed (when it is below [n]), so a flag
    set there is seen. *)
Lemma Search_loop_flag_complete fuel (p q : nat → bool) i j s :
  j - i ≤ fuel → i ≤ j →
  let r := Search_loop fuel (λ h (s : bool), (p h, s || q h)) i j s in
  r.1 < j → q r.1 = true → r.2 = true.
Proof.
  revert i j s. induction fuel as [|fuel IH]; intros i j s Hfuel Hij; simpl; [lia|].
  destruct (Nat.ltb_spec i j) as [Hlt|]; simpl; [|lia].
  destruct (div2_between i j Hlt). set (h := Nat.div2 (i + j)) in *.
  destruct (p h) eqn:Eph; [|apply IH; lia].
  intros Hr Hq. destruct (decide ((Search_loop fuel (λ h s, (p h, s || q h)) i h (s || q h)).1 < h)).
  - apply IH; auto; lia.
  - assert (Hge : ∀ fuel s i j, i ≤ j → (Search_loop fuel (λ h s, (p h, s || q h)) i j s).1 ≤ j).
    { clear. induction fuel as [|fuel IH]; intros s i j Hij; simpl; [lia|].
      destruct (Nat.ltb_spec i j) as [Hlt|]; simpl; [|lia].
      destruct (div2_between i j Hlt). case_match; etrans; try apply IH; lia. }
    specialize (Hge fuel (s || q h) i h ltac:(lia)).
    assert ((Search_loop fuel (λ h s, (p h, s || q h)) i h (s || q h)).1 = h) as Heq by lia.
    rewrite Heq in Hq. rewrite Hq, orb_true_r. apply Search_loop_flag_mono.
Qed.

(** ** Searching sorted keys *)

(** [sort.Search(len(l), func(i) bool { return bytes.Compare(l[i], key) != -1 })] *)
Definition search_keys (l : list bytes) (key : bytes) : nat :=
  Search (length l) (λ i, bool_decide (Compare (nth i l []) key ≠ (-1)%Z)).

Lemma nth_key (l : list bytes) i : i < length l → l !! i = Some (nth i l []).
Proof. intros H. destruct (nth_lookup_or_length l i []) as [?|?]; [done|lia]. Qed.

Lemma nth_key_eq (l : list bytes) i x : l !! i = Some x → nth i l [] = x.
Proof.
  intros H. pose proof (lookup_lt_Some _ _ _ H) as Hlt.
  rewrite (nth_key l i Hlt) in H. by injection H.
Qed.

Lemma search_pred_mono (l : list bytes) key a b :
  ssorted l → a ≤ b → b < length l →
  bool_decide (Compare (nth a l []) key ≠ (-1)%Z) = true →
  bool_decide (Compare (nth b l []) key ≠ (-1)%Z) = true.
Proof.
  rewrite !bool_decide_eq_true. intros Hs Hab Hb Ha.
  apply (ble_trans key (nth a l [])); [done|].
  apply (ssorted_lookup_le l a b); auto; apply nth_key; lia.
Qed.

(** The insertion point of a key: every key before it is smaller, every key from
    it on is at least as large. *)
Lemma search_keys_spec (l : list bytes) key :
  ssorted l →
  let r := search_keys l key in
  r ≤ length l ∧
  (∀ x, x ∈ take r l → x ≺ key) ∧ (∀ x, x ∈ drop r l → key ≼ x).
Proof.
  intros Hs. pose proof (Search_spec (λ i, bool_decide (Compare (nth i l []) key ≠ (-1)%Z)) (length l)) as H.
  cbv zeta in *. fold (search_keys l key) in H. destruct H as (Hr & Hlo & Hhi).
  { intros a b. by apply search_pred_mono. }
  split_and!; [done| |].
  - intros x (i & Hi)%list_elem_of_lookup. apply lookup_take_Some in Hi as [Hi ?].
    specialize (Hlo i ltac:(lia)). rewrite bool_decide_eq_false, (nth_key_eq _ _ _ Hi) in Hlo.
    unfold blt. by apply dec_stable.
  - intros x (i & Hi)%list_elem_of_lookup. rewrite lookup_drop in Hi.
    specialize (Hhi (search_keys l key + i) ltac:(lia) ltac:(by eapply lookup_lt_Some)).
    by rewrite bool_decide_eq_true, (nth_key_eq _ _ _ Hi) in Hhi.
Qed.

(** Where the key is stored, the search finds it. *)
Lemma search_keys_found (l : list bytes) key i :
  ssorted l → l !! i = Some key → search_keys l key = i.
Proof.
  intros Hs Hi. destruct (search_keys_spec l key Hs) as (Hr & Hlo & Hhi).
  destruct (decide (i < search_keys l key)).
  - destruct (blt_irrefl key). apply Hlo. apply list_elem_of_lookup. exists i.
    by rewrite lookup_take_lt.
  - destruct (decide (i = search_keys l key)); [done|].
    pose proof (lookup_lt_Some _ _ _ Hi).
    destruct (lookup_lt_is_Some_2 l (search_keys l key) ltac:(lia)) as [y Hy].
    assert (key ≼ y) as Hle.
    { apply Hhi. apply list_elem_of_lookup. exists 0. by rewrite lookup_drop, Nat.add_0_r. }
    pose proof (ssorted_lookup l _ _ _ _ Hs Hy Hi ltac:(lia)). by rewrite <- not_blt in Hle.
Qed.

(** cursor.go's [searchNode] search: the same predicate, with the captured
    variable [exact] set whenever the probed key equals the one sought. *)
Definition search_exact (l : list bytes) (key : bytes) : nat * bool :=
  Search_st (length l)
    (λ i exact, let ret := Compare (nth i l []) key in
       (bool_decide (ret ≠ (-1)%Z), exact || bool_decide (ret = 0%Z))) false.

Lemma search_exact_spec (l : list bytes) key :
  ssorted l →
  (search_exact l key).1 = search_keys l key ∧
  ((search_exact l key).2 = true ↔ key ∈ l).
Proof.
  intros Hs. set (p := λ i, bool_decide (Compare (nth i l []) key ≠ (-1)%Z)).
  set (q := λ i, bool_decide (Compare (nth i l []) key = 0%Z)).
  assert (search_exact l key = Search_loop (length l) (λ h s, (p h, s || q h)) 0 (length l) false) as E by done.
  assert (Hq : ∀ a, a < length l → q a = true ↔ l !! a = Some key).
  { intros a Ha. unfold q. rewrite bool_decide_eq_true, Compare_eq, (nth_key l a Ha). naive_solver. }
  assert ((search_exact l key).1 = search_keys l key) as E1.
  { pose proof (Search_st_spec (λ i exact, (p i, exact || q i)) p (length l) false) as H1.
    pose proof (Search_spec p (length l)) as H2. cbv zeta in *.
    destruct H1 as (Hr1 & Hlo1 & Hhi1); [done|intros; eapply search_pred_mono; eauto|].
    destruct H2 as (Hr2 & Hlo2 & Hhi2); [intros; eapply search_pred_mono; eauto|].
    fold (search_keys l key) in *. rewrite E. unfold Search_st in *.
    set (r1 := (Search_loop _ _ _ _ _).1) in *. set (r2 := search_keys l key) in *.
    change (Search (length l) p) with r2 in *.
    destruct (Nat.lt_trichotomy r1 r2) as [?|[?|?]]; [|done|].
    - specialize (Hhi1 r1 ltac:(lia) ltac:(lia)). by rewrite Hlo2 in Hhi1 by lia.
    - specialize (Hhi2 r2 ltac:(lia) ltac:(lia)). by rewrite Hlo1 in Hhi2 by lia. }
  split; [done|]. split.
  - rewrite E. intros [?|(a & Ha & Hqa)]%(Search_loop_flag _ p q 0 (length l) false (length l)); [done| |lia].
    apply Hq in Hqa; [|done]. by eapply list_elem_of_lookup_2.
  - intros (i & Hi)%list_elem_of_lookup. pose proof (lookup_lt_Some _ _ _ Hi).
    pose proof (search_keys_found l key i Hs Hi) as E2. rewrite E2 in E1. rewrite E in E1 |- *.
    apply Search_loop_flag_complete; rewrite ?E1; try lia. by apply Hq.
Qed.

(** ** [sort.Strings] on distinct names *)

Fixpoint insert_name (x : bytes) (l : list bytes) : list bytes :=
  match l with
  | [] => [x]
  | y :: l' => if decide (x ≺ y) then x :: y :: l' else y :: insert_name x l'
  end.

Definition sort_Strings (l : list bytes) : list bytes := foldr insert_name [] l.

Lemma insert_name_perm x l : insert_name x l ≡ₚ x :: l.
Proof.
  induction l as [|y l IH]; simpl; [done|]. case_decide; [done|]. rewrite IH. constructor.
Qed.

Lemma sort_Strings_perm l : sort_Strings l ≡ₚ l.
Proof. induction l as [|x l IH]; simpl; [done|]. by rewrite insert_name_perm, IH. Qed.

Lemma insert_name_sorted x l : x ∉ l → ssorted l → ssorted (insert_name x l).
Proof.
  induction l as [|y l IH]; simpl; intros Hx Hs.
  { repeat constructor. }
  apply not_elem_of_cons in Hx as [Hxy Hx]. apply StronglySorted_inv in Hs as [Hs Hy].
  case_decide as Hlt.
  - constructor; [by constructor|]. constructor; [done|].
    eapply Forall_impl; [exact Hy|]. intros z ?. by etrans.
  - constructor; [by apply IH|]. rewrite insert_name_perm. constructor; [|done].
    destruct (blt_total x y) as [?|[?|?]]; done.
Qed.

Lemma sort_Strings_sorted l : NoDup l → ssorted (sort_Strings l).
Proof.
  induction 1 as [|x l Hx Hl IH]; simpl; [constructor|].
  apply insert_name_sorted; [by rewrite sort_Strings_perm|done].
Qed.

(** With repeats, the result is weakly sorted; keeping first occurrences of a
    weakly sorted list makes it strict. *)
Lemma insert_name_weak x l : StronglySorted ble l → StronglySorted ble (insert_name x l).
Proof.
  induction l as [|y l IH]; simpl; intros Hs; [repeat constructor|].
  apply StronglySorted_inv in Hs as [Hs Hy]. case_decide as Hlt.
  - constructor; [by constructor|]. constructor; [by apply blt_ble|].
    eapply Forall_impl; [exact Hy|]. intros z ?. etrans; [by apply blt_ble|done].
  - constructor; [by apply IH|]. rewrite insert_name_perm. by constructor.
Qed.

Lemma sort_Strings_weak l : StronglySorted ble (sort_Strings l).
Proof. induction l as [|x l IH]; simpl; [constructor|by apply insert_name_weak]. Qed.

(** First occurrences, as a [seen] map keeps them. *)
Fixpoint firsts (l : list bytes) (seen : gset bytes) : list bytes :=
  match l with
  | [] => []
  | n :: l' => if bool_decide (n ∈ seen) then firsts l' seen else n :: firsts l' ({[n]} ∪ seen)
  end.

Lemma elem_of_firsts n l seen : n ∈ firsts l seen ↔ n ∈ l ∧ n ∉ seen.
Proof.
  revert seen. induction l as [|m l IH]; intros seen; simpl; [set_solver|]. case_bool_decide.
  - rewrite IH. set_solver.
  - rewrite elem_of_cons, IH. destruct (decide (n = m)); set_solver.
Qed.

Lemma firsts_sorted l seen : StronglySorted ble l → ssorted (firsts l seen).
Proof.
  revert seen. induction l as [|m l IH]; intros seen Hs; simpl; [constructor|].
  apply StronglySorted_inv in Hs as [Hs Hm]. case_bool_decide; [by apply IH|].
  constructor; [by apply IH|]. rewrite Forall_forall in Hm. rewrite Forall_forall.
  intros n [Hn Hns]%elem_of_firsts. assert (m ≼ n) as [?| ->]%ble_cases by auto; [done|set_solver].
Qed.

(** A strictly sorted list is determined by its elements. *)
Lemma ssorted_unique l1 l2 : ssorted l1 → ssorted l2 → (∀ n, n ∈ l1 ↔ n ∈ l2) → l1 = l2.
Proof.
  assert (Hnd : ∀ l, ssorted l → NoDup l).
  { induction 1 as [|x l _ IH Hx]; constructor; [|done]. intros Hin. rewrite Forall_forall in Hx.
    by eapply blt_irrefl, Hx. }
  intros H1 H2 Heq. eapply (StronglySorted_unique_strong blt); [|done|done|by apply NoDup_Permutation; auto].
  intros x y _ _ Hxy Hyx. by destruct (blt_asym _ _ Hxy).
Qed.
