(* ===== verification/Stats.v ===== *)
(** * Transaction and database counters (tx.go, db.go)

    [TxStats] with its atomic accessors, [add] and [Sub], and [Stats].  All
    counters are [int64] (durations included) or [int], and every increment
    wraps like Go's [atomic.AddInt64]. *)
From S2P Require Import Prelude.

(** tx.go: [type TxStats struct]. *)
Record TxStats := mkTxStats {
  CursorCount : Z;
  NodeCount : Z;
  NodeDeref : Z;
  Rebalance : Z;
  RebalanceTime : Z;
  Split : Z;
  Spill : Z;
  SpillTime : Z;
  Write : Z;
  WriteTime : Z
}.

Definition TxStats_zero : TxStats := mkTxStats 0 0 0 0 0 0 0 0 0 0.

(** [atomic.AddInt64] / [atomicAddDuration]. *)
Definition AddInt64 (x delta : Z) : Z := wrap64 (x + delta).

(** [IncCursorCount], ..., [IncWriteTime]: one counter changes. *)
Definition IncCursorCount (d : Z) (s : TxStats) : TxStats :=
  let 'mkTxStats a b c e f g h i j k := s in mkTxStats (AddInt64 a d) b c e f g h i j k.
Definition IncNodeCount (d : Z) (s : TxStats) : TxStats :=
  let 'mkTxStats a b c e f g h i j k := s in mkTxStats a (AddInt64 b d) c e f g h i j k.
Definition IncNodeDeref (d : Z) (s : TxStats) : TxStats :=
  let 'mkTxStats a b c e f g h i j k := s in mkTxStats a b (AddInt64 c d) e f g h i j k.
Definition IncRebalance (d : Z) (s : TxStats) : TxStats :=
  let 'mkTxStats a b c e f g h i j k := s in mkTxStats a b c (AddInt64 e d) f g h i j k.
Definition IncRebalanceTime (d : Z) (s : TxStats) : TxStats :=
  let 'mkTxStats a b c e f g h i j k := s in mkTxStats a b c e (AddInt64 f d) g h i j k.
Definition IncSplit (d : Z) (s : TxStats) : TxStats :=
  let 'mkTxStats a b c e f g h i j k := s in mkTxStats a b c e f (AddInt64 g d) h i j k.
Definition IncSpill (d : Z) (s : TxStats) : TxStats :=
  let 'mkTxStats a b c e f g h i j k := s in mkTxStats a b c e f g (AddInt64 h d) i j k.
Definition IncSpillTime (d : Z) (s : TxStats) : TxStats :=
  let 'mkTxStats a b c e f g h i j k := s in mkTxStats a b c e f g h (AddInt64 i d) j k.
Definition IncWrite (d : Z) (s : TxStats) : TxStats :=
  let 'mkTxStats a b c e f g h i j k := s in mkTxStats a b c e f g h i (AddInt64 j d) k.
Definition IncWriteTime (d : Z) (s : TxStats) : TxStats :=
  let 'mkTxStats a b c e f g h i j k := s in mkTxStats a b c e f g h i j (AddInt64 k d).

(** [TxStats.add]: the calls in the order of the source. *)
Definition TxStats_add (s other : TxStats) : TxStats :=
  IncWriteTime (WriteTime other)
    (IncWrite (Write other)
      (IncSpillTime (SpillTime other)
        (IncSpill (Spill other)
          (IncSplit (Split other)
            (IncRebalanceTime (RebalanceTime other)
              (IncRebalance (Rebalance other)
                (IncNodeDeref (NodeDeref other)
                  (IncNodeCount (NodeCount other)
                    (IncCursorCount (CursorCount other) s))))))))).

(** [TxStats.Sub]. *)
Definition TxStats_Sub (s other : TxStats) : TxStats :=
  mkTxStats
    (wrap64 (CursorCount s - CursorCount other))
    (wrap64 (NodeCount s - NodeCount other))
    (wrap64 (NodeDeref s - NodeDeref other))
    (wrap64 (Rebalance s - Rebalance other))
    (wrap64 (RebalanceTime s - RebalanceTime other))
    (wrap64 (Split s - Split other))
    (wrap64 (Spill s - Spill other))
    (wrap64 (SpillTime s - SpillTime other))
    (wrap64 (Write s - Write other))
    (wrap64 (WriteTime s - WriteTime other)).

(** Every counter is an [int64]. *)
Definition TxStats_ok (s : TxStats) : Prop :=
  in_int64 (CursorCount s) ∧ in_int64 (NodeCount s) ∧ in_int64 (NodeDeref s) ∧
  in_int64 (Rebalance s) ∧ in_int64 (RebalanceTime s) ∧ in_int64 (Split s) ∧
  in_int64 (Spill s) ∧ in_int64 (SpillTime s) ∧ in_int64 (Write s) ∧ in_int64 (WriteTime s).

(** db.go: [type Stats struct]. *)
Record Stats := mkStats {
  st_TxStats : TxStats;
  TxN : Z;
  OpenTxN : Z
}.

Definition Stats_zero : Stats := mkStats TxStats_zero 0 0.

(** [Stats.Sub]: [OpenTxN] of the difference stays 0. *)
Definition Stats_Sub (s : Stats) (other : option Stats) : Stats :=
  match other with
  | None => s
  | Some o => mkStats (TxStats_Sub (st_TxStats s) (st_TxStats o)) (wrap64 (TxN s - TxN o)) 0
  end.

(** ** Properties *)

Lemma wrap64_add_sub x y : in_int64 y → wrap64 (AddInt64 x y - x) = y.
Proof.
  intros Hy. rewrite <- (wrap64_id y Hy) at 2. apply wrap64_congr.
  unfold AddInt64. rewrite <- Zminus_mod_idemp_l, wrap64_mod, Zminus_mod_idemp_l.
  f_equal. lia.
Qed.

Lemma AddInt64_range x y : in_int64 (AddInt64 x y).
Proof. apply wrap64_range. Qed.

Lemma AddInt64_comm x y z : AddInt64 (AddInt64 x y) z = AddInt64 (AddInt64 x z) y.
Proof.
  unfold AddInt64. apply wrap64_congr.
  rewrite <- (Zplus_mod_idemp_l (wrap64 (x + y))), <- (Zplus_mod_idemp_l (wrap64 (x + z))).
  rewrite !wrap64_mod, !Zplus_mod_idemp_l. f_equal. lia.
Qed.

#[export] Hint Resolve AddInt64_range wrap64_range : vmbolt.

(** Adding a transaction's counters to the totals keeps them [int64]s. *)
Lemma TxStats_add_ok s o : TxStats_ok (TxStats_add s o).
Proof. destruct s, o. repeat split; apply wrap64_range. Qed.

(** Totals accumulated with [TxStats.add] and read back with [TxStats.Sub] give
    the counters that were added, even when a total wrapped around in between. *)
Theorem TxStats_Sub_add s o : TxStats_ok o → TxStats_Sub (TxStats_add s o) s = o.
Proof.
  destruct s, o. unfold TxStats_ok. simpl. intros (?&?&?&?&?&?&?&?&?&?).
  unfold TxStats_Sub; simpl. by rewrite !wrap64_add_sub.
Qed.

Lemma TxStats_Sub_add_witness :
  let near := mkTxStats (2 ^ 63 - 1) 0 0 0 0 0 0 0 0 0 in
  let one := mkTxStats 1 2 3 4 5 6 7 8 9 10 in
  CursorCount (TxStats_add near one) = (- 2 ^ 63)%Z ∧ TxStats_Sub (TxStats_add near one) near = one.
Proof.
  split; [reflexivity|]. apply (TxStats_Sub_add (mkTxStats (2 ^ 63 - 1) 0 0 0 0 0 0 0 0 0)).
  unfold TxStats_ok, in_int64. simpl. lia.
Defined.

(** The order in which two transactions close does not matter for the totals. *)
Theorem TxStats_add_comm s o1 o2 :
  TxStats_add (TxStats_add s o1) o2 = TxStats_add (TxStats_add s o2) o1.
Proof. destruct s, o1, o2. unfold TxStats_add; simpl. f_equal; apply AddInt64_comm. Qed.
