(* ===== verification/World.v ===== *)
(** * The data model: errors, nodes, buckets, transactions, the database

    The Go program is a graph of heap objects: B+tree nodes that point to their
    children, to their parent and to the bucket handle that copied them; bucket
    handles that point to their transaction; transactions that pin an immutable
    database state.  The model keeps these pointers: a [world] holds one store
    per object type, and a pointer is a location in it, so the sharing that
    copy-on-write depends on is in the model. *)
From S2P Require Import Prelude Stats.
From Stdlib Require Export QArith.QArith_base QArith.Qround.
Close Scope Q_scope.
Local Open Scope st_scope.

(** ** Errors (errors/errors.go, errors.go) *)

(** io.ReadFull's failures. *)
Inductive ioerr := EOF | ErrUnexpectedEOF.

(** Where [Restore] was when it failed (the [fmt.Errorf] prefixes). *)
Inductive snapctx :=
| CtxHeader | CtxNameLen | CtxName | CtxBucket | CtxKeyLen | CtxKey | CtxValLen | CtxVal | CtxPut.

Inductive err :=
| ErrDatabaseNotOpen
| ErrInvalid
| ErrInvalidMapping
| ErrVersionMismatch
| ErrChecksum
| ErrTimeout
| ErrTxNotWritable
| ErrTxClosed
| ErrDatabaseReadOnly
| ErrBucketNotFound
| ErrBucketExists
| ErrBucketNameRequired
| ErrKeyRequired
| ErrKeyTooLarge
| ErrValueTooLarge
| ErrMaxSizeReached
| ErrIncompatibleValue
| ErrTrySolo                              (** db.go: [trySolo] *)
| ErrPanicked (p : panic)                 (** db.go: [panicked] *)
| ErrIO (e : ioerr)
| ErrSnapshot (c : snapctx) (cause : err) (** snapshot.go: wrapped with %w *)
| ErrBadMagic
| ErrBadVersion (v : Z)
| ErrRestore (cause : err)                (** db.go: maybeRestore's wrapping *)
| ErrUser (code : nat).                   (** returned by a caller's function *)

#[export] Instance ioerr_eq_dec : EqDecision ioerr.
Proof. solve_decision. Defined.
#[export] Instance snapctx_eq_dec : EqDecision snapctx.
Proof. solve_decision. Defined.
#[export] Instance err_eq_dec : EqDecision err.
Proof. solve_decision. Defined.

(** ** Nodes (snapshot_node.go) *)

Abbreviation loc := positive (only parsing).  (* a [*node] *)
Abbreviation bid := positive (only parsing).  (* a [*Bucket] *)
Abbreviation tid := positive (only parsing).  (* a [*Tx] *)

(** [type inode struct]; [i_value] is [None] for a nil slice. *)
Record inode := mkInode {
  i_flags : Z;
  i_key : bytes;
  i_value : option bytes;
  i_child : option loc
}.

(** [type node struct]; a nil [key] is the empty slice, which the code cannot
    tell apart. *)
Record node := mkNode {
  n_bucket : option bid;
  n_isLeaf : bool;
  n_unbalanced : bool;
  n_spilled : bool;
  n_key : bytes;
  n_parent : option loc;
  n_inodes : list inode
}.

#[export] Instance inode_eq_dec : EqDecision inode.
Proof. solve_decision. Defined.
#[export] Instance node_eq_dec : EqDecision node.
Proof. solve_decision. Defined.

Definition set_n_inodes (l : list inode) (n : node) : node :=
  mkNode (n_bucket n) (n_isLeaf n) (n_unbalanced n) (n_spilled n) (n_key n) (n_parent n) l.
Definition set_n_parent (p : option loc) (n : node) : node :=
  mkNode (n_bucket n) (n_isLeaf n) (n_unbalanced n) (n_spilled n) (n_key n) p (n_inodes n).
Definition set_n_key (k : bytes) (n : node) : node :=
  mkNode (n_bucket n) (n_isLeaf n) (n_unbalanced n) (n_spilled n) k (n_parent n) (n_inodes n).
Definition set_n_spilled (b : bool) (n : node) : node :=
  mkNode (n_bucket n) (n_isLeaf n) (n_unbalanced n) b (n_key n) (n_parent n) (n_inodes n).
Definition set_n_unbalanced (b : bool) (n : node) : node :=
  mkNode (n_bucket n) (n_isLeaf n) b (n_spilled n) (n_key n) (n_parent n) (n_inodes n).
Definition set_n_isLeaf (b : bool) (n : node) : node :=
  mkNode (n_bucket n) b (n_unbalanced n) (n_spilled n) (n_key n) (n_parent n) (n_inodes n).
Definition set_n_bucket (b : option bid) (n : node) : node :=
  mkNode b (n_isLeaf n) (n_unbalanced n) (n_spilled n) (n_key n) (n_parent n) (n_inodes n).

(** ** Published state (bucket_state.go) *)

(** [type bucketState struct]. *)
Record bucketState := mkBucketState { bs_root : option loc }.

(** [type dbState struct]: a map from names to possibly nil state pointers. *)
Record dbState := mkDbState { ds_buckets : gmap bytes (option bucketState) }.

(** ** Bucket handles (bucket.go) *)

(** [type Bucket struct].  [b_dirty = None] is the nil map of a read
    transaction.  [FillPercent] is a finite float64, kept as its exact value. *)
Record Bucket := mkBucket {
  b_tx : tid;
  b_name : bytes;
  b_rootNode : option loc;
  b_dirty : option (gset loc);
  b_FillPercent : Q
}.

Definition set_b_rootNode (r : option loc) (b : Bucket) : Bucket :=
  mkBucket (b_tx b) (b_name b) r (b_dirty b) (b_FillPercent b).
Definition set_b_dirty (d : option (gset loc)) (b : Bucket) : Bucket :=
  mkBucket (b_tx b) (b_name b) (b_rootNode b) d (b_FillPercent b).
Definition set_b_FillPercent (q : Q) (b : Bucket) : Bucket :=
  mkBucket (b_tx b) (b_name b) (b_rootNode b) (b_dirty b) q.

(** [b.dirty[l]]: reading a nil map gives false. *)
Definition isDirty (b : Bucket) (l : loc) : bool :=
  match b_dirty b with Some d => bool_decide (l ∈ d) | None => false end.

(** ** Transactions (tx.go) *)

(** [type Tx struct].  [t_db] is "db != nil"; nil maps are empty maps, which the
    code cannot tell apart; a commit handler is the number it was registered
    under. *)
Record Tx := mkTx {
  t_writable : bool;
  t_managed : bool;
  t_db : bool;
  t_base : option dbState;
  t_bctx : gmap bytes bid;
  t_created : gset bytes;
  t_deleted : gset bytes;
  t_stats : TxStats;
  t_commitHandlers : list nat
}.

Definition set_t_managed (m : bool) (t : Tx) : Tx :=
  mkTx (t_writable t) m (t_db t) (t_base t) (t_bctx t) (t_created t) (t_deleted t) (t_stats t) (t_commitHandlers t).
Definition set_t_bctx (m : gmap bytes bid) (t : Tx) : Tx :=
  mkTx (t_writable t) (t_managed t) (t_db t) (t_base t) m (t_created t) (t_deleted t) (t_stats t) (t_commitHandlers t).
Definition set_t_created (c : gset bytes) (t : Tx) : Tx :=
  mkTx (t_writable t) (t_managed t) (t_db t) (t_base t) (t_bctx t) c (t_deleted t) (t_stats t) (t_commitHandlers t).
Definition set_t_deleted (d : gset bytes) (t : Tx) : Tx :=
  mkTx (t_writable t) (t_managed t) (t_db t) (t_base t) (t_bctx t) (t_created t) d (t_stats t) (t_commitHandlers t).
Definition set_t_stats (s : TxStats) (t : Tx) : Tx :=
  mkTx (t_writable t) (t_managed t) (t_db t) (t_base t) (t_bctx t) (t_created t) (t_deleted t) s (t_commitHandlers t).
Definition set_t_commitHandlers (l : list nat) (t : Tx) : Tx :=
  mkTx (t_writable t) (t_managed t) (t_db t) (t_base t) (t_bctx t) (t_created t) (t_deleted t) (t_stats t) l.

(** ** The database (db.go) *)

(** [type DB struct] without the batching fields ([Batch.v]) and the logger;
    [db_rwlock] says whether the writer lock is held. *)
Record DB := mkDB {
  db_opened : bool;
  db_stats : option Stats;
  db_state : option dbState;
  db_rwlock : bool;
  db_readOnly : bool
}.

Definition set_db_opened (b : bool) (d : DB) : DB :=
  mkDB b (db_stats d) (db_state d) (db_rwlock d) (db_readOnly d).
Definition set_db_stats (s : option Stats) (d : DB) : DB :=
  mkDB (db_opened d) s (db_state d) (db_rwlock d) (db_readOnly d).
Definition set_db_state (s : option dbState) (d : DB) : DB :=
  mkDB (db_opened d) (db_stats d) s (db_rwlock d) (db_readOnly d).
Definition set_db_rwlock (b : bool) (d : DB) : DB :=
  mkDB (db_opened d) (db_stats d) (db_state d) b (db_readOnly d).

(** ** The world *)

(** Every object the program has allocated, the next fresh locations, and the
    commit handlers that have run, oldest first. *)
Record world := mkWorld {
  w_nodes : gmap loc node;
  w_nextn : loc;
  w_bkts : gmap bid Bucket;
  w_nextb : bid;
  w_txs : gmap tid Tx;
  w_nextt : tid;
  w_db : DB;
  w_fired : list nat
}.

Abbreviation M := (ST world).

Definition set_nodes (h : gmap loc node) (w : world) : world :=
  mkWorld h (w_nextn w) (w_bkts w) (w_nextb w) (w_txs w) (w_nextt w) (w_db w) (w_fired w).
Definition set_bkts (m : gmap bid Bucket) (w : world) : world :=
  mkWorld (w_nodes w) (w_nextn w) m (w_nextb w) (w_txs w) (w_nextt w) (w_db w) (w_fired w).
Definition set_txs (m : gmap tid Tx) (w : world) : world :=
  mkWorld (w_nodes w) (w_nextn w) (w_bkts w) (w_nextb w) m (w_nextt w) (w_db w) (w_fired w).
Definition set_db (d : DB) (w : world) : world :=
  mkWorld (w_nodes w) (w_nextn w) (w_bkts w) (w_nextb w) (w_txs w) (w_nextt w) d (w_fired w).
Definition set_fired (l : list nat) (w : world) : world :=
  mkWorld (w_nodes w) (w_nextn w) (w_bkts w) (w_nextb w) (w_txs w) (w_nextt w) (w_db w) l.

(** ** Memory accesses *)

(** Reading through a pointer; a dangling one cannot occur in Go and is treated
    like nil. *)
Definition get_node (l : loc) : M node :=
  let! w := st_get in st_deref (w_nodes w !! l).
Definition get_bkt (b : bid) : M Bucket :=
  let! w := st_get in st_deref (w_bkts w !! b).
Definition get_tx (t : tid) : M Tx :=
  let! w := st_get in st_deref (w_txs w !! t).
Definition get_db : M DB := st_gets w_db.

(** [p.field = v] through a pointer. *)
Definition upd_node (l : loc) (f : node → node) : M unit :=
  let! n := get_node l in
  st_modify (λ w, set_nodes (<[l := f n]> (w_nodes w)) w).
Definition upd_bkt (b : bid) (f : Bucket → Bucket) : M unit :=
  let! x := get_bkt b in
  st_modify (λ w, set_bkts (<[b := f x]> (w_bkts w)) w).
Definition upd_tx (t : tid) (f : Tx → Tx) : M unit :=
  let! x := get_tx t in
  st_modify (λ w, set_txs (<[t := f x]> (w_txs w)) w).
Definition upd_db (f : DB → DB) : M unit :=
  st_modify (λ w, set_db (f (w_db w)) w).

(** [&node{...}], [&Bucket{...}], [&Tx{...}] *)
Definition new_node (n : node) : M loc := λ w,
  (Ret (w_nextn w),
   mkWorld (<[w_nextn w := n]> (w_nodes w)) (Pos.succ (w_nextn w)) (w_bkts w) (w_nextb w)
     (w_txs w) (w_nextt w) (w_db w) (w_fired w)).
Definition new_bkt (b : Bucket) : M bid := λ w,
  (Ret (w_nextb w),
   mkWorld (w_nodes w) (w_nextn w) (<[w_nextb w := b]> (w_bkts w)) (Pos.succ (w_nextb w))
     (w_txs w) (w_nextt w) (w_db w) (w_fired w)).
Definition new_tx (t : Tx) : M tid := λ w,
  (Ret (w_nextt w),
   mkWorld (w_nodes w) (w_nextn w) (w_bkts w) (w_nextb w)
     (<[w_nextt w := t]> (w_txs w)) (Pos.succ (w_nextt w)) (w_db w) (w_fired w)).

(** [b.dirty[l] = true]: writing a nil map panics. *)
Definition mark_dirty (b : bid) (l : loc) : M unit :=
  let! x := get_bkt b in
  match b_dirty x with
  | Some d => upd_bkt b (set_b_dirty (Some ({[l]} ∪ d)))
  | None => st_panic PNilMapWrite
  end.

(** [tx.stats.Inc...] *)
Definition tx_stat (t : tid) (f : TxStats → TxStats) : M unit :=
  upd_tx t (λ x, set_t_stats (f (t_stats x)) x).

(** ** Running the memory accesses *)

Lemma get_node_run w l n : w_nodes w !! l = Some n → get_node l w = (Ret n, w).
Proof. intros H. unfold get_node, st_bind, st_get, st_deref. by rewrite H. Qed.
Lemma get_bkt_run w b x : w_bkts w !! b = Some x → get_bkt b w = (Ret x, w).
Proof. intros H. unfold get_bkt, st_bind, st_get, st_deref. by rewrite H. Qed.
Lemma get_tx_run w t x : w_txs w !! t = Some x → get_tx t w = (Ret x, w).
Proof. intros H. unfold get_tx, st_bind, st_get, st_deref. by rewrite H. Qed.

Lemma upd_node_run w l f n :
  w_nodes w !! l = Some n → upd_node l f w = (Ret tt, set_nodes (<[l := f n]> (w_nodes w)) w).
Proof. intros H. unfold upd_node. by rewrite (bind_Ret _ _ _ _ _ (get_node_run _ _ _ H)). Qed.
Lemma upd_bkt_run w b f x :
  w_bkts w !! b = Some x → upd_bkt b f w = (Ret tt, set_bkts (<[b := f x]> (w_bkts w)) w).
Proof. intros H. unfold upd_bkt. by rewrite (bind_Ret _ _ _ _ _ (get_bkt_run _ _ _ H)). Qed.
Lemma upd_tx_run w t f x :
  w_txs w !! t = Some x → upd_tx t f w = (Ret tt, set_txs (<[t := f x]> (w_txs w)) w).
Proof. intros H. unfold upd_tx. by rewrite (bind_Ret _ _ _ _ _ (get_tx_run _ _ _ H)). Qed.
Lemma mark_dirty_run w b l x d :
  w_bkts w !! b = Some x → b_dirty x = Some d →
  mark_dirty b l w =
    (Ret tt, set_bkts (<[b := set_b_dirty (Some ({[l]} ∪ d)) x]> (w_bkts w)) w).
Proof.
  intros H Hd. unfold mark_dirty.
  rewrite (bind_Ret _ _ _ _ _ (get_bkt_run _ _ _ H)), Hd. by apply upd_bkt_run.
Qed.
