(* ===== verification/Node.v ===== *)
(** * One B+tree node (node.go): sizes, insertion, removal, split positions

    The operations of node.go that touch a single node's inode slice, as
    functions on that slice; [Spill.v] composes them over the node graph. *)
From S2P Require Import Prelude GoSort Stats World.
Local Open Scope bytes_scope.

(** ** Constants *)

Definition defaultMaxNodeSizeBytes : Z := (128 * 1024)%Z.
Definition defaultMinNodeMergeBytes : Z := (defaultMaxNodeSizeBytes / 4)%Z.
Definition nodeHeaderOverheadBytes : Z := 32.
Definition nodeInodeOverheadBytes : Z := 24.

(** [len] of a slice; nil has length 0. *)
Definition blen (b : bytes) : Z := Z.of_nat (length b).
Definition vlen (v : option bytes) : Z := match v with Some b => blen b | None => 0 end.

(** [node.minKeys]. *)
Definition minKeys (n : node) : nat := if n_isLeaf n then 1 else 2.

(** [nodeInodeOverheadBytes + len(item.key) + len(item.value)]. *)
Definition inode_size (i : inode) : Z :=
  (nodeInodeOverheadBytes + blen (i_key i) + vlen (i_value i))%Z.

(** [node.size]. *)
Definition inodes_size (l : list inode) : Z :=
  fold_left (λ sz i, (sz + inode_size i)%Z) l nodeHeaderOverheadBytes.
Definition node_size (n : node) : Z := inodes_size (n_inodes n).

(** [node.sizeLessThan]: the loop returns false as soon as the sum reaches [v]. *)
Fixpoint sizeLessThan_loop (l : list inode) (sz v : Z) : bool :=
  match l with
  | [] => true
  | i :: l' =>
      let sz' := (sz + inode_size i)%Z in
      if (v <=? sz')%Z then false else sizeLessThan_loop l' sz' v
  end.
Definition sizeLessThan (n : node) (v : Z) : bool :=
  sizeLessThan_loop (n_inodes n) nodeHeaderOverheadBytes v.

(** Keys of the inodes, as the binary searches see them. *)
Definition ikeys (l : list inode) : list bytes := i_key <$> l.

(** [node.childIndex] with the child's key. *)
Definition childIndex (n : node) (child_key : bytes) : nat :=
  search_keys (ikeys (n_inodes n)) child_key.

(** [node.numChildren]. *)
Definition numChildren (n : node) : nat := length (n_inodes n).

(** [node.put] on the inode slice: overwrite on an exact match, else shift. *)
Definition inodes_put (oldKey newKey : bytes) (value : option bytes) (child : option loc)
    (flags : Z) (l : list inode) : list inode :=
  let index := search_keys (ikeys l) oldKey in
  let exact := (0 <? length l) && (index <? length l) && Equal (nth index (ikeys l) []) oldKey in
  let ind := mkInode flags newKey value child in
  if exact then <[index := ind]> l else take index l ++ ind :: drop index l.

(** [node.put]: the two zero-length panics, then the slice update. *)
Definition node_put (n : node) (oldKey newKey : bytes) (value : option bytes)
    (child : option loc) (flags : Z) : res node :=
  if (blen oldKey <=? 0)%Z then Panic PZeroOldKey
  else if (blen newKey <=? 0)%Z then Panic PZeroNewKey
  else Ret (set_n_inodes (inodes_put oldKey newKey value child flags (n_inodes n)) n).

(** [node.del] on the inode slice: [None] when the key is not there. *)
Definition inodes_del (key : bytes) (l : list inode) : option (list inode) :=
  let index := search_keys (ikeys l) key in
  if (length l <=? index) || negb (Equal (nth index (ikeys l) []) key) then None
  else Some (take index l ++ drop (S index) l).

(** [node.del]: a removal marks the node unbalanced. *)
Definition node_del (n : node) (key : bytes) : node :=
  match inodes_del key (n_inodes n) with
  | None => n
  | Some l => set_n_unbalanced true (set_n_inodes l n)
  end.

(** [node.splitIndex]: the loop over [i < len(inodes) - minKeys], returning the
    index where it stopped and the size accumulated so far. *)
Fixpoint splitIndex_loop (l : list inode) (minKeys : nat) (threshold : Z)
    (rounds i : nat) (index : nat) (sz : Z) {struct rounds} : nat * Z :=
  match rounds, l with
  | O, _ => (index, sz)
  | S rounds', [] => (index, sz)
  | S rounds', x :: l' =>
      let elsize := inode_size x in
      if (minKeys <=? i) && (threshold <? sz + elsize)%Z then (i, sz)
      else splitIndex_loop l' minKeys threshold rounds' (S i) i (sz + elsize)
  end.
Definition splitIndex (n : node) (threshold : Z) : nat * Z :=
  splitIndex_loop (n_inodes n) (minKeys n) threshold
    (length (n_inodes n) - minKeys n) 0 0 nodeHeaderOverheadBytes.

(** bucket.go's [minFillPercent] (the float64 nearest 0.1) and [maxFillPercent]. *)
Definition minFillPercent : Q := 3602879701896397 # 36028797018963968.
Definition maxFillPercent : Q := 1 # 1.
Definition DefaultFillPercent : Q := 1 # 2.

(** The clamping and threshold of [node.splitTwo]: multiplying a float64 by 2^17
    is exact, so [int(float64(max) * fillPercent)] truncates the exact product. *)
Definition Qltb (a b : Q) : bool := negb (Qle_bool b a).
Definition clampFill (f : Q) : Q :=
  if Qltb f minFillPercent then minFillPercent
  else if Qltb maxFillPercent f then maxFillPercent else f.
Definition splitThreshold (f : Q) : Z :=
  Qfloor (inject_Z defaultMaxNodeSizeBytes * clampFill f)%Q.

(** [splitTwo]'s early return. *)
Definition noSplit (n : node) : bool :=
  (length (n_inodes n) <=? minKeys n * 2) || sizeLessThan n defaultMaxNodeSizeBytes.

(** [node.split] on the inode slice: the loop of [splitTwo] calls. *)
Fixpoint split_inodes (fuel : nat) (n : node) (threshold : Z) : list (list inode) :=
  match fuel with
  | O => [n_inodes n]
  | S fuel' =>
      if noSplit n then [n_inodes n]
      else
        let i := (splitIndex n threshold).1 in
        take i (n_inodes n) ::
        split_inodes fuel' (set_n_inodes (drop i (n_inodes n)) n) threshold
  end.

(** ** Sizes *)

Fixpoint sum_size (l : list inode) : Z :=
  match l with [] => 0%Z | i :: l' => (inode_size i + sum_size l')%Z end.

Lemma fold_size l a : fold_left (λ sz i, (sz + inode_size i)%Z) l a = (a + sum_size l)%Z.
Proof. revert a. induction l as [|x l IH]; intros a; simpl; [lia|]. rewrite IH. lia. Qed.

Lemma inodes_size_sum l : inodes_size l = (nodeHeaderOverheadBytes + sum_size l)%Z.
Proof. apply fold_size. Qed.

Lemma sum_size_app l1 l2 : sum_size (l1 ++ l2) = (sum_size l1 + sum_size l2)%Z.
Proof. induction l1 as [|x l1 IH]; simpl; lia. Qed.

Lemma inode_size_pos i : (nodeInodeOverheadBytes ≤ inode_size i)%Z.
Proof. unfold inode_size, vlen, blen. destruct (i_value i); lia. Qed.

Lemma sum_size_nonneg l : (0 ≤ sum_size l)%Z.
Proof.
  induction l as [|x l IH]; simpl; [lia|]. pose proof (inode_size_pos x).
  unfold nodeInodeOverheadBytes in *. lia.
Qed.

Lemma sizeLessThan_loop_spec l sz v :
  sizeLessThan_loop l sz v = (length l =? 0) || (sz + sum_size l <? v)%Z.
Proof.
  revert sz. induction l as [|x l IH]; intros sz; [done|]. simpl. rewrite IH.
  pose proof (sum_size_nonneg l). destruct (Z.leb_spec v (sz + inode_size x)); simpl.
  - symmetry. apply Z.ltb_ge. lia.
  - destruct l; simpl; [symmetry; apply Z.ltb_lt; lia|]. f_equal. lia.
Qed.

(** The early-exit test [node.sizeLessThan] is the comparison of [node.size] with
    the bound, for every node with an inode. *)
Theorem sizeLessThan_spec n v :
  n_inodes n ≠ [] → sizeLessThan n v = (node_size n <? v)%Z.
Proof.
  intros Hn. unfold sizeLessThan, node_size. rewrite sizeLessThan_loop_spec, inodes_size_sum.
  by destruct (n_inodes n).
Qed.

(** ** Split positions *)

(** What the split loop returns: an index that leaves at least [mk] inodes on
    each side, greedy with respect to the threshold. *)
Lemma splitIndex_loop_spec full mk thr rounds i index sz :
  i + rounds = length full - mk →
  (0 < rounds ∨ S index = i) →
  sz = inodes_size (take i full) →
  (∀ j, mk < j ≤ i → (inodes_size (take j full) ≤ thr)%Z) →
  let r := (splitIndex_loop (drop i full) mk thr rounds i index sz).1 in
  r < length full - mk ∧
  (mk ≤ r ∨ S r = length full - mk) ∧
  (∀ j, mk < j ≤ r → (inodes_size (take j full) ≤ thr)%Z) ∧
  (S r < length full - mk → (thr < inodes_size (take (S r) full))%Z).
Proof.
  revert i index sz. induction rounds as [|rounds IH]; intros i index sz Hlen Hidx -> Hsz; simpl.
  - split_and!; [lia|lia| |lia]. intros j Hj. apply Hsz. lia.
  - destruct (lookup_lt_is_Some_2 full i ltac:(lia)) as [x Hx].
    rewrite (drop_lookup_cons _ _ _ Hx).
    assert ((inodes_size (take i full) + inode_size x)%Z = inodes_size (take (S i) full)) as Hacc.
    { rewrite (take_S_r _ _ _ Hx), !inodes_size_sum, sum_size_app. simpl. lia. }
    rewrite Hacc.
    destruct (Nat.leb_spec mk i), (Z.ltb_spec thr (inodes_size (take (S i) full))); simpl;
      [split_and!; [lia|lia|done|done]|..];
      (apply IH; [lia|lia|done|]); intros j Hj;
      (destruct (decide (j = S i)) as [->|]; [lia|apply Hsz; lia]).
Qed.

Lemma minKeys_pos n : 1 ≤ minKeys n.
Proof. unfold minKeys. destruct (n_isLeaf n); lia. Qed.

(** On a node with more than twice the minimum of keys, the split leaves more than
    enough keys on both sides, the left part stays within the threshold unless it
    is already minimal, and one more inode would have exceeded it. *)
Lemma splitIndex_bounds n thr :
  minKeys n * 2 < length (n_inodes n) →
  let i := (splitIndex n thr).1 in
  minKeys n ≤ i ∧ i + minKeys n < length (n_inodes n) ∧
  (minKeys n < i → (inodes_size (take i (n_inodes n)) ≤ thr)%Z) ∧
  (S i + minKeys n < length (n_inodes n) → (thr < inodes_size (take (S i) (n_inodes n)))%Z).
Proof.
  intros Hn i. pose proof (minKeys_pos n).
  destruct (splitIndex_loop_spec (n_inodes n) (minKeys n) thr
    (length (n_inodes n) - minKeys n) 0 0 nodeHeaderOverheadBytes) as (H1 & H2 & H3 & H4);
    [lia|lia|done|lia|].
  rewrite drop_0 in *. change (splitIndex_loop _ _ _ _ _ _ _) with (splitIndex n thr) in *.
  fold i in H1, H2, H3, H4. split_and!; [lia|lia| |]; intros; [apply H3|apply H4]; lia.
Qed.

(** ** The whole split *)

(** The pieces of a split: every piece but the last is within the threshold, or is
    minimal; the last one needs no further split. *)
Definition pieces_ok (n : node) (thr : Z) (pcs : list (list inode)) : Prop :=
  ∃ ps lst, pcs = ps ++ [lst] ∧ Forall (λ p, (inodes_size p ≤ thr)%Z ∨ length p = minKeys n) ps ∧ noSplit (set_n_inodes lst n) = true.

(** [split] loses, duplicates and reorders nothing; every piece keeps the minimum
    number of keys and respects the size limits; [length] rounds are enough. *)
Theorem split_inodes_spec fuel n thr :
  length (n_inodes n) ≤ fuel → minKeys n ≤ length (n_inodes n) →
  concat (split_inodes fuel n thr) = n_inodes n ∧
  Forall (λ p, minKeys n ≤ length p) (split_inodes fuel n thr) ∧ pieces_ok n thr (split_inodes fuel n thr).
Proof.
  revert n. induction fuel as [|fuel IH]; intros n Hfuel Hmin; simpl.
  { pose proof (minKeys_pos n). lia. }
  destruct (noSplit n) eqn:Hns.
  { simpl. rewrite app_nil_r. split_and!; [done|by repeat constructor|]. exists [], (n_inodes n). split_and!; [done|constructor|by destruct n]. }
  unfold noSplit in Hns. apply orb_false_iff in Hns as [Hlen%Nat.leb_gt _].
  destruct (splitIndex_bounds n thr Hlen) as (Hi1 & Hi2 & Hsz & _).
  pose proof (minKeys_pos n). set (i := (splitIndex n thr).1) in *.
  destruct (IH (set_n_inodes (drop i (n_inodes n)) n)) as (Hc & Hf & ps & lst & Heq & Hps & Hlst);
    simpl; rewrite ?length_drop; [lia|change (minKeys n ≤ length (n_inodes n) - i); lia|].
  simpl in Hc. rewrite Hc, take_drop. split_and!; [done|constructor; [rewrite length_take; lia|exact Hf]|].
  exists (take i (n_inodes n) :: ps), lst. split_and!; [by rewrite Heq| |exact Hlst]. constructor; [|exact Hps].
  destruct (decide (minKeys n < i)); [left; auto|]. right. rewrite length_take. lia.
Qed.
