(* ===== verification/KV.v ===== *)
(** * The abstract bucket: a sorted association list

    The reference every bucket operation is compared with: a list of key/value
    pairs in strictly increasing key order, with its lookup, insertion and
    deletion; and the refinement of node.go's [put]/[del] on a leaf to it. *)
From S2P Require Import Prelude GoSort Stats World Node.
Local Open Scope bytes_scope.

Abbreviation kv := (bytes * bytes)%type.

Definition keys (l : list kv) : list bytes := l.*1.

Fixpoint kv_lookup (k : bytes) (l : list kv) : option bytes :=
  match l with
  | [] => None
  | (k', v) :: l' => if decide (k = k') then Some v else kv_lookup k l'
  end.

Fixpoint kv_insert (k v : bytes) (l : list kv) : list kv :=
  match l with
  | [] => [(k, v)]
  | (k', v') :: l' =>
      if decide (k ≺ k') then (k, v) :: (k', v') :: l'
      else if decide (k = k') then (k, v) :: l' else (k', v') :: kv_insert k v l'
  end.

Fixpoint kv_delete (k : bytes) (l : list kv) : list kv :=
  match l with
  | [] => []
  | (k', v') :: l' => if decide (k = k') then l' else (k', v') :: kv_delete k l'
  end.

(** ** Laws of the reference *)

Lemma keys_app l1 l2 : keys (l1 ++ l2) = keys l1 ++ keys l2.
Proof. apply fmap_app. Qed.

Lemma kv_lookup_None k l : kv_lookup k l = None ↔ k ∉ keys l.
Proof.
  induction l as [|[k' v'] l IH]; simpl; [set_solver|]. case_decide; set_solver.
Qed.

Lemma kv_lookup_elem k v l : kv_lookup k l = Some v → (k, v) ∈ l.
Proof.
  induction l as [|[k' v'] l IH]; simpl; [done|]. case_decide; set_solver.
Qed.

Lemma kv_lookup_app k l1 l2 :
  kv_lookup k (l1 ++ l2) = match kv_lookup k l1 with Some v => Some v | None => kv_lookup k l2 end.
Proof. induction l1 as [|[k' v'] l1 IH]; simpl; [done|]. by case_decide. Qed.

Lemma elem_of_kv_lookup k v l : ssorted (keys l) → (k, v) ∈ l → kv_lookup k l = Some v.
Proof.
  induction l as [|[k' v'] l IH]; simpl; [set_solver|].
  intros [Hs Hall]%StronglySorted_inv [?|Hin]%elem_of_cons; case_decide; simplify_eq; auto.
  rewrite Forall_forall in Hall. destruct (blt_irrefl k'). apply Hall.
  apply list_elem_of_fmap. by exists (k', v).
Qed.

Lemma kv_lookup_insert k v l : kv_lookup k (kv_insert k v l) = Some v.
Proof.
  induction l as [|[k' v'] l IH]; simpl; [by rewrite decide_True|].
  repeat case_decide; simpl; rewrite ?decide_True by done; auto. by rewrite decide_False.
Qed.

Lemma kv_lookup_insert_ne k k' v l : k ≠ k' → kv_lookup k' (kv_insert k v l) = kv_lookup k' l.
Proof.
  intros Hne. induction l as [|[k2 v2] l IH]; simpl; [by rewrite decide_False|].
  repeat case_decide; simplify_eq; simpl; rewrite ?IH; repeat case_decide; simplify_eq; done.
Qed.

Lemma elem_of_keys_insert x k v l : x ∈ keys (kv_insert k v l) → x = k ∨ x ∈ keys l.
Proof.
  induction l as [|[k' v'] l IH]; simpl; [set_solver|].
  repeat case_decide; simplify_eq; simpl; set_solver.
Qed.

Lemma kv_insert_sorted k v l : ssorted (keys l) → ssorted (keys (kv_insert k v l)).
Proof.
  induction l as [|[k' v'] l IH]; simpl; intros Hs; [repeat constructor|].
  apply StronglySorted_inv in Hs as [Hs Hall].
  repeat case_decide; simplify_eq; simpl.
  - constructor; [by constructor|]. constructor; [done|].
    eapply Forall_impl; [exact Hall|]. intros z ?. by etrans.
  - by constructor.
  - constructor; [auto|]. rewrite Forall_forall in Hall |- *.
    intros x [->|?]%elem_of_keys_insert; [|auto].
    by destruct (blt_total k k') as [?|[?|?]].
Qed.

Lemma elem_of_keys_delete x k l : x ∈ keys (kv_delete k l) → x ∈ keys l.
Proof. induction l as [|[k' v'] l IH]; simpl; [done|]. case_decide; set_solver. Qed.

Lemma kv_delete_sorted k l : ssorted (keys l) → ssorted (keys (kv_delete k l)).
Proof.
  induction l as [|[k' v'] l IH]; simpl; intros Hs; [done|].
  apply StronglySorted_inv in Hs as [Hs Hall]. case_decide; [done|].
  constructor; [auto|]. rewrite Forall_forall in Hall |- *. intros x ?%elem_of_keys_delete. auto.
Qed.

Lemma kv_lookup_delete k l : ssorted (keys l) → kv_lookup k (kv_delete k l) = None.
Proof.
  induction l as [|[k' v'] l IH]; simpl; intros Hs; [done|].
  apply StronglySorted_inv in Hs as [Hs Hall]. case_decide; simplify_eq.
  - apply kv_lookup_None. intros Hin. rewrite Forall_forall in Hall. by destruct (blt_irrefl k'); auto.
  - simpl. rewrite decide_False by done. auto.
Qed.

Lemma kv_lookup_delete_ne k k' l : k ≠ k' → kv_lookup k' (kv_delete k l) = kv_lookup k' l.
Proof.
  intros Hne. induction l as [|[k2 v2] l IH]; simpl; [done|].
  repeat case_decide; simplify_eq; simpl; rewrite ?IH; repeat case_decide; simplify_eq; done.
Qed.

Lemma kv_delete_notin k l : k ∉ keys l → kv_delete k l = l.
Proof.
  induction l as [|[k' v'] l IH]; simpl; intros Hk; [done|].
  apply not_elem_of_cons in Hk as [? Hk]. rewrite decide_False by done. f_equal. auto.
Qed.

(** ** Working below a context *)

(** Inserting or deleting a key that lies strictly between the keys before and
    after a segment only affects the segment. *)
Lemma kv_insert_ctx k v b m a :
  (∀ x, x ∈ keys b → x ≺ k) → (∀ x, x ∈ keys a → k ≺ x) →
  kv_insert k v (b ++ m ++ a) = b ++ kv_insert k v m ++ a.
Proof.
  intros Hb Ha. induction b as [|[k1 v1] b IH]; simpl.
  - induction m as [|[k1 v1] m IH]; simpl.
    + destruct a as [|[k1 v1] a]; simpl; [done|]. rewrite decide_True; [done|]. apply Ha. set_solver.
    + repeat case_decide; simpl; rewrite ?IH; done.
  - assert (k1 ≺ k) by (apply Hb; set_solver).
    rewrite decide_False by (by apply blt_asym). rewrite decide_False by (intros ->; by eapply blt_irrefl).
    f_equal. apply IH. intros x Hx. apply Hb. set_solver.
Qed.

Lemma kv_delete_ctx k b m a :
  (∀ x, x ∈ keys b → x ≺ k) → (∀ x, x ∈ keys a → k ≺ x) →
  kv_delete k (b ++ m ++ a) = b ++ kv_delete k m ++ a.
Proof.
  intros Hb Ha. induction b as [|[k1 v1] b IH]; simpl.
  - induction m as [|[k1 v1] m IH]; simpl; [|by case_decide; [|simpl; rewrite IH]].
    apply kv_delete_notin. intros ?%Ha. by eapply blt_irrefl.
  - assert (k1 ≺ k) by (apply Hb; set_solver).
    rewrite decide_False by (intros ->; by eapply blt_irrefl).
    f_equal. apply IH. intros x Hx. apply Hb. set_solver.
Qed.

Lemma kv_lookup_ctx k b m a :
  (∀ x, x ∈ keys b → x ≺ k) → (∀ x, x ∈ keys a → k ≺ x) →
  kv_lookup k (b ++ m ++ a) = kv_lookup k m.
Proof.
  intros Hb Ha. rewrite !kv_lookup_app.
  assert (kv_lookup k b = None) as ->. { apply kv_lookup_None. intros ?%Hb. by eapply blt_irrefl. }
  assert (kv_lookup k a = None) as ->. { apply kv_lookup_None. intros ?%Ha. by eapply blt_irrefl. }
  by destruct (kv_lookup k m).
Qed.

(** ** Leaves *)

(** The inode [Bucket.Put] stores. *)
Definition leaf_inode (p : kv) : inode := mkInode 0 p.1 (Some p.2) None.

Lemma ikeys_leaf l : ikeys (leaf_inode <$> l) = keys l.
Proof. unfold ikeys, keys. rewrite <- list_fmap_compose. by apply list_fmap_ext. Qed.

(** Where a key splits a sorted list: the pairs before its search position, an
    exact match if there is one, the pairs after. *)
Lemma search_split l k :
  ssorted (keys l) →
  let r := search_keys (keys l) k in
  (∀ x, x ∈ keys (take r l) → x ≺ k) ∧
  match l !! r with
  | Some (k', v') =>
      (k = k' ∧ ∀ x, x ∈ keys (drop (S r) l) → k ≺ x) ∨
      (k ≺ k' ∧ ∀ x, x ∈ keys (drop r l) → k ≺ x)
  | None => r = length l
  end.
Proof.
  intros Hs r. destruct (search_keys_spec (keys l) k Hs) as (Hr & Hlo & Hhi). fold r in Hr, Hlo, Hhi.
  unfold keys in *. rewrite <- fmap_take, <- fmap_drop in *. split; [done|].
  rewrite length_fmap in Hr. destruct (l !! r) as [[k' v']|] eqn:E.
  2:{ apply lookup_ge_None in E. lia. }
  rewrite (drop_lookup_cons _ _ _ E) in Hhi |- *. simpl in *.
  assert (ssorted (k' :: (drop (S r) l).*1)) as Hs'.
  { rewrite (take_drop_lookup l r (k', v') E) in Hs. rewrite fmap_app in Hs.
    by apply ssorted_app in Hs as (_ & Hs & _). }
  apply StronglySorted_inv in Hs' as [_ Hs']. rewrite Forall_forall in Hs'.
  assert (k ≼ k') as [?| ->]%ble_cases by (apply Hhi; set_solver).
  - right. split; [done|]. intros x [->|Hx]%elem_of_cons; [done|]. etrans; [done|]. auto.
  - left. split; [done|]. auto.
Qed.

Lemma kv_insert_head k v l : (∀ x, x ∈ keys l → k ≺ x) → kv_insert k v l = (k, v) :: l.
Proof. intros H. apply (kv_insert_ctx k v [] [] l); [set_solver|done]. Qed.

(** node.go's [put] on a sorted leaf is insertion into the sorted list. *)
Theorem inodes_put_leaf k v l :
  ssorted (keys l) →
  inodes_put k k (Some v) None 0 (leaf_inode <$> l) = leaf_inode <$> kv_insert k v l.
Proof.
  intros Hs. unfold inodes_put. rewrite ikeys_leaf, length_fmap.
  destruct (search_split l k Hs) as [Hlo Hhi]. set (r := search_keys (keys l) k) in *.
  assert (kv_insert k v l = take r l ++ kv_insert k v (drop r l)) as ->.
  { rewrite <- (take_drop r l) at 1.
    pose proof (kv_insert_ctx k v (take r l) (drop r l) [] Hlo) as H. rewrite !app_nil_r in H.
    apply H. set_solver. }
  destruct (l !! r) as [[k' v']|] eqn:E.
  - pose proof (lookup_lt_Some _ _ _ E).
    rewrite (nth_key_eq (keys l) r k') by (unfold keys; by rewrite list_lookup_fmap, E).
    destruct Hhi as [[<- Hhi]|[Hlt Hhi]].
    + unfold Equal. rewrite bool_decide_eq_true_2 by done.
      rewrite (proj2 (Nat.ltb_lt 0 _)), (proj2 (Nat.ltb_lt r _)) by lia. simpl.
      rewrite (drop_lookup_cons _ _ _ E). simpl. rewrite decide_False by apply blt_irrefl.
      rewrite decide_True by done.
      rewrite insert_take_drop by (rewrite length_fmap; lia).
      by rewrite fmap_app, fmap_take, fmap_cons, fmap_drop.
    + unfold Equal. rewrite bool_decide_eq_false_2 by (intros ->; by eapply blt_irrefl).
      rewrite andb_false_r, kv_insert_head by done.
      by rewrite fmap_app, fmap_take, fmap_cons, fmap_drop.
  - rewrite Hhi, Nat.ltb_irrefl, andb_false_r. simpl.
    rewrite (drop_ge l), (drop_ge (leaf_inode <$> l)) by (rewrite ?length_fmap; lia).
    by rewrite fmap_app, fmap_take.
Qed.

(** node.go's [del] on a sorted leaf removes exactly the key, if it is there. *)
Theorem inodes_del_leaf k l :
  ssorted (keys l) →
  inodes_del k (leaf_inode <$> l) =
    if decide (k ∈ keys l) then Some (leaf_inode <$> kv_delete k l) else None.
Proof.
  intros Hs. unfold inodes_del. rewrite ikeys_leaf, length_fmap.
  destruct (search_split l k Hs) as [Hlo Hhi]. set (r := search_keys (keys l) k) in *.
  assert (Hsplit : keys l = keys (take r l) ++ keys (drop r l)).
  { by rewrite <- keys_app, take_drop. }
  assert (Hlo' : k ∉ keys (take r l)) by (intros ?%Hlo; by eapply blt_irrefl).
  destruct (l !! r) as [[k' v']|] eqn:E.
  - pose proof (lookup_lt_Some _ _ _ E).
    rewrite (nth_key_eq (keys l) r k') by (unfold keys; by rewrite list_lookup_fmap, E).
    rewrite (proj2 (Nat.leb_gt (length l) r)) by done. simpl. unfold Equal.
    destruct Hhi as [[<- Hhi]|[Hlt Hhi]].
    + rewrite bool_decide_eq_true_2 by done. simpl.
      rewrite decide_True.
      2:{ rewrite Hsplit, (drop_lookup_cons _ _ _ E). set_solver. }
      f_equal. rewrite <- (take_drop r l) at 3.
      pose proof (kv_delete_ctx k (take r l) (drop r l) [] Hlo) as Hc. rewrite !app_nil_r in Hc.
      rewrite Hc by set_solver. rewrite (drop_lookup_cons _ _ _ E). simpl. rewrite decide_True by done.
      by rewrite fmap_app, fmap_take, fmap_drop.
    + rewrite bool_decide_eq_false_2 by (intros ->; by eapply blt_irrefl). simpl.
      rewrite decide_False; [done|]. rewrite Hsplit, elem_of_app. intros [?|?%Hhi]; [done|].
      by eapply blt_irrefl.
  - rewrite Hhi, Nat.leb_refl. simpl. rewrite decide_False; [done|].
    rewrite Hsplit, elem_of_app, (drop_ge l) by lia. set_solver.
Qed.
