(* ===== verification/Tree.v ===== *)
(** * B+trees in the node store

    The mathematical trees the node graph represents.  A [tree] carries the
    location of every node, so that copy-on-write steps and sharing between
    generations can be expressed; [rep h t] says that the store [h] holds [t]. *)
From S2P Require Import Prelude GoSort Stats World Node KV.
Local Open Scope bytes_scope.

Inductive tree :=
| Leaf (l : loc) (kvs : list kv)
| Branch (l : loc) (cs : list (bytes * tree)).

(** Induction with the hypothesis for every child. *)
Lemma tree_nested_ind (P : tree → Prop) :
  (∀ l kvs, P (Leaf l kvs)) →
  (∀ l cs, Forall (λ p, P p.2) cs → P (Branch l cs)) →
  ∀ t, P t.
Proof.
  intros HL HB. fix IH 1. intros [l kvs|l cs]; [apply HL|].
  apply HB. induction cs as [|p cs IHcs]; constructor; [apply IH|exact IHcs].
Qed.

Definition tloc (t : tree) : loc := match t with Leaf l _ => l | Branch l _ => l end.

(** All key/value pairs, in order. *)
Fixpoint contents (t : tree) : list kv :=
  match t with
  | Leaf _ kvs => kvs
  | Branch _ cs => concat (map (λ p, contents p.2) cs)
  end.
Definition flat (cs : list (bytes * tree)) : list kv := concat (map (λ p, contents p.2) cs).
Definition flat_trees (ts : list tree) : list kv := concat (map contents ts).

(** All node locations. *)
Fixpoint tlocs (t : tree) : list loc :=
  match t with
  | Leaf l _ => [l]
  | Branch l cs => l :: concat (map (λ p, tlocs p.2) cs)
  end.

(** Number of nodes and of levels. *)
Fixpoint tsize (t : tree) : nat :=
  match t with
  | Leaf _ _ => 1
  | Branch _ cs => S (list_sum (map (λ p, tsize p.2) cs))
  end.
Fixpoint height (t : tree) : nat :=
  match t with
  | Leaf _ _ => 1
  | Branch _ cs => S (list_max (map (λ p, height p.2) cs))
  end.

(** The inode a branch stores for a child. *)
Definition branch_inode (p : bytes * tree) : inode := mkInode 0 p.1 None (Some (tloc p.2)).

(** [Forall] over the children, structurally. *)
Definition all_children (P : tree → Prop) (cs : list (bytes * tree)) : Prop :=
  foldr (λ p Q, P p.2 ∧ Q) True cs.

(** The store [h] holds the tree [t]. *)
Definition leaf_node (kvs : list kv) (n : node) : Prop :=
  n_isLeaf n = true ∧ n_inodes n = leaf_inode <$> kvs.
Definition branch_node (cs : list (bytes * tree)) (n : node) : Prop :=
  n_isLeaf n = false ∧ n_inodes n = branch_inode <$> cs.
Fixpoint rep (h : gmap loc node) (t : tree) : Prop :=
  match t with
  | Leaf l kvs => ∃ n, h !! l = Some n ∧ leaf_node kvs n
  | Branch l cs =>
      (∃ n, h !! l = Some n ∧ branch_node cs n) ∧
      foldr (λ p Q, rep h p.2 ∧ Q) True cs
  end.

(** Separator discipline of a branch: everything under a child is below the
    separators to its right and, except for the first child, not below its own. *)
Fixpoint seps_ok (cs : list (bytes * tree)) : Prop :=
  match cs with
  | [] => True
  | (k, c) :: cs' =>
      Forall (λ x, Forall (λ p, x ≺ p.1) cs') (keys (contents c)) ∧
      Forall (λ p, Forall (λ x, p.1 ≼ x) (keys (contents p.2))) cs' ∧
      seps_ok cs'
  end.

(** Search-tree well-formedness: strictly ascending non-empty keys in every node,
    no childless branch, and the separator discipline. *)
Fixpoint wf (t : tree) : Prop :=
  match t with
  | Leaf _ kvs => ssorted (keys kvs) ∧ Forall (λ k, k ≠ []) (keys kvs)
  | Branch _ cs =>
      cs ≠ [] ∧ ssorted cs.*1 ∧ Forall (λ k, k ≠ []) cs.*1 ∧ seps_ok cs ∧
      foldr (λ p Q, wf p.2 ∧ Q) True cs
  end.

(** No childless branch: what the downward walks need. *)
Fixpoint no_empty_branch (t : tree) : Prop :=
  match t with
  | Leaf _ _ => True
  | Branch _ cs => cs ≠ [] ∧ foldr (λ p Q, no_empty_branch p.2 ∧ Q) True cs
  end.

(** ** Unfolding *)

Lemma all_children_Forall P cs :
  foldr (λ p Q, P p.2 ∧ Q) True cs ↔ Forall (λ p : bytes * tree, P p.2) cs.
Proof. induction cs as [|p cs IH]; simpl; [done|]. by rewrite Forall_cons, IH. Qed.

Lemma contents_Branch l cs : contents (Branch l cs) = flat cs.
Proof. done. Qed.

Lemma rep_Branch h l cs :
  rep h (Branch l cs) ↔
  (∃ n, h !! l = Some n ∧ branch_node cs n) ∧ Forall (λ p, rep h p.2) cs.
Proof. simpl. by rewrite (all_children_Forall (rep h)). Qed.

Lemma wf_Branch l cs :
  wf (Branch l cs) ↔
  cs ≠ [] ∧ ssorted cs.*1 ∧ Forall (λ k, k ≠ []) cs.*1 ∧ seps_ok cs ∧
  Forall (λ p, wf p.2) cs.
Proof. simpl. by rewrite (all_children_Forall wf). Qed.

Lemma no_empty_branch_Branch l cs :
  no_empty_branch (Branch l cs) ↔ cs ≠ [] ∧ Forall (λ p, no_empty_branch p.2) cs.
Proof. simpl. by rewrite (all_children_Forall no_empty_branch). Qed.

Lemma wf_no_empty_branch t : wf t → no_empty_branch t.
Proof.
  induction t as [|l cs IH] using tree_nested_ind; [done|].
  rewrite wf_Branch, no_empty_branch_Branch. intros (? & _ & _ & _ & Hall). split; [done|].
  rewrite Forall_forall in IH, Hall |- *. auto.
Qed.

Lemma flat_app cs1 cs2 : flat (cs1 ++ cs2) = flat cs1 ++ flat cs2.
Proof. unfold flat. by rewrite map_app, concat_app. Qed.

Lemma flat_cons k c cs : flat ((k, c) :: cs) = contents c ++ flat cs.
Proof. done. Qed.

Lemma flat_split cs i k c :
  cs !! i = Some (k, c) → flat cs = flat (take i cs) ++ contents c ++ flat (drop (S i) cs).
Proof. intros H. rewrite (take_drop_lookup cs i (k, c) H) at 1. by rewrite flat_app, flat_cons. Qed.

Lemma flat_trees_children cs : flat_trees cs.*2 = flat cs.
Proof. unfold flat_trees, flat. f_equal. rewrite <- map_map with (f := snd). done. Qed.

Lemma flat_trees_app a b : flat_trees (a ++ b) = flat_trees a ++ flat_trees b.
Proof. unfold flat_trees. by rewrite map_app, concat_app. Qed.

Lemma elem_of_flat x cs : x ∈ keys (flat cs) ↔ ∃ k c, (k, c) ∈ cs ∧ x ∈ keys (contents c).
Proof.
  induction cs as [|[k c] cs IH]; simpl; [set_solver|].
  rewrite flat_cons, keys_app, elem_of_app, IH. set_solver.
Qed.

(** ** Framing *)

(** Only the nodes of the tree matter. *)
Lemma rep_frame h h' t :
  (∀ l, l ∈ tlocs t → h' !! l = h !! l) → rep h t → rep h' t.
Proof.
  induction t as [l kvs|l cs IH] using tree_nested_ind; intros Heq.
  - simpl. rewrite Heq by set_solver. done.
  - rewrite !rep_Branch. intros [(n & Hn & Hb) Hall]. split.
    + exists n. rewrite Heq by (simpl; set_solver). done.
    + rewrite Forall_forall in IH, Hall |- *. intros [k c] Hin. apply (IH (k, c)); [done| |by apply Hall].
      intros l' Hl'. apply Heq. simpl. apply elem_of_cons. right.
      apply list_elem_of_In, in_concat. exists (tlocs c). split; [|by apply list_elem_of_In].
      apply in_map_iff. exists (k, c). split; [done|]. by apply list_elem_of_In.
Qed.

Lemma rep_root h t : rep h t → ∃ n, h !! tloc t = Some n.
Proof. destruct t; simpl; naive_solver. Qed.

Lemma rep_child h l cs i k c : rep h (Branch l cs) → cs !! i = Some (k, c) → rep h c.
Proof.
  rewrite rep_Branch. intros [_ Hall] Hi. rewrite Forall_forall in Hall.
  by apply (Hall (k, c)), (list_elem_of_lookup_2 _ i).
Qed.

(** ** Orders *)

Lemma seps_ok_lookup cs i k c :
  seps_ok cs → cs !! i = Some (k, c) →
  (0 < i → ∀ x, x ∈ keys (contents c) → k ≼ x) ∧
  (∀ j k' c', i < j → cs !! j = Some (k', c') → ∀ x, x ∈ keys (contents c) → x ≺ k').
Proof.
  revert i. induction cs as [|[k0 c0] cs IH]; intros i; [done|].
  simpl. intros (Hlt & Hge & Hs) Hi. rewrite Forall_forall in Hlt. rewrite Forall_forall in Hge.
  destruct i as [|i]; simplify_eq/=.
  - split; [lia|]. intros [|j] k' c' ? Hj x Hx; [lia|]. simpl in Hj.
    specialize (Hlt x Hx). rewrite Forall_forall in Hlt.
    apply (Hlt (k', c')), (list_elem_of_lookup_2 _ j), Hj.
  - destruct (IH i Hs Hi) as [H1 H2]. split.
    + intros _ x Hx. specialize (Hge _ (list_elem_of_lookup_2 _ _ _ Hi)). simpl in Hge.
      rewrite Forall_forall in Hge. auto.
    + intros [|j] k' c' ? Hj; [lia|]. apply (H2 j k' c'); [lia|done].
Qed.

(** The contents of a well-formed tree are strictly sorted. *)
Lemma wf_sorted t : wf t → ssorted (keys (contents t)).
Proof.
  induction t as [l kvs|l cs IH] using tree_nested_ind; [naive_solver|].
  rewrite wf_Branch, contents_Branch. intros (_ & _ & _ & Hseps & Hall).
  revert IH Hseps Hall. induction cs as [|[k c] cs IHcs]; intros IH Hseps Hall; [constructor|].
  rewrite flat_cons, keys_app. destruct Hseps as (Hlt & Hge & Hseps).
  apply Forall_cons in IH as [IHc IH], Hall as [Hc Hall].
  apply ssorted_app. split_and!; [by apply IHc|by apply IHcs|].
  intros x y Hx (k' & c' & Hin & Hy)%elem_of_flat. rewrite Forall_forall in Hlt. rewrite Forall_forall in Hge.
  specialize (Hlt x Hx). specialize (Hge _ Hin). simpl in *.
  rewrite Forall_forall in Hlt. rewrite Forall_forall in Hge.
  eapply blt_ble_trans; [apply (Hlt _ Hin)|auto].
Qed.

Lemma wf_child l cs i k c : wf (Branch l cs) → cs !! i = Some (k, c) → wf c.
Proof.
  rewrite wf_Branch. intros (_ & _ & _ & _ & Hall) Hi. rewrite Forall_forall in Hall.
  by apply (Hall (k, c)), (list_elem_of_lookup_2 _ i).
Qed.

Lemma ikeys_branch cs : ikeys (branch_inode <$> cs) = cs.*1.
Proof. unfold ikeys. rewrite <- list_fmap_compose. by apply list_fmap_ext. Qed.

(** Sizes of parts. *)
Lemma tsize_child (cs : list (bytes * tree)) i k c :
  cs !! i = Some (k, c) → tsize c ≤ list_sum (map (λ p, tsize p.2) cs).
Proof.
  intros Hi. rewrite (take_drop_lookup cs i (k, c) Hi), map_app, list_sum_app. simpl. lia.
Qed.

Lemma height_child (cs : list (bytes * tree)) i k c :
  cs !! i = Some (k, c) → height c ≤ list_max (map (λ p, height p.2) cs).
Proof.
  intros Hi. pose proof (proj1 (list_max_le (map (λ p, height p.2) cs) _) (le_n _)) as H.
  rewrite Forall_forall in H. apply H. apply list_elem_of_fmap. exists (k, c).
  split; [done|]. by apply (list_elem_of_lookup_2 _ i).
Qed.

Lemma height_le_tsize t : height t ≤ tsize t.
Proof.
  induction t as [|l cs IH] using tree_nested_ind; simpl; [lia|].
  apply le_n_S. apply list_max_le. rewrite Forall_forall in IH. rewrite Forall_forall.
  intros x (p & -> & Hp)%list_elem_of_fmap. apply list_elem_of_lookup in Hp as [i Hi].
  destruct p as [k c]. etrans; [apply (IH (k, c)); by apply (list_elem_of_lookup_2 _ i)|].
  by eapply tsize_child.
Qed.

Lemma tsize_pos t : 1 ≤ tsize t.
Proof. destruct t; simpl; lia. Qed.
