(* ===== verification/TreePath.v ===== *)
(** * Paths, shapes and updates of trees

    Copy-on-write gives nodes new locations without changing the tree they form;
    [erase] forgets locations.  A path of child indices names a subtree, and
    replacing the leaf at the end of a search path keeps the tree well formed. *)
From S2P Require Import Prelude GoSort Stats World Node KV Tree.
Local Open Scope bytes_scope.

(** Forget the locations. *)
Fixpoint erase (t : tree) : tree :=
  match t with
  | Leaf _ kvs => Leaf 1 kvs
  | Branch _ cs => Branch 1 (map (λ p, (p.1, erase p.2)) cs)
  end.

(** Give the root another location. *)
Definition set_tloc (l : loc) (t : tree) : tree :=
  match t with Leaf _ kvs => Leaf l kvs | Branch _ cs => Branch l cs end.

(** The subtree at a path of child indices, and its replacement. *)
Fixpoint at_path (t : tree) (p : list nat) {struct p} : option tree :=
  match p with
  | [] => Some t
  | i :: p' =>
      match t with
      | Leaf _ _ => None
      | Branch _ cs => match cs !! i with Some (_, c) => at_path c p' | None => None end
      end
  end.
Fixpoint set_path (t : tree) (p : list nat) (u : tree) {struct p} : tree :=
  match p with
  | [] => u
  | i :: p' =>
      match t with
      | Leaf _ _ => t
      | Branch l cs => Branch l (alter (λ q, (q.1, set_path q.2 p' u)) i cs)
      end
  end.

(** A search for [key] may descend along [p]: at every branch the chosen
    separator is not above the key (or it is the first) and those to its right
    are above it. *)
Fixpoint path_ok (t : tree) (p : list nat) (key : bytes) {struct p} : Prop :=
  match p with
  | [] => True
  | i :: p' =>
      match t with
      | Leaf _ _ => False
      | Branch _ cs =>
          match cs !! i with
          | None => False
          | Some (k, c) =>
              (i = 0 ∨ k ≼ key) ∧
              (∀ j k' c', i < j → cs !! j = Some (k', c') → key ≺ k') ∧
              path_ok c p' key
          end
      end
  end.

Lemma contents_erase t : contents (erase t) = contents t.
Proof.
  induction t as [|l cs IH] using tree_nested_ind; [done|]. simpl. f_equal. rewrite map_map.
  apply map_ext_in. intros p Hp%list_elem_of_In. rewrite Forall_forall in IH. by apply IH.
Qed.

Lemma contents_erase_eq t t' : erase t = erase t' → contents t = contents t'.
Proof. intros H. by rewrite <- (contents_erase t), H, contents_erase. Qed.

Lemma tsize_erase t : tsize (erase t) = tsize t.
Proof.
  induction t as [|l cs IH] using tree_nested_ind; [done|]. simpl. do 2 f_equal. rewrite map_map.
  apply map_ext_in. intros p Hp%list_elem_of_In. rewrite Forall_forall in IH. by apply IH.
Qed.

Lemma seps_ok_erase cs : seps_ok (map (λ p, (p.1, erase p.2)) cs) ↔ seps_ok cs.
Proof.
  induction cs as [|[k c] cs IH]; [done|]. cbn [map seps_ok fst snd]. rewrite IH, contents_erase.
  assert (∀ x : bytes, Forall (λ p, x ≺ p.1) (map (λ p, (p.1, erase p.2)) cs) ↔ Forall (λ p, x ≺ p.1) cs) as H1.
  { intros x. by rewrite Forall_map. }
  rewrite (Forall_iff _ _ _ H1), Forall_map. simpl.
  rewrite (Forall_iff _ cs (λ p, Forall (λ x, p.1 ≼ x) (keys (contents p.2)))); [done|].
  intros p. by rewrite contents_erase.
Qed.

Lemma wf_erase t : wf (erase t) ↔ wf t.
Proof.
  induction t as [|l cs IH] using tree_nested_ind; [done|].
  simpl erase. rewrite !wf_Branch, seps_ok_erase, Forall_map. simpl.
  assert ((map (λ p : bytes * tree, (p.1, erase p.2)) cs).*1 = cs.*1) as ->.
  { rewrite <- list_fmap_compose. by apply list_fmap_ext. }
  assert (map (λ p : bytes * tree, (p.1, erase p.2)) cs ≠ [] ↔ cs ≠ []) as -> by (by destruct cs).
  assert (Forall (λ x : bytes * tree, wf (erase x.2)) cs ↔ Forall (λ p, wf p.2) cs) as ->; [|done].
  rewrite !Forall_forall. rewrite Forall_forall in IH. split; intros H p Hp; apply (IH p Hp); auto.
Qed.

Lemma wf_erase_eq t t' : erase t = erase t' → wf t → wf t'.
Proof. intros H Hw. by rewrite <- wf_erase, <- H, wf_erase. Qed.

Lemma erase_set_tloc l t : erase (set_tloc l t) = erase t.
Proof. by destruct t. Qed.

Lemma at_path_snoc t p i l cs k c :
  at_path t p = Some (Branch l cs) → cs !! i = Some (k, c) → at_path t (p ++ [i]) = Some c.
Proof.
  revert t. induction p as [|j p IH]; intros t; simpl.
  - intros [= ->] Hi. by rewrite Hi.
  - destruct t as [|l' cs']; [done|]. destruct (cs' !! j) as [[k' c']|]; [|done]. apply IH.
Qed.

Lemma path_ok_snoc t p key i l cs k c :
  path_ok t p key → at_path t p = Some (Branch l cs) → cs !! i = Some (k, c) →
  (i = 0 ∨ k ≼ key) → (∀ j k' c', i < j → cs !! j = Some (k', c') → key ≺ k') →
  path_ok t (p ++ [i]) key.
Proof.
  revert t. induction p as [|j p IH]; intros t; simpl.
  - intros _ [= ->] Hi Hk Hgt. rewrite Hi. auto.
  - destruct t as [|l' cs']; [done|]. destruct (cs' !! j) as [[k' c']|]; [|done].
    intros (? & ? & ?) ????. split_and!; auto.
Qed.

(** Contents around a path. *)
Lemma contents_set_path t p l kvs :
  at_path t p = Some (Leaf l kvs) →
  ∃ b a, contents t = b ++ kvs ++ a ∧
    (∀ l' kvs', contents (set_path t p (Leaf l' kvs')) = b ++ kvs' ++ a).
Proof.
  revert t. induction p as [|i p IH]; intros t; simpl.
  - intros [= ->]. exists [], []. simpl. rewrite app_nil_r. split; [done|]. intros. by rewrite app_nil_r.
  - destruct t as [|l0 cs]; [done|]. destruct (cs !! i) as [[k c]|] eqn:Hi; [|done].
    intros (b & a & Hc & Hs)%IH. exists (flat (take i cs) ++ b), (a ++ flat (drop (S i) cs)). split.
    + rewrite contents_Branch, (flat_split _ _ _ _ Hi), Hc, <- !app_assoc. done.
    + intros l' kvs'. cbn [set_path]. rewrite contents_Branch.
      pose proof (lookup_lt_Some _ _ _ Hi).
      assert (alter (λ q, (q.1, set_path q.2 p (Leaf l' kvs'))) i cs !! i = Some (k, set_path c p (Leaf l' kvs'))) as Hi'.
      { by rewrite list_lookup_alter_eq, Hi. }
      rewrite (flat_split _ _ _ _ Hi'), Hs, take_alter_ge, drop_alter_lt by lia. by rewrite <- !app_assoc.
Qed.

Lemma keys_set_path t p l kvs l' kvs' (Q : bytes → Prop) :
  at_path t p = Some (Leaf l kvs) →
  (∀ x, x ∈ keys kvs' → x ∈ keys kvs ∨ Q x) →
  ∀ x, x ∈ keys (contents (set_path t p (Leaf l' kvs'))) → x ∈ keys (contents t) ∨ Q x.
Proof.
  intros Hat Hk x. destruct (contents_set_path t p l kvs Hat) as (b & a & Hc & Hs).
  rewrite Hs, Hc, !keys_app, !elem_of_app. intros [?|[?%Hk|?]]; tauto.
Qed.

(** Separators survive a change of one child whose new keys they still bracket. *)
Lemma seps_ok_alter cs i k c c' :
  seps_ok cs → cs !! i = Some (k, c) →
  (∀ x, x ∈ keys (contents c') → x ∈ keys (contents c) ∨
     ((i = 0 ∨ k ≼ x) ∧ ∀ j k' c2, i < j → cs !! j = Some (k', c2) → x ≺ k')) →
  seps_ok (<[i := (k, c')]> cs).
Proof.
  revert i. induction cs as [|[k0 c0] cs IH]; intros i Hs Hi Hx; [done|].
  destruct Hs as (Hlt & Hge & Hs). destruct i as [|i]; simplify_eq/=.
  - split_and!; [|done|done]. rewrite Forall_forall in Hlt |- *. intros x Hxc.
    destruct (Hx x Hxc) as [?|[_ Hgt]]; [by apply Hlt|].
    rewrite Forall_forall. intros [k' c2] (j & Hj)%list_elem_of_lookup.
    apply (Hgt (S j) k' c2); [lia|done].
  - split_and!.
    + rewrite Forall_forall in Hlt |- *. intros x Hxc. specialize (Hlt x Hxc).
      apply Forall_insert; [done|]. rewrite Forall_forall in Hlt.
      apply (Hlt (k, c)). by apply (list_elem_of_lookup_2 _ i).
    + apply Forall_insert; [done|]. simpl. rewrite Forall_forall. intros x Hxc.
      rewrite Forall_forall in Hge. destruct (Hx x Hxc) as [Hin|[[?|?] _]]; [|lia|done].
      specialize (Hge _ (list_elem_of_lookup_2 _ _ _ Hi)). simpl in Hge.
      rewrite Forall_forall in Hge. by apply Hge.
    + apply IH; [done|done|]. intros x Hxc. destruct (Hx x Hxc) as [?|[H1 H2]]; [by left|right].
      split; [destruct H1 as [?|?]; [lia|by right]|]. intros j k' c2 Hj Hc2.
      apply (H2 (S j) k' c2); [lia|done].
Qed.

Lemma alter_lookup_insert {A} (f : A → A) (l : list A) i x :
  l !! i = Some x → alter f i l = <[i := f x]> l.
Proof.
  revert i. induction l as [|y l IH]; intros [|i]; simpl; [done..| |]; intros; simplify_eq; [done|].
  f_equal. by apply IH.
Qed.

(** Replacing the leaf at the end of a search path for [key] by a sorted leaf
    whose keys are old ones or [key] keeps the tree well formed. *)
Lemma wf_set_path t p key l kvs l' kvs' :
  wf t → at_path t p = Some (Leaf l kvs) →
  (∀ x, x ∈ keys kvs' → x ∈ keys kvs ∨ (x = key ∧ path_ok t p key)) →
  ssorted (keys kvs') → Forall (λ k, k ≠ []) (keys kvs') →
  wf (set_path t p (Leaf l' kvs')).
Proof.
  revert t. induction p as [|i p IH]; intros t Hwf Hat Hk Hs Hne; simpl in *; [by split|].
  destruct t as [|l0 cs]; [done|]. destruct (cs !! i) as [[k c]|] eqn:Hi; [|done].
  pose proof (wf_child _ _ _ _ _ Hwf Hi) as Hwc.
  apply wf_Branch in Hwf as (Hcs & Hsort & Hnek & Hseps & Hall).
  rewrite (alter_lookup_insert _ _ _ _ Hi). cbn [fst snd].
  assert ((<[i:=(k, set_path c p (Leaf l' kvs'))]> cs).*1 = cs.*1) as Hfst.
  { rewrite list_fmap_insert. simpl. apply list_insert_id. by rewrite list_lookup_fmap, Hi. }
  apply wf_Branch. rewrite Hfst. split_and!; [|done|done| |].
  - intros Hnil. apply (f_equal length) in Hnil. rewrite length_insert in Hnil.
    by destruct cs.
  - eapply seps_ok_alter; [done|done|]. intros x Hx.
    pose proof (keys_set_path c p l kvs l' kvs' (λ x, x = key ∧ path_ok (Branch l0 cs) (i :: p) key) Hat) as Hc.
    simpl in Hc. rewrite Hi in Hc. destruct (Hc Hk x Hx) as [?|(-> & ? & ? & ?)]; [by left|by right; split].
  - apply Forall_insert; [done|]. simpl. apply IH; auto.
    intros x Hx. destruct (Hk x Hx) as [?|(? & _ & _ & ?)]; auto.
Qed.

(** What lies before a search path for [key] is below it, what lies after above. *)
Lemma path_bounds t p key l kvs :
  wf t → at_path t p = Some (Leaf l kvs) → path_ok t p key →
  ∃ b a, contents t = b ++ kvs ++ a ∧
    (∀ l' kvs', contents (set_path t p (Leaf l' kvs')) = b ++ kvs' ++ a) ∧
    (∀ x, x ∈ keys b → x ≺ key) ∧ (∀ x, x ∈ keys a → key ≺ x).
Proof.
  revert t. induction p as [|i p IH]; intros t Hwf Hat Hp.
  { injection Hat as ->. exists [], []. simpl. rewrite app_nil_r.
    split_and!; [done|intros; by rewrite app_nil_r|set_solver|set_solver]. }
  destruct t as [|l0 cs]; [done|]. cbn [at_path path_ok] in *.
  destruct (cs !! i) as [[k c]|] eqn:Hi; [|done]. destruct Hp as (Hk & Hgt & Hp).
  pose proof (lookup_lt_Some _ _ _ Hi). pose proof (wf_child _ _ _ _ _ Hwf Hi) as Hwc.
  apply wf_Branch in Hwf as (_ & _ & _ & Hseps & _).
  destruct (IH c Hwc Hat Hp) as (b & a & Hc & Hs & Hb & Ha).
  exists (flat (take i cs) ++ b), (a ++ flat (drop (S i) cs)). split_and!.
  - by rewrite contents_Branch, (flat_split _ _ _ _ Hi), Hc, <- !app_assoc.
  - intros l' kvs'. cbn [set_path]. rewrite contents_Branch.
    rewrite (flat_split _ i k (set_path c p (Leaf l' kvs')))
      by (rewrite (alter_lookup_insert _ _ _ _ Hi); by apply list_lookup_insert_eq).
    rewrite Hs, take_alter_ge, drop_alter_lt by lia. by rewrite <- !app_assoc.
  - intros x. rewrite keys_app, elem_of_app. intros [(k2 & c2 & Hin & Hx)%elem_of_flat|?]; [|auto].
    apply list_elem_of_lookup in Hin as [j Hj]. pose proof (lookup_lt_Some _ _ _ Hj) as Hlt.
    rewrite length_take in Hlt. rewrite lookup_take_lt in Hj by lia.
    destruct Hk as [->|Hk]; [lia|]. eapply blt_ble_trans; [|exact Hk].
    eapply (proj2 (seps_ok_lookup _ _ _ _ Hseps Hj) i); [lia|done|done].
  - intros x. rewrite keys_app, elem_of_app. intros [?|(k2 & c2 & Hin & Hx)%elem_of_flat]; [auto|].
    apply list_elem_of_lookup in Hin as [j Hj]. rewrite lookup_drop in Hj.
    eapply blt_ble_trans; [eapply (Hgt (S i + j)); [lia|done]|].
    apply (proj1 (seps_ok_lookup _ _ _ _ Hseps Hj)); [lia|done].
Qed.
