(* ===== verification/Cursor.v ===== *)
(** * Cursors (cursor.go)

    The walk of a cursor over one bucket's tree.  A cursor keeps a stack of
    (node, index) pairs; the model's list has the top of the stack first.  The
    walk only reads the node store [h] and changes its own stack, so its methods
    are computations over the stack.  [fuel] bounds the rounds of each loop; the
    theorems below say how much is enough. *)
From S2P Require Import Prelude GoSort Stats World Node KV Tree.
Local Open Scope bytes_scope.
Local Open Scope st_scope.

(** [type elemRef struct]; [e_node] is [None] when [rootView] returned nil. *)
Record elemRef := mkRef { e_node : option loc; e_index : Z }.

(** [type Cursor struct]: [c_bucket = None] is a directory cursor. *)
Record Cursor := mkCursor {
  c_bucket : option bid;
  c_stack : list elemRef;
  c_dir : list bytes;
  c_dirIdx : Z
}.

(** What [keyValue] returns: [None] for (nil, nil, 0). *)
Abbreviation kvf := (bytes * option bytes * Z)%type.

Abbreviation CM := (ST (list elemRef)).

Section cursor.
Context (h : gmap loc node) (root : option loc) (fuel : nat).

(** Reading through the node pointer of a reference. *)
Definition ref_node (e : elemRef) : CM node := st_deref (e_node e ≫= λ l, h !! l).

(** [elemRef.isLeaf] and [elemRef.count]. *)
Definition isLeaf (e : elemRef) : CM bool := let! n := ref_node e in st_ret (n_isLeaf n).
Definition count (e : elemRef) : CM Z :=
  let! n := ref_node e in st_ret (Z.of_nat (length (n_inodes n))).

(** [&c.stack[len(c.stack)-1]] *)
Definition top : CM elemRef := λ s,
  match s with e :: _ => (Ret e, s) | [] => (Panic PIndexOutOfRange, s) end.
Definition push (e : elemRef) : CM unit := st_modify (cons e).
Definition set_top_index (i : Z) : CM unit := λ s,
  match s with
  | e :: s' => (Ret tt, mkRef (e_node e) i :: s')
  | [] => (Panic PIndexOutOfRange, s)
  end.

(** [Cursor.keyValue] *)
Definition keyValue : CM (option kvf) :=
  let! ref := top in
  let! n := ref_node ref in
  let cnt := Z.of_nat (length (n_inodes n)) in
  if (cnt =? 0)%Z || (cnt <=? e_index ref)%Z then st_ret None
  else
    let! i := st_index (n_inodes n) (e_index ref) in
    st_ret (Some (i_key i, i_value i, i_flags i)).

(** [Cursor.goToFirstElementOnTheStack] *)
Fixpoint goToFirst (rounds : nat) : CM unit :=
  match rounds with
  | O => st_nofuel
  | S r =>
      let! ref := top in
      let! n := ref_node ref in
      if n_isLeaf n then st_ret tt
      else
        let! i := st_index (n_inodes n) (e_index ref) in
        push (mkRef (i_child i) 0) ;! goToFirst r
  end.
Definition goToFirstElementOnTheStack : CM unit := goToFirst fuel.

(** [Cursor.last] *)
Fixpoint last_loop (rounds : nat) : CM unit :=
  match rounds with
  | O => st_nofuel
  | S r =>
      let! ref := top in
      let! n := ref_node ref in
      if n_isLeaf n then st_ret tt
      else
        let! i := st_index (n_inodes n) (e_index ref) in
        let! cnt := count (mkRef (i_child i) 0) in
        push (mkRef (i_child i) (cnt - 1)) ;! last_loop r
  end.
Definition last : CM unit := last_loop fuel.

(** The upward loop of [Cursor.next]: [Some s'] is the stack cut at the level
    that could move over, [None] is [i == -1] (the stack is left alone). *)
Fixpoint next_up (s : list elemRef) : res (option (list elemRef)) :=
  match s with
  | [] => Ret None
  | elem :: s' =>
      match e_node elem ≫= (λ l, h !! l) with
      | None => Panic PNilDeref
      | Some n =>
          if (e_index elem <? Z.of_nat (length (n_inodes n)) - 1)%Z
          then Ret (Some (mkRef (e_node elem) (e_index elem + 1) :: s'))
          else next_up s'
      end
  end.

(** [Cursor.next] *)
Fixpoint next_loop (rounds : nat) : CM (option kvf) :=
  match rounds with
  | O => st_nofuel
  | S r => λ s,
      match next_up s with
      | Ret None => (Ret None, s)
      | Ret (Some s') =>
          (goToFirstElementOnTheStack ;!
           let! ref := top in
           let! cnt := count ref in
           if (cnt =? 0)%Z then next_loop r else keyValue) s'
      | Panic p => (Panic p, s)
      | Blocked => (Blocked, s)
      | NoFuel => (NoFuel, s)
      end
  end.
Definition next : CM (option kvf) := next_loop fuel.

(** [Cursor.first] *)
Definition first : CM (option kvf) :=
  st_put [mkRef root 0] ;!
  goToFirstElementOnTheStack ;!
  let! ref := top in
  let! cnt := count ref in
  (if (cnt =? 0)%Z then let! _ := next in st_ret tt else st_ret tt) ;!
  keyValue.

(** The upward loop of [Cursor.prev]: the new stack, or [None] when the loop
    reached the first element ([len(c.stack) == 1]). *)
Fixpoint prev_up (s : list elemRef) : option (list elemRef) :=
  match s with
  | [] => Some []
  | elem :: s' =>
      if (0 <? e_index elem)%Z then Some (mkRef (e_node elem) (e_index elem - 1) :: s')
      else match s' with [] => None | _ => prev_up s' end
  end.

(** [Cursor.prev] *)
Definition prev : CM (option kvf) := λ s,
  match prev_up s with
  | None => (let! _ := first in st_ret None) s
  | Some [] => (Ret None, [])
  | Some s' => (last ;! keyValue) s'
  end.

(** [Cursor.searchNode]'s choice of the child to descend into. *)
Definition branch_index (n : node) (key : bytes) : nat :=
  let '(index, exact) := search_exact (ikeys (n_inodes n)) key in
  if negb exact && (0 <? index) then index - 1 else index.

(** [Cursor.search], [searchNode] and [nsearch] *)
Fixpoint search (rounds : nat) (key : bytes) (n : option loc) : CM unit :=
  match rounds with
  | O => st_nofuel
  | S r =>
      match n with
      | None => st_panic PSearchNilNode
      | Some _ =>
          push (mkRef n 0) ;!
          let! nd := ref_node (mkRef n 0) in
          if n_isLeaf nd then
            set_top_index (Z.of_nat (search_keys (ikeys (n_inodes nd)) key))
          else
            let index := branch_index nd key in
            set_top_index (Z.of_nat index) ;!
            let! i := st_index (n_inodes nd) (Z.of_nat index) in
            search r key (i_child i)
      end
  end.

(** [Cursor.seek] *)
Definition seek (key : bytes) : CM (option kvf) :=
  st_put [] ;! search fuel key root ;! keyValue.

(** [Cursor.Seek] in tree mode *)
Definition tree_Seek (key : bytes) : CM (option kvf) :=
  let! kv := seek key in
  let! ref := top in
  let! cnt := count ref in
  if (cnt <=? e_index ref)%Z then next else st_ret kv.

(** The loop of [Cursor.Last] that skips empty nodes *)
Fixpoint Last_loop (rounds : nat) : CM unit :=
  match rounds with
  | O => st_nofuel
  | S r => λ s,
      match s with
      | ref :: _ :: _ =>
          (let! cnt := count ref in
           if (cnt =? 0)%Z then (let! _ := prev in Last_loop r) else st_ret tt) s
      | _ => (Ret tt, s)
      end
  end.

(** [Cursor.Last] in tree mode *)
Definition tree_Last : CM (option kvf) :=
  let! cnt := count (mkRef root 0) in
  st_put [mkRef root (cnt - 1)] ;!
  last ;!
  Last_loop fuel ;!
  let! s := st_get in
  match s with [] => st_ret None | _ => keyValue end.
End cursor.
