(* ===== verification/CursorSpec.v ===== *)
(** * What cursor walks compute

    Stacks that point into a represented tree, and the functional behaviour of
    the downward, upward and iteration loops of cursor.go on them. *)
From S2P Require Import Prelude GoSort Stats World Node KV Tree TreePath Cursor.
Local Open Scope bytes_scope.
Local Open Scope st_scope.

Definition trees_size (ts : list tree) : nat := list_sum (map tsize ts).

(** [stk T s t bef aft]: the stack [s] leads from the root of [T] to its subtree
    [t]; [bef] and [aft] are the subtrees left and right of the path. *)
Inductive stk (T : tree) : list elemRef → tree → list tree → list tree → Prop :=
| stk_root i : stk T [mkRef (Some (tloc T)) i] T [] []
| stk_push s l cs i k c j bef aft :
    stk T (mkRef (Some l) (Z.of_nat i) :: s) (Branch l cs) bef aft →
    cs !! i = Some (k, c) →
    stk T (mkRef (Some (tloc c)) j :: mkRef (Some l) (Z.of_nat i) :: s) c
      (bef ++ (take i cs).*2) ((drop (S i) cs).*2 ++ aft).

(** The cursor is on the pair [x]: [don] is what precedes it, [rest] what follows. *)
Definition on (T : tree) (s : list elemRef) (don : list kv) (x : kv) (rest : list kv) : Prop :=
  ∃ l kvs j bef aft s',
    s = mkRef (Some l) (Z.of_nat j) :: s' ∧ stk T s (Leaf l kvs) bef aft ∧
    kvs !! j = Some x ∧
    don = flat_trees bef ++ take j kvs ∧ rest = drop (S j) kvs ++ flat_trees aft.

(** The cursor is just past the last pair of a leaf. *)
Definition at_end (T : tree) (s : list elemRef) (don rest : list kv) : Prop :=
  ∃ l kvs bef aft s',
    s = mkRef (Some l) (Z.of_nat (length kvs)) :: s' ∧ stk T s (Leaf l kvs) bef aft ∧
    don = flat_trees bef ++ kvs ∧ rest = flat_trees aft.

(** What [keyValue] returns for a pair. *)
Definition ret_kv (x : kv) : option kvf := Some (x.1, Some x.2, 0%Z).

(** The child indices a stack (without its top) goes through, root first. *)
Definition path_of (s : list elemRef) : list nat := reverse ((λ e, Z.to_nat (e_index e)) <$> s).

Lemma trees_size_app a b : trees_size (a ++ b) = trees_size a + trees_size b.
Proof. unfold trees_size. by rewrite map_app, list_sum_app. Qed.

Lemma trees_size_children (cs : list (bytes * tree)) :
  trees_size cs.*2 = list_sum (map (λ p, tsize p.2) cs).
Proof. unfold trees_size. f_equal. rewrite <- (map_map snd tsize). done. Qed.

Section stacks.
Context (h : gmap loc node) (T : tree).
Context (Hrep : rep h T) (Hneb : no_empty_branch T).

Lemma stk_reindex n i j s t bef aft :
  stk T (mkRef n i :: s) t bef aft → stk T (mkRef n j :: s) t bef aft.
Proof. inversion 1; subst; econstructor; eauto. Qed.

Lemma stk_top r s t bef aft : stk T (r :: s) t bef aft → e_node r = Some (tloc t).
Proof. by inversion 1. Qed.

Lemma stk_rep s t bef aft : stk T s t bef aft → rep h t ∧ no_empty_branch t.
Proof using Hrep Hneb.
  induction 1 as [|s l cs i k c j bef aft _ [IHr IHn] Hi]; [done|]. split.
  - by eapply rep_child.
  - apply no_empty_branch_Branch in IHn as [_ Hall]. rewrite Forall_forall in Hall.
    by apply (Hall (k, c)), (list_elem_of_lookup_2 _ i).
Qed.

Lemma stk_at_path r s t bef aft :
  stk T (r :: s) t bef aft →
  at_path T (path_of s) = Some t ∧ e_index <$> reverse s = Z.of_nat <$> path_of s.
Proof.
  intros Hs. remember (r :: s) as s1 eqn:Es. revert r s Es.
  induction Hs as [|s l cs i k c j bef aft _ IH Hi]; intros r s1 Es; injection Es as <- <-; [done|].
  destruct (IH _ _ eq_refl) as [IH1 IH2]. unfold path_of in *. rewrite fmap_cons, !reverse_cons. simpl.
  rewrite Nat2Z.id. split; [by eapply at_path_snoc|]. rewrite !fmap_app, IH2. done.
Qed.

Lemma stk_contents s t bef aft :
  stk T s t bef aft → contents T = flat_trees bef ++ contents t ++ flat_trees aft.
Proof.
  induction 1 as [|s l cs i k c j bef aft _ IH Hi]; [by rewrite app_nil_r|].
  rewrite IH, contents_Branch, (flat_split _ _ _ _ Hi).
  by rewrite !flat_trees_app, !flat_trees_children, <- !app_assoc.
Qed.

Lemma stk_size s t bef aft :
  stk T s t bef aft → trees_size bef + tsize t + trees_size aft ≤ tsize T.
Proof.
  induction 1 as [|s l cs i k c j bef aft _ IH Hi]; [unfold trees_size; simpl; lia|].
  simpl tsize in IH. rewrite !trees_size_app, !trees_size_children.
  rewrite (take_drop_lookup cs i (k, c) Hi), map_app, list_sum_app in IH. simpl in IH. lia.
Qed.

(** Reading the top of the stack. *)
Lemma ref_node_leaf s l kvs j bef aft (s0 : list elemRef) :
  stk T (mkRef (Some l) j :: s) (Leaf l kvs) bef aft →
  ∃ n, ref_node h (mkRef (Some l) j) s0 = (Ret n, s0) ∧ leaf_node kvs n.
Proof using Hrep Hneb.
  intros [(n & Hn & Hl) _]%stk_rep. exists n. unfold ref_node. simpl. by rewrite Hn.
Qed.

Lemma ref_node_branch s l cs j bef aft (s0 : list elemRef) :
  stk T (mkRef (Some l) j :: s) (Branch l cs) bef aft →
  ∃ n, ref_node h (mkRef (Some l) j) s0 = (Ret n, s0) ∧ branch_node cs n.
Proof using Hrep Hneb.
  intros [Hr _]%stk_rep. apply rep_Branch in Hr as [(n & Hn & Hb) _].
  exists n. unfold ref_node. simpl. by rewrite Hn.
Qed.

Lemma top_cons r (s : list elemRef) : top (r :: s) = (Ret r, r :: s).
Proof. done. Qed.

Lemma index_nat {A} (l : list A) (i : nat) x (s : list elemRef) :
  l !! i = Some x → st_index l (Z.of_nat i) s = (Ret x, s).
Proof.
  intros Hi. unfold st_index. destruct (Z.ltb_spec (Z.of_nat i) 0); [lia|].
  by rewrite Nat2Z.id, Hi.
Qed.

(** [keyValue] on a leaf position. *)
Lemma keyValue_on s don x rest : on T s don x rest → keyValue h s = (Ret (ret_kv x), s).
Proof using Hrep Hneb.
  intros (l & kvs & j & bef & aft & s' & -> & Hs & Hj & _). unfold keyValue.
  rewrite (bind_Ret _ _ _ _ _ (top_cons _ _)).
  destruct (ref_node_leaf _ _ _ _ _ _ (mkRef (Some l) (Z.of_nat j) :: s') Hs) as (n & Hn & Hl & Hi).
  rewrite (bind_Ret _ _ _ _ _ Hn), Hi, length_fmap. simpl.
  pose proof (lookup_lt_Some _ _ _ Hj).
  destruct (Z.eqb_spec (Z.of_nat (length kvs)) 0); [lia|].
  destruct (Z.leb_spec (Z.of_nat (length kvs)) (Z.of_nat j)); [lia|]. simpl.
  rewrite (bind_Ret _ _ _ (leaf_inode x) (mkRef (Some l) (Z.of_nat j) :: s')); [done|].
  apply index_nat. by rewrite list_lookup_fmap, Hj.
Qed.

Lemma keyValue_end s don rest : at_end T s don rest → keyValue h s = (Ret None, s).
Proof using Hrep Hneb.
  intros (l & kvs & bef & aft & s' & -> & Hs & _). unfold keyValue.
  rewrite (bind_Ret _ _ _ _ _ (top_cons _ _)).
  destruct (ref_node_leaf _ _ _ _ _ _ (mkRef (Some l) (Z.of_nat (length kvs)) :: s') Hs) as (n & Hn & Hl & Hi).
  rewrite (bind_Ret _ _ _ _ _ Hn), Hi, length_fmap. simpl.
  by rewrite Z.leb_refl, orb_true_r.
Qed.

(** Walking down along first children reaches the first leaf of the subtree. *)
Lemma goToFirst_sub t : ∀ rounds s bef aft,
  stk T (mkRef (Some (tloc t)) 0 :: s) t bef aft → tsize t ≤ rounds →
  ∃ s' l kvs bef' aft',
    goToFirst h rounds (mkRef (Some (tloc t)) 0 :: s) = (Ret tt, mkRef (Some l) 0 :: s') ∧
    stk T (mkRef (Some l) 0 :: s') (Leaf l kvs) bef' aft' ∧
    flat_trees bef' = flat_trees bef ∧
    kvs ++ flat_trees aft' = contents t ++ flat_trees aft ∧
    trees_size aft' + 1 ≤ tsize t + trees_size aft.
Proof using Hrep Hneb.
  induction t as [l kvs|l cs IH] using tree_nested_ind; intros rounds s bef aft Hs Hr;
    (destruct rounds as [|r]; [pose proof (tsize_pos (Leaf l [])); simpl in *; lia|]); simpl goToFirst.
  - rewrite (bind_Ret _ _ _ _ _ (top_cons _ _)).
    destruct (ref_node_leaf _ _ _ _ _ _ (mkRef (Some l) 0 :: s) Hs) as (n & Hn & Hl & Hi).
    rewrite (bind_Ret _ _ _ _ _ Hn), Hl. exists s, l, kvs, bef, aft. simpl. split_and!; auto; lia.
  - rewrite (bind_Ret _ _ _ _ _ (top_cons _ _)).
    destruct (ref_node_branch _ _ _ _ _ _ (mkRef (Some l) 0 :: s) Hs) as (n & Hn & Hl & Hi).
    rewrite (bind_Ret _ _ _ _ _ Hn), Hl, Hi.
    pose proof (proj2 (stk_rep _ _ _ _ Hs)) as Hne. apply no_empty_branch_Branch in Hne as [Hne _].
    destruct cs as [|[k c] cs]; [done|].
    rewrite (bind_Ret _ _ _ (branch_inode (k, c)) (mkRef (Some l) 0 :: s)); [|by apply (index_nat _ 0)].
    apply Forall_cons in IH as [IHc _]. simpl in Hr.
    destruct (IHc r (mkRef (Some l) 0 :: s) bef ((cs.*2) ++ aft)) as (s' & l' & kvs' & bef' & aft' & Hgo & Hs' & Hb & Hc & Hsz).
    { pose proof (stk_push T s l ((k, c) :: cs) 0 k c 0 bef aft Hs eq_refl) as Hp.
      simpl in Hp. by rewrite app_nil_r, skipn_O in Hp || by rewrite app_nil_r in Hp. }
    { simpl; lia. }
    exists s', l', kvs', bef', aft'. split_and!; [exact Hgo|done|done| |].
    + rewrite Hc, flat_trees_app, flat_trees_children. simpl contents. by rewrite <- app_assoc.
    + rewrite trees_size_app, trees_size_children in Hsz. simpl in *. lia.
Qed.
(** One step down from a branch position, then along first children. *)
Lemma goToFirst_branch rounds s l cs i k c bef aft :
  stk T (mkRef (Some l) (Z.of_nat i) :: s) (Branch l cs) bef aft →
  cs !! i = Some (k, c) → tsize T ≤ rounds →
  ∃ s' l' kvs bef' aft',
    goToFirst h rounds (mkRef (Some l) (Z.of_nat i) :: s) = (Ret tt, mkRef (Some l') 0 :: s') ∧
    stk T (mkRef (Some l') 0 :: s') (Leaf l' kvs) bef' aft' ∧
    flat_trees bef' = flat_trees bef ++ flat (take i cs) ∧
    kvs ++ flat_trees aft' = contents c ++ flat (drop (S i) cs) ++ flat_trees aft ∧
    trees_size aft' + 1 ≤ tsize c + trees_size (drop (S i) cs).*2 + trees_size aft.
Proof using Hrep Hneb.
  intros Hs Hi Hr. pose proof (stk_push T s l cs i k c 0 bef aft Hs Hi) as Hp.
  pose proof (stk_size _ _ _ _ Hs) as Hsz. pose proof (tsize_child _ _ _ _ Hi). simpl in Hsz.
  destruct rounds as [|r]; [lia|]. simpl goToFirst.
  rewrite (bind_Ret _ _ _ _ _ (top_cons _ _)).
  destruct (ref_node_branch _ _ _ _ _ _ (mkRef (Some l) (Z.of_nat i) :: s) Hs) as (n & Hn & Hl & Hin).
  rewrite (bind_Ret _ _ _ _ _ Hn), Hl, Hin.
  rewrite (bind_Ret _ _ _ (branch_inode (k, c)) (mkRef (Some l) (Z.of_nat i) :: s));
    [|apply index_nat; by rewrite list_lookup_fmap, Hi].
  destruct (goToFirst_sub c r _ _ _ Hp) as (s' & l' & kvs & bef' & aft' & Hgo & Hs' & Hb & Hc & Hz); [lia|].
  exists s', l', kvs, bef', aft'. split_and!; [exact Hgo|done| | |].
  - by rewrite Hb, flat_trees_app, flat_trees_children.
  - by rewrite Hc, flat_trees_app, flat_trees_children.
  - rewrite trees_size_app in Hz. lia.
Qed.

(** The upward loop below the top of the stack finds the next subtree. *)
Lemma next_up_below r s t bef aft :
  stk T (r :: s) t bef aft →
  match aft with
  | [] => next_up h s = Ret None
  | c :: aft' =>
      ∃ l cs i k s' bef0 aft0,
        next_up h s = Ret (Some (mkRef (Some l) (Z.of_nat i) :: s')) ∧
        stk T (mkRef (Some l) (Z.of_nat i) :: s') (Branch l cs) bef0 aft0 ∧
        cs !! i = Some (k, c) ∧ aft' = (drop (S i) cs).*2 ++ aft0 ∧
        flat_trees bef0 ++ flat (take i cs) = flat_trees bef ++ contents t
  end.
Proof using Hrep Hneb.
  intros Hs. remember (r :: s) as s1 eqn:Es. revert r s Es.
  induction Hs as [|s l cs i k c j bef aft Hs IH Hi]; intros r s1 Es; injection Es as <- <-; [done|].
  specialize (IH _ _ eq_refl). simpl next_up.
  pose proof (proj1 (stk_rep _ _ _ _ Hs)) as Hrb. apply rep_Branch in Hrb as [(n & Hn & _ & Hin) _].
  rewrite Hn, Hin, length_fmap. pose proof (lookup_lt_Some _ _ _ Hi).
  destruct (Z.ltb_spec (Z.of_nat i) (Z.of_nat (length cs) - 1)) as [Hlt|Hge].
  - destruct (lookup_lt_is_Some_2 cs (S i) ltac:(lia)) as [[k' c'] Hi'].
    rewrite (drop_lookup_cons _ _ _ Hi'). simpl.
    exists l, cs, (S i), k', s, bef, aft. split_and!; [|by eapply stk_reindex|done|done|].
    + do 4 f_equal. lia.
    + rewrite (take_S_r _ _ _ Hi), flat_app, flat_cons, flat_trees_app, flat_trees_children.
      unfold flat at 2. simpl. by rewrite app_nil_r, <- app_assoc.
  - rewrite (drop_ge cs (S i)) by lia. simpl.
    assert (flat cs = flat (take i cs) ++ contents c) as Hcs.
    { rewrite (flat_split _ _ _ _ Hi), (drop_ge cs (S i)) by lia. unfold flat at 3. simpl. by rewrite app_nil_r. }
    destruct aft as [|c' aft]; [done|].
    destruct IH as (l' & cs' & i' & k' & s' & bef0 & aft0 & ? & ? & ? & ? & IH).
    exists l', cs', i', k', s', bef0, aft0. split_and!; auto.
    rewrite IH, contents_Branch, Hcs, flat_trees_app, flat_trees_children. by rewrite <- app_assoc.
Qed.

Lemma on_intro l kvs j bef aft s x :
  stk T (mkRef (Some l) (Z.of_nat j) :: s) (Leaf l kvs) bef aft → kvs !! j = Some x →
  on T (mkRef (Some l) (Z.of_nat j) :: s) (flat_trees bef ++ take j kvs) x (drop (S j) kvs ++ flat_trees aft).
Proof. intros. exists l, kvs, j, bef, aft, s. auto. Qed.

(** [next] from the end of a leaf: skip to the next pair, over empty leaves. *)
Lemma next_loop_end fuel rounds s l kvs j bef aft :
  tsize T ≤ fuel → trees_size aft < rounds →
  stk T (mkRef (Some l) j :: s) (Leaf l kvs) bef aft → (Z.of_nat (length kvs) - 1 ≤ j)%Z →
  match flat_trees aft with
  | [] => ∃ s', next_loop h fuel rounds (mkRef (Some l) j :: s) = (Ret None, s') ∧
            (s' = mkRef (Some l) j :: s ∨ at_end T s' (flat_trees bef ++ kvs) [])
  | y :: rest =>
      ∃ s', next_loop h fuel rounds (mkRef (Some l) j :: s) = (Ret (ret_kv y), s') ∧
        on T s' (flat_trees bef ++ kvs) y rest
  end.
Proof using Hrep Hneb.
  intros Hfuel. revert s l kvs j bef aft.
  induction rounds as [|rounds IH]; intros s l kvs j bef aft Hr Hs Hj; [lia|].
  pose proof (next_up_below _ _ _ _ _ Hs) as Hup. simpl next_loop.
  pose proof (proj1 (stk_rep _ _ _ _ Hs)) as (n & Hn & _ & Hin). simpl.
  rewrite Hn, Hin, length_fmap.
  destruct (Z.ltb_spec j (Z.of_nat (length kvs) - 1)); [lia|].
  destruct aft as [|c aft]; simpl.
  { rewrite Hup. eexists. split; [done|]. by left. }
  destruct Hup as (l1 & cs & i & k & s1 & bef0 & aft0 & -> & Hs1 & Hi & -> & Hbef).
  destruct (goToFirst_branch fuel _ _ _ _ _ _ _ _ Hs1 Hi Hfuel) as (s2 & l2 & kvs2 & bef2 & aft2 & Hgo & Hs2 & Hb2 & Hc2 & Hz2).
  unfold goToFirstElementOnTheStack. rewrite (bind_Ret _ _ _ _ _ Hgo).
  rewrite (bind_Ret _ _ _ _ _ (top_cons _ _)). unfold count.
  destruct (ref_node_leaf _ _ _ _ _ _ (mkRef (Some l2) 0 :: s2) Hs2) as (n2 & Hn2 & Hl2 & Hin2).
  rewrite (bind_Ret _ _ _ (Z.of_nat (length kvs2)) (mkRef (Some l2) 0 :: s2)).
  2:{ rewrite (bind_Ret _ _ _ _ _ Hn2). unfold st_ret. by rewrite Hin2, length_fmap. }
  assert (flat_trees (c :: (drop (S i) cs).*2 ++ aft0) = kvs2 ++ flat_trees aft2) as Hflat.
  { rewrite Hc2. change (flat_trees (c :: ?x)) with (contents c ++ flat_trees x).
    by rewrite flat_trees_app, flat_trees_children. }
  change (contents c ++ flat_trees ((drop (S i) cs).*2 ++ aft0)) with (flat_trees (c :: (drop (S i) cs).*2 ++ aft0)).
  change (contents (Leaf l kvs)) with kvs in Hbef. rewrite Hflat, <- Hbef, <- Hb2.
  unfold trees_size in Hr. simpl in Hr. fold (trees_size ((drop (S i) cs).*2 ++ aft0)) in Hr.
  rewrite trees_size_app in Hr.
  destruct kvs2 as [|y kvs2]; simpl.
  - specialize (IH s2 l2 [] 0%Z bef2 aft2 ltac:(lia) Hs2 ltac:(simpl; lia)).
    rewrite app_nil_r in IH. destruct (flat_trees aft2) as [|y rest] eqn:Ea2; [|done].
    destruct IH as (s' & Hrun & [->|Hend]); eexists; (split; [exact Hrun|]); right; [|done].
    exists l2, [], bef2, aft2, s2. rewrite app_nil_r. auto.
  - rewrite (keyValue_on (mkRef (Some l2) 0 :: s2) (flat_trees bef2) y (kvs2 ++ flat_trees aft2)).
    2:{ pose proof (on_intro l2 (y :: kvs2) 0 bef2 aft2 s2 y Hs2 eq_refl) as Hon.
        simpl in Hon. by rewrite app_nil_r in Hon. }
    eexists. split; [done|].
    pose proof (on_intro l2 (y :: kvs2) 0 bef2 aft2 s2 y Hs2 eq_refl) as Hon.
    simpl in Hon. by rewrite app_nil_r in Hon.
Qed.
Lemma stk_aft_small s t bef aft : stk T s t bef aft → trees_size aft < tsize T.
Proof. intros Hs%stk_size. pose proof (tsize_pos t). lia. Qed.

Lemma goToFirst_leaf rounds s l kvs j bef aft :
  stk T (mkRef (Some l) j :: s) (Leaf l kvs) bef aft → 0 < rounds →
  goToFirst h rounds (mkRef (Some l) j :: s) = (Ret tt, mkRef (Some l) j :: s).
Proof using Hrep Hneb.
  intros Hs Hr. destruct rounds as [|r]; [lia|]. simpl goToFirst.
  rewrite (bind_Ret _ _ _ _ _ (top_cons _ _)).
  destruct (ref_node_leaf _ _ _ _ _ _ (mkRef (Some l) j :: s) Hs) as (n & Hn & Hl & _).
  by rewrite (bind_Ret _ _ _ _ _ Hn), Hl.
Qed.

Lemma count_leaf s l kvs j bef aft (s0 : list elemRef) :
  stk T (mkRef (Some l) j :: s) (Leaf l kvs) bef aft →
  count h (mkRef (Some l) j) s0 = (Ret (Z.of_nat (length kvs)), s0).
Proof using Hrep Hneb.
  intros Hs. unfold count. destruct (ref_node_leaf _ _ _ _ _ _ s0 Hs) as (n & Hn & _ & Hi).
  rewrite (bind_Ret _ _ _ _ _ Hn). unfold st_ret. by rewrite Hi, length_fmap.
Qed.

(** [next] moves from a pair to its successor, and returns nil at the end. *)
Lemma next_on fuel s don x rest :
  tsize T ≤ fuel → on T s don x rest →
  match rest with
  | [] => ∃ s', next h fuel s = (Ret None, s') ∧ (s' = s ∨ at_end T s' (don ++ [x]) [])
  | y :: rest' => ∃ s', next h fuel s = (Ret (ret_kv y), s') ∧ on T s' (don ++ [x]) y rest'
  end.
Proof using Hrep Hneb.
  intros Hfuel (l & kvs & j & bef & aft & s' & -> & Hs & Hj & -> & ->).
  pose proof (stk_aft_small _ _ _ _ Hs). pose proof (tsize_pos T).
  rewrite <- app_assoc, <- (take_S_r _ _ _ Hj). unfold next.
  destruct (decide (S j < length kvs)) as [Hlt|Hge].
  - destruct (lookup_lt_is_Some_2 kvs (S j) Hlt) as [y Hy].
    rewrite (drop_lookup_cons _ _ _ Hy). simpl.
    destruct fuel as [|r]; [lia|]. simpl next_loop. simpl.
    destruct (stk_rep _ _ _ _ Hs) as [(n & Hn & _ & Hin) _]. rewrite Hn, Hin, length_fmap.
    destruct (Z.ltb_spec (Z.of_nat j) (Z.of_nat (length kvs) - 1)); [|lia].
    replace (Z.of_nat j + 1)%Z with (Z.of_nat (S j)) by lia.
    pose proof (stk_reindex _ _ (Z.of_nat (S j)) _ _ _ _ Hs) as Hs'.
    unfold goToFirstElementOnTheStack.
    rewrite (bind_Ret _ _ _ _ _ (goToFirst_leaf (S r) _ _ _ _ _ _ Hs' ltac:(lia))).
    rewrite (bind_Ret _ _ _ _ _ (top_cons _ _)).
    rewrite (bind_Ret _ _ _ _ _ (count_leaf _ _ _ _ _ _ (mkRef (Some l) (Z.of_nat (S j)) :: s') Hs')).
    destruct (Z.eqb_spec (Z.of_nat (length kvs)) 0); [lia|].
    pose proof (on_intro _ _ _ _ _ _ _ Hs' Hy) as Hon.
    rewrite (keyValue_on _ _ _ _ Hon). eauto.
  - rewrite (drop_ge kvs (S j)), (firstn_all2 kvs (n := S j)) by lia. simpl.
    apply next_loop_end; auto; lia.
Qed.

(** [next] from just past the end of a leaf, as [Seek] uses it. *)
Lemma next_end fuel s don rest :
  tsize T ≤ fuel → at_end T s don rest →
  match rest with
  | [] => ∃ s', next h fuel s = (Ret None, s') ∧ at_end T s' don []
  | y :: rest' => ∃ s', next h fuel s = (Ret (ret_kv y), s') ∧ on T s' don y rest'
  end.
Proof using Hrep Hneb.
  intros Hfuel (l & kvs & bef & aft & s' & -> & Hs & -> & ->).
  pose proof (stk_aft_small _ _ _ _ Hs). unfold next.
  pose proof (next_loop_end fuel fuel s' l kvs _ bef aft Hfuel ltac:(lia) Hs ltac:(lia)) as H1.
  destruct (flat_trees aft) as [|y rest] eqn:E; [|done].
  destruct H1 as (s'' & Hrun & [->|Hend]); eexists; (split; [exact Hrun|]); [|done].
  exists l, kvs, bef, aft, s'. auto.
Qed.

(** [first] finds the first pair of the tree. *)
Lemma first_spec fuel :
  tsize T ≤ fuel →
  ∀ s0, match contents T with
  | [] => ∃ s', first h (Some (tloc T)) fuel s0 = (Ret None, s') ∧ at_end T s' [] []
  | x :: rest => ∃ s', first h (Some (tloc T)) fuel s0 = (Ret (ret_kv x), s') ∧ on T s' [] x rest
  end.
Proof using Hrep Hneb.
  intros Hfuel s0. unfold first.
  rewrite (bind_Ret (st_put _) _ s0 tt [mkRef (Some (tloc T)) 0] eq_refl).
  destruct (goToFirst_sub T fuel [] [] [] (stk_root T 0) Hfuel) as (s' & l & kvs & bef & aft & Hgo & Hs & Hb & Hc & Hz).
  unfold goToFirstElementOnTheStack. rewrite (bind_Ret _ _ _ _ _ Hgo).
  rewrite (bind_Ret _ _ _ _ _ (top_cons _ _)).
  rewrite (bind_Ret _ _ _ _ _ (count_leaf _ _ _ _ _ _ (mkRef (Some l) 0 :: s') Hs)).
  change (flat_trees []) with (@nil kv) in *. rewrite app_nil_r in Hc. rewrite <- Hc.
  destruct kvs as [|x kvs]; simpl.
  - assert (at_end T (mkRef (Some l) 0 :: s') [] (flat_trees aft)) as Hend.
    { exists l, [], bef, aft, s'. by rewrite app_nil_r, Hb. }
    pose proof (next_end fuel _ _ _ Hfuel Hend) as H1.
    destruct (flat_trees aft) as [|y rest]; destruct H1 as (s2 & Hrun & H2).
    + rewrite (bind_Ret _ _ _ tt s2) by (by rewrite (bind_Ret _ _ _ _ _ Hrun)).
      rewrite (keyValue_end _ _ _ H2). eauto.
    + rewrite (bind_Ret _ _ _ tt s2) by (by rewrite (bind_Ret _ _ _ _ _ Hrun)).
      rewrite (keyValue_on _ _ _ _ H2). eauto.
  - pose proof (on_intro l (x :: kvs) 0 bef aft s' x Hs eq_refl) as Hon.
    change (Z.of_nat 0) with 0%Z in Hon. simpl in Hon. rewrite app_nil_r, Hb in Hon.
    rewrite (bind_Ret (st_ret tt) _ _ tt _ eq_refl), (keyValue_on _ _ _ _ Hon). eauto.
Qed.
(** ** Searching *)

(** Which child [searchNode] descends into. *)
Lemma branch_index_spec n cs key :
  branch_node cs n → cs ≠ [] → ssorted cs.*1 →
  ∃ k c, cs !! branch_index n key = Some (k, c) ∧
    (branch_index n key = 0 ∨ k ≼ key) ∧
    (∀ j k' c', branch_index n key < j → cs !! j = Some (k', c') → key ≺ k').
Proof using.
  intros [_ Hin] Hne Hsorted. unfold branch_index. rewrite Hin, ikeys_branch.
  destruct (search_exact_spec cs.*1 key Hsorted) as [E1 E2].
  destruct (search_keys_spec cs.*1 key Hsorted) as (Hr & Hlo & Hhi).
  destruct (search_exact cs.*1 key) as [index exact]. simpl in E1, E2. subst index.
  set (r := search_keys cs.*1 key) in *. rewrite length_fmap in Hr.
  assert (Hgt : ∀ j k' c', r ≤ j → k' ≠ key → cs !! j = Some (k', c') → key ≺ k').
  { intros j k' c' Hj Hk Hc. assert (key ≼ k') as [?|?]%ble_cases; [|done|congruence].
    apply Hhi, list_elem_of_lookup. exists (j - r). rewrite lookup_drop.
    replace (r + (j - r)) with j by lia. by rewrite list_lookup_fmap, Hc. }
  destruct exact; simpl.
  - destruct E2 as [E2 _]. destruct (proj1 (list_elem_of_lookup _ _) (E2 eq_refl)) as [i Hi].
    pose proof (search_keys_found _ _ _ Hsorted Hi) as Hri. fold r in Hri. subst i.
    pose proof Hi as Hi'. rewrite list_lookup_fmap in Hi.
    destruct (cs !! r) as [[k c]|] eqn:Er; [|done]. simplify_eq/=.
    exists key, c. split_and!; [done|right; apply ble_refl|]. intros j k' c' Hj Hc.
    eapply (ssorted_lookup cs.*1 r j); [done|done|by rewrite list_lookup_fmap, Hc|done].
  - assert (Hnin : key ∉ cs.*1) by (intros ?%E2; done).
    assert (Hnk : ∀ j k' c', cs !! j = Some (k', c') → k' ≠ key).
    { intros j k' c' Hc ->. apply Hnin, list_elem_of_lookup. exists j. by rewrite list_lookup_fmap, Hc. }
    destruct (Nat.ltb_spec 0 r); simpl.
    + destruct (lookup_lt_is_Some_2 cs (r - 1) ltac:(lia)) as [[k c] Hc].
      exists k, c. split_and!; [done| |intros j k' c' ??; apply (Hgt j k' c'); [lia|eauto|done]].
      right. apply blt_ble, Hlo, list_elem_of_lookup. exists (r - 1).
      rewrite lookup_take_lt by lia. by rewrite list_lookup_fmap, Hc.
    + destruct cs as [|[k c] cs]; [done|]. replace r with 0 by lia.
      exists k, c. split_and!; [done|by left|]. intros j k' c' ??. apply (Hgt j k' c'); [lia|eauto|done].
Qed.

(** [search] reaches the leaf that brackets the key. *)
Lemma search_sub key t : ∀ rounds s bef aft,
  wf t → (∀ i, stk T (mkRef (Some (tloc t)) i :: s) t bef aft) → tsize t ≤ rounds →
  (∀ x, x ∈ keys (flat_trees bef) → x ≺ key) → (∀ x, x ∈ keys (flat_trees aft) → key ≺ x) →
  path_ok T (path_of s) key →
  ∃ l kvs bef' aft' s',
    search h rounds key (Some (tloc t)) s =
      (Ret tt, mkRef (Some l) (Z.of_nat (search_keys (keys kvs) key)) :: s') ∧
    (∀ i, stk T (mkRef (Some l) i :: s') (Leaf l kvs) bef' aft') ∧ wf (Leaf l kvs) ∧
    (∀ x, x ∈ keys (flat_trees bef') → x ≺ key) ∧ (∀ x, x ∈ keys (flat_trees aft') → key ≺ x) ∧
    path_ok T (path_of s') key.
Proof using Hrep Hneb.
  induction t as [l kvs|l cs IH] using tree_nested_ind; intros rounds s bef aft Hwf Hs Hr Hb Ha Hp;
    (destruct rounds as [|r]; [pose proof (tsize_pos (Leaf l [])); simpl in *; lia|]); simpl search;
    rewrite (bind_Ret (push _) _ _ _ _ eq_refl).
  - destruct (ref_node_leaf _ _ _ _ _ _ (mkRef (Some l) 0 :: s) (Hs 0%Z)) as (n & Hn & Hl & Hi).
    rewrite (bind_Ret _ _ _ _ _ Hn), Hl, Hi, ikeys_leaf.
    exists l, kvs, bef, aft, s. split_and!; auto; apply Hwf.
  - destruct (ref_node_branch _ _ _ _ _ _ (mkRef (Some l) 0 :: s) (Hs 0%Z)) as (n & Hn & Hl & Hi).
    rewrite (bind_Ret _ _ _ _ _ Hn), Hl.
    pose proof Hwf as Hwf0. apply wf_Branch in Hwf as (Hne & Hsorted & _ & Hseps & _).
    destruct (branch_index_spec n cs key (conj Hl Hi) Hne Hsorted) as (k & c & Hc & Hk & Hgt).
    set (i := branch_index n key) in *.
    rewrite (bind_Ret (set_top_index _) _ (mkRef (Some l) 0 :: s) tt (mkRef (Some l) (Z.of_nat i) :: s) eq_refl).
    rewrite (bind_Ret _ _ _ (branch_inode (k, c)) (mkRef (Some l) (Z.of_nat i) :: s));
      [|apply index_nat; by rewrite Hi, list_lookup_fmap, Hc].
    rewrite Forall_forall in IH. pose proof (tsize_child _ _ _ _ Hc). simpl in Hr.
    destruct (seps_ok_lookup cs i k c Hseps Hc) as [Hlow Hup].
    apply (IH (k, c) (list_elem_of_lookup_2 _ _ _ Hc) r _ _ _ (wf_child _ _ _ _ _ Hwf0 Hc)
             (λ j, stk_push T s l cs i k c j bef aft (Hs _) Hc) ltac:(simpl; lia)).
    + intros x. rewrite flat_trees_app, flat_trees_children, keys_app, elem_of_app.
      intros [?|(k' & c' & Hin & Hx)%elem_of_flat]; [auto|].
      apply list_elem_of_lookup in Hin as [j Hj]. apply lookup_take_Some in Hj as [Hj Hji].
      destruct (seps_ok_lookup cs j k' c' Hseps Hj) as [_ Hup'].
      destruct Hk as [?|Hk]; [lia|]. eapply blt_ble_trans; [|exact Hk]. by apply (Hup' i k c).
    + intros x. rewrite flat_trees_app, flat_trees_children, keys_app, elem_of_app.
      intros [(k' & c' & Hin & Hx)%elem_of_flat|?]; [|auto].
      apply list_elem_of_lookup in Hin as [j Hj]. rewrite lookup_drop in Hj.
      destruct (seps_ok_lookup cs (S i + j) k' c' Hseps Hj) as [Hlow' _].
      eapply blt_ble_trans; [eapply (Hgt (S i + j)); [lia|done]|]. apply Hlow'; [lia|done].
    + destruct (stk_at_path _ _ _ _ _ (Hs 0%Z)) as [Hat _].
      unfold path_of. rewrite fmap_cons, reverse_cons. simpl. rewrite Nat2Z.id.
      by eapply path_ok_snoc.
Qed.

(** [seek]: the leaf that brackets the key, and what [keyValue] finds there. *)
Lemma seek_spec fuel key s0 :
  wf T → tsize T ≤ fuel →
  ∃ l kvs bef aft s',
    let r := search_keys (keys kvs) key in
    seek h (Some (tloc T)) fuel key s0 =
      (Ret (match kvs !! r with Some x => ret_kv x | None => None end),
       mkRef (Some l) (Z.of_nat r) :: s') ∧
    (∀ i, stk T (mkRef (Some l) i :: s') (Leaf l kvs) bef aft) ∧ wf (Leaf l kvs) ∧
    (∀ x, x ∈ keys (flat_trees bef) → x ≺ key) ∧ (∀ x, x ∈ keys (flat_trees aft) → key ≺ x) ∧
    path_ok T (path_of s') key.
Proof using Hrep Hneb.
  intros Hwf Hfuel.
  destruct (search_sub key T fuel [] [] [] Hwf (stk_root T) Hfuel) as (l & kvs & bef & aft & s' & Hrun & Hs & Hw & Hb & Ha & Hp).
  { set_solver. } { set_solver. } { done. }
  pose proof (proj1 Hw) as Hsort.
  exists l, kvs, bef, aft, s'. cbv zeta. split_and!; auto.
  unfold seek. rewrite (bind_Ret (st_put _) _ s0 tt [] eq_refl), (bind_Ret _ _ _ _ _ Hrun).
  destruct (kvs !! search_keys (keys kvs) key) as [x|] eqn:E.
  - by rewrite (keyValue_on _ _ _ _ (on_intro _ _ _ _ _ _ _ (Hs _) E)).
  - pose proof (search_split kvs key Hsort) as [_ Hlen]. rewrite E in Hlen. rewrite Hlen.
    rewrite (keyValue_end _ (flat_trees bef ++ kvs) (flat_trees aft)); [done|].
    exists l, kvs, bef, aft, s'. auto.
Qed.
End stacks.
