(* ===== verification/Cow.v ===== *)
(** * Bucket handles and copy-on-write (bucket.go)

    How a transaction opens a bucket, which root it reads, and how it copies a
    published node before the first write to it. *)
From S2P Require Import Prelude GoSort Stats World Node.
Local Open Scope st_scope.

(** [newBucket]: only write transactions get a dirty set. *)
Definition newBucket (t : tid) (name : bytes) : M bid :=
  let! tx := get_tx t in
  new_bkt (mkBucket t name None (if t_writable tx then Some ∅ else None) DefaultFillPercent).

(** [Bucket.baseState]: a missing map entry is a nil pointer. *)
Definition baseState (w : world) (b : Bucket) : option bucketState :=
  match w_txs w !! b_tx b with
  | Some tx =>
      match t_base tx with
      | Some st => mjoin (ds_buckets st !! b_name b)
      | None => None
      end
  | None => None
  end.

(** [Bucket.rootView]: the materialized root, else the published one. *)
Definition rootView (w : world) (b : Bucket) : option loc :=
  match b_rootNode b with
  | Some r => Some r
  | None => match baseState w b with Some bs => bs_root bs | None => None end
  end.

(** [Bucket.copyNode]: a shallow copy owned by the bucket, without parent. *)
Definition copyNode (b : bid) (orig : loc) : M loc :=
  let! o := get_node orig in
  new_node (mkNode (Some b) (n_isLeaf o) false false (n_key o) None (n_inodes o)).

(** [Bucket.writableRoot] *)
Definition writableRoot (b : bid) : M loc :=
  let! x := get_bkt b in
  match b_rootNode x with
  | Some r => st_ret r
  | None =>
      let! w := st_get in
      let! root :=
        match baseState w x with
        | Some (mkBucketState (Some r)) => copyNode b r
        | _ => new_node (mkNode (Some b) true false false [] None [])
        end in
      mark_dirty b root ;!
      upd_bkt b (set_b_rootNode (Some root)) ;!
      st_ret root
  end.

(** [parent.inodes[idx].child = c] *)
Definition set_child (idx : Z) (c : loc) (n : node) : node :=
  set_n_inodes
    (alter (λ i, mkInode (i_flags i) (i_key i) (i_value i) (Some c)) (Z.to_nat idx) (n_inodes n)) n.

(** [Bucket.childForWrite]: [dirty[nil]] is false, and copying nil panics. *)
Definition childForWrite (b : bid) (parent : loc) (idx : Z) : M loc :=
  let! p := get_node parent in
  let! i := st_index (n_inodes p) idx in
  let! x := get_bkt b in
  match i_child i with
  | Some child =>
      if isDirty x child then st_ret child
      else
        let! c := copyNode b child in
        upd_node c (set_n_parent (Some parent)) ;!
        mark_dirty b c ;!
        upd_node parent (set_child idx c) ;!
        st_ret c
  | None => st_panic PNilDeref
  end.

(** [node.childAt] *)
Definition childAt (n : loc) (index : Z) : M loc :=
  let! nd := get_node n in
  if n_isLeaf nd then st_panic PChildAtLeaf
  else let! b := st_deref (n_bucket nd) in childForWrite b n index.
