(* ===== verification/Bucket.v ===== *)
(** * Bucket operations and the public cursor methods (bucket.go, cursor.go)

    [Get], [Put], [Delete], [ForEach], the size walks and statistics of a bucket,
    and the cursor methods a user calls, on the whole program state. *)
From S2P Require Import Prelude GoSort Stats World Node KV Tree Cursor Cow.
Local Open Scope bytes_scope.
Local Open Scope st_scope.

Definition MaxKeySize : Z := 32768.
Definition MaxValueSize : Z := (2 ^ 31 - 2)%Z.

(** [Bucket.Cursor] *)
Definition Bucket_Cursor (b : bid) : M Cursor :=
  let! x := get_bkt b in
  tx_stat (b_tx x) (IncCursorCount 1) ;!
  st_ret (mkCursor (Some b) [] [] 0).

(** [Bucket.Tx], [Bucket.Name], [Bucket.Writable] *)
Definition Bucket_Tx (b : bid) : M tid := let! x := get_bkt b in st_ret (b_tx x).
Definition Bucket_Name (b : bid) : M bytes := let! x := get_bkt b in st_ret (b_name x).
Definition Bucket_Writable (b : bid) : M bool :=
  let! x := get_bkt b in let! tx := get_tx (b_tx x) in st_ret (t_writable tx).

(** Run a tree walk of a cursor of bucket [b] whose stack is [s]. *)
Definition walk {A} (b : bid) (s : list elemRef)
    (m : gmap loc node → option loc → CM A) : M (A * list elemRef) := λ w,
  match w_bkts w !! b with
  | None => (Panic PNilDeref, w)
  | Some x =>
      match m (w_nodes w) (rootView w x) s with
      | (Ret a, s') => (Ret (a, s'), w)
      | (Panic p, _) => (Panic p, w)
      | (Blocked, _) => (Blocked, w)
      | (NoFuel, _) => (NoFuel, w)
      end
  end.

(** The descent of [Cursor.node]: [n = n.childAt(ref.index)] for every reference
    below the top, from the root down. *)
Fixpoint cow_path (n : loc) (refs : list elemRef) : M loc :=
  match refs with
  | [] => st_ret n
  | ref :: refs' =>
      let! nd := get_node n in
      Assert (negb (n_isLeaf nd)) ;!
      let! c := childAt n (e_index ref) in
      cow_path c refs'
  end.

(** [Cursor.node] *)
Definition Cursor_node (b : bid) (s : list elemRef) : M loc :=
  Assert (0 <? length s) ;!
  let! n := writableRoot b in
  let! n := cow_path n (reverse (tail s)) in
  let! nd := get_node n in
  Assert (n_isLeaf nd) ;!
  st_ret n.

(** [node.put] and [node.del] through a pointer *)
Definition put_at (n : loc) (oldKey newKey : bytes) (value : option bytes)
    (child : option loc) (flags : Z) : M unit :=
  let! nd := get_node n in
  match node_put nd oldKey newKey value child flags with
  | Ret nd' => upd_node n (λ _, nd')
  | Panic p => st_panic p
  | Blocked => st_blocked
  | NoFuel => st_nofuel
  end.
Definition del_at (n : loc) (key : bytes) : M unit := upd_node n (λ nd, node_del nd key).

(** [type BucketStructure struct] *)
Inductive BucketStructure := mkBucketStructure (Name : bytes) (KeyCount : Z) (Children : list BucketStructure).

Section ops.
Context (fuel : nat).

(** [Bucket.Get] *)
Definition Get (b : bid) (key : bytes) : M (option bytes) :=
  Bucket_Cursor b ;!
  let! (r, _) := walk b [] (λ h root, seek h root fuel key) in
  match r with
  | Some (k, v, _) => st_ret (if Equal key k then v else None)
  | None => st_ret None
  end.

(** [Bucket.Put]: [Some e] is a returned error. *)
Definition Put (b : bid) (key value : bytes) : M (option err) :=
  let! x := get_bkt b in
  let! tx := get_tx (b_tx x) in
  if negb (t_db tx) then st_ret (Some ErrTxClosed)
  else if negb (t_writable tx) then st_ret (Some ErrTxNotWritable)
  else if (blen key =? 0)%Z then st_ret (Some ErrKeyRequired)
  else if (MaxKeySize <? blen key)%Z then st_ret (Some ErrKeyTooLarge)
  else if (MaxValueSize <? blen value)%Z then st_ret (Some ErrValueTooLarge)
  else
    Bucket_Cursor b ;!
    let! (_, s) := walk b [] (λ h root, seek h root fuel key) in
    let! n := Cursor_node b s in
    put_at n key key (Some value) None 0 ;!
    st_ret None.

(** [Bucket.Delete] *)
Definition Delete (b : bid) (key : bytes) : M (option err) :=
  let! x := get_bkt b in
  let! tx := get_tx (b_tx x) in
  if negb (t_db tx) then st_ret (Some ErrTxClosed)
  else if negb (t_writable tx) then st_ret (Some ErrTxNotWritable)
  else
    Bucket_Cursor b ;!
    let! (r, s) := walk b [] (λ h root, seek h root fuel key) in
    let k := match r with Some (k, _, _) => k | None => [] end in
    if negb (Equal key k) then st_ret None
    else
      let! n := Cursor_node b s in
      del_at n key ;!
      st_ret None.

(** The loop [for k, v := c.First(); k != nil; k, v = c.Next()] with a callback
    that threads its own state and may stop with an error. *)
Fixpoint each_loop {A} (fn : A → bytes → option bytes → A * option err)
    (h : gmap loc node) (rounds : nat) (r : option kvf) (acc : A) : CM (A * option err) :=
  match rounds with
  | O => st_nofuel
  | S rounds' =>
      match r with
      | None => st_ret (acc, None)
      | Some (k, v, _) =>
          match fn acc k v with
          | (acc', Some e) => st_ret (acc', Some e)
          | (acc', None) => let! r' := next h fuel in each_loop fn h rounds' r' acc'
          end
      end
  end.
Definition each {A} (fn : A → bytes → option bytes → A * option err) (acc : A)
    (h : gmap loc node) (root : option loc) : CM (A * option err) :=
  let! r := first h root fuel in each_loop fn h fuel r acc.

(** [Bucket.ForEach] *)
Definition Bucket_ForEach {A} (b : bid) (fn : A → bytes → option bytes → A * option err)
    (acc : A) : M (A * option err) :=
  let! x := get_bkt b in
  let! tx := get_tx (b_tx x) in
  if negb (t_db tx) then st_ret (acc, Some ErrTxClosed)
  else
    Bucket_Cursor b ;!
    let! (r, _) := walk b [] (each fn acc) in
    st_ret r.

(** [Bucket.Inspect] ([recursivelyInspect]): the name and the number of keys. *)
Definition Inspect (b : bid) : M BucketStructure :=
  let! x := get_bkt b in
  Bucket_Cursor b ;!
  let! (r, _) := walk b [] (each (λ n _ _, (n + 1, None))%Z 0%Z) in
  st_ret (mkBucketStructure (b_name x) r.1 []).

(** ** The public cursor methods *)

(** [Cursor.dirKeyValue] *)
Definition dirKeyValue (c : Cursor) : option (bytes * option bytes) :=
  if (c_dirIdx c <? 0)%Z || (Z.of_nat (length (c_dir c)) <=? c_dirIdx c)%Z then None
  else (λ n, (n, None)) <$> c_dir c !! Z.to_nat (c_dirIdx c).

Definition set_dirIdx (i : Z) (c : Cursor) : Cursor :=
  mkCursor (c_bucket c) (c_stack c) (c_dir c) i.
Definition set_stack (s : list elemRef) (c : Cursor) : Cursor :=
  mkCursor (c_bucket c) s (c_dir c) (c_dirIdx c).
Definition kv_of (r : option kvf) : option (bytes * option bytes) :=
  match r with Some (k, v, _) => Some (k, v) | None => None end.

(** [Cursor.Bucket]: nil in directory mode. *)
Definition Cursor_Bucket (c : Cursor) : option bid := c_bucket c.

(** A cursor method: directory mode moves [dirIdx], tree mode checks that the
    transaction is open and walks. *)
Definition cursor_method (dirmove : Cursor → Z) (m : gmap loc node → option loc → CM (option kvf))
    (c : Cursor) : M (option (bytes * option bytes) * Cursor) :=
  match c_bucket c with
  | None => let c' := set_dirIdx (dirmove c) c in st_ret (dirKeyValue c', c')
  | Some b =>
      let! x := get_bkt b in
      let! tx := get_tx (b_tx x) in
      Assert (t_db tx) ;!
      let! (r, s) := walk b (c_stack c) m in
      st_ret (kv_of r, set_stack s c)
  end.

Definition Cursor_First := cursor_method (λ _, 0%Z) (λ h root, first h root fuel).
Definition Cursor_Last :=
  cursor_method (λ c, if (length (c_dir c) =? 0) then 0%Z else (Z.of_nat (length (c_dir c)) - 1)%Z)
    (λ h root, tree_Last h root fuel).
Definition Cursor_Next := cursor_method (λ c, (c_dirIdx c + 1)%Z) (λ h root, next h fuel).
Definition Cursor_Prev := cursor_method (λ c, (c_dirIdx c - 1)%Z) (λ h root, prev h root fuel).
Definition Cursor_Seek (key : bytes) :=
  cursor_method (λ c, Z.of_nat (search_keys (c_dir c) key)) (λ h root, tree_Seek h root fuel key).

(** [Cursor.Delete] *)
Definition Cursor_Delete (c : Cursor) : M (option err) :=
  match c_bucket c with
  | None => st_ret (Some ErrIncompatibleValue)
  | Some b =>
      let! x := get_bkt b in
      let! tx := get_tx (b_tx x) in
      if negb (t_db tx) then st_ret (Some ErrTxClosed)
      else if negb (t_writable tx) then st_ret (Some ErrTxNotWritable)
      else
        let! (r, _) := walk b (c_stack c) (λ h root, keyValue h) in
        let k := match r with Some (k, _, _) => k | None => [] end in
        let! n := Cursor_node b (c_stack c) in
        del_at n k ;!
        st_ret None
  end.

(** ** Walks over all nodes of a bucket *)

(** [Bucket.forEachNodeDFS], folding [fn] over the nodes in visiting order. *)
Fixpoint forEachNodeDFS {A} (rounds : nat) (h : gmap loc node) (fn : A → node → Z → A)
    (n : option loc) (depth : Z) (acc : A) : res A :=
  match rounds with
  | O => NoFuel
  | S r =>
      match n ≫= (λ l, h !! l) with
      | None => Panic PNilDeref
      | Some nd =>
          let acc := fn acc nd depth in
          if n_isLeaf nd then Ret acc
          else
            (fix go (l : list inode) (acc : A) : res A :=
               match l with
               | [] => Ret acc
               | i :: l' =>
                   match forEachNodeDFS r h fn (i_child i) (depth + 1) acc with
                   | Ret acc' => go l' acc'
                   | e => e
                   end
               end) (n_inodes nd) acc
      end
  end.

(** [type BucketStats struct] *)
Record BucketStats := mkBucketStats {
  KeyN : Z;
  Depth : Z;
  BranchInuse : Z;
  LeafInuse : Z
}.

(** [BucketStats.Add] *)
Definition BucketStats_Add (s other : BucketStats) : BucketStats :=
  mkBucketStats (KeyN s + KeyN other)
    (if (Depth s <? Depth other)%Z then Depth other else Depth s)
    (BranchInuse s + BranchInuse other) (LeafInuse s + LeafInuse other).

(** The callback of [Bucket.Stats]; [uintptr] sums of lengths do not wrap. *)
Definition stats_node (s : BucketStats) (n : node) (depth : Z) : BucketStats :=
  let s :=
    if n_isLeaf n then
      mkBucketStats (KeyN s + Z.of_nat (length (n_inodes n))) (Depth s) (BranchInuse s)
        (LeafInuse s + node_size n)
    else
      mkBucketStats (KeyN s) (Depth s)
        (BranchInuse s +
           fold_left (λ u i, (u + nodeInodeOverheadBytes + blen (i_key i))%Z) (n_inodes n)
             nodeHeaderOverheadBytes)
        (LeafInuse s) in
  mkBucketStats (KeyN s) (if (Depth s <? depth + 1)%Z then (depth + 1)%Z else Depth s)
    (BranchInuse s) (LeafInuse s).

(** [Bucket.forEachNode], [Bucket.Stats] and [Bucket.size] *)
Definition forEachNode {A} (w : world) (b : Bucket) (fn : A → node → Z → A) (acc : A) : res A :=
  match rootView w b with
  | None => Ret acc
  | Some root => forEachNodeDFS fuel (w_nodes w) fn (Some root) 0 acc
  end.
Definition Bucket_Stats (w : world) (b : Bucket) : res BucketStats :=
  forEachNode w b stats_node (mkBucketStats 0 0 0 0).
Definition Bucket_size (w : world) (b : Bucket) : res Z :=
  forEachNode w b (λ sz n _, (sz + node_size n)%Z) 0%Z.
End ops.
