(* ===== verification/Spill.v ===== *)
(** * Committing a bucket's tree: rebalance, split, finalize, publish
    (node.go, bucket.go)

    The structural half of a commit.  Nodes are visited through pointers, the
    recursions of the source (into children, into the parent) are kept, and
    [fuel] bounds their depth.  The order in which Go ranges over a map is not
    specified, so the loops over dirty sets and bucket tables take it as an
    argument. *)
From S2P Require Import Prelude GoSort Stats World Node Cursor Cow Bucket.
Local Open Scope st_scope.

(** An iteration order for Go's [range] over the dirty set and the bucket map
    (the three loops of [Tx.Commit] may each use a different one). *)
Record iteration := mkIteration {
  it_nodes : gset loc → list loc;
  it_bkts : nat → gmap bytes bid → list (bytes * bid)
}.

(** The orders Go may choose: every entry once. *)
Definition fair (it : iteration) : Prop :=
  (∀ d, it_nodes it d ≡ₚ elements d) ∧ (∀ k m, it_bkts it k m ≡ₚ map_to_list m).

(** One such order. *)
Definition std_iteration : iteration :=
  mkIteration elements (λ _, map_to_list).

Lemma std_iteration_fair : fair std_iteration.
Proof. split; done. Qed.

(** [node.splitTwo] *)
Definition splitTwo (n : loc) : M (loc * option loc) :=
  let! nd := get_node n in
  if noSplit nd then st_ret (n, None)
  else
    let! b := st_deref (n_bucket nd) in
    let! x := get_bkt b in
    let i := (splitIndex nd (splitThreshold (b_FillPercent x))).1 in
    (match n_parent nd with
     | Some _ => st_ret tt
     | None =>
         let! p := new_node (mkNode (Some b) false false false [] None []) in
         upd_node n (set_n_parent (Some p)) ;!
         mark_dirty b p
     end) ;!
    let! nd := get_node n in
    let! next := new_node (mkNode (Some b) (n_isLeaf nd) false false [] (n_parent nd) []) in
    mark_dirty b next ;!
    upd_node n (set_n_inodes (take i (n_inodes nd))) ;!
    upd_node next (set_n_inodes (drop i (n_inodes nd))) ;!
    tx_stat (b_tx x) (IncSplit 1) ;!
    st_ret (n, Some next).

(** [node.split] *)
Fixpoint split (rounds : nat) (n : loc) : M (list loc) :=
  match rounds with
  | O => st_nofuel
  | S r =>
      let! (a, b) := splitTwo n in
      match b with
      | None => st_ret [a]
      | Some n' => let! l := split r n' in st_ret (a :: l)
      end
  end.

(** The first loop of [node.finalize]: [for i := range n.inodes] fixes the number
    of rounds at the start but reads [n.inodes[i]] afresh in each. *)
Fixpoint finalize_children (fin : loc → M (option err)) (n : loc) (i rounds : nat)
    : M (option err) :=
  match rounds with
  | O => st_ret None
  | S r =>
      let! nd := get_node n in
      let! ind := st_index (n_inodes nd) (Z.of_nat i) in
      match i_child ind with
      | None => finalize_children fin n (S i) r
      | Some c =>
          let! b := st_deref (n_bucket nd) in
          let! x := get_bkt b in
          if isDirty x c then
            let! e := fin c in
            match e with
            | Some _ => st_ret e
            | None => finalize_children fin n (S i) r
            end
          else finalize_children fin n (S i) r
      end
  end.

(** The body of the second loop of [node.finalize]: link one split result into
    its parent. *)
Definition finalize_link (t : tid) (n : loc) : M unit :=
  upd_node n (set_n_spilled true) ;!
  let! nd := get_node n in
  (match n_parent nd with
   | None => st_ret tt
   | Some p =>
       let! key :=
         if (blen (n_key nd) =? 0)%Z then
           match n_inodes nd with
           | [] => st_panic PFinalizeNoInodes
           | i :: _ => st_ret (i_key i)
           end
         else st_ret (n_key nd) in
       if (blen key =? 0)%Z then st_panic PFinalizeZeroKey
       else
         let! i0 := st_index (n_inodes nd) 0 in
         put_at p key (i_key i0) None (Some n) 0 ;!
         upd_node n (set_n_key (i_key i0)) ;!
         Assert (negb (blen (i_key i0) =? 0)%Z)
   end) ;!
  tx_stat t (IncSpill 1).

(** [node.finalize] *)
Fixpoint finalize (fuel : nat) (n : loc) : M (option err) :=
  match fuel with
  | O => st_nofuel
  | S r =>
      let! nd := get_node n in
      let! b := st_deref (n_bucket nd) in
      let! x := get_bkt b in
      if n_spilled nd then st_ret None
      else
        let! e := finalize_children (finalize r) n 0 (length (n_inodes nd)) in
        match e with
        | Some _ => st_ret e
        | None =>
            let! nd := get_node n in
            let! nodes := split (S (length (n_inodes nd))) n in
            st_iter (finalize_link (b_tx x)) nodes ;!
            let! nd := get_node n in
            match n_parent nd with
            | None => st_ret None
            | Some p =>
                let! pn := get_node p in
                if n_spilled pn then st_ret None else finalize r p
            end
        end
  end.

(** [node.nextSibling] and [node.prevSibling] *)
Definition nextSibling (n : loc) : M (option loc) :=
  let! nd := get_node n in
  match n_parent nd with
  | None => st_ret None
  | Some p =>
      let! pn := get_node p in
      let index := childIndex pn (n_key nd) in
      if (Z.of_nat (numChildren pn) - 1 <=? Z.of_nat index)%Z then st_ret None
      else let! c := childAt p (Z.of_nat index + 1) in st_ret (Some c)
  end.
Definition prevSibling (n : loc) : M (option loc) :=
  let! nd := get_node n in
  match n_parent nd with
  | None => st_ret None
  | Some p =>
      let! pn := get_node p in
      let index := childIndex pn (n_key nd) in
      if index =? 0 then st_ret None
      else let! c := childAt p (Z.of_nat index - 1) in st_ret (Some c)
  end.

(** [for _, inode := range l { if inode.child != nil && b.dirty[inode.child]
    { inode.child.parent = p } }], with [b] the bucket of the node [owner]. *)
Definition reparent (owner : loc) (l : list inode) (p : loc) : M unit :=
  st_iter (λ i,
    match i_child i with
    | None => st_ret tt
    | Some c =>
        let! nd := get_node owner in
        let! b := st_deref (n_bucket nd) in
        let! x := get_bkt b in
        if isDirty x c then upd_node c (set_n_parent (Some p)) else st_ret tt
    end) l.

(** [node.rebalance] *)
Fixpoint rebalance (fuel : nat) (n : loc) : M unit :=
  match fuel with
  | O => st_nofuel
  | S r =>
      let! nd := get_node n in
      if negb (n_unbalanced nd) then st_ret tt
      else
        upd_node n (set_n_unbalanced false) ;!
        let! b := st_deref (n_bucket nd) in
        let! x := get_bkt b in
        tx_stat (b_tx x) (IncRebalance 1) ;!
        if (defaultMinNodeMergeBytes <? node_size nd)%Z && (minKeys nd <? length (n_inodes nd))
        then st_ret tt
        else
          match n_parent nd with
          | None =>
              if negb (n_isLeaf nd) && (length (n_inodes nd) =? 1) then
                let! child := childAt n 0 in
                let! cn := get_node child in
                upd_node n (set_n_isLeaf (n_isLeaf cn)) ;!
                upd_node n (set_n_inodes (n_inodes cn)) ;!
                reparent n (n_inodes cn) n ;!
                upd_node child (set_n_parent None)
              else st_ret tt
          | Some p =>
              if numChildren nd =? 0 then
                del_at p (n_key nd) ;! rebalance r p
              else
                let! pn := get_node p in
                Assert (1 <? numChildren pn) ;!
                let! (leftNode, rightNode) :=
                  if childIndex pn (n_key nd) =? 0
                  then (let! s := nextSibling n in st_ret (Some n, s))
                  else (let! s := prevSibling n in st_ret (s, Some n)) in
                let! rightNode := st_deref rightNode in
                let! rn := get_node rightNode in
                let! leftNode := st_deref leftNode in
                reparent rightNode (n_inodes rn) leftNode ;!
                upd_node leftNode (λ ln, set_n_inodes (n_inodes ln ++ n_inodes rn) ln) ;!
                del_at p (n_key rn) ;!
                rebalance r p
          end
  end.

(** [node.root] *)
Fixpoint root (fuel : nat) (n : loc) : M loc :=
  match fuel with
  | O => st_nofuel
  | S r =>
      let! nd := get_node n in
      match n_parent nd with
      | None => st_ret n
      | Some p => root r p
      end
  end.

(** [Bucket.spill] *)
Definition Bucket_spill (fuel : nat) (b : bid) : M (option err) :=
  let! x := get_bkt b in
  match b_rootNode x with
  | None => st_ret None
  | Some r =>
      let! e := finalize fuel r in
      match e with
      | Some _ => st_ret e
      | None =>
          let! r' := root fuel r in
          upd_bkt b (set_b_rootNode (Some r')) ;!
          st_ret None
      end
  end.

(** [Bucket.rebalance].  Entries added to the map during the loop may or may not
    be visited; they are fresh copies that are not marked unbalanced, on which
    [rebalance] does nothing, so the order covers the entries at the start. *)
Definition Bucket_rebalance (it : iteration) (fuel : nat) (b : bid) : M unit :=
  let! x := get_bkt b in
  match b_dirty x with
  | None => st_ret tt
  | Some d => st_iter (rebalance fuel) (it_nodes it d)
  end.

(** [Bucket.detachPublishedNodes] *)
Definition detachPublishedNodes (b : bid) : M unit :=
  let! x := get_bkt b in
  st_iter (λ n, upd_node n (λ nd, set_n_parent None (set_n_bucket None nd)))
    (match b_dirty x with Some d => elements d | None => [] end) ;!
  upd_bkt b (λ x, set_b_dirty None (set_b_rootNode None x)).

(** [Bucket.publishRoot] *)
Definition publishRoot (b : bid) : M (option bucketState) :=
  let! x := get_bkt b in
  match b_rootNode x with
  | None => let! w := st_get in st_ret (baseState w x)
  | Some r =>
      detachPublishedNodes b ;!
      st_ret (Some (mkBucketState (Some r)))
  end.
