(* ===== verification/Tx.v ===== *)
(** * Transactions (tx.go)

    The bucket directory of a transaction (open, create, delete, enumerate), the
    directory cursor, the size estimate, commit and rollback. *)
From S2P Require Import Prelude GoSort Stats World Node Cursor Cow Bucket Spill.
Local Open Scope st_scope.

(** [Tx.DB] (whether it is non-nil), [Tx.Writable], [Tx.Stats] *)
Definition Tx_DB (t : tid) : M bool := let! tx := get_tx t in st_ret (t_db tx).
Definition Tx_Writable (t : tid) : M bool := let! tx := get_tx t in st_ret (t_writable tx).
Definition Tx_Stats (t : tid) : M TxStats := let! tx := get_tx t in st_ret (t_stats tx).

(** [tx.base], which is nil once the transaction is closed *)
Definition base_buckets (tx : Tx) : M (gmap bytes (option bucketState)) :=
  let! st := st_deref (t_base tx) in st_ret (ds_buckets st).

(** [Tx.bucketExistsCommitted]: the map has the key, even with a nil value. *)
Definition bucketExistsCommitted (tx : Tx) (key : bytes) : M bool :=
  let! bs := base_buckets tx in
  st_ret (bool_decide (is_Some (bs !! key))).

(** [Tx.putBctx] *)
Definition putBctx (t : tid) (key : bytes) (b : bid) : M unit :=
  upd_tx t (λ tx, set_t_bctx (<[key := b]> (t_bctx tx)) tx).

(** [Tx.Bucket]; [None] is nil. *)
Definition Tx_Bucket (t : tid) (name : bytes) : M (option bid) :=
  let! tx := get_tx t in
  if negb (t_db tx) then st_ret None
  else
    match t_bctx tx !! name with
    | Some b => st_ret (Some b)
    | None =>
        if bool_decide (name ∈ t_deleted tx) then st_ret None
        else
          let! bs := base_buckets tx in
          match mjoin (bs !! name) with
          | None => st_ret None
          | Some _ =>
              let! b := newBucket t name in
              putBctx t name b ;!
              st_ret (Some b)
          end
    end.

(** [Tx.CreateBucket] *)
Definition CreateBucket (t : tid) (name : bytes) : M (err + bid) :=
  let! tx := get_tx t in
  if negb (t_db tx) then st_ret (inl ErrTxClosed)
  else if negb (t_writable tx) then st_ret (inl ErrTxNotWritable)
  else if length name =? 0 then st_ret (inl ErrBucketNameRequired)
  else
    let! exists_ :=
      if bool_decide (name ∈ t_deleted tx) then st_ret false
      else if bool_decide (name ∈ t_created tx) then st_ret true
      else bucketExistsCommitted tx name in
    if (exists_ : bool) then st_ret (inl ErrBucketExists)
    else
      let! b := newBucket t name in
      let! root := new_node (mkNode (Some b) true false false [] None []) in
      upd_bkt b (set_b_rootNode (Some root)) ;!
      mark_dirty b root ;!
      upd_tx t (λ tx, set_t_created ({[name]} ∪ t_created tx) tx) ;!
      upd_tx t (λ tx, set_t_deleted (t_deleted tx ∖ {[name]}) tx) ;!
      putBctx t name b ;!
      st_ret (inr b).

(** [Tx.CreateBucketIfNotExists] *)
Definition CreateBucketIfNotExists (t : tid) (name : bytes) : M (err + bid) :=
  let! tx := get_tx t in
  if negb (t_db tx) then st_ret (inl ErrTxClosed)
  else if negb (t_writable tx) then st_ret (inl ErrTxNotWritable)
  else if length name =? 0 then st_ret (inl ErrBucketNameRequired)
  else
    let! ob := Tx_Bucket t name in
    match ob with
    | Some b => st_ret (inr b)
    | None => CreateBucket t name
    end.

(** [Tx.DeleteBucket] *)
Definition DeleteBucket (t : tid) (name : bytes) : M (option err) :=
  let! tx := get_tx t in
  if negb (t_db tx) then st_ret (Some ErrTxClosed)
  else if negb (t_writable tx) then st_ret (Some ErrTxNotWritable)
  else if bool_decide (name ∈ t_created tx) then
    upd_tx t (λ tx, set_t_created (t_created tx ∖ {[name]}) tx) ;!
    upd_tx t (λ tx, set_t_bctx (delete name (t_bctx tx)) tx) ;!
    st_ret None
  else
    let! ex := bucketExistsCommitted tx name in
    if negb ex then st_ret (Some ErrBucketNotFound)
    else
      upd_tx t (λ tx, set_t_deleted ({[name]} ∪ t_deleted tx) tx) ;!
      upd_tx t (λ tx, set_t_bctx (delete name (t_bctx tx)) tx) ;!
      st_ret None.

(** The names [Tx.Cursor] lists: base names and created names, minus deleted. *)
Definition dir_names (tx : Tx) (base : gmap bytes (option bucketState)) : gset bytes :=
  (dom base ∪ t_created tx) ∖ t_deleted tx.

(** [Tx.Cursor] *)
Definition Tx_Cursor (t : tid) : M Cursor :=
  let! tx := get_tx t in
  if negb (t_db tx) then st_ret (mkCursor None [] [] 0)
  else
    let! base := base_buckets tx in
    st_ret (mkCursor None [] (sort_Strings (elements (dir_names tx base))) (-1)).

(** [Tx.ForEach]: sorted names, repeats skipped with [seen]; the callback is the
    caller's code, [A] the variables it captures. *)
Fixpoint Tx_each {A} (t : tid) (fn : A → bytes → option bid → M (A * option err))
    (names : list bytes) (seen : gset bytes) (acc : A) : M (A * option err) :=
  match names with
  | [] => st_ret (acc, None)
  | n :: names' =>
      if bool_decide (n ∈ seen) then Tx_each t fn names' seen acc
      else
        let! b := Tx_Bucket t n in
        let! (acc, e) := fn acc n b in
        match e with
        | Some _ => st_ret (acc, e)
        | None => Tx_each t fn names' ({[n]} ∪ seen) acc
        end
  end.
Definition Tx_ForEach {A} (t : tid) (fn : A → bytes → option bid → M (A * option err)) (acc : A) : M (A * option err) :=
  let! tx := get_tx t in
  if negb (t_db tx) then st_ret (acc, Some ErrTxClosed)
  else
    let! base := base_buckets tx in
    let names := filter (λ n, n ∉ t_deleted tx) (elements (dom base)) ++ elements (t_created tx) in
    Tx_each t fn (sort_Strings names) ∅ acc.

(** [Tx.Inspect]: a structure named "root" over the structures of the buckets. *)
Definition root_name : bytes := [x72; x6f; x6f; x74].
Definition Tx_Inspect (fuel : nat) (t : tid) : M BucketStructure :=
  let! (children, _) :=
    Tx_ForEach t (λ cs _ ob, let! b := st_deref ob in let! s := Inspect fuel b in st_ret (cs ++ [s], None)) [] in
  st_ret (mkBucketStructure root_name 0 children).

(** [Tx.OnCommit] *)
Definition OnCommit (t : tid) (handler : nat) : M unit :=
  upd_tx t (λ tx, set_t_commitHandlers (t_commitHandlers tx ++ [handler]) tx).

(** [bucketStateSize] *)
Definition bucketStateSize (fuel : nat) (w : world) (st : option bucketState) : res Z :=
  match st with
  | Some (mkBucketState (Some root)) =>
      forEachNodeDFS fuel (w_nodes w) (λ sz n _, (sz + node_size n)%Z) (Some root) 0 0%Z
  | _ => Ret 0%Z
  end.

Definition res_add (a b : res Z) : res Z :=
  match a, b with Ret x, Ret y => Ret (x + y)%Z | Ret _, e => e | e, _ => e end.

(** [Tx.Size]: the published buckets (their transaction-local view if opened),
    then the transaction-local buckets not seen yet. *)
Definition Tx_Size (fuel : nat) (w : world) (tx : Tx) : res Z :=
  match t_base tx with
  | None => Panic PNilDeref
  | Some st =>
      let live := filter (λ p, p.1 ∉ t_deleted tx) (map_to_list (ds_buckets st)) in
      let size_of (b : bid) :=
        match w_bkts w !! b with Some x => Bucket_size fuel w x | None => Panic PNilDeref end in
      let sz1 := fold_left (λ acc (p : bytes * option bucketState),
        res_add acc
          (match t_bctx tx !! p.1 with
           | Some b => size_of b
           | None => bucketStateSize fuel w p.2
           end)) live (Ret 0%Z) in
      fold_left (λ acc (p : bytes * bid),
        if bool_decide (p.1 ∈ live.*1) then acc else res_add acc (size_of p.2))
        (map_to_list (t_bctx tx)) sz1
  end.

(** [DB.removeTx] *)
Definition removeTx (tx : Tx) : M unit :=
  upd_db (λ d,
    match db_stats d with
    | None => d
    | Some s =>
        set_db_stats
          (Some (mkStats (TxStats_add (st_TxStats s) (t_stats tx)) (TxN s) (wrap64 (OpenTxN s - 1)))) d
    end).

(** [Tx.close] *)
Definition Tx_close (t : tid) : M unit :=
  let! tx := get_tx t in
  if negb (t_db tx) then st_ret tt
  else
    (if t_writable tx then
       upd_db (λ d,
         match db_stats d with
         | None => d
         | Some s =>
             set_db_stats (Some (mkStats (TxStats_add (st_TxStats s) (t_stats tx)) (TxN s) (OpenTxN s))) d
         end) ;!
       upd_db (set_db_rwlock false)
     else removeTx tx) ;!
    upd_tx t (λ tx,
      mkTx (t_writable tx) (t_managed tx) false None ∅ ∅ ∅ (t_stats tx) (t_commitHandlers tx)).

(** [Tx.rollback] and [Tx.Rollback] *)
Definition rollback (t : tid) : M unit :=
  let! tx := get_tx t in
  if negb (t_db tx) then st_ret tt else Tx_close t.
Definition Rollback (t : tid) : M (option err) :=
  let! tx := get_tx t in
  Assert (negb (t_managed tx)) ;!
  if negb (t_db tx) then st_ret (Some ErrTxClosed)
  else rollback t ;! st_ret None.

Section commit.
Context (it : iteration) (fuel : nat).
(* durations measured by time.Since during the commit *)
Context (rebalanceTime spillTime : Z).

(** The second loop of [Tx.Commit]: spill every opened bucket. *)
Fixpoint spill_all (t : tid) (bs : list (bytes * bid)) : M (option err) :=
  match bs with
  | [] => st_ret None
  | (_, b) :: bs' =>
      let! e := Bucket_spill fuel b in
      match e with
      | Some _ => rollback t ;! st_ret e
      | None => spill_all t bs'
      end
  end.

(** The loop of [Tx.Commit] that fills the new bucket map. *)
Fixpoint publish_all (deleted : gset bytes) (bs : list (bytes * bid))
    (acc : gmap bytes (option bucketState)) : M (gmap bytes (option bucketState)) :=
  match bs with
  | [] => st_ret acc
  | (name, b) :: bs' =>
      if bool_decide (name ∈ deleted) then publish_all deleted bs' acc
      else
        let! st := publishRoot b in
        publish_all deleted bs' (<[name := st]> acc)
  end.

(** [Tx.Commit] (the logger calls apart) *)
Definition Commit (t : tid) : M (option err) :=
  let! tx := get_tx t in
  Assert (negb (t_managed tx)) ;!
  if negb (t_db tx) then st_ret (Some ErrTxClosed)
  else if negb (t_writable tx) then st_ret (Some ErrTxNotWritable)
  else
    st_iter (λ p, Bucket_rebalance it fuel p.2) (it_bkts it 0 (t_bctx tx)) ;!
    (let! tx := get_tx t in
     if (0 <? Rebalance (t_stats tx))%Z then tx_stat t (IncRebalanceTime rebalanceTime)
     else st_ret tt) ;!
    let! e := spill_all t (it_bkts it 1 (t_bctx tx)) in
    match e with
    | Some _ => st_ret e
    | None =>
        tx_stat t (IncSpillTime spillTime) ;!
        let! base := base_buckets tx in
        let live := set_fold delete base (t_deleted tx) in
        let! newBuckets := publish_all (t_deleted tx) (it_bkts it 2 (t_bctx tx)) live in
        upd_db (set_db_state (Some (mkDbState newBuckets))) ;!
        Tx_close t ;!
        let! tx := get_tx t in
        st_modify (λ w, set_fired (w_fired w ++ t_commitHandlers tx) w) ;!
        st_ret None
    end.
End commit.
