(* ===== verification/DB.v ===== *)
(** * The database (db.go): begin, managed transactions, open and close

    The writer lock is a flag of the database; taking it while it is held blocks.
    A user's transaction function is an arbitrary computation on the program
    state. *)
From S2P Require Import Prelude GoSort Stats World Node Cursor Cow Bucket Spill Tx.
Local Open Scope st_scope.

(** [db.rwlock.Lock] and [Unlock] *)
Definition lock : M unit :=
  let! d := get_db in
  if db_rwlock d then st_blocked else upd_db (set_db_rwlock true).
Definition unlock : M unit := upd_db (set_db_rwlock false).

(** [DB.beginTx] *)
Definition beginTx : M (err + tid) :=
  let! d := get_db in
  if negb (db_opened d) then st_ret (inl ErrDatabaseNotOpen)
  else
    match db_state d with
    | None => st_ret (inl ErrDatabaseNotOpen)
    | Some base =>
        let! t := new_tx (mkTx false false true (Some base) ∅ ∅ ∅ TxStats_zero []) in
        upd_db (λ d,
          match db_stats d with
          | None => d
          | Some s => set_db_stats (Some (mkStats (st_TxStats s) (wrap64 (TxN s + 1)) (wrap64 (OpenTxN s + 1)))) d
          end) ;!
        st_ret (inr t)
    end.

(** [DB.beginRWTx] *)
Definition beginRWTx : M (err + tid) :=
  let! d := get_db in
  if db_readOnly d then st_ret (inl ErrDatabaseReadOnly)
  else
    lock ;!
    let! d := get_db in
    if negb (db_opened d) then unlock ;! st_ret (inl ErrDatabaseNotOpen)
    else
      match db_state d with
      | None => unlock ;! st_ret (inl ErrDatabaseNotOpen)
      | Some base =>
          let! t := new_tx (mkTx true false true (Some base) ∅ ∅ ∅ TxStats_zero []) in
          st_ret (inr t)
      end.

(** [DB.Begin] *)
Definition Begin (writable : bool) : M (err + tid) :=
  if writable then beginRWTx else beginTx.

(** [defer func() { if t.db != nil { t.rollback() } }()] around a body: it runs on
    return and on panic. *)
Definition with_rollback {A} (t : tid) (body : M A) : M A := λ w,
  match body w with
  | (Ret a, w') => (let! _ := rollback t in st_ret a) w'
  | (Panic p, w') => (let! _ := rollback t in st_panic p) w'
  | (Blocked, w') => (Blocked, w')
  | (NoFuel, w') => (NoFuel, w')
  end.

Section managed.
Context (it : iteration) (fuel : nat) (rebalanceTime spillTime : Z).

(** [DB.Update] *)
Definition Update (fn : tid → M (option err)) : M (option err) :=
  let! r := Begin true in
  match r with
  | inl e => st_ret (Some e)
  | inr t =>
      with_rollback t (
        upd_tx t (set_t_managed true) ;!
        let! e := fn t in
        upd_tx t (set_t_managed false) ;!
        match e with
        | Some err => let! _ := Rollback t in st_ret (Some err)
        | None => Commit it fuel rebalanceTime spillTime t
        end)
  end.

(** [DB.View] *)
Definition View (fn : tid → M (option err)) : M (option err) :=
  let! r := Begin false in
  match r with
  | inl e => st_ret (Some e)
  | inr t =>
      with_rollback t (
        upd_tx t (set_t_managed true) ;!
        let! e := fn t in
        upd_tx t (set_t_managed false) ;!
        match e with
        | Some err => let! _ := Rollback t in st_ret (Some err)
        | None => Rollback t
        end)
  end.
End managed.

(** [DB.close] and [DB.Close] *)
Definition DB_close : M unit :=
  let! d := get_db in
  if negb (db_opened d) then st_ret tt
  else upd_db (λ d, set_db_state None (set_db_opened false d)).
Definition DB_Close : M unit := lock ;! DB_close ;! unlock.

(** [DB.init] *)
Definition DB_init : M unit := upd_db (set_db_state (Some (mkDbState ∅))).

(** [type Options struct] without the logger *)
Record Options := mkOptions { ReadOnly : bool; NoStatistics : bool }.
Definition DefaultOptions : Options := mkOptions false false.

(** The state before [Open]: nothing allocated, the zero [DB]. *)
Definition empty_world : world :=
  mkWorld ∅ 1 ∅ 1 ∅ 1 (mkDB false None None false false) [].

(** [Open] up to the snapshot file ([Snapshot.v] has the rest): the fields set
    from the options, [init], and the opened flag. *)
Definition open_mem (options : option Options) : M unit :=
  let o := match options with Some o => o | None => DefaultOptions end in
  upd_db (λ d, mkDB (db_opened d) (if NoStatistics o then None else Some Stats_zero)
                 (db_state d) (db_rwlock d) (ReadOnly o)) ;!
  DB_init ;!
  upd_db (set_db_opened true).

(** [DB.Stats] and [DB.IsReadOnly] *)
Definition DB_Stats : M Stats :=
  let! d := get_db in
  st_ret (match db_stats d with Some s => s | None => Stats_zero end).
Definition IsReadOnly : M bool := st_gets (λ w, db_readOnly (w_db w)).
