(* ===== verification/Snapshot.v ===== *)
(** * BMSP snapshots (snapshot.go) and opening a database from one (db.go)

    The serializer walks the directory cursor and every bucket and hands the
    pieces to a writer of the caller; the reader rebuilds the buckets in one
    managed transaction.  Readers consume a byte list; [io.ReadFull] fails with [EOF] on an empty stream and with
    [ErrUnexpectedEOF] on a short one.  [maxAlloc] is the largest length [make]
    accepts on the platform. *)
From S2P Require Import Prelude GoSort Stats World Node Cursor Cow Bucket Spill Tx DB.
Local Open Scope st_scope.

(** ** Little-endian integers ([encoding/binary]) *)

(** [PutUint32]/[PutUint64]: [n] bytes, least significant first. *)
Definition byte_of_Z (z : Z) : byte :=
  match Byte.of_N (Z.to_N (z mod 256)) with Some b => b | None => x00 end.
Fixpoint le_bytes (n : nat) (z : Z) : bytes :=
  match n with
  | O => []
  | S n' => byte_of_Z z :: le_bytes n' (z / 256)%Z
  end.
(** [Uint32]/[Uint64] *)
Fixpoint le_Z (l : bytes) : Z :=
  match l with
  | [] => 0%Z
  | b :: l' => (Z.of_N (Byte.to_N b) + 256 * le_Z l')%Z
  end.

(** [uint32(len(x))] and [uint64(len(x))] encoded *)
Definition put_u32 (z : Z) : bytes := le_bytes 4 (z mod 2 ^ 32).
Definition put_u64 (z : Z) : bytes := le_bytes 8 (z mod 2 ^ 64).

Definition snapshotMagic : bytes := [x42; x4d; x53; x50].
Definition snapshotVersion : Z := 1.

(** The 16-byte header *)
Definition snapshot_header : bytes :=
  snapshotMagic ++ put_u32 snapshotVersion ++ put_u32 0 ++ put_u32 0.

(** ** Writing *)

(** An [io.Writer] of the caller: [Write(p)] returns a count and an error. *)
Class Writer (W : Type) := wr_Write : bytes → W → (Z * option err) * W.

(** A [bytes.Buffer] *)
#[export] Instance buffer_writer : Writer bytes := λ p out, ((blen p, None), out ++ p).

Section serialize.
Context {W : Type} `{!Writer W}.

(** [type byteCounter struct] and its [Write] *)
Record byteCounter := mkByteCounter { bc_w : W; bc_n : Z }.
Definition byteCounter_Write (p : bytes) (c : byteCounter) : byteCounter * option err :=
  let '((nn, e), w) := wr_Write p (bc_w c) in (mkByteCounter w (wrap64 (bc_n c + nn)), e).

(** A run of [if _, err := cw.Write(p); err != nil { return err }]. *)
Fixpoint write_all (ps : list bytes) (cw : byteCounter) : byteCounter * option err :=
  match ps with
  | [] => (cw, None)
  | p :: ps' =>
      match byteCounter_Write p cw with
      | (cw', Some e) => (cw', Some e)
      | (cw', None) => write_all ps' cw'
      end
  end.

(** The callback of [b.ForEach] in [serializeSnapshot]: one pair. *)
Definition put_pair (cw : byteCounter) (k : bytes) (v : option bytes) : byteCounter * option err :=
  let v := match v with Some v => v | None => [] end in
  write_all [put_u32 (blen k); k; put_u64 (blen v); v] cw.

(** The body of the loop over the directory cursor, for one bucket. *)
Definition put_bucket (fuel : nat) (b : bid) (name : bytes) (cw : byteCounter) : M (byteCounter * option err) :=
  match write_all [put_u32 (blen name); name] cw with
  | (cw, Some e) => st_ret (cw, Some e)
  | (cw, None) =>
      let! (cw, e) := Bucket_ForEach fuel b put_pair cw in
      match e with
      | Some _ => st_ret (cw, e)
      | None => st_ret (write_all [put_u32 0] cw)
      end
  end.

(** [for name, _ := cur.First(); name != nil; name, _ = cur.Next()]; a name whose
    bucket is nil is skipped. *)
Fixpoint serialize_buckets (fuel rounds : nat) (t : tid) (c : Cursor)
    (cur : option (bytes * option bytes)) (cw : byteCounter) : M (byteCounter * option err) :=
  match rounds with
  | O => st_nofuel
  | S r =>
      match cur with
      | None => st_ret (cw, None)
      | Some (name, _) =>
          let! ob := Tx_Bucket t name in
          let! (cw, e) :=
            match ob with
            | None => st_ret (cw, None)
            | Some b => put_bucket fuel b name cw
            end in
          match e with
          | Some _ => st_ret (cw, e)
          | None =>
              let! (cur, c) := Cursor_Next fuel c in
              serialize_buckets fuel r t c cur cw
          end
      end
  end.

(** [Tx.serializeSnapshot]: the writer afterwards, the count and the error. *)
Definition serializeSnapshot (fuel : nat) (t : tid) (w : W) : M (W * Z * option err) :=
  match byteCounter_Write snapshot_header (mkByteCounter w 0) with
  | (cw, Some e) => st_ret (bc_w cw, bc_n cw, Some e)
  | (cw, None) =>
      let! c := Tx_Cursor t in
      let! (cur, c) := Cursor_First fuel c in
      let! (cw, e) := serialize_buckets fuel (S (length (c_dir c))) t c cur cw in
      match e with
      | Some _ => st_ret (bc_w cw, bc_n cw, e)
      | None =>
          let '(cw, e) := write_all [put_u32 0] cw in
          st_ret (bc_w cw, bc_n cw, e)
      end
  end.

(** [Tx.WriteTo] and [Tx.Copy] *)
Definition WriteTo (fuel : nat) (t : tid) (w : W) : M (W * Z * option err) := serializeSnapshot fuel t w.
Definition Copy (fuel : nat) (t : tid) (w : W) : M (W * option err) :=
  let! (w, _, e) := WriteTo fuel t w in st_ret (w, e).

(** [Tx.CopyFile]: [f] is what [os.OpenFile] returns; the error of the deferred
    [Close] is dropped. *)
Definition CopyFile (fuel : nat) (t : tid) (f : err + W) : M (option W * option err) :=
  match f with
  | inl e => st_ret (None, Some e)
  | inr w => let! (w, _, e) := WriteTo fuel t w in st_ret (Some w, e)
  end.
End serialize.
Arguments byteCounter : clear implicits.

(** ** Reading *)

(** [io.ReadFull(r, buf)] with [len(buf) = n] *)
Definition ReadFull (n : nat) (r : bytes) : ioerr + (bytes * bytes) :=
  if n =? 0 then inr ([], r)
  else if length r =? 0 then inl EOF
  else if length r <? n then inl ErrUnexpectedEOF
  else inr (take n r, drop n r).

Section restore.
Context (it : iteration) (fuel : nat) (rebalanceTime spillTime : Z) (maxAlloc : Z).

(** [make([]byte, n)] *)
Definition make_bytes (n : Z) : M nat :=
  if (maxAlloc <? n)%Z then st_panic PMakeLen else st_ret (Z.to_nat n).

Definition snap_err {A} (c : snapctx) (e : ioerr) : M (A + err) :=
  st_ret (inr (ErrSnapshot c (ErrIO e))).

(** The inner loop of [Restore]: the pairs of one bucket.  [inl r] is the rest of
    the stream after the end-of-bucket marker. *)
Fixpoint restore_pairs (rounds : nat) (b : bid) (r : bytes) : M (bytes + err) :=
  match rounds with
  | O => st_nofuel
  | S rounds' =>
      match ReadFull 4 r with
      | inl e => snap_err CtxKeyLen e
      | inr (buf, r) =>
          let keyLen := le_Z buf in
          if (keyLen =? 0)%Z then st_ret (inl r)
          else
            let! n := make_bytes keyLen in
            match ReadFull n r with
            | inl e => snap_err CtxKey e
            | inr (key, r) =>
                match ReadFull 8 r with
                | inl e => snap_err CtxValLen e
                | inr (buf, r) =>
                    let! n := make_bytes (le_Z buf) in
                    match ReadFull n r with
                    | inl e => snap_err CtxVal e
                    | inr (val, r) =>
                        let! e := Put fuel b key val in
                        match e with
                        | Some e => st_ret (inr (ErrSnapshot CtxPut e))
                        | None => restore_pairs rounds' b r
                        end
                    end
                end
            end
      end
  end.

(** The outer loop of [Restore]: the function passed to [Update]. *)
Fixpoint restore_buckets (rounds : nat) (r : bytes) (t : tid) : M (option err) :=
  match rounds with
  | O => st_nofuel
  | S rounds' =>
      match ReadFull 4 r with
      | inl e => st_ret (Some (ErrSnapshot CtxNameLen (ErrIO e)))
      | inr (buf, r) =>
          let nameLen := le_Z buf in
          if (nameLen =? 0)%Z then st_ret None
          else
            let! n := make_bytes nameLen in
            match ReadFull n r with
            | inl e => st_ret (Some (ErrSnapshot CtxName (ErrIO e)))
            | inr (name, r) =>
                let! ob := CreateBucket t name in
                match ob with
                | inl e => st_ret (Some (ErrSnapshot CtxBucket e))
                | inr b =>
                    upd_bkt b (set_b_FillPercent (8106479329266893 # 9007199254740992)) ;!
                    let! o := restore_pairs (S (length r)) b r in
                    match o with
                    | inr e => st_ret (Some e)
                    | inl r => restore_buckets rounds' r t
                    end
                end
            end
      end
  end.

(** [DB.Restore] *)
Definition Restore (r : bytes) : M (option err) :=
  match ReadFull 16 r with
  | inl e => st_ret (Some (ErrSnapshot CtxHeader (ErrIO e)))
  | inr (hdr, r) =>
      if negb (Equal (take 4 hdr) snapshotMagic) then st_ret (Some ErrBadMagic)
      else if negb (le_Z (take 4 (drop 4 hdr)) =? snapshotVersion)%Z
      then st_ret (Some (ErrBadVersion (le_Z (take 4 (drop 4 hdr)))))
      else Update it fuel rebalanceTime spillTime (restore_buckets (S (length r)) r)
  end.

(** [DB.maybeRestore]: the file at the path, [None] when it cannot be opened. *)
Definition maybeRestore (file : option bytes) : M (option err) :=
  match file with
  | None => st_ret None
  | Some f =>
      if length f =? 0 then st_ret None
      else if negb (Equal (take 4 f) snapshotMagic) then st_ret None
      else
        let! e := Restore f in
        st_ret (ErrRestore <$> e)
  end.

(** [Open]: [pathEmpty] is [path == ""]; on an error the database is closed again. *)
Definition Open (options : option Options) (pathEmpty : bool) (file : option bytes)
    : M (option err) :=
  open_mem options ;!
  if pathEmpty then st_ret None
  else
    let! e := maybeRestore file in
    match e with
    | None => st_ret None
    | Some err => DB_close ;! st_ret (Some err)
    end.
End restore.
