(* ===== verification/CowSpec.v ===== *)
(** * Copy-on-write keeps the tree and only touches the transaction's nodes

    What [writableRoot], [childForWrite] and the descent of [Cursor.node] do to
    the node store: the bucket's tree is relocated along the path, every node
    that was not dirty keeps its value, and only fresh nodes become dirty. *)
From S2P Require Import Prelude GoSort Stats World Node KV Tree TreePath Cursor Cow Bucket.
Local Open Scope st_scope.

(** Bucket handle [b] of [w] is [x], its dirty set is [D], the dirty nodes belong
    to it, and fresh locations are above everything allocated. *)
Record owner (b : bid) (w : world) (x : Bucket) (D : gset loc) : Prop := mkOwner {
  ow_bkt : w_bkts w !! b = Some x;
  ow_dirty : b_dirty x = Some D;
  ow_fresh : ∀ l n, w_nodes w !! l = Some n → (l < w_nextn w)%positive;
  ow_alloc : ∀ l, l ∈ D → (l < w_nextn w)%positive;
  ow_bucket : ∀ l n, l ∈ D → w_nodes w !! l = Some n → n_bucket n = Some b
}.

(** A transaction without its statistics, which every operation may count up. *)
Definition strip (tx : Tx) : Tx := set_t_stats TxStats_zero tx.

Lemma strip_lookup (m m' : gmap tid Tx) t tx :
  strip <$> m' = strip <$> m → m !! t = Some tx → ∃ tx', m' !! t = Some tx' ∧ strip tx' = strip tx.
Proof.
  intros H Ht. assert ((strip <$> m') !! t = Some (strip tx)) as Hl by (by rewrite H, lookup_fmap, Ht).
  rewrite lookup_fmap in Hl. destruct (m' !! t) as [tx'|]; [|done].
  exists tx'. split; [done|]. exact (Some_inj _ _ Hl).
Qed.

Lemma strip_fields tx tx' :
  strip tx' = strip tx →
  t_writable tx' = t_writable tx ∧ t_db tx' = t_db tx ∧ t_base tx' = t_base tx ∧ t_bctx tx' = t_bctx tx.
Proof. destruct tx, tx'. unfold strip. simpl. intros. by simplify_eq. Qed.

(** A step of bucket [b] from [w] to [w'] that may write the dirty nodes in [L]:
    everything else allocated in [w] is unchanged, and new dirty nodes are fresh. *)
Record cow (b : bid) (L : gset loc) (w w' : world) (D D' : gset loc) : Prop := mkCow {
  cow_sub : D ⊆ D';
  cow_new : ∀ l, l ∈ D' → l ∉ D → (w_nextn w ≤ l)%positive;
  cow_frame : ∀ l, (l < w_nextn w)%positive → l ∉ D ∨ l ∉ L → w_nodes w' !! l = w_nodes w !! l;
  cow_next : (w_nextn w ≤ w_nextn w')%positive;
  cow_bkts : ∀ b', b' ≠ b → w_bkts w' !! b' = w_bkts w !! b';
  cow_txs : strip <$> w_txs w' = strip <$> w_txs w;
  cow_db : w_db w' = w_db w;
  cow_rest : w_nextb w' = w_nextb w ∧ w_nextt w' = w_nextt w ∧ w_fired w' = w_fired w
}.

Lemma cow_refl b L w D : cow b L w w D D.
Proof. split; auto; [set_solver|lia]. Qed.

Lemma cow_trans b L L1 w w1 w2 D D1 D2 :
  cow b L w w1 D D1 → cow b L1 w1 w2 D1 D2 →
  (∀ l, l ∈ L1 → (l < w_nextn w)%positive → l ∈ L) →
  cow b L w w2 D D2.
Proof.
  intros [] [] HL. split.
  - by etrans.
  - intros l H2 Hn. destruct (decide (l ∈ D1)); [auto|]. etrans; [exact cow_next0|]. auto.
  - intros l Hl Hor. rewrite cow_frame1; [auto|lia|].
    destruct Hor as [Hn|Hn]; [|right; intros ?; apply Hn; auto].
    left. intros Hd. apply cow_new0 in Hd; [lia|done].
  - lia.
  - intros b' Hb. rewrite cow_bkts1, cow_bkts0; auto.
  - congruence.
  - congruence.
  - destruct_and!. split_and!; congruence.
Qed.

Lemma cow_mono b L L' w w' D D' : L ⊆ L' → cow b L w w' D D' → cow b L' w w' D D'.
Proof.
  intros HL []. split; auto. intros l Hl Hor. apply cow_frame0; [done|]. set_solver.
Qed.

(** ** The locations of a tree *)

Definition clocs (cs : list (bytes * tree)) : list loc := concat (map (λ p, tlocs p.2) cs).

Lemma tlocs_Branch l cs : tlocs (Branch l cs) = l :: clocs cs.
Proof. done. Qed.

Lemma tloc_in t : tloc t ∈ tlocs t.
Proof. destruct t; simpl; set_solver. Qed.

Lemma clocs_split cs i k c :
  cs !! i = Some (k, c) → clocs cs = clocs (take i cs) ++ tlocs c ++ clocs (drop (S i) cs).
Proof.
  intros H. rewrite (take_drop_lookup cs i (k, c) H) at 1. unfold clocs. by rewrite map_app, concat_app.
Qed.

Lemma clocs_insert cs i k c c' :
  cs !! i = Some (k, c) →
  clocs (<[i := (k, c')]> cs) = clocs (take i cs) ++ tlocs c' ++ clocs (drop (S i) cs).
Proof.
  intros H. pose proof (lookup_lt_Some _ _ _ H).
  rewrite insert_take_drop by done. unfold clocs. by rewrite map_app, concat_app.
Qed.

Lemma elem_of_clocs x cs : x ∈ clocs cs ↔ ∃ k c, (k, c) ∈ cs ∧ x ∈ tlocs c.
Proof.
  unfold clocs. induction cs as [|[k c] cs IH]; simpl; [set_solver|].
  rewrite elem_of_app, IH. set_solver.
Qed.

(** All locations of a represented tree are allocated. *)
Lemma rep_alloc b w x D t l :
  owner b w x D → rep (w_nodes w) t → l ∈ tlocs t → (l < w_nextn w)%positive.
Proof.
  intros Ho. revert l. induction t as [l0 kvs|l0 cs IH] using tree_nested_ind; intros l.
  - intros (n & Hn & _) ->%list_elem_of_singleton. by eapply ow_fresh.
  - rewrite rep_Branch, tlocs_Branch, elem_of_cons, elem_of_clocs.
    intros [(n & Hn & _) Hall] [->|(k & c & Hin & Hl)]; [by eapply ow_fresh|].
    rewrite Forall_forall in IH. rewrite Forall_forall in Hall. apply (IH _ Hin); [apply (Hall _ Hin)|done].
Qed.

(** Replacing a child by one on old or fresh locations keeps locations distinct. *)
Lemma NoDup_replace_child l cs i k c c' nxt :
  NoDup (tlocs (Branch l cs)) → cs !! i = Some (k, c) →
  (∀ y, y ∈ tlocs (Branch l cs) → (y < nxt)%positive) →
  NoDup (tlocs c') → (∀ y, y ∈ tlocs c' → y ∈ tlocs c ∨ (nxt ≤ y)%positive) →
  NoDup (tlocs (Branch l (<[i := (k, c')]> cs))).
Proof.
  intros Hnd Hi Hlt Hc' Hold. rewrite tlocs_Branch in Hnd, Hlt |- *.
  rewrite (clocs_split _ _ _ _ Hi) in Hnd, Hlt. rewrite (clocs_insert _ _ _ _ c' Hi).
  apply NoDup_cons in Hnd as [Hl Hnd]. rewrite NoDup_cons, !NoDup_app in *.
  rewrite !elem_of_app in *. destruct Hnd as (HA & HAB & Hc & HcB & HB).
  assert (Hfr : ∀ y, y ∈ l :: clocs (take i cs) ++ tlocs c ++ clocs (drop (S i) cs) → y ∈ tlocs c' → y ∈ tlocs c).
  { intros y Hy Hy'. destruct (Hold y Hy') as [?|?]; [done|]. specialize (Hlt y Hy). lia. }
  split_and!; auto; intros; rewrite ?elem_of_app; set_solver.
Qed.

Lemma set_b_dirty_id x D : b_dirty x = Some D → set_b_dirty (Some D) x = x.
Proof. destruct x; simpl. by intros ->. Qed.

Lemma branch_inode_insert (cs : list (bytes * tree)) (i : nat) k c c' :
  cs !! i = Some (k, c) →
  alter (λ j, mkInode (i_flags j) (i_key j) (i_value j) (Some (tloc c'))) i (branch_inode <$> cs) =
  branch_inode <$> <[i := (k, c')]> cs.
Proof.
  intros Hi. rewrite list_fmap_insert.
  rewrite (alter_lookup_insert _ _ _ (branch_inode (k, c))) by (by rewrite list_lookup_fmap, Hi).
  done.
Qed.

(** A represented branch with one child replaced. *)
Lemma rep_replace_child h h' l cs i k c c' n' :
  rep h (Branch l cs) → NoDup (tlocs (Branch l cs)) → cs !! i = Some (k, c) →
  h' !! l = Some n' → branch_node (<[i := (k, c')]> cs) n' →
  (∀ y, y ∈ tlocs (Branch l cs) → y ≠ l → y ∉ tlocs c → h' !! y = h !! y) →
  rep h' c' →
  rep h' (Branch l (<[i := (k, c')]> cs)).
Proof.
  rewrite !rep_Branch. intros [_ Hall] Hnd Hi Hn' Hb Hframe Hc'. split; [by exists n'|].
  rewrite Forall_forall in Hall. rewrite Forall_forall.
  intros [k2 c2] (j & Hj)%list_elem_of_lookup. destruct (decide (i = j)) as [<-|Hij].
  - rewrite list_lookup_insert_eq in Hj by (by eapply lookup_lt_Some). by simplify_eq.
  - rewrite list_lookup_insert_ne in Hj by done.
    assert (Hin : (k2, c2) ∈ cs) by (by eapply list_elem_of_lookup_2).
    eapply rep_frame; [|apply (Hall _ Hin)]. intros y Hy. rewrite tlocs_Branch in Hnd, Hframe.
    apply NoDup_cons in Hnd as [Hl Hnd].
    assert (Hyc : y ∈ clocs cs) by (apply elem_of_clocs; eauto).
    apply Hframe; [set_solver|set_solver|].
    intros Hyc2. rewrite (clocs_split _ _ _ _ Hi) in Hnd. rewrite !NoDup_app in Hnd.
    destruct Hnd as (_ & H1 & _ & H2 & _).
    destruct (Nat.lt_trichotomy i j) as [?|[?|?]]; [|done|].
    + apply (H2 y Hyc2), elem_of_clocs. exists k2, c2. split; [|done].
      apply list_elem_of_lookup. exists (j - S i). rewrite lookup_drop. by replace (S i + (j - S i)) with j by lia.
    + apply (H1 y); [|by rewrite elem_of_app; left]. apply elem_of_clocs. exists k2, c2. split; [|done].
      apply list_elem_of_lookup. exists j. by rewrite lookup_take_lt.
Qed.

(** ** One level down *)

(** The copy [childForWrite] makes of a child [c] represents the same subtree. *)
Lemma rep_copy h h' c l' o n' :
  rep h c → h !! tloc c = Some o → h' !! l' = Some n' →
  n_isLeaf n' = n_isLeaf o → n_inodes n' = n_inodes o →
  (∀ y, y ∈ tlocs c → y ≠ tloc c → h' !! y = h !! y) → NoDup (tlocs c) →
  rep h' (set_tloc l' c).
Proof.
  intros Hr Ho Hn' Hl Hi Hframe Hnd. destruct c as [l kvs|l cs]; simpl in Ho.
  - destruct Hr as (n & Hn & Hleaf). simplify_eq. exists n'. unfold leaf_node in *.
    rewrite Hl, Hi. done.
  - apply rep_Branch in Hr as [(n & Hn & Hb) Hall]. simplify_eq. apply rep_Branch. split.
    + exists n'. unfold branch_node in *. rewrite Hl, Hi. done.
    + rewrite Forall_forall in Hall. rewrite Forall_forall. intros [k c] Hin.
      eapply rep_frame; [|apply (Hall _ Hin)]. intros y Hy. rewrite tlocs_Branch in *.
      apply NoDup_cons in Hnd as [Hnl _].
      assert (y ∈ clocs cs) by (apply elem_of_clocs; eauto). apply Hframe; [set_solver|].
      intros ->. done.
Qed.

Lemma NoDup_set_tloc l t nxt :
  NoDup (tlocs t) → (∀ y, y ∈ tlocs t → (y < nxt)%positive) → (nxt ≤ l)%positive →
  NoDup (tlocs (set_tloc l t)).
Proof.
  intros Hnd Hlt Hl. destruct t as [l0 kvs|l0 cs]; simpl; [apply NoDup_singleton|].
  rewrite tlocs_Branch in Hnd, Hlt. apply NoDup_cons in Hnd as [_ Hnd].
  fold (clocs cs). apply NoDup_cons. split; [|done]. intros Hin.
  specialize (Hlt l ltac:(set_solver)). lia.
Qed.

Lemma tlocs_set_tloc l t y : y ∈ tlocs (set_tloc l t) → y = l ∨ y ∈ tlocs t.
Proof. destruct t; simpl; set_solver. Qed.

Lemma tloc_set_tloc l t : tloc (set_tloc l t) = l.
Proof. by destruct t. Qed.

(** [childAt] gives a dirty child: the old one if it is dirty already, else a
    fresh copy linked into the parent. *)
Lemma childAt_spec b w x D l cs i k c :
  owner b w x D → rep (w_nodes w) (Branch l cs) → NoDup (tlocs (Branch l cs)) →
  l ∈ D → cs !! i = Some (k, c) →
  ∃ w' D' c',
    childAt l (Z.of_nat i) w = (Ret (tloc c'), w') ∧
    owner b w' (set_b_dirty (Some D') x) D' ∧ cow b {[l]} w w' D D' ∧
    erase c' = erase c ∧ tloc c' ∈ D' ∧
    (c' = c ∨ (∃ l', (w_nextn w ≤ l')%positive ∧ c' = set_tloc l' c)) ∧
    rep (w_nodes w') (Branch l (<[i := (k, c')]> cs)).
Proof.
  intros Ho Hrep Hnd HlD Hi. pose proof Hrep as Hrep0.
  apply rep_Branch in Hrep as [(n & Hn & Hleaf & Hin) Hall].
  pose proof (rep_child _ _ _ _ _ _ Hrep0 Hi) as Hrc.
  destruct (rep_root _ _ Hrc) as [o Hco].
  assert (Hlc : l ∉ tlocs c).
  { rewrite tlocs_Branch in Hnd. apply NoDup_cons in Hnd as [Hl _].
    rewrite (clocs_split _ _ _ _ Hi) in Hl. set_solver. }
  assert (Hndc : NoDup (tlocs c)).
  { rewrite tlocs_Branch in Hnd. apply NoDup_cons in Hnd as [_ Hnd].
    rewrite (clocs_split _ _ _ _ Hi), !NoDup_app in Hnd. naive_solver. }
  unfold childAt. rewrite (bind_Ret _ _ _ _ _ (get_node_run _ _ _ Hn)), Hleaf.
  rewrite (ow_bucket _ _ _ _ Ho l n HlD Hn).
  rewrite (bind_Ret (st_deref (Some b)) _ w b w eq_refl). unfold childForWrite.
  rewrite (bind_Ret _ _ _ _ _ (get_node_run _ _ _ Hn)), Hin.
  rewrite (bind_Ret _ _ _ (branch_inode (k, c)) w).
  2:{ unfold st_index. destruct (Z.ltb_spec (Z.of_nat i) 0); [lia|].
      by rewrite Nat2Z.id, list_lookup_fmap, Hi. }
  rewrite (bind_Ret _ _ _ _ _ (get_bkt_run _ _ _ (ow_bkt _ _ _ _ Ho))).
  change (i_child (branch_inode (k, c))) with (Some (tloc c)). cbv iota beta.
  unfold isDirty. rewrite (ow_dirty _ _ _ _ Ho).
  destruct (decide (tloc c ∈ D)) as [HcD|HcD].
  { rewrite bool_decide_eq_true_2 by done. exists w, D, c.
    rewrite set_b_dirty_id by apply (ow_dirty _ _ _ _ Ho).
    split_and!; auto using cow_refl. by rewrite list_insert_id. }
  rewrite bool_decide_eq_false_2 by done.
  set (l' := w_nextn w). set (cp := mkNode (Some b) (n_isLeaf o) false false (n_key o) None (n_inodes o)).
  unfold copyNode at 1.
  rewrite (bind_Ret (st_bind _ _) _ w l' (new_node cp w).2).
  2:{ by rewrite (bind_Ret _ _ _ _ _ (get_node_run _ _ _ Hco)). }
  assert (Hl'l : l' ≠ l).
  { pose proof (ow_fresh _ _ _ _ Ho l n Hn). subst l'. lia. }
  simpl.
  erewrite bind_Ret by (apply upd_node_run; simpl; apply lookup_insert_eq).
  erewrite bind_Ret by (eapply mark_dirty_run; [simpl; apply (ow_bkt _ _ _ _ Ho)|apply (ow_dirty _ _ _ _ Ho)]).
  erewrite bind_Ret by (apply upd_node_run; simpl; rewrite !lookup_insert_ne by done; exact Hn).
  exists (set_nodes (<[l := set_child (Z.of_nat i) l' n]> (<[l' := set_n_parent (Some l) cp]> (<[l' := cp]> (w_nodes w))))
    (mkWorld (<[l' := cp]> (w_nodes w)) (Pos.succ l') (<[b := set_b_dirty (Some ({[l']} ∪ D)) x]> (w_bkts w))
       (w_nextb w) (w_txs w) (w_nextt w) (w_db w) (w_fired w))), ({[l']} ∪ D), (set_tloc l' c).
  rewrite tloc_set_tloc. refine (conj _ (conj _ (conj _ (conj _ (conj _ (conj _ _)))))).
  - done.
  - split; simpl.
    + apply lookup_insert_eq.
    + done.
    + intros y m. rewrite lookup_insert. case_decide; [subst y; intros _; pose proof (ow_fresh _ _ _ _ Ho l n Hn); subst l'; lia|].
      rewrite !lookup_insert. repeat case_decide; [intros; lia..|].
      intros Hm. pose proof (ow_fresh _ _ _ _ Ho y m Hm). subst l'. lia.
    + intros y [->%elem_of_singleton|Hy]%elem_of_union; [lia|].
      pose proof (ow_alloc _ _ _ _ Ho y Hy). subst l'. lia.
    + intros y m [->%elem_of_singleton|Hy]%elem_of_union; rewrite lookup_insert.
      * rewrite decide_False by done. rewrite lookup_insert_eq. intros [= <-]. done.
      * case_decide; [intros [= <-]; subst y; by apply (ow_bucket _ _ _ _ Ho l n)|].
        rewrite !lookup_insert_ne; [by apply (ow_bucket _ _ _ _ Ho)|..];
          pose proof (ow_alloc _ _ _ _ Ho y Hy); subst l'; lia.
  - split; simpl; auto; [set_solver| | |lia|].
    + intros y [->%elem_of_singleton|?]%elem_of_union ?; [lia|done].
    + intros y Hy Hor. rewrite !lookup_insert_ne; [done|subst l'; lia|subst l'; lia|].
      intros <-. set_solver.
    + intros b' Hb. by rewrite lookup_insert_ne.
  - apply erase_set_tloc.
  - set_solver.
  - right. exists l'. split; [lia|done].
  - assert (∀ y, y ∈ tlocs (Branch l cs) → y ≠ l' ).
    { intros y Hy. pose proof (rep_alloc _ _ _ _ _ _ Ho Hrep0 Hy). subst l'. lia. }
    eapply (rep_replace_child (w_nodes w)); [done|done|done|simpl; apply lookup_insert_eq| | |].
    + split; [done|]. simpl. rewrite Nat2Z.id, Hin. erewrite <- (branch_inode_insert cs i k c (set_tloc l' c)) by done.
      by rewrite tloc_set_tloc.
    + intros y Hy Hyl _. simpl. rewrite !lookup_insert_ne by (try done; intros <-; by eapply H). done.
    + eapply (rep_copy (w_nodes w) _ c l' o); [done|done|..].
      * simpl. rewrite lookup_insert_ne by done. apply lookup_insert_eq.
      * done.
      * done.
      * intros y Hy Hyc. simpl. assert (y ≠ l) by (intros ->; done).
        assert (y ≠ l').
        { intros ->. pose proof (rep_alloc _ _ _ _ _ _ Ho Hrc Hy). subst l'. lia. }
        by rewrite !lookup_insert_ne.
      * done.
Qed.

(** ** The whole path *)

Lemma path_ok_erase t p key : path_ok (erase t) p key ↔ path_ok t p key.
Proof.
  revert t. induction p as [|i p IH]; intros t; [done|]. destruct t as [l kvs|l cs]; [done|].
  cbn [erase path_ok]. change (map ?f cs) with (f <$> cs). rewrite list_lookup_fmap.
  destruct (cs !! i) as [[k c]|]; simpl; [|done]. rewrite IH. split.
  - intros (H1 & H2 & H3). split_and!; auto. intros j k' c' Hj Hc. apply (H2 j k' (erase c') Hj).
    by rewrite list_lookup_fmap, Hc.
  - intros (H1 & H2 & H3). split_and!; auto. intros j k' c' Hj.
    rewrite list_lookup_fmap. destruct (cs !! j) as [[k2 c2]|] eqn:E; [|done]. simpl.
    intros [= <- _]. by eapply H2.
Qed.

Lemma path_ok_erase_eq t t' p key : erase t = erase t' → path_ok t p key → path_ok t' p key.
Proof. intros H Hp. by rewrite <- path_ok_erase, <- H, path_ok_erase. Qed.

Lemma erase_insert l (cs : list (bytes * tree)) i k c c' :
  cs !! i = Some (k, c) → erase c' = erase c →
  erase (Branch l (<[i := (k, c')]> cs)) = erase (Branch l cs).
Proof.
  intros Hi He. simpl. f_equal. change (map ?f ?l) with (f <$> l).
  rewrite list_fmap_insert. apply list_insert_id. rewrite list_lookup_fmap, Hi. simpl. by rewrite He.
Qed.

Lemma at_path_set_tloc l t p lf kvs :
  at_path t p = Some (Leaf lf kvs) → ∃ lf', at_path (set_tloc l t) p = Some (Leaf lf' kvs).
Proof. destruct p; [intros [= ->]; simpl; eauto|]. destruct t; simpl; eauto. Qed.

(** The descent of [Cursor.node]: the nodes along the path become dirty, and the
    tree found from the same root has the same keys and values. *)
Lemma cow_path_spec b p : ∀ refs w x D t lf kvs,
  e_index <$> refs = Z.of_nat <$> p →
  owner b w x D → rep (w_nodes w) t → NoDup (tlocs t) → tloc t ∈ D →
  at_path t p = Some (Leaf lf kvs) →
  ∃ w' D' t' lf',
    cow_path (tloc t) refs w = (Ret lf', w') ∧
    owner b w' (set_b_dirty (Some D') x) D' ∧ cow b (list_to_set (tlocs t)) w w' D D' ∧
    erase t' = erase t ∧ tloc t' = tloc t ∧ at_path t' p = Some (Leaf lf' kvs) ∧ lf' ∈ D' ∧
    NoDup (tlocs t') ∧ (∀ y, y ∈ tlocs t' → y ∈ tlocs t ∨ (w_nextn w ≤ y)%positive) ∧
    rep (w_nodes w') t'.
Proof.
  induction p as [|i p IH]; intros refs w x D t lf kvs Href Ho Hrep Hnd HD Hat.
  { destruct refs; [|done]. injection Hat as ->. exists w, D, (Leaf lf kvs), lf.
    rewrite set_b_dirty_id by apply (ow_dirty _ _ _ _ Ho).
    refine (conj _ (conj _ (conj _ (conj _ (conj _ (conj _ (conj _ (conj _ (conj _ _)))))))));
      auto using cow_refl. }
  destruct refs as [|ref refs]; [done|]. injection Href as Hidx Href.
  destruct t as [|l cs]; [done|]. cbn [at_path] in Hat.
  destruct (cs !! i) as [[k c]|] eqn:Hi; [|done].
  destruct (childAt_spec b w x D l cs i k c Ho Hrep Hnd HD Hi)
    as (w1 & D1 & c1 & Hrun & Ho1 & Hcow1 & He1 & HD1 & Hcase & Hrep1).
  pose proof (λ y, rep_alloc _ _ _ _ _ y Ho Hrep) as Hal.
  assert (Hi1 : <[i := (k, c1)]> cs !! i = Some (k, c1))
    by (apply list_lookup_insert_eq; by eapply lookup_lt_Some).
  assert (Hndc : NoDup (tlocs c) ∧ l ∉ tlocs c).
  { rewrite tlocs_Branch, (clocs_split _ _ _ _ Hi), NoDup_cons, !NoDup_app in Hnd. set_solver. }
  assert (Hold1 : ∀ y, y ∈ tlocs c1 → y ∈ tlocs c ∨ (w_nextn w ≤ y)%positive).
  { destruct Hcase as [->|(l' & Hl' & ->)]; [auto|]. intros y [->|?]%tlocs_set_tloc; auto. }
  assert (Hsub : ∀ y, y ∈ tlocs c → y ∈ tlocs (Branch l cs)).
  { intros y Hy. rewrite tlocs_Branch, (clocs_split _ _ _ _ Hi). set_solver. }
  assert (Hnd1 : NoDup (tlocs c1)).
  { destruct Hcase as [->|(l' & Hl' & ->)]; [tauto|]. eapply NoDup_set_tloc; [tauto| |done]. auto. }
  assert (HNd1 : NoDup (tlocs (Branch l (<[i := (k, c1)]> cs)))).
  { eapply NoDup_replace_child; eauto. }
  assert (∃ lf1, at_path c1 p = Some (Leaf lf1 kvs)) as [lf1 Hat1].
  { destruct Hcase as [->|(l' & _ & ->)]; [eauto|]. by eapply at_path_set_tloc. }
  destruct (IH refs w1 (set_b_dirty (Some D1) x) D1 c1 lf1 kvs)
    as (w2 & D2 & c2 & lf2 & Hrun2 & Ho2 & Hcow2 & He2 & Hl2 & Hat2 & HD2 & Hnd2 & Hold2 & Hrep2); try done.
  { by eapply rep_child. }
  pose proof (λ y, rep_alloc _ _ _ _ _ y Ho1 Hrep1) as Hal1.
  assert (Hl1 : l ∉ tlocs c1).
  { intros [?|?]%Hold1; [tauto|]. specialize (Hal l ltac:(set_solver)). lia. }
  exists w2, D2, (Branch l (<[i := (k, c2)]> cs)), lf2.
  rewrite <- (list_insert_insert_eq cs i (k, c2) (k, c1)).
  refine (conj _ (conj _ (conj _ (conj _ (conj _ (conj _ (conj _ (conj _ (conj _ _)))))))));
    [|done| | |done| |done| | |].
  - cbn [cow_path tloc]. destruct (proj1 (rep_Branch _ _ _) Hrep) as [(n & Hn & Hlf & _) _].
    rewrite (bind_Ret _ _ _ _ _ (get_node_run _ _ _ Hn)), Hlf.
    change (Assert (negb false)) with (st_ret (S:=world) tt).
    rewrite (bind_Ret (st_ret tt) _ w tt w eq_refl), Hidx. by rewrite (bind_Ret _ _ _ _ _ Hrun).
  - eapply cow_trans; [eapply cow_mono; [|exact Hcow1]; set_solver|exact Hcow2|].
    intros y Hy Hlt. apply elem_of_list_to_set in Hy. apply elem_of_list_to_set.
    destruct (Hold1 y Hy); [auto|lia].
  - rewrite (erase_insert l _ i k c1 c2 Hi1) by done. by apply erase_insert with (c := c).
  - cbn [at_path]. rewrite list_lookup_insert_eq; [done|]. by eapply lookup_lt_Some.
  - by eapply NoDup_replace_child.
  - intros y. rewrite list_insert_insert_eq, tlocs_Branch, (clocs_insert _ _ _ _ c2 Hi).
    rewrite tlocs_Branch, (clocs_split _ _ _ _ Hi). pose proof (cow_next _ _ _ _ _ _ Hcow1).
    rewrite !elem_of_cons, !elem_of_app. intros [->|[?|[Hy|?]]]; auto.
    destruct (Hold2 y Hy) as [Hy1|?]; [destruct (Hold1 y Hy1); auto|right; lia].
  - destruct (proj1 (rep_Branch _ _ _) Hrep1) as [(n1 & Hn1 & Hlf1 & Hin1) _].
    eapply (rep_replace_child (w_nodes w1)); [done|done|done| | | |done].
    + rewrite (cow_frame _ _ _ _ _ _ Hcow2); [exact Hn1|apply Hal1; set_solver|].
      right. rewrite elem_of_list_to_set. done.
    + split; [done|]. rewrite Hin1. symmetry.
      rewrite (list_fmap_insert branch_inode (<[i:=(k, c1)]> cs) i (k, c2)). apply list_insert_id.
      rewrite list_lookup_fmap, Hi1. simpl. unfold branch_inode. simpl. by rewrite Hl2.
    + intros y Hy Hyl Hyc. apply (cow_frame _ _ _ _ _ _ Hcow2); [by apply Hal1|].
      right. by rewrite elem_of_list_to_set.
Qed.

(** ** The writable root *)

(** [writableRoot] on a bucket whose tree is [T]: the materialized root, or a
    fresh copy of the published one, which becomes the bucket's root. *)
Lemma writableRoot_spec b w x D T :
  owner b w x D → rootView w x = Some (tloc T) → (∀ r, b_rootNode x = Some r → r ∈ D) →
  rep (w_nodes w) T → NoDup (tlocs T) →
  ∃ w' D' T',
    writableRoot b w = (Ret (tloc T'), w') ∧
    owner b w' (set_b_rootNode (Some (tloc T')) (set_b_dirty (Some D') x)) D' ∧
    cow b ∅ w w' D D' ∧ erase T' = erase T ∧ tloc T' ∈ D' ∧ NoDup (tlocs T') ∧
    (∀ y, y ∈ tlocs T' → y ∈ tlocs T ∨ (w_nextn w ≤ y)%positive) ∧
    (T' = T ∨ ∃ l', T' = set_tloc l' T) ∧ rep (w_nodes w') T'.
Proof.
  intros Ho Hroot Hmat Hrep Hnd. unfold writableRoot.
  rewrite (bind_Ret _ _ _ _ _ (get_bkt_run _ _ _ (ow_bkt _ _ _ _ Ho))). unfold rootView in Hroot.
  destruct (b_rootNode x) as [r|] eqn:Hr.
  { injection Hroot as ->. exists w, D, T. specialize (Hmat _ eq_refl).
    assert (set_b_rootNode (Some (tloc T)) (set_b_dirty (Some D) x) = x) as ->.
    { rewrite set_b_dirty_id by apply (ow_dirty _ _ _ _ Ho). destruct x; simpl in *. by subst. }
    refine (conj _ (conj _ (conj _ (conj _ (conj _ (conj _ (conj _ (conj _ _)))))))); auto using cow_refl. }
  rewrite (bind_Ret st_get _ w w w eq_refl).
  destruct (baseState w x) as [[[r|]]|]; try done. simpl in Hroot. injection Hroot as ->.
  destruct (rep_root _ _ Hrep) as [o Hro].
  set (l' := w_nextn w). set (cp := mkNode (Some b) (n_isLeaf o) false false (n_key o) None (n_inodes o)).
  assert (Hal : ∀ y, y ∈ tlocs T → (y < l')%positive) by (intros y; by apply (rep_alloc _ _ _ _ _ _ Ho)).
  rewrite (bind_Ret (copyNode b (tloc T)) _ w l' (new_node cp w).2).
  2:{ unfold copyNode. by rewrite (bind_Ret _ _ _ _ _ (get_node_run _ _ _ Hro)). }
  simpl.
  erewrite bind_Ret by (eapply mark_dirty_run; [simpl; apply (ow_bkt _ _ _ _ Ho)|apply (ow_dirty _ _ _ _ Ho)]).
  erewrite bind_Ret by (apply upd_bkt_run; simpl; apply lookup_insert_eq).
  eexists _, ({[l']} ∪ D), (set_tloc l' T). rewrite tloc_set_tloc.
  refine (conj eq_refl (conj _ (conj _ (conj (erase_set_tloc _ _) (conj _ (conj _ (conj _ (conj _ _)))))))).
  - split; simpl; [apply lookup_insert_eq|done| | |].
    + intros y m. rewrite lookup_insert. case_decide; [intros; lia|].
      intros Hm. pose proof (ow_fresh _ _ _ _ Ho y m Hm). subst l'. lia.
    + intros y [->%elem_of_singleton|Hy]%elem_of_union; [lia|].
      pose proof (ow_alloc _ _ _ _ Ho y Hy). subst l'. lia.
    + intros y m [->%elem_of_singleton|Hy]%elem_of_union; rewrite lookup_insert.
      * rewrite decide_True by done. by intros [= <-].
      * rewrite decide_False by (pose proof (ow_alloc _ _ _ _ Ho y Hy); subst l'; lia).
        by apply (ow_bucket _ _ _ _ Ho).
  - split; simpl; auto; [set_solver| | |lia|].
    + intros y [->%elem_of_singleton|?]%elem_of_union ?; [lia|done].
    + intros y Hy _. rewrite lookup_insert_ne; [done|]. subst l'. lia.
    + intros b' Hb. by rewrite !lookup_insert_ne.
  - set_solver.
  - by eapply NoDup_set_tloc.
  - intros y [->|?]%tlocs_set_tloc; auto. right. subst l'. lia.
  - eauto.
  - eapply (rep_copy (w_nodes w) _ T l' o cp); [done|done| |done|done| |done].
    + simpl. apply lookup_insert_eq.
    + intros y Hy _. simpl. rewrite lookup_insert_ne; [done|]. apply Hal in Hy. lia.
Qed.

(** Only the leaf at the end of a path is written. *)
Lemma rep_set_leaf h t p lf kvs kvs' n' :
  rep h t → NoDup (tlocs t) → at_path t p = Some (Leaf lf kvs) → leaf_node kvs' n' →
  rep (<[lf := n']> h) (set_path t p (Leaf lf kvs')) ∧ tlocs (set_path t p (Leaf lf kvs')) = tlocs t.
Proof.
  intros Hrep Hnd Hat Hn'. revert t Hrep Hnd Hat.
  induction p as [|i p IH]; intros t Hrep Hnd Hat.
  { injection Hat as ->. simpl. split; [|done]. exists n'. by rewrite lookup_insert_eq. }
  destruct t as [|l cs]; [done|]. cbn [at_path] in Hat. destruct (cs !! i) as [[k c]|] eqn:Hi; [|done].
  pose proof Hnd as Hnd0. rewrite tlocs_Branch, (clocs_split _ _ _ _ Hi), NoDup_cons, !NoDup_app in Hnd0.
  destruct Hnd0 as (Hlc & _ & _ & Hndc & _).
  destruct (IH c (rep_child _ _ _ _ _ _ Hrep Hi) Hndc Hat) as [Hc Hlocs].
  assert (Hlf : lf ∈ tlocs c).
  { clear -Hat. revert c Hat. induction p as [|j p IH]; intros c; simpl; [intros [= ->]; set_solver|].
    destruct c as [|l cs]; [done|]. destruct (cs !! j) as [[k c]|] eqn:Hj; [|done].
    intros ?%IH. rewrite tlocs_Branch, (clocs_split _ _ _ _ Hj). set_solver. }
  cbn [set_path]. rewrite (alter_lookup_insert _ _ _ _ Hi). cbn [fst snd]. split.
  - destruct (proj1 (rep_Branch _ _ _) Hrep) as [(n & Hn & Hb & Hin) _].
    eapply rep_replace_child; [done|done|done| | | |done].
    + rewrite lookup_insert_ne; [exact Hn|]. set_solver.
    + split; [done|]. rewrite Hin, list_fmap_insert. symmetry. apply list_insert_id.
      rewrite list_lookup_fmap, Hi. unfold branch_inode. simpl. do 3 f_equal.
      destruct p; [simpl in *; by simplify_eq|]. by destruct c.
    + intros y _ _ Hy. rewrite lookup_insert_ne; [done|]. by intros <-.
  - by rewrite !tlocs_Branch, (clocs_insert _ _ _ _ _ Hi), (clocs_split _ _ _ _ Hi), Hlocs.
Qed.
