(* ===== verification/BucketSpec.v ===== *)
(** * What the bucket operations do

    A bucket whose tree is well formed behaves like a sorted association list:
    [Get] looks up, [Put] inserts, [Delete] removes, [ForEach] folds in key
    order, and the tree stays well formed.  Writes touch only nodes the
    transaction copied itself. *)
From S2P Require Import Prelude GoSort Stats World Node KV Tree TreePath Cursor CursorSpec Cow Bucket CowSpec.
Local Open Scope bytes_scope.
Local Open Scope st_scope.

(** Handle [b] of [w] can be read and shows the tree [T]. *)
Record readable (w : world) (b : bid) (x : Bucket) (T : tree) : Prop := mkReadable {
  rd_bkt : w_bkts w !! b = Some x;
  rd_tx : is_Some (w_txs w !! b_tx x);
  rd_root : rootView w x = Some (tloc T);
  rd_rep : rep (w_nodes w) T;
  rd_wf : wf T
}.

(** Handle [b] of [w] can be written: its transaction is open and writable, [D]
    is its dirty set, and a materialized root is dirty. *)
Record bview (w : world) (b : bid) (x : Bucket) (D : gset loc) (T : tree) : Prop := mkBview {
  bv_read : readable w b x T;
  bv_owner : owner b w x D;
  bv_open : ∀ tx, w_txs w !! b_tx x = Some tx → t_db tx = true ∧ t_writable tx = true;
  bv_mat : ∀ r, b_rootNode x = Some r → r ∈ D;
  bv_nodup : NoDup (tlocs T)
}.

(** ** Cursor creation *)

(** The world after [tx.stats.IncCursorCount(1)]. *)
Definition count_cursor (t : tid) (tx : Tx) (w : world) : world :=
  set_txs (<[t := set_t_stats (IncCursorCount 1 (t_stats tx)) tx]> (w_txs w)) w.

Lemma Bucket_Cursor_run b w x tx :
  w_bkts w !! b = Some x → w_txs w !! b_tx x = Some tx →
  Bucket_Cursor b w = (Ret (mkCursor (Some b) [] [] 0), count_cursor (b_tx x) tx w).
Proof.
  intros Hb Ht. unfold Bucket_Cursor. rewrite (bind_Ret _ _ _ _ _ (get_bkt_run _ _ _ Hb)).
  unfold tx_stat. by rewrite (bind_Ret _ _ _ _ _ (upd_tx_run _ _ _ _ Ht)).
Qed.

(** Counting a cursor changes statistics only. *)
Lemma count_cursor_cow b t tx w D : w_txs w !! t = Some tx → cow b ∅ w (count_cursor t tx w) D D.
Proof.
  intros Ht. split; simpl; auto; [set_solver|lia|].
  rewrite fmap_insert. apply insert_id. by rewrite lookup_fmap, Ht.
Qed.

(** [baseState] and [rootView] do not depend on statistics. *)
Lemma baseState_strip w w' x :
  strip <$> w_txs w' = strip <$> w_txs w → baseState w' x = baseState w x.
Proof.
  intros H. unfold baseState. destruct (w_txs w !! b_tx x) as [tx|] eqn:E.
  - destruct (strip_lookup _ _ _ _ H E) as (tx' & -> & Hs). by destruct (strip_fields _ _ Hs) as (_ & _ & -> & _).
  - destruct (w_txs w' !! b_tx x) as [tx'|] eqn:E'; [|done].
    destruct (strip_lookup _ _ _ _ (eq_sym H) E') as (? & ? & _). congruence.
Qed.

Lemma rootView_strip w w' x :
  strip <$> w_txs w' = strip <$> w_txs w → rootView w' x = rootView w x.
Proof. intros H. unfold rootView. by rewrite (baseState_strip _ _ _ H). Qed.

(** ** Frames *)

(** A handle that another handle's step does not touch shows the same tree. *)
Lemma readable_frame b' L w w' D D' b x T :
  cow b' L w w' D D' → b ≠ b' →
  readable w b x T → (∀ l, l ∈ tlocs T → l ∉ D) → (∀ l, l ∈ tlocs T → (l < w_nextn w)%positive) →
  readable w' b x T.
Proof.
  intros Hc Hb [Hx [tx Htx] Hroot Hrep Hwf] Hd Hal. split; auto.
  - by rewrite (cow_bkts _ _ _ _ _ _ Hc).
  - destruct (strip_lookup _ _ _ _ (cow_txs _ _ _ _ _ _ Hc) Htx) as (? & ? & _). eauto.
  - by rewrite (rootView_strip _ _ _ (cow_txs _ _ _ _ _ _ Hc)).
  - eapply rep_frame; [|done]. intros l Hl. apply (cow_frame _ _ _ _ _ _ Hc); auto.
Qed.

Lemma count_cursor_readable w b x T tx :
  readable w b x T → w_txs w !! b_tx x = Some tx → readable (count_cursor (b_tx x) tx w) b x T.
Proof.
  intros [] Ht. split; auto.
  - simpl. rewrite lookup_insert_eq. eauto.
  - erewrite rootView_strip; [done|]. by eapply (cow_txs b ∅ _ _ ∅ ∅), count_cursor_cow.
Qed.

(** ** Reading *)

(** What a search position says about a sorted list. *)
Lemma kv_lookup_search k l :
  ssorted (keys l) →
  kv_lookup k l =
    match l !! search_keys (keys l) k with
    | Some (k', v) => if Equal k k' then Some v else None
    | None => None
    end.
Proof.
  intros Hs. destruct (search_split l k Hs) as [Hlo Hhi]. set (r := search_keys (keys l) k) in *.
  rewrite <- (take_drop r l) at 1. rewrite kv_lookup_app.
  assert (kv_lookup k (take r l) = None) as ->.
  { apply kv_lookup_None. intros ?%Hlo. by eapply blt_irrefl. }
  destruct (l !! r) as [[k' v']|] eqn:E.
  - rewrite (drop_lookup_cons _ _ _ E). simpl. unfold Equal.
    destruct Hhi as [[-> _]|[Hlt Hhi]].
    + by rewrite decide_True, bool_decide_eq_true_2.
    + rewrite decide_False, bool_decide_eq_false_2 by (intros ->; by eapply blt_irrefl).
      apply kv_lookup_None. intros Hin. eapply blt_irrefl, Hhi.
      rewrite (drop_lookup_cons _ _ _ E). simpl. set_solver.
  - by rewrite (drop_ge l) by lia.
Qed.

Lemma walk_run {A} b s (m : gmap loc node → option loc → CM A) w x a s' :
  w_bkts w !! b = Some x → m (w_nodes w) (rootView w x) s = (Ret a, s') →
  walk b s m w = (Ret (a, s'), w).
Proof. intros Hx Hm. unfold walk. by rewrite Hx, Hm. Qed.

(** The leaf a search ends in, and the rest of the tree around it. *)
Definition found (T : tree) (key : bytes) (s : list elemRef) (r : option kvf) : Prop :=
  ∃ l kvs,
    r = match kvs !! search_keys (keys kvs) key with Some p => ret_kv p | None => None end ∧
    (∃ i s', s = mkRef (Some l) i :: s' ∧
      e_index <$> reverse s' = Z.of_nat <$> path_of s' ∧
      at_path T (path_of s') = Some (Leaf l kvs) ∧ path_ok T (path_of s') key) ∧
    wf (Leaf l kvs) ∧
    (∃ bef aft, contents T = bef ++ kvs ++ aft ∧
      (∀ y, y ∈ keys bef → y ≺ key) ∧ (∀ y, y ∈ keys aft → key ≺ y)).

Lemma seek_found h T fuel key s0 :
  rep h T → wf T → tsize T ≤ fuel →
  ∃ r s, seek h (Some (tloc T)) fuel key s0 = (Ret r, s) ∧ found T key s r.
Proof.
  intros Hrep Hwf Hf. pose proof (wf_no_empty_branch _ Hwf) as Hne.
  destruct (seek_spec h T Hrep Hne fuel key s0 Hwf Hf) as (l & kvs & bef & aft & s' & Hrun & Hs & Hw & Hb & Ha & Hp).
  cbv zeta in Hrun. eexists _, _. split; [exact Hrun|]. exists l, kvs.
  pose proof (stk_at_path _ _ _ _ _ _ (Hs 0%Z)) as [Hat Hidx].
  pose proof (stk_contents _ _ _ _ _ (Hs 0%Z)) as Hc.
  split_and!; [done| |apply Hw..|eauto].
  - eexists _, s'. split_and!; done.
Qed.

Lemma found_lookup T key s r :
  found T key s r →
  kv_lookup key (contents T) =
    match r with Some (k, v, _) => if Equal key k then v else None | None => None end.
Proof.
  intros (l & kvs & -> & _ & [Hs _] & bef & aft & Hc & Hb & Ha).
  rewrite Hc, kv_lookup_ctx, (kv_lookup_search _ _ Hs) by done.
  by destruct (kvs !! _) as [[k v]|].
Qed.

Lemma Get_run fuel b key w x T tx :
  readable w b x T → w_txs w !! b_tx x = Some tx → tsize T ≤ fuel →
  Get fuel b key w = (Ret (kv_lookup key (contents T)), count_cursor (b_tx x) tx w).
Proof.
  intros Hr Htx Hf. unfold Get.
  rewrite (bind_Ret _ _ _ _ _ (Bucket_Cursor_run _ _ _ _ (rd_bkt _ _ _ _ Hr) Htx)).
  apply (count_cursor_readable _ _ _ _ _ Hr) in Htx as [Hx _ Hroot Hrep Hwf].
  destruct (seek_found _ _ fuel key [] Hrep Hwf Hf) as (r & s & Hrun & Hfd).
  assert (walk b [] (λ h root, seek h root fuel key) (count_cursor (b_tx x) tx w)
          = (Ret (r, s), count_cursor (b_tx x) tx w)) as Hw.
  { eapply walk_run; [done|]. by rewrite Hroot. }
  rewrite (bind_Ret _ _ _ _ _ Hw). rewrite (found_lookup _ _ _ _ Hfd). by destruct r as [[[k v] f]|].
Qed.

(** ** Writing *)

(** [Cursor.node] on a stack that leads to the leaf at path [p]. *)
Lemma Cursor_node_spec b e s p w x D T l kvs :
  bview w b x D T → e_index <$> reverse s = Z.of_nat <$> p → at_path T p = Some (Leaf l kvs) →
  ∃ w' D' T' lf,
    Cursor_node b (e :: s) w = (Ret lf, w') ∧
    bview w' b (set_b_rootNode (Some (tloc T')) (set_b_dirty (Some D') x)) D' T' ∧
    cow b (list_to_set (tlocs T)) w w' D D' ∧ erase T' = erase T ∧
    at_path T' p = Some (Leaf lf kvs) ∧ lf ∈ D' ∧
    (∀ y, y ∈ tlocs T' → y ∈ tlocs T ∨ (w_nextn w ≤ y)%positive).
Proof.
  intros [[Hx Htx Hroot Hrep Hwf] Ho Hopen Hmat Hnd] Hidx Hat. unfold Cursor_node.
  change (Assert (0 <? length (e :: s))) with (st_ret (S:=world) tt).
  rewrite (bind_Ret (st_ret tt) _ w tt w eq_refl).
  destruct (writableRoot_spec b w x D T Ho Hroot Hmat Hrep Hnd)
    as (w1 & D1 & T1 & Hrun1 & Ho1 & Hcow1 & He1 & HD1 & Hnd1 & Hold1 & Hcase & Hrep1).
  rewrite (bind_Ret _ _ _ _ _ Hrun1). cbn [tail].
  assert (∃ lf1, at_path T1 p = Some (Leaf lf1 kvs)) as [lf1 Hat1].
  { destruct Hcase as [->|(l' & ->)]; [eauto|]. by eapply at_path_set_tloc. }
  destruct (cow_path_spec b p (reverse s) w1 _ D1 T1 lf1 kvs Hidx Ho1 Hrep1 Hnd1 HD1 Hat1)
    as (w2 & D2 & T2 & lf & Hrun2 & Ho2 & Hcow2 & He2 & Hl2 & Hat2 & HD2 & Hnd2 & Hold2 & Hrep2).
  rewrite (bind_Ret _ _ _ _ _ Hrun2).
  assert (∃ n, w_nodes w2 !! lf = Some n ∧ n_isLeaf n = true) as (n & Hn & Hlf).
  { clear -Hrep2 Hat2. revert T2 Hrep2 Hat2. induction p as [|i p IH]; intros T2 Hr; cbn [at_path].
    - intros [= ->]. destruct Hr as (n & ? & ? & _). eauto.
    - destruct T2 as [|l0 cs]; [done|]. destruct (cs !! i) as [[k c]|] eqn:Hi; [|done].
      apply IH. by eapply rep_child. }
  rewrite (bind_Ret _ _ _ _ _ (get_node_run _ _ _ Hn)), Hlf.
  change (Assert true) with (st_ret (S:=world) tt). rewrite (bind_Ret (st_ret tt) _ w2 tt w2 eq_refl).
  pose proof (cow_txs _ _ _ _ _ _ Hcow1) as Ht1. pose proof (cow_txs _ _ _ _ _ _ Hcow2) as Ht2.
  assert (Ht : strip <$> w_txs w2 = strip <$> w_txs w) by congruence.
  exists w2, D2, T2, lf. split_and!; auto.
  - rewrite Hl2. split; [split|..]; auto.
    + apply (ow_bkt _ _ _ _ Ho2).
    + destruct Htx as [tx Htx]. destruct (strip_lookup _ _ _ _ Ht Htx) as (? & ? & _). simpl. eauto.
    + simpl. unfold rootView. simpl. by rewrite Hl2.
    + eapply wf_erase_eq; [|done]. congruence.
    + simpl. intros tx2 Htx2. destruct (strip_lookup _ _ _ _ (eq_sym Ht) Htx2) as (tx & Htx1 & Hs).
      destruct (Hopen tx Htx1). destruct (strip_fields _ _ Hs) as (<- & <- & _). done.
    + simpl. intros r [= <-]. by apply (cow_sub _ _ _ _ _ _ Hcow2).
  - eapply cow_trans; [eapply cow_mono; [|exact Hcow1]; set_solver|exact Hcow2|].
    intros y Hy Hlt. rewrite elem_of_list_to_set in *. destruct (Hold1 y Hy); [done|lia].
  - congruence.
  - intros y Hy. pose proof (cow_next _ _ _ _ _ _ Hcow1).
    destruct (Hold2 y Hy) as [Hy1|?]; [destruct (Hold1 y Hy1); auto|right; lia].
Qed.

Lemma at_path_node h T p lf kvs :
  rep h T → at_path T p = Some (Leaf lf kvs) → ∃ n, h !! lf = Some n ∧ leaf_node kvs n.
Proof.
  revert T. induction p as [|i p IH]; intros T Hr; cbn [at_path].
  - intros [= ->]. exact Hr.
  - destruct T as [|l0 cs]; [done|]. destruct (cs !! i) as [[k c]|] eqn:Hi; [|done].
    apply IH. by eapply rep_child.
Qed.

Lemma tsize_set_path T p lf kvs kvs' :
  at_path T p = Some (Leaf lf kvs) →
  tsize (set_path T p (Leaf lf kvs')) = tsize T ∧ tloc (set_path T p (Leaf lf kvs')) = tloc T.
Proof.
  revert T. induction p as [|i p IH]; intros T; [intros [= ->]; done|].
  destruct T as [|l0 cs]; [done|]. cbn [at_path set_path].
  destruct (cs !! i) as [[k c]|] eqn:Hi; [|done]. intros Hat%IH. split; [|done].
  rewrite (alter_lookup_insert _ _ _ _ Hi). simpl. f_equal. f_equal. change (map ?f ?l) with (f <$> l).
  rewrite list_fmap_insert. apply list_insert_id. rewrite list_lookup_fmap, Hi. simpl.
  by destruct Hat as [-> _].
Qed.

(** Overwriting one of the bucket's own leaves. *)
Lemma bview_write_leaf b w x D T p lf kvs kvs' n' :
  bview w b x D T → at_path T p = Some (Leaf lf kvs) → lf ∈ D →
  leaf_node kvs' n' → n_bucket n' = Some b → wf (set_path T p (Leaf lf kvs')) →
  let w' := set_nodes (<[lf := n']> (w_nodes w)) w in
  bview w' b x D (set_path T p (Leaf lf kvs')) ∧ cow b (list_to_set (tlocs T)) w w' D D.
Proof.
  intros [[Hx Htx Hroot Hrep Hwf] [_ Hd Hfr Hal Hbk] Hopen Hmat Hnd] Hat HD Hn' Hb' Hwf' w'.
  destruct (at_path_node _ _ _ _ _ Hrep Hat) as (n & Hn & _).
  destruct (rep_set_leaf _ _ _ _ _ kvs' n' Hrep Hnd Hat Hn') as [Hrep' Hlocs].
  split.
  - split; [split|split|..]; auto; simpl.
    + by rewrite (proj2 (tsize_set_path _ _ _ _ kvs' Hat)).
    + intros l m. rewrite lookup_insert. case_decide; [subst; eauto|eauto].
    + intros l m Hl. rewrite lookup_insert. case_decide; [intros [= <-]; done|eauto].
    + by rewrite Hlocs.
  - split; simpl; auto; [set_solver| |lia]. intros l Hl Hor.
    rewrite lookup_insert_ne; [done|]. intros <-. destruct Hor as [?|Hor]; [done|]. apply Hor.
    rewrite elem_of_list_to_set. rewrite <- Hlocs. clear -Hat.
    revert T Hat. induction p as [|i p IH]; intros T; cbn [at_path set_path]; [simpl; set_solver|].
    destruct T as [|l0 cs]; [done|]. destruct (cs !! i) as [[k c]|] eqn:Hi; [|done]. intros Hat%IH.
    rewrite (alter_lookup_insert _ _ _ _ Hi), tlocs_Branch, (clocs_insert _ _ _ _ _ Hi). set_solver.
Qed.

(** What a write leaves behind: the same handle on a tree [T'], reached by
    writing only the transaction's own nodes. *)
Record wrote (b : bid) (w : world) (x : Bucket) (D : gset loc) (T : tree)
    (w' : world) (T' : tree) : Prop := mkWrote {
  wr_view : ∃ x' D', bview w' b x' D' T' ∧ cow b (list_to_set (tlocs T)) w w' D D' ∧
    b_tx x' = b_tx x ∧ b_name x' = b_name x;
  wr_size : tsize T' = tsize T;
  wr_locs : ∀ y, y ∈ tlocs T' → y ∈ tlocs T ∨ (w_nextn w ≤ y)%positive
}.

(** A leaf edit through [Cursor.node]: [f] rewrites the leaf the way [g] rewrites
    its pairs, and [g] commutes with the surrounding contents. *)
Lemma leaf_edit fuel b key w x D T tx r s (op : loc → M unit) (f : node → node) (g : list kv → list kv) :
  bview w b x D T → w_txs w !! b_tx x = Some tx → tsize T ≤ fuel →
  found T key s r →
  (∀ l n w, w_nodes w !! l = Some n → op l w = (Ret tt, set_nodes (<[l := f n]> (w_nodes w)) w)) →
  (∀ n, n_bucket (f n) = n_bucket n) →
  (∀ kvs n, ssorted (keys kvs) → leaf_node kvs n → leaf_node (g kvs) (f n)) →
  (∀ bef kvs aft, (∀ y, y ∈ keys bef → y ≺ key) → (∀ y, y ∈ keys aft → key ≺ y) →
     g (bef ++ kvs ++ aft) = bef ++ g kvs ++ aft) →
  (∀ kvs, ssorted (keys kvs) → ssorted (keys (g kvs))) →
  (∀ kvs y, y ∈ keys (g kvs) → (y = key ∧ key ≠ []) ∨ y ∈ keys kvs) →
  ∃ w' T',
    (let! n := Cursor_node b s in op n) w = (Ret tt, w') ∧
    wrote b w x D T w' T' ∧ contents T' = g (contents T).
Proof.
  intros Hv Htx Hf (l & kvs & _ & (i & s' & -> & Hidx & Hat & Hpo) & [Hss Hne] & bef & aft & Hc & Hb & Ha)
    Hop Hbk Hleaf Hctx Hsort Hkeys.
  destruct (Cursor_node_spec b (mkRef (Some l) i) s' _ w x D T l kvs Hv Hidx Hat)
    as (w1 & D1 & T1 & lf & Hrun & Hv1 & Hcow & He & Hat1 & HD1 & Hold).
  rewrite (bind_Ret _ _ _ _ _ Hrun).
  destruct (at_path_node _ _ _ _ _ (rd_rep _ _ _ _ (bv_read _ _ _ _ _ Hv1)) Hat1) as (n & Hn & Hln).
  pose proof (ow_bucket _ _ _ _ (bv_owner _ _ _ _ _ Hv1) lf n HD1 Hn) as Hnb.
  assert (Hwf' : wf (set_path T1 (path_of s') (Leaf lf (g kvs)))).
  { eapply (wf_set_path T1 _ key); [apply Hv1|done| |by apply Hsort|].
    - intros y [[-> _]|?]%Hkeys; [right|by left]. split; [done|]. by eapply path_ok_erase_eq.
    - rewrite Forall_forall in Hne. rewrite Forall_forall. intros y [[-> ?]|?]%Hkeys; auto. }
  destruct (bview_write_leaf b w1 _ D1 T1 _ lf kvs (g kvs) (f n) Hv1 Hat1 HD1) as [Hv2 Hcow2]; auto.
  { by rewrite Hbk. }
  destruct (rep_set_leaf _ _ _ _ _ (g kvs) (f n) (rd_rep _ _ _ _ (bv_read _ _ _ _ _ Hv1)) (bv_nodup _ _ _ _ _ Hv1) Hat1) as [_ Hlocs]; [auto|].
  eexists _, _. split; [by apply Hop|]. split; [split|].
  - eexists _, D1. split; [exact Hv2|]. split; [|done].
    eapply cow_trans; [exact Hcow|exact Hcow2|]. intros y Hy Hlt. rewrite elem_of_list_to_set in *.
    destruct (Hold y Hy); [done|lia].
  - rewrite (proj1 (tsize_set_path _ _ _ _ _ Hat1)). by rewrite <- (tsize_erase T1), He, tsize_erase.
  - by rewrite Hlocs.
  - destruct (path_bounds T1 (path_of s') key lf kvs) as (b1 & a1 & Hc1 & Hs1 & Hb1 & Ha1);
      [apply Hv1|done|by eapply path_ok_erase_eq|].
    by rewrite Hs1, <- (contents_erase_eq _ _ He), Hc1, Hctx.
Qed.

Lemma count_cursor_bview w b x D T tx :
  bview w b x D T → w_txs w !! b_tx x = Some tx → bview (count_cursor (b_tx x) tx w) b x D T.
Proof.
  intros [Hr Ho Hopen Hmat Hnd] Htx. split; auto; [by apply count_cursor_readable|by destruct Ho|].
  intros tx'. simpl. rewrite lookup_insert_eq. intros [= <-]. exact (Hopen tx Htx).
Qed.

Lemma count_cursor_wrote w b x D T tx w' T' :
  w_txs w !! b_tx x = Some tx →
  wrote b (count_cursor (b_tx x) tx w) x D T w' T' → wrote b w x D T w' T'.
Proof.
  intros Htx [(x' & D' & Hv & Hc & Heq) Hsz Hl]. split; auto. exists x', D'.
  refine (conj Hv (conj _ Heq)).
  eapply cow_trans; [eapply cow_mono; [|by apply count_cursor_cow]; set_solver|exact Hc|]. auto.
Qed.

Lemma wrote_refl b w x D T : bview w b x D T → wrote b w x D T w T.
Proof. intros Hv. split; auto. exists x, D. auto using cow_refl. Qed.

Lemma blen_pos k : (0 < blen k)%Z ↔ k ≠ [].
Proof. unfold blen. destruct k; simpl; split; intros; first [done|lia]. Qed.

(** The search [Put] and [Delete] start with. *)
Lemma write_seek fuel b key w x D T tx :
  bview w b x D T → w_txs w !! b_tx x = Some tx → tsize T ≤ fuel →
  ∃ r s, walk b [] (λ h root, seek h root fuel key) (count_cursor (b_tx x) tx w)
      = (Ret (r, s), count_cursor (b_tx x) tx w) ∧ found T key s r.
Proof.
  intros Hv Htx Hf. pose proof (bv_read _ _ _ _ _ Hv) as Hr.
  apply (count_cursor_readable _ _ _ _ _ Hr) in Htx as [Hx _ Hroot Hrep Hwf].
  destruct (seek_found _ _ fuel key [] Hrep Hwf Hf) as (r & s & Hrun & Hfd).
  exists r, s. split; [|done]. eapply walk_run; [done|]. by rewrite Hroot.
Qed.

(** [node.put] through a pointer, on a leaf. *)
Lemma put_at_run key value l n w :
  key ≠ [] → w_nodes w !! l = Some n →
  put_at l key key (Some value) None 0 w =
    (Ret tt, set_nodes (<[l := set_n_inodes (inodes_put key key (Some value) None 0 (n_inodes n)) n]> (w_nodes w)) w).
Proof.
  intros Hk Hn. unfold put_at. rewrite (bind_Ret _ _ _ _ _ (get_node_run _ _ _ Hn)). unfold node_put.
  apply blen_pos in Hk. destruct (Z.leb_spec (blen key) 0); [lia|].
  exact (upd_node_run w l (λ _, _) n Hn).
Qed.

Lemma Put_run fuel b key value w x D T :
  bview w b x D T → tsize T ≤ fuel →
  (0 < blen key ≤ MaxKeySize)%Z → (blen value ≤ MaxValueSize)%Z →
  ∃ w' T', Put fuel b key value w = (Ret None, w') ∧ wrote b w x D T w' T' ∧
    contents T' = kv_insert key value (contents T).
Proof.
  intros Hv Hf Hk Hval. pose proof (bv_read _ _ _ _ _ Hv) as [Hx [tx Htx] _ _ _].
  destruct (bv_open _ _ _ _ _ Hv tx Htx) as [Hdb Hwr]. unfold Put.
  rewrite (bind_Ret _ _ _ _ _ (get_bkt_run _ _ _ Hx)), (bind_Ret _ _ _ _ _ (get_tx_run _ _ _ Htx)), Hdb, Hwr.
  change (negb true) with false. cbv iota. destruct (Z.eqb_spec (blen key) 0); [lia|].
  destruct (Z.ltb_spec MaxKeySize (blen key)); [lia|]. destruct (Z.ltb_spec MaxValueSize (blen value)); [lia|].
  rewrite (bind_Ret _ _ _ _ _ (Bucket_Cursor_run _ _ _ _ Hx Htx)).
  destruct (write_seek fuel b key w x D T tx Hv Htx Hf) as (r & s & Hw & Hfd).
  rewrite (bind_Ret _ _ _ _ _ Hw).
  assert (Hk0 : key ≠ []) by (apply blen_pos; lia).
  destruct (leaf_edit fuel b key _ x D T _ r s (λ n, put_at n key key (Some value) None 0)
    (λ n, set_n_inodes (inodes_put key key (Some value) None 0 (n_inodes n)) n) (kv_insert key value)
    (count_cursor_bview _ _ _ _ _ _ Hv Htx) ltac:(simpl; apply lookup_insert_eq) Hf Hfd)
    as (w' & T' & Hrun & Hwr' & Hc); auto using kv_insert_ctx, kv_insert_sorted.
  - intros. by apply put_at_run.
  - intros kvs nd Hs [Hl Hi]. split; [done|]. simpl. by rewrite Hi, inodes_put_leaf.
  - intros kvs y [->|?]%elem_of_keys_insert; auto.
  - exists w', T'. refine (conj _ (conj _ Hc)); [|by eapply count_cursor_wrote].
    by rewrite (bind_then _ _ _ _ _ _ Hrun).
Qed.

Lemma Delete_run fuel b key w x D T :
  bview w b x D T → tsize T ≤ fuel →
  ∃ w' T', Delete fuel b key w = (Ret None, w') ∧ wrote b w x D T w' T' ∧
    contents T' = kv_delete key (contents T).
Proof.
  intros Hv Hf. pose proof (bv_read _ _ _ _ _ Hv) as [Hx [tx Htx] _ _ Hwf].
  destruct (bv_open _ _ _ _ _ Hv tx Htx) as [Hdb Hwr]. unfold Delete.
  rewrite (bind_Ret _ _ _ _ _ (get_bkt_run _ _ _ Hx)), (bind_Ret _ _ _ _ _ (get_tx_run _ _ _ Htx)), Hdb, Hwr.
  change (negb true) with false. cbv iota. rewrite (bind_Ret _ _ _ _ _ (Bucket_Cursor_run _ _ _ _ Hx Htx)).
  destruct (write_seek fuel b key w x D T tx Hv Htx Hf) as (r & s & Hw & Hfd).
  rewrite (bind_Ret _ _ _ _ _ Hw). pose proof (count_cursor_bview _ _ _ _ _ _ Hv Htx) as Hv1.
  destruct (Equal key (match r with Some (k, _, _) => k | None => [] end)) eqn:Heq.
  - destruct (leaf_edit fuel b key _ x D T _ r s (λ n, del_at n key) (λ n, node_del n key) (kv_delete key)
      Hv1 ltac:(simpl; apply lookup_insert_eq) Hf Hfd)
      as (w' & T' & Hrun & Hwr' & Hc); auto using kv_delete_ctx, kv_delete_sorted.
    + intros l n w0 Hn. exact (upd_node_run w0 l (λ nd, node_del nd key) n Hn).
    + intros n. unfold node_del. by destruct (inodes_del key (n_inodes n)).
    + intros kvs n Hs [Hl Hi]. unfold node_del. rewrite Hi, inodes_del_leaf by done.
      case_decide; [by split|]. split; [done|]. by rewrite Hi, kv_delete_notin.
    + intros kvs y ?%elem_of_keys_delete; auto.
    + exists w', T'. refine (conj _ (conj _ Hc)); [|by eapply count_cursor_wrote].
      cbv beta iota zeta. change (negb true) with false. cbv iota. by rewrite (bind_then _ _ _ _ _ _ Hrun).
  - exists (count_cursor (b_tx x) tx w), T. split; [done|]. split.
    + by eapply count_cursor_wrote, wrote_refl.
    + symmetry. apply kv_delete_notin, kv_lookup_None. rewrite (found_lookup _ _ _ _ Hfd).
      destruct r as [[[k v] f]|]; [|done]. by rewrite Heq.
Qed.

(** ** Walking *)

(** Folding a callback that may stop over the pairs, in order. *)
Fixpoint kv_fold {A} (fn : A → bytes → option bytes → A * option err) (acc : A) (l : list kv)
    : A * option err :=
  match l with
  | [] => (acc, None)
  | (k, v) :: l' =>
      match fn acc k (Some v) with
      | (acc', Some e) => (acc', Some e)
      | (acc', None) => kv_fold fn acc' l'
      end
  end.

Lemma each_loop_run {A} (fn : A → bytes → option bytes → A * option err) h T fuel rounds :
  rep h T → wf T → tsize T ≤ fuel → ∀ rest acc don p s,
  on T s don p rest → S (length rest) < rounds →
  ∃ s', each_loop fuel fn h rounds (ret_kv p) acc s = (Ret (kv_fold fn acc (p :: rest)), s').
Proof.
  intros Hrep Hwf Hf. pose proof (wf_no_empty_branch _ Hwf) as Hne.
  induction rounds as [|rounds IH]; intros rest acc don p s Hon Hr; [lia|].
  destruct p as [k v]. simpl. destruct (fn acc k (Some v)) as [acc' [e|]]; [by eexists|].
  pose proof (next_on h T Hrep Hne fuel s don (k, v) rest Hf Hon) as Hn.
  destruct rest as [|y rest].
  - destruct Hn as (s' & Hn & _). rewrite (bind_Ret _ _ _ _ _ Hn).
    destruct rounds; [simpl in Hr; lia|]. by eexists.
  - destruct Hn as (s' & Hn & Hon'). rewrite (bind_Ret _ _ _ _ _ Hn).
    eapply IH; [done|simpl in *; lia].
Qed.

Lemma each_run {A} (fn : A → bytes → option bytes → A * option err) h T fuel acc s0 :
  rep h T → wf T → tsize T ≤ fuel → length (contents T) < fuel →
  ∃ s', each fuel fn acc h (Some (tloc T)) s0 = (Ret (kv_fold fn acc (contents T)), s').
Proof.
  intros Hrep Hwf Hf Hl. pose proof (wf_no_empty_branch _ Hwf) as Hne. unfold each.
  pose proof (first_spec h T Hrep Hne fuel Hf s0) as Hfst.
  destruct (contents T) as [|p rest].
  - destruct Hfst as (s' & Hs & _). rewrite (bind_Ret _ _ _ _ _ Hs). destruct fuel; [simpl in Hl; lia|].
    by eexists.
  - destruct Hfst as (s' & Hs & Hon). rewrite (bind_Ret _ _ _ _ _ Hs).
    eapply each_loop_run; eauto.
Qed.

Lemma ForEach_run {A} (fn : A → bytes → option bytes → A * option err) fuel b acc w x T tx :
  readable w b x T → w_txs w !! b_tx x = Some tx → t_db tx = true →
  tsize T ≤ fuel → length (contents T) < fuel →
  Bucket_ForEach fuel b fn acc w =
    (Ret (kv_fold fn acc (contents T)), count_cursor (b_tx x) tx w).
Proof.
  intros Hr Htx Hdb Hf Hl. unfold Bucket_ForEach.
  rewrite (bind_Ret _ _ _ _ _ (get_bkt_run _ _ _ (rd_bkt _ _ _ _ Hr))), (bind_Ret _ _ _ _ _ (get_tx_run _ _ _ Htx)), Hdb.
  change (negb true) with false. cbv iota.
  rewrite (bind_Ret _ _ _ _ _ (Bucket_Cursor_run _ _ _ _ (rd_bkt _ _ _ _ Hr) Htx)).
  pose proof (count_cursor_readable _ _ _ _ _ Hr Htx) as [Hx _ Hroot Hrep Hwf].
  destruct (each_run fn _ T fuel acc [] Hrep Hwf Hf Hl) as [s' Hs].
  assert (walk b [] (each fuel fn acc) (count_cursor (b_tx x) tx w)
          = (Ret (kv_fold fn acc (contents T), s'), count_cursor (b_tx x) tx w)) as Hw.
  { eapply walk_run; [done|]. by rewrite Hroot. }
  by rewrite (bind_Ret _ _ _ _ _ Hw).
Qed.

(** [Seek] splits the contents at the key and stands on the first pair not below. *)
Lemma tree_Seek_spec h T fuel key s0 :
  rep h T → wf T → tsize T ≤ fuel →
  ∃ don rest s', contents T = don ++ rest ∧
    (∀ y, y ∈ keys don → y ≺ key) ∧ (∀ y, y ∈ keys rest → key ≼ y) ∧
    match rest with
    | [] => tree_Seek h (Some (tloc T)) fuel key s0 = (Ret None, s')
    | p :: rest' => tree_Seek h (Some (tloc T)) fuel key s0 = (Ret (ret_kv p), s') ∧ on T s' don p rest'
    end.
Proof.
  intros Hrep Hwf Hf. pose proof (wf_no_empty_branch _ Hwf) as Hne.
  destruct (seek_spec h T Hrep Hne fuel key s0 Hwf Hf) as (l & kvs & bef & aft & s' & Hrun & Hs & [Hss _] & Hb & Ha & _).
  cbv zeta in Hrun. destruct (search_split kvs key Hss) as [Hlo Hhi]. set (r := search_keys (keys kvs) key) in *.
  pose proof (stk_contents _ _ _ _ _ (Hs (Z.of_nat r))) as Hc. simpl in Hc.
  exists (flat_trees bef ++ take r kvs), (drop r kvs ++ flat_trees aft).
  assert (Hsplit : contents T = (flat_trees bef ++ take r kvs) ++ drop r kvs ++ flat_trees aft).
  { by rewrite Hc, <- (take_drop r kvs) at 1; rewrite <- !app_assoc. }
  assert (Hlow : ∀ y, y ∈ keys (flat_trees bef ++ take r kvs) → y ≺ key).
  { intros y. rewrite keys_app, elem_of_app. intros [?|?]; auto. }
  unfold tree_Seek. rewrite (bind_Ret _ _ _ _ _ Hrun), (bind_Ret _ _ _ _ _ (top_cons _ _)).
  rewrite (bind_Ret _ _ _ _ _ (count_leaf h T Hrep Hne _ _ _ _ _ _ _ (Hs _))).
  destruct (kvs !! r) as [p|] eqn:E.
  - pose proof (lookup_lt_Some _ _ _ E). cbn [e_index]. rewrite (proj2 (Z.leb_gt _ _)) by lia.
    assert (Hhigh : ∀ y, y ∈ keys (drop r kvs ++ flat_trees aft) → key ≼ y).
    { intros y. rewrite keys_app, elem_of_app. intros [Hy|?]; [|auto using blt_ble].
      destruct p as [k v]. rewrite (drop_lookup_cons _ _ _ E) in Hy. simpl in Hy.
      destruct Hhi as [[-> Hhi]|[Hlt Hhi]]; [apply elem_of_cons in Hy as [->|?]; auto using ble_refl, blt_ble|].
      apply blt_ble, Hhi. by rewrite (drop_lookup_cons _ _ _ E). }
    eexists. split_and!; [done|done|done|]. rewrite (drop_lookup_cons _ _ _ E). simpl.
    split; [done|]. exists l, kvs, r, bef, aft, s'. by split_and!.
  - apply lookup_ge_None in E. cbn [e_index]. rewrite (proj2 (Z.leb_le _ _)) by lia.
    rewrite (drop_ge kvs) by done. simpl.
    assert (at_end T (mkRef (Some l) (Z.of_nat r) :: s') (flat_trees bef ++ take r kvs) (flat_trees aft)) as Hend.
    { exists l, kvs, bef, aft, s'. rewrite take_ge, <- Hhi by done. by split_and!. }
    pose proof (next_end h T Hrep Hne fuel _ _ _ Hf Hend) as Hn.
    destruct (flat_trees aft) as [|p rest] eqn:Ea.
    + destruct Hn as (s2 & Hn & _). exists s2. split_and!; [|done|set_solver|done].
      by rewrite Hsplit, (drop_ge kvs).
    + destruct Hn as (s2 & Hn & Hon). exists s2. split_and!; [|done|auto using blt_ble|done|done].
      by rewrite Hsplit, (drop_ge kvs).
Qed.
