(* ===== verification/BucketThm.v ===== *)
(** * The bucket contract

    The theorems a user of [Bucket] and [Cursor] relies on, and a two-level
    bucket on which each of them is instantiated. *)
From S2P Require Import Prelude GoSort Stats World Node KV Tree TreePath Cursor CursorSpec Cow Bucket CowSpec BucketSpec.
Local Open Scope bytes_scope.
Local Open Scope st_scope.

(** ** An example bucket *)

(** Two published leaves under a published root, opened by a write transaction. *)
Definition ex_tree : tree :=
  Branch 1 [([x61], Leaf 2 [([x61], [x01]); ([x62], [x02])]);
            ([x63], Leaf 3 [([x63], [x03]); ([x64], [x04])])].
Definition ex_nodes : gmap loc node :=
  list_to_map
    [(1%positive, mkNode None false false false [x61] None
        (branch_inode <$> [([x61], Leaf 2 []); ([x63], Leaf 3 [])]));
     (2%positive, mkNode None true false false [x61] None
        (leaf_inode <$> [([x61], [x01]); ([x62], [x02])]));
     (3%positive, mkNode None true false false [x63] None
        (leaf_inode <$> [([x63], [x03]); ([x64], [x04])]))].
Definition ex_state : dbState := mkDbState {[ [x6e] := Some (mkBucketState (Some 1%positive)) ]}.
Definition ex_tx (writable : bool) : Tx :=
  mkTx writable false true (Some ex_state) ∅ ∅ ∅ TxStats_zero [].
Definition ex_bucket (writable : bool) : Bucket :=
  mkBucket 1 [x6e] None (if writable then Some ∅ else None) DefaultFillPercent.
Definition ex_world (writable : bool) : world :=
  mkWorld ex_nodes 4 {[ 1%positive := ex_bucket writable ]} 2 {[ 1%positive := ex_tx writable ]} 2
    (mkDB true None (Some ex_state) writable false) [].

Lemma ex_readable wr : readable (ex_world wr) 1 (ex_bucket wr) ex_tree.
Proof.
  split; [done|eexists; done|done| |].
  - simpl. split_and!; eexists; (split; [reflexivity|split; reflexivity]).
  - vm_compute. repeat constructor; (discriminate || (intros H; discriminate H)).
Qed.

Lemma ex_bview : bview (ex_world true) 1 (ex_bucket true) ∅ ex_tree.
Proof.
  split; [apply ex_readable|split| | |].
  - done.
  - done.
  - intros l n Hn. apply elem_of_list_to_map_2 in Hn.
    rewrite !elem_of_cons, elem_of_nil in Hn. simpl. naive_solver lia.
  - set_solver.
  - set_solver.
  - simpl. intros tx [= <-]. done.
  - done.
  - vm_compute. repeat constructor; set_solver.
Qed.

(** ** Theorems *)

(** [Bucket.Get] returns the value stored under the key, or nil: it is the
    lookup of the bucket's key/value list, and it changes only statistics. *)
Theorem Get_correct fuel b key w x T :
  readable w b x T → tsize T ≤ fuel →
  ∃ w', Get fuel b key w = (Ret (kv_lookup key (contents T)), w') ∧
    w_nodes w' = w_nodes w ∧ w_bkts w' = w_bkts w ∧ w_db w' = w_db w ∧
    strip <$> w_txs w' = strip <$> w_txs w.
Proof.
  intros Hr Hf. destruct (rd_tx _ _ _ _ Hr) as [tx Htx].
  exists (count_cursor (b_tx x) tx w). split; [by apply Get_run|]. split_and!; try done.
  by apply (cow_txs _ _ _ _ _ _ (count_cursor_cow b _ _ _ ∅ Htx)).
Qed.

Lemma Get_correct_witness :
  ∃ w', Get 4 1 [x63] (ex_world false) = (Ret (Some [x03]), w') ∧ w_nodes w' = ex_nodes.
Proof.
  destruct (Get_correct 4 1 [x63] (ex_world false) _ _ (ex_readable false)) as (w' & Hg & Hn & _).
  - vm_compute. lia.
  - exists w'. split; [exact Hg|exact Hn].
Defined.

(** C21. [Bucket.Put] on a writable bucket with a key and a value of legal size
    succeeds; the bucket then holds the old pairs with the key bound to the
    value, its tree is still well formed, and every node that was not the
    transaction's own copy is unchanged. *)
Theorem Put_correct fuel b key value w x D T :
  bview w b x D T → tsize T ≤ fuel →
  (0 < blen key ≤ MaxKeySize)%Z → (blen value ≤ MaxValueSize)%Z →
  ∃ w' x' D' T', Put fuel b key value w = (Ret None, w') ∧ bview w' b x' D' T' ∧
    contents T' = kv_insert key value (contents T) ∧ tsize T' = tsize T ∧
    (∀ l n, w_nodes w !! l = Some n → l ∉ D → w_nodes w' !! l = Some n) ∧
    (∀ b', b' ≠ b → w_bkts w' !! b' = w_bkts w !! b').
Proof.
  intros Hv Hf Hk Hval. destruct (Put_run fuel b key value w x D T Hv Hf Hk Hval)
    as (w' & T' & Hrun & [(x' & D' & Hv' & Hc & _) Hsz _] & Hcont).
  exists w', x', D', T'. split_and!; auto.
  - intros l n Hl Hd. rewrite (cow_frame _ _ _ _ _ _ Hc); auto. by eapply ow_fresh, Hl; apply Hv.
  - apply (cow_bkts _ _ _ _ _ _ Hc).
Qed.

Lemma Put_correct_witness :
  ∃ w' x' D' T', Put 4 1 [x62; x62] [xff] (ex_world true) = (Ret None, w') ∧ bview w' 1 x' D' T' ∧
    contents T' = [([x61], [x01]); ([x62], [x02]); ([x62; x62], [xff]); ([x63], [x03]); ([x64], [x04])].
Proof.
  destruct (Put_correct 4 1 [x62; x62] [xff] _ _ _ _ ex_bview) as (w' & x' & D' & T' & Hr & Hv & Hc & _);
    [vm_compute; lia|done|done|].
  exists w', x', D', T'. split; [exact Hr|]. split; [exact Hv|]. rewrite Hc. reflexivity.
Defined.

(** C22. [Bucket.Delete] on a writable bucket never fails: afterwards the bucket
    holds the old pairs without the key (all of them if the key was absent), the
    tree is still well formed, and nodes that are not the transaction's own
    copies are unchanged. *)
Theorem Delete_correct fuel b key w x D T :
  bview w b x D T → tsize T ≤ fuel →
  ∃ w' x' D' T', Delete fuel b key w = (Ret None, w') ∧ bview w' b x' D' T' ∧
    contents T' = kv_delete key (contents T) ∧ tsize T' = tsize T ∧
    (∀ l n, w_nodes w !! l = Some n → l ∉ D → w_nodes w' !! l = Some n) ∧
    (∀ b', b' ≠ b → w_bkts w' !! b' = w_bkts w !! b').
Proof.
  intros Hv Hf. destruct (Delete_run fuel b key w x D T Hv Hf)
    as (w' & T' & Hrun & [(x' & D' & Hv' & Hc & _) Hsz _] & Hcont).
  exists w', x', D', T'. split_and!; auto.
  - intros l n Hl Hd. rewrite (cow_frame _ _ _ _ _ _ Hc); auto. by eapply ow_fresh, Hl; apply Hv.
  - apply (cow_bkts _ _ _ _ _ _ Hc).
Qed.

Lemma Delete_correct_witness :
  ∃ w' x' D' T', Delete 4 1 [x63] (ex_world true) = (Ret None, w') ∧ bview w' 1 x' D' T' ∧
    contents T' = [([x61], [x01]); ([x62], [x02]); ([x64], [x04])].
Proof.
  destruct (Delete_correct 4 1 [x63] _ _ _ _ ex_bview) as (w' & x' & D' & T' & Hr & Hv & Hc & _);
    [vm_compute; lia|].
  exists w', x', D', T'. split; [exact Hr|]. split; [exact Hv|]. rewrite Hc. reflexivity.
Defined.

(** The reason [Put] gives for refusing a pair, if it refuses it. *)
Definition put_error (tx : Tx) (key value : bytes) : option err :=
  if negb (t_db tx) then Some ErrTxClosed
  else if negb (t_writable tx) then Some ErrTxNotWritable
  else if decide (key = []) then Some ErrKeyRequired
  else if decide (32768 < blen key)%Z then Some ErrKeyTooLarge
  else if decide (2147483646 < blen value)%Z then Some ErrValueTooLarge
  else None.

Lemma Put_error_run fuel b key value w x tx e :
  w_bkts w !! b = Some x → w_txs w !! b_tx x = Some tx → put_error tx key value = Some e →
  Put fuel b key value w = (Ret (Some e), w).
Proof.
  intros Hx Htx. unfold Put, put_error.
  rewrite (bind_Ret _ _ _ _ _ (get_bkt_run _ _ _ Hx)), (bind_Ret _ _ _ _ _ (get_tx_run _ _ _ Htx)).
  destruct (t_db tx), (t_writable tx); simpl negb; cbv iota; [|by intros [= <-]..].
  unfold blen, MaxKeySize, MaxValueSize. change (2 ^ 31 - 2)%Z with 2147483646%Z.
  destruct (decide (key = [])) as [->|Hk]; [by intros [= <-]|].
  destruct (Z.eqb_spec (Z.of_nat (length key)) 0) as [H0|_]; [destruct key; [done|simpl in H0; lia]|].
  destruct (Z.ltb_spec 32768 (Z.of_nat (length key))); [rewrite decide_True by lia; by intros [= <-]|].
  rewrite decide_False by lia.
  destruct (Z.ltb_spec 2147483646 (Z.of_nat (length value)));
    [rewrite decide_True by lia; by intros [= <-]|by rewrite decide_False by lia].
Qed.

(** The computation [m] cannot return an error. *)
Lemma no_error_bind {A} (m : M A) (f : A → M (option err)) :
  (∀ a w e w', f a w ≠ (Ret (Some e), w')) → ∀ w e w', st_bind m f w ≠ (Ret (Some e), w').
Proof. intros Hf w e w'. unfold st_bind. destruct (m w) as [[]?]; [apply Hf|done..]. Qed.

(** C29. [Bucket.Put] reports an error exactly when the transaction is closed or
    read-only, the key is empty or longer than 32768 bytes, or the value longer
    than 2^31 - 2 bytes (the first that applies), and then changes nothing. *)
Theorem Put_rejects fuel b key value w x tx e w' :
  w_bkts w !! b = Some x → w_txs w !! b_tx x = Some tx →
  Put fuel b key value w = (Ret (Some e), w') ↔ put_error tx key value = Some e ∧ w' = w.
Proof.
  intros Hx Htx. split.
  - intros Hp. destruct (put_error tx key value) as [e'|] eqn:E.
    { rewrite (Put_error_run _ _ _ _ _ _ _ _ Hx Htx E) in Hp. by simplify_eq. }
    exfalso. revert Hp. unfold Put, put_error in *.
    rewrite (bind_Ret _ _ _ _ _ (get_bkt_run _ _ _ Hx)), (bind_Ret _ _ _ _ _ (get_tx_run _ _ _ Htx)).
    unfold blen, MaxKeySize, MaxValueSize in *. change (2 ^ 31 - 2)%Z with 2147483646%Z.
    destruct (t_db tx), (t_writable tx); simpl in E; try done. simpl negb; cbv iota.
    repeat case_decide; try done.
    rewrite (proj2 (Z.eqb_neq _ _)) by (destruct key; simpl; [done|lia]).
    rewrite !(proj2 (Z.ltb_ge _ _)) by lia.
    apply no_error_bind; intros _. apply no_error_bind; intros [r s]. apply no_error_bind; intros n.
    by apply no_error_bind.
  - intros [Hp ->]. by eapply Put_error_run.
Qed.

Lemma Put_rejects_witness :
  Put 4 1 [] [x01] (ex_world true) = (Ret (Some ErrKeyRequired), ex_world true) ↔
  put_error (ex_tx true) [] [x01] = Some ErrKeyRequired ∧ ex_world true = ex_world true.
Proof. apply (Put_rejects 4 1 [] [x01] (ex_world true) (ex_bucket true) (ex_tx true)); reflexivity. Defined.

(** C23. [Bucket.ForEach] calls the function on every pair of the bucket once, in
    strictly ascending key order, stops at the first error and returns it. *)
Theorem ForEach_correct {A} (fn : A → bytes → option bytes → A * option err) fuel b acc w x T tx :
  readable w b x T → w_txs w !! b_tx x = Some tx → t_db tx = true →
  tsize T ≤ fuel → length (contents T) < fuel →
  (∃ w', Bucket_ForEach fuel b fn acc w = (Ret (kv_fold fn acc (contents T)), w') ∧
    w_nodes w' = w_nodes w) ∧ ssorted (keys (contents T)).
Proof.
  intros Hr Htx Hdb Hf Hl. split; [|apply wf_sorted, Hr].
  exists (count_cursor (b_tx x) tx w). split; [by apply ForEach_run|done].
Qed.

(** A function that stops on the key "c". *)
Definition ex_fn (seen : list bytes) (k : bytes) (_ : option bytes) : list bytes * option err :=
  if decide (k = [x63]) then (seen, Some (ErrUser 7)) else (k :: seen, None).

Lemma ForEach_correct_witness :
  ∃ w', Bucket_ForEach 5 1 ex_fn [] (ex_world false) = (Ret ([[x62]; [x61]], Some (ErrUser 7)), w').
Proof.
  destruct (ForEach_correct ex_fn 5 1 [] (ex_world false) _ _ (ex_tx false) (ex_readable false)) as [(w' & Hr & _) _];
    [reflexivity|reflexivity|vm_compute; lia|vm_compute; lia|].
  exists w'. exact Hr.
Defined.

(** The pairs a range scan visits: [for k, v := c.Seek(key); k != nil; k, v = c.Next()]. *)
Definition scan_from {A} (fuel : nat) (fn : A → bytes → option bytes → A * option err) (key : bytes)
    (acc : A) (h : gmap loc node) (root : option loc) : CM (A * option err) :=
  let! r := tree_Seek h root fuel key in each_loop fuel fn h fuel r acc.

(** Everything at or above a key. *)
Definition kv_from (key : bytes) (l : list kv) : list kv := filter (λ p, key ≼ p.1) l.

Lemma kv_from_split key don rest :
  (∀ y, y ∈ keys don → y ≺ key) → (∀ y, y ∈ keys rest → key ≼ y) → kv_from key (don ++ rest) = rest.
Proof.
  intros Hd Hr. unfold kv_from. rewrite filter_app.
  assert (filter (λ p : kv, key ≼ p.1) don = []) as ->.
  { induction don as [|[k v] don IH]; [done|]. rewrite filter_cons_False, IH; [done| |].
    - intros y Hy. apply Hd. set_solver.
    - simpl. intros Hle. apply (blt_irrefl k). eapply blt_ble_trans; [|exact Hle]. apply Hd. set_solver. }
  simpl. clear Hd. induction rest as [|[k v] rest IH]; [done|]. rewrite filter_cons_True, IH; [done| |].
  - intros y Hy. apply Hr. set_solver.
  - apply Hr. set_solver.
Qed.

(** C24. A range scan with [Cursor.Seek] and [Cursor.Next] visits exactly the pairs
    whose key is at or above the sought key, in ascending order, and ends. *)
Theorem scan_correct {A} (fn : A → bytes → option bytes → A * option err) fuel key acc h T s0 :
  rep h T → wf T → tsize T ≤ fuel → S (length (contents T)) < fuel →
  ∃ s', scan_from fuel fn key acc h (Some (tloc T)) s0 =
    (Ret (kv_fold fn acc (kv_from key (contents T))), s').
Proof.
  intros Hrep Hwf Hf Hl.
  destruct (tree_Seek_spec h T fuel key s0 Hrep Hwf Hf) as (don & rest & s' & Hc & Hd & Hr & Hm).
  rewrite Hc, kv_from_split by done. unfold scan_from. destruct rest as [|p rest].
  - rewrite (bind_Ret _ _ _ _ _ Hm). destruct fuel; [lia|]. by eexists.
  - destruct Hm as [Hm Hon]. rewrite (bind_Ret _ _ _ _ _ Hm).
    eapply each_loop_run; try done. rewrite Hc, length_app in Hl. simpl in Hl. lia.
Qed.

Lemma scan_correct_witness :
  ∃ s', scan_from 6 (λ n _ _, (n + 1, None))%Z [x62] 0%Z ex_nodes (Some 1%positive) [] =
    (Ret (3%Z, None), s').
Proof.
  destruct (ex_readable false) as [_ _ _ Hrep Hwf].
  destruct (scan_correct (λ n _ _, (n + 1, None))%Z 6 [x62] 0%Z ex_nodes ex_tree [] Hrep Hwf) as [s' H];
    [vm_compute; lia|vm_compute; lia|].
  exists s'. exact H.
Defined.

(** ** Refinement of a sorted map *)

(** Calls on one bucket and what they return. *)
Inductive bop := BPut (k v : bytes) | BDelete (k : bytes) | BGet (k : bytes) | BCount.
Inductive bout := OErr (e : option err) | OVal (v : option bytes) | ONum (n : Z).

Definition exec_bop (fuel : nat) (b : bid) (op : bop) : M bout :=
  match op with
  | BPut k v => let! e := Put fuel b k v in st_ret (OErr e)
  | BDelete k => let! e := Delete fuel b k in st_ret (OErr e)
  | BGet k => let! v := Get fuel b k in st_ret (OVal v)
  | BCount => let! r := Bucket_ForEach fuel b (λ n _ _, (n + 1, None))%Z 0%Z in st_ret (ONum r.1)
  end.
Fixpoint exec_bops (fuel : nat) (b : bid) (ops : list bop) : M (list bout) :=
  match ops with
  | [] => st_ret []
  | op :: ops' => let! o := exec_bop fuel b op in let! os := exec_bops fuel b ops' in st_ret (o :: os)
  end.

(** The same calls on the reference: a sorted list of pairs. *)
Definition ref_bop (tx : Tx) (l : list kv) (op : bop) : bout * list kv :=
  match op with
  | BPut k v =>
      match put_error tx k v with
      | Some e => (OErr (Some e), l)
      | None => (OErr None, kv_insert k v l)
      end
  | BDelete k => (OErr None, kv_delete k l)
  | BGet k => (OVal (kv_lookup k l), l)
  | BCount => (ONum (Z.of_nat (length l)), l)
  end.
Fixpoint ref_bops (tx : Tx) (l : list kv) (ops : list bop) : list bout * list kv :=
  match ops with
  | [] => ([], l)
  | op :: ops' =>
      let (o, l') := ref_bop tx l op in
      let (os, l'') := ref_bops tx l' ops' in (o :: os, l'')
  end.

Lemma put_error_strip tx tx' k v : strip tx' = strip tx → put_error tx' k v = put_error tx k v.
Proof. intros (Hw & Hd & _)%strip_fields. unfold put_error. by rewrite Hw, Hd. Qed.

Lemma length_kv_insert k v l : length (kv_insert k v l) ≤ S (length l).
Proof. induction l as [|[k' v'] l IH]; simpl; [lia|]. repeat case_decide; simpl; lia. Qed.
Lemma length_kv_delete k l : length (kv_delete k l) ≤ length l.
Proof. induction l as [|[k' v'] l IH]; simpl; [lia|]. case_decide; simpl; lia. Qed.

Lemma kv_fold_count l n : kv_fold (λ n _ _, (n + 1, None))%Z n l = ((n + Z.of_nat (length l))%Z, None).
Proof.
  revert n. induction l as [|[k v] l IH]; intros n; simpl; [f_equal; lia|]. rewrite IH. f_equal. lia.
Qed.

(** A step's effect on handles, without the nodes it wrote. *)
Lemma wrote_txs b w x D T w' T' :
  wrote b w x D T w' T' → ∃ x' D', bview w' b x' D' T' ∧ b_tx x' = b_tx x ∧
    strip <$> w_txs w' = strip <$> w_txs w.
Proof. intros [(x' & D' & Hv & Hc & Ht & _) _ _]. exists x', D'. by destruct Hc. Qed.

Lemma exec_bop_ref fuel b op w x D T tx :
  bview w b x D T → w_txs w !! b_tx x = Some tx → tsize T ≤ fuel → length (contents T) < fuel →
  ∃ w' x' D' T', exec_bop fuel b op w = (Ret (ref_bop tx (contents T) op).1, w') ∧
    bview w' b x' D' T' ∧ b_tx x' = b_tx x ∧ strip <$> w_txs w' = strip <$> w_txs w ∧
    tsize T' = tsize T ∧ contents T' = (ref_bop tx (contents T) op).2.
Proof.
  intros Hv Htx Hf Hl. pose proof (bv_read _ _ _ _ _ Hv) as Hr.
  destruct (bv_open _ _ _ _ _ Hv tx Htx) as [Hdb Hwr].
  pose proof (count_cursor_bview _ _ _ _ _ _ Hv Htx) as Hcc.
  pose proof (cow_txs _ _ _ _ _ _ (count_cursor_cow b _ _ _ ∅ Htx)) as Hcs.
  destruct op as [k v|k|k|]; simpl.
  - destruct (put_error tx k v) as [e|] eqn:E.
    + rewrite (bind_Ret _ _ _ _ _ (Put_error_run fuel _ _ _ _ _ _ _ (rd_bkt _ _ _ _ Hr) Htx E)).
      exists w, x, D, T. done.
    + unfold put_error in E. rewrite Hdb, Hwr in E. simpl in E. repeat case_decide; try done.
      destruct (Put_run fuel b k v w x D T Hv Hf) as (w' & T' & Hrun & Hw & Hc).
      { split; [by apply blen_pos|unfold MaxKeySize; lia]. } { unfold MaxValueSize. lia. }
      destruct (wrote_txs _ _ _ _ _ _ _ Hw) as (x' & D' & Hv' & Hx' & Hs).
      rewrite (bind_Ret _ _ _ _ _ Hrun). exists w', x', D', T'. split_and!; auto. apply Hw.
  - destruct (Delete_run fuel b k w x D T Hv Hf) as (w' & T' & Hrun & Hw & Hc).
    destruct (wrote_txs _ _ _ _ _ _ _ Hw) as (x' & D' & Hv' & Hx' & Hs).
    rewrite (bind_Ret _ _ _ _ _ Hrun). exists w', x', D', T'. split_and!; auto. apply Hw.
  - rewrite (bind_Ret _ _ _ _ _ (Get_run fuel _ _ _ _ _ _ Hr Htx Hf)). eexists _, x, D, T. by split_and!.
  - rewrite (bind_Ret _ _ _ _ _ (ForEach_run _ fuel _ _ _ _ _ _ Hr Htx Hdb Hf Hl)), kv_fold_count.
    eexists _, x, D, T. by split_and!.
Qed.

Lemma length_ref_bop tx l op : length (ref_bop tx l op).2 ≤ S (length l).
Proof.
  destruct op; simpl; try lia.
  - destruct (put_error tx k v); simpl; [lia|apply length_kv_insert].
  - etrans; [apply length_kv_delete|lia].
Qed.

Lemma ref_bops_strip tx tx' l ops : strip tx' = strip tx → ref_bops tx' l ops = ref_bops tx l ops.
Proof.
  intros H. revert l. induction ops as [|op ops IH]; intros l; simpl; [done|].
  assert (ref_bop tx' l op = ref_bop tx l op) as ->.
  { destruct op; simpl; [|done..]. by rewrite (put_error_strip tx tx' k v H). }
  destruct (ref_bop tx l op). by rewrite IH.
Qed.

(** C4. Refinement: any sequence of [Put], [Delete], [Get] and counting [ForEach]
    calls on a writable bucket returns exactly what the same calls on a sorted
    list of pairs return, errors included, and leaves a well-formed tree that
    holds the reference's pairs. *)
Theorem bucket_refines_map fuel b ops w x D T tx :
  bview w b x D T → w_txs w !! b_tx x = Some tx →
  tsize T ≤ fuel → length (contents T) + length ops < fuel →
  ∃ w' x' D' T', exec_bops fuel b ops w = (Ret (ref_bops tx (contents T) ops).1, w') ∧
    bview w' b x' D' T' ∧ contents T' = (ref_bops tx (contents T) ops).2.
Proof.
  revert w x D T tx. induction ops as [|op ops IH]; intros w x D T tx Hv Htx Hf Hl; simpl in *.
  { exists w, x, D, T. done. }
  destruct (exec_bop_ref fuel b op w x D T tx Hv Htx Hf ltac:(lia))
    as (w1 & x1 & D1 & T1 & Hrun & Hv1 & Hx1 & Hs1 & Hsz & Hc1).
  rewrite (bind_Ret _ _ _ _ _ Hrun).
  pose proof (length_ref_bop tx (contents T) op) as Hlen. rewrite <- Hc1 in Hlen.
  destruct (strip_lookup _ _ _ _ Hs1 Htx) as (tx1 & Htx1 & Hst).
  destruct (IH w1 x1 D1 T1 tx1 Hv1) as (w2 & x2 & D2 & T2 & Hrun2 & Hv2 & Hc2);
    [by rewrite Hx1|lia|lia|].
  rewrite (ref_bops_strip tx tx1 _ _ Hst) in Hrun2, Hc2. rewrite (bind_Ret _ _ _ _ _ Hrun2).
  rewrite Hc1 in *. destruct (ref_bop tx (contents T) op) as [o l']. simpl in *.
  destruct (ref_bops tx l' ops) as [os l'']. exists w2, x2, D2, T2. done.
Qed.

Lemma bucket_refines_map_witness :
  ∃ w', exec_bops 20 1 [BPut [x7a] [x09]; BDelete [x61]; BGet [x7a]; BGet [x61]; BPut [] []; BCount] (ex_world true)
    = (Ret [OErr None; OErr None; OVal (Some [x09]); OVal None; OErr (Some ErrKeyRequired); ONum 4], w').
Proof.
  destruct (bucket_refines_map 20 1 [BPut [x7a] [x09]; BDelete [x61]; BGet [x7a]; BGet [x61]; BPut [] []; BCount]
    _ _ _ _ (ex_tx true) ex_bview) as (w' & _ & _ & _ & H & _); [reflexivity|vm_compute; lia|vm_compute; lia|].
  exists w'. exact H.
Defined.
