(* ===== verification/CursorBack.v ===== *)
(** * Walking backwards: Cursor.Last and Cursor.Prev

    On a tree without empty leaves (every committed tree that has any pair), the
    loop [for k, v := c.Last(); k != nil; k, v = c.Prev()] visits every pair in
    descending key order and ends. *)
From S2P Require Import Prelude GoSort Stats World Node KV Tree TreePath Cursor CursorSpec Cow Bucket CowSpec BucketSpec BucketThm.
Local Open Scope bytes_scope.
Local Open Scope st_scope.

(** No leaf is empty. *)
Fixpoint full (t : tree) : Prop :=
  match t with
  | Leaf _ kvs => kvs ≠ []
  | Branch _ cs => foldr (λ p Q, full p.2 ∧ Q) True cs
  end.

Lemma full_Branch l cs : full (Branch l cs) ↔ Forall (λ p, full p.2) cs.
Proof. simpl. exact (all_children_Forall full cs). Qed.

Definition width (t : tree) : nat := match t with Leaf _ kvs => length kvs | Branch _ cs => length cs end.

Section back.
Context (h : gmap loc node) (T : tree).
Context (Hrep : rep h T) (Hneb : no_empty_branch T).

Lemma stk_full s t bef aft : full T → stk T s t bef aft → full t ∧ Forall full bef.
Proof using.
  intros Hf. induction 1 as [|s l cs i k c j bef aft _ [IHt IHb] Hi]; [by split|].
  apply full_Branch in IHt. rewrite Forall_forall in IHt. split.
  - by apply (IHt (k, c)), (list_elem_of_lookup_2 _ i).
  - apply Forall_app. split; [done|]. apply Forall_forall. intros t ([k' c'] & -> & Hin)%list_elem_of_fmap.
    apply (IHt (k', c')). apply elem_of_take in Hin as (n & Hn & _). by eapply list_elem_of_lookup_2.
Qed.

Lemma full_contents t : full t → no_empty_branch t → contents t ≠ [].
Proof using.
  induction t as [l kvs|l cs IH] using tree_nested_ind; [done|]. rewrite full_Branch, no_empty_branch_Branch.
  intros Hf [Hne Hall]. destruct cs as [|[k c] cs]; [done|]. apply Forall_cons in IH as [IHc _], Hf as [Hc _], Hall as [Hnc _].
  rewrite contents_Branch, flat_cons. specialize (IHc Hc Hnc). simpl in IHc. by destruct (contents c).
Qed.

Lemma count_stk s t j bef aft (s0 : list elemRef) :
  stk T (mkRef (Some (tloc t)) j :: s) t bef aft → count h (mkRef (Some (tloc t)) 0) s0 = (Ret (Z.of_nat (width t)), s0).
Proof using Hrep Hneb.
  intros [Hr _]%(stk_rep h T Hrep Hneb). unfold count, ref_node. simpl. destruct t as [l kvs|l cs].
  - destruct Hr as (n & Hn & _ & Hi). simpl. rewrite Hn. rewrite (bind_Ret (st_deref (Some n)) _ s0 n s0 eq_refl). unfold st_ret. by rewrite Hi, length_fmap.
  - apply rep_Branch in Hr as [(n & Hn & _ & Hi) _]. simpl. rewrite Hn. rewrite (bind_Ret (st_deref (Some n)) _ s0 n s0 eq_refl). unfold st_ret. by rewrite Hi, length_fmap.
Qed.

(** Walking down along last children reaches the last leaf of the subtree. *)
Lemma last_sub t : ∀ rounds s bef aft,
  stk T (mkRef (Some (tloc t)) (Z.of_nat (width t) - 1) :: s) t bef aft → tsize t ≤ rounds →
  ∃ s' l kvs bef' aft',
    last_loop h rounds (mkRef (Some (tloc t)) (Z.of_nat (width t) - 1) :: s) = (Ret tt, mkRef (Some l) (Z.of_nat (length kvs) - 1) :: s') ∧
    stk T (mkRef (Some l) (Z.of_nat (length kvs) - 1) :: s') (Leaf l kvs) bef' aft' ∧
    flat_trees aft' = flat_trees aft ∧ flat_trees bef' ++ kvs = flat_trees bef ++ contents t.
Proof using Hrep Hneb.
  induction t as [l kvs|l cs IH] using tree_nested_ind; intros rounds s bef aft Hs Hr;
    (destruct rounds as [|r]; [pose proof (tsize_pos (Leaf l [])); simpl in *; lia|]); simpl last_loop; simpl tloc in *; simpl width in *.
  - rewrite (bind_Ret _ _ _ _ _ (top_cons _ _)).
    destruct (ref_node_leaf h T Hrep Hneb _ _ _ _ _ _ (mkRef (Some l) (Z.of_nat (length kvs) - 1) :: s) Hs) as (n & Hn & Hl & Hi).
    rewrite (bind_Ret _ _ _ _ _ Hn), Hl. exists s, l, kvs, bef, aft. by split_and!.
  - rewrite (bind_Ret _ _ _ _ _ (top_cons _ _)). set (s1 := mkRef (Some l) (Z.of_nat (length cs) - 1) :: s) in *.
    destruct (ref_node_branch h T Hrep Hneb _ _ _ _ _ _ s1 Hs) as (n & Hn & Hl & Hi).
    rewrite (bind_Ret _ _ _ _ _ Hn), Hl, Hi. cbn [e_index].
    pose proof (proj2 (stk_rep h T Hrep Hneb _ _ _ _ Hs)) as Hne. apply no_empty_branch_Branch in Hne as [Hne _].
    assert (Hpos : 0 < length cs) by (destruct cs; [done|simpl; lia]). set (i := length cs - 1).
    destruct (lookup_lt_is_Some_2 cs i ltac:(unfold i; lia)) as [[k c] Hc].
    assert (Hidx : (Z.of_nat (length cs) - 1)%Z = Z.of_nat i) by (unfold i; lia). unfold s1 in *. clear s1. rewrite Hidx in *.
    rewrite (bind_Ret _ _ _ (branch_inode (k, c)) (mkRef (Some l) (Z.of_nat i) :: s)); [|apply index_nat; by rewrite list_lookup_fmap, Hc].
    pose proof (stk_push T s l cs i k c (Z.of_nat (width c) - 1) bef aft Hs Hc) as Hp.
    rewrite (bind_Ret _ _ _ _ _ (count_stk _ _ _ _ _ _ Hp)). rewrite (bind_Ret (push _) _ _ tt _ eq_refl).
    rewrite Forall_forall in IH. pose proof (tsize_child _ _ _ _ Hc). simpl in Hr.
    destruct (IH (k, c) (list_elem_of_lookup_2 _ _ _ Hc) r _ _ _ Hp ltac:(simpl; lia)) as (s' & l' & kvs' & bef' & aft' & Hgo & Hs' & Ha & Hb).
    exists s', l', kvs', bef', aft'. split_and!; [exact Hgo|done| |].
    + rewrite Ha. rewrite (drop_ge cs (S i)) by (unfold i; lia). done.
    + rewrite Hb, flat_trees_app, flat_trees_children, contents_Branch. simpl. rewrite (flat_split _ _ _ _ Hc), (drop_ge cs (S i)) by (unfold i; lia).
      unfold flat at 3. simpl. by rewrite app_nil_r, <- app_assoc.
Qed.

(** The upward loop below the top of the stack finds the previous subtree. *)
Lemma prev_up_below r s t bef aft :
  stk T (r :: s) t bef aft → s ≠ [] →
  (bef = [] ∧ prev_up s = None) ∨
  ∃ c l cs i k s' bef0 aft0, bef = bef0 ++ (take i cs).*2 ++ [c] ∧
    prev_up s = Some (mkRef (Some l) (Z.of_nat i) :: s') ∧
    stk T (mkRef (Some l) (Z.of_nat i) :: s') (Branch l cs) bef0 aft0 ∧ cs !! i = Some (k, c) ∧
    flat (drop (S i) cs) ++ flat_trees aft0 = contents t ++ flat_trees aft.
Proof using Hrep Hneb.
  intros Hs. remember (r :: s) as s1 eqn:Es. revert r s Es.
  induction Hs as [|s l cs i k c j bef aft Hs IH Hi]; intros r s1 Es Hne; injection Es as <- <-; [done|]. clear Hne.
  cbn [prev_up e_index e_node]. destruct (Z.ltb_spec 0 (Z.of_nat i)) as [Hpos|Hz].
  - right. destruct (lookup_lt_is_Some_2 cs (i - 1)) as [[k' c'] Hi']; [apply lookup_lt_Some in Hi; lia|].
    exists c', l, cs, (i - 1), k', s, bef, aft. split_and!.
    + replace (take i cs) with (take (S (i - 1)) cs) by (f_equal; lia). by rewrite (take_S_r _ _ _ Hi'), fmap_app.
    + do 4 f_equal. lia.
    + by eapply stk_reindex.
    + done.
    + replace (S (i - 1)) with i by lia. rewrite (drop_lookup_cons _ _ _ Hi), flat_cons, flat_trees_app, flat_trees_children. by rewrite <- app_assoc.
  - assert (i = 0) as -> by lia. change (take 0 cs) with (@nil (bytes * tree)). simpl. rewrite app_nil_r. destruct s as [|e s].
    { left. inversion Hs; subst. done. }
    destruct (IH _ _ eq_refl) as [[-> ->]|(c' & l' & cs' & i' & k' & s' & bef0 & aft0 & -> & -> & Hs' & Hi' & Hfl)]; [done|by left|right].
    exists c', l', cs', i', k', s', bef0, aft0. split_and!; auto. rewrite Hfl, contents_Branch, (flat_split _ _ _ _ Hi), flat_trees_app, flat_trees_children.
    change (take 0 cs) with (@nil (bytes * tree)). unfold flat at 1. simpl. by rewrite <- app_assoc.
Qed.

(** The loop [last; keyValue] from a branch position, towards child [i]. *)
Lemma last_branch fuel s l cs i k c bef aft :
  full T → stk T (mkRef (Some l) (Z.of_nat i) :: s) (Branch l cs) bef aft → cs !! i = Some (k, c) → tsize T ≤ fuel →
  ∃ s' don y, (last h fuel ;! keyValue h) (mkRef (Some l) (Z.of_nat i) :: s) = (Ret (ret_kv y), s') ∧
    on T s' don y (flat (drop (S i) cs) ++ flat_trees aft) ∧ don ++ [y] = flat_trees bef ++ flat (take i cs) ++ contents c.
Proof using Hrep Hneb.
  intros Hfull Hs Hi Hf. pose proof (stk_push T s l cs i k c (Z.of_nat (width c) - 1) bef aft Hs Hi) as Hp.
  pose proof (stk_size _ _ _ _ _ Hs) as Hsz. pose proof (tsize_child _ _ _ _ Hi). simpl in Hsz.
  destruct fuel as [|r]; [lia|]. unfold last. cbn [last_loop].
  destruct (last_sub c r _ _ _ Hp ltac:(lia)) as (s' & l' & kvs & bef' & aft' & Hgo & Hs' & Ha & Hb).
  destruct (stk_full _ _ _ _ Hfull Hs') as [Hk _]. simpl in Hk.
  destruct (exists_last Hk) as (kvs0 & y & Hy).
  assert (Hlen : (Z.of_nat (length kvs) - 1)%Z = Z.of_nat (length kvs0)) by (rewrite Hy, length_app; simpl; lia). rewrite Hlen in *.
  assert (Hlk : kvs !! length kvs0 = Some y) by (rewrite Hy; by apply list_lookup_middle).
  pose proof (on_intro T l' kvs (length kvs0) bef' aft' s' y Hs' Hlk) as Hon.
  assert (take (length kvs0) kvs = kvs0) as Htk by (rewrite Hy; apply take_app_length).
  assert (drop (S (length kvs0)) kvs = []) as Hdk by (apply drop_ge; rewrite Hy, length_app; simpl; lia).
  rewrite Htk, Hdk in Hon. simpl in Hon.
  rewrite Ha, flat_trees_app, flat_trees_children in Hon.
  eexists _, _, y. split; [|split; [exact Hon|]].
  - rewrite (bind_Ret _ _ _ tt (mkRef (Some l') (Z.of_nat (length kvs0)) :: s')).
    { by apply (keyValue_on h T Hrep Hneb _ _ _ _ Hon). }
    rewrite (bind_Ret _ _ _ _ _ (top_cons _ _)).
    destruct (ref_node_branch h T Hrep Hneb _ _ _ _ _ _ (mkRef (Some l) (Z.of_nat i) :: s) Hs) as (n & Hn & Hl & Hin).
    rewrite (bind_Ret _ _ _ _ _ Hn), Hl, Hin. cbn [e_index].
    rewrite (bind_Ret _ _ _ (branch_inode (k, c)) (mkRef (Some l) (Z.of_nat i) :: s)); [|apply index_nat; by rewrite list_lookup_fmap, Hi].
    rewrite (bind_Ret _ _ _ _ _ (count_stk _ _ _ _ _ _ Hp)). by rewrite (bind_Ret (push _) _ _ tt _ eq_refl).
  - rewrite <- app_assoc, <- Hy, Hb, flat_trees_app, flat_trees_children. by rewrite <- app_assoc.
Qed.

(** [prev] moves from a pair to its predecessor, and returns nil at the start. *)
Lemma prev_on fuel s don x rest :
  full T → tsize T ≤ fuel → on T s don x rest →
  (don = [] ∧ ∃ s', prev h (Some (tloc T)) fuel s = (Ret None, s')) ∨
  ∃ don' y s', don = don' ++ [y] ∧ prev h (Some (tloc T)) fuel s = (Ret (ret_kv y), s') ∧ on T s' don' y (x :: rest).
Proof using Hrep Hneb.
  intros Hfull Hf (l & kvs & j & bef & aft & s' & -> & Hs & Hj & -> & ->). unfold prev. cbn [prev_up e_index e_node].
  destruct (Z.ltb_spec 0 (Z.of_nat j)) as [Hpos|Hz].
  - right. destruct (lookup_lt_is_Some_2 kvs (j - 1)) as [y Hy]; [apply lookup_lt_Some in Hj; lia|].
    replace (Z.of_nat j - 1)%Z with (Z.of_nat (j - 1)) by lia. assert (Hs' : stk T (mkRef (Some l) (Z.of_nat (j - 1)) :: s') (Leaf l kvs) bef aft) by (by eapply stk_reindex).
    pose proof (on_intro T _ _ _ _ _ _ _ Hs' Hy) as Hon. replace (S (j - 1)) with j in Hon by lia.
    exists (flat_trees bef ++ take (j - 1) kvs), y, (mkRef (Some l) (Z.of_nat (j - 1)) :: s'). split_and!.
    + rewrite <- app_assoc, <- (take_S_r _ _ _ Hy). by replace (S (j - 1)) with j by lia.
    + rewrite (bind_Ret _ _ _ tt (mkRef (Some l) (Z.of_nat (j - 1)) :: s')); [by apply (keyValue_on h T Hrep Hneb _ _ _ _ Hon)|].
      unfold last. destruct fuel as [|r]; [pose proof (tsize_pos T); lia|]. cbn [last_loop]. rewrite (bind_Ret _ _ _ _ _ (top_cons _ _)).
      destruct (ref_node_leaf h T Hrep Hneb _ _ _ _ _ _ (mkRef (Some l) (Z.of_nat (j - 1)) :: s') Hs') as (n & Hn & Hl & _).
      by rewrite (bind_Ret _ _ _ _ _ Hn), Hl.
    + rewrite (drop_lookup_cons _ _ _ Hj) in Hon. exact Hon.
  - assert (j = 0) as -> by lia. change (take 0 kvs) with (@nil kv). rewrite app_nil_r.
    assert (Hstart : bef = [] → ∃ s2, (let! _ := first h (Some (tloc T)) fuel in st_ret None) (mkRef (Some l) (Z.of_nat 0) :: s') = (Ret (None : option kvf), s2)).
    { intros _. pose proof (first_spec h T Hrep Hneb fuel Hf (mkRef (Some l) (Z.of_nat 0) :: s')) as H1.
      destruct (contents T); destruct H1 as (s2 & Hrun & _); rewrite (bind_Ret _ _ _ _ _ Hrun); by eexists. }
    destruct s' as [|e s'].
    { left. assert (bef = []) as -> by (by inversion Hs). split; [done|by apply Hstart]. }
    destruct (prev_up_below _ _ _ _ _ Hs ltac:(done)) as [[-> ->]|(c & l1 & cs & i & k & s1 & bef0 & aft0 & -> & -> & Hs1 & Hi & Hfl)].
    { left. split; [done|by apply Hstart]. }
    right. destruct (last_branch fuel _ _ _ _ _ _ _ _ Hfull Hs1 Hi Hf) as (s2 & don & y & Hrun & Hon & Hdon).
    exists don, y, s2. split_and!; [|exact Hrun|].
    + rewrite Hdon, !flat_trees_app, flat_trees_children. unfold flat_trees at 2. simpl. by rewrite app_nil_r.
    + rewrite Hfl in Hon. simpl contents in Hon. destruct kvs as [|x' kvs]; [done|]. simpl in Hj. injection Hj as ->. exact Hon.
Qed.

(** [Last] finds the last pair of the tree. *)
Lemma tree_Last_spec fuel s0 :
  full T → tsize T ≤ fuel →
  ∃ don y s', contents T = don ++ [y] ∧ tree_Last h (Some (tloc T)) fuel s0 = (Ret (ret_kv y), s') ∧ on T s' don y [].
Proof using Hrep Hneb.
  intros Hfull Hf. unfold tree_Last. rewrite (bind_Ret _ _ _ _ _ (count_stk [] T 0 [] [] s0 (stk_root T 0))).
  rewrite (bind_Ret (st_put _) _ s0 tt [mkRef (Some (tloc T)) (Z.of_nat (width T) - 1)] eq_refl).
  destruct (last_sub T fuel [] [] [] (stk_root T _) Hf) as (s' & l & kvs & bef & aft & Hgo & Hs & Ha & Hb).
  unfold last. rewrite (bind_Ret _ _ _ _ _ Hgo). change (flat_trees []) with (@nil kv) in *. simpl in Hb.
  destruct (stk_full _ _ _ _ Hfull Hs) as [Hk _]. simpl in Hk. destruct (exists_last Hk) as (kvs0 & y & Hy).
  assert (Hlen : (Z.of_nat (length kvs) - 1)%Z = Z.of_nat (length kvs0)) by (rewrite Hy, length_app; simpl; lia). rewrite Hlen in *.
  assert (Hlk : kvs !! length kvs0 = Some y) by (rewrite Hy; by apply list_lookup_middle).
  pose proof (on_intro T l kvs (length kvs0) bef aft s' y Hs Hlk) as Hon.
  assert (take (length kvs0) kvs = kvs0) as Htk by (rewrite Hy; apply take_app_length).
  assert (drop (S (length kvs0)) kvs = []) as Hdk by (apply drop_ge; rewrite Hy, length_app; simpl; lia).
  rewrite Htk, Hdk, Ha in Hon. simpl in Hon. eexists _, y, _. split_and!; [|  |exact Hon].
  - by rewrite <- app_assoc, <- Hy.
  - rewrite (bind_Ret _ _ _ tt (mkRef (Some l) (Z.of_nat (length kvs0)) :: s')).
    { rewrite (bind_Ret st_get _ _ _ _ eq_refl). by apply (keyValue_on h T Hrep Hneb _ _ _ _ Hon). }
    destruct fuel as [|r]; [pose proof (tsize_pos T); lia|]. cbn [Last_loop]. destruct s' as [|e s']; [done|].
    rewrite (bind_Ret _ _ _ _ _ (count_leaf h T Hrep Hneb _ _ _ _ _ _ (mkRef (Some l) (Z.of_nat (length kvs0)) :: e :: s') Hs)).
    destruct (Z.eqb_spec (Z.of_nat (length kvs)) 0) as [E|_]; [|done]. rewrite Hy, length_app in E. simpl in E. lia.
Qed.
End back.

(** The loop over a cursor, backwards. *)
Fixpoint back_loop {A} (fuel : nat) (fn : A → bytes → option bytes → A * option err) (h : gmap loc node) (root : option loc)
    (rounds : nat) (r : option kvf) (acc : A) : CM (A * option err) :=
  match rounds with
  | O => st_nofuel
  | S rounds' =>
      match r with
      | None => st_ret (acc, None)
      | Some (k, v, _) =>
          match fn acc k v with
          | (acc', Some e) => st_ret (acc', Some e)
          | (acc', None) => let! r' := prev h root fuel in back_loop fuel fn h root rounds' r' acc'
          end
      end
  end.
(** [for k, v := c.Last(); k != nil; k, v = c.Prev() { ... }] *)
Definition scan_back {A} (fuel : nat) (fn : A → bytes → option bytes → A * option err) (acc : A) (h : gmap loc node) (root : option loc)
    : CM (A * option err) :=
  let! r := tree_Last h root fuel in back_loop fuel fn h root fuel r acc.

Lemma back_loop_run {A} (fn : A → bytes → option bytes → A * option err) h T fuel rounds :
  rep h T → wf T → full T → tsize T ≤ fuel → ∀ don acc x rest s,
  on T s don x rest → S (length don) < rounds →
  ∃ s', back_loop fuel fn h (Some (tloc T)) rounds (ret_kv x) acc s = (Ret (kv_fold fn acc (x :: reverse don)), s').
Proof.
  intros Hrep Hwf Hfull Hf. pose proof (wf_no_empty_branch _ Hwf) as Hne.
  induction rounds as [|rounds IH]; intros don acc [k v] rest s Hon Hr; [lia|]. simpl.
  destruct (fn acc k (Some v)) as [acc' [e|]]; [by eexists|].
  destruct (prev_on h T Hrep Hne fuel s don (k, v) rest Hfull Hf Hon) as [[-> [s' Hp]]|(don' & y & s' & -> & Hp & Hon')].
  - rewrite (bind_Ret _ _ _ _ _ Hp). destruct rounds; [simpl in Hr; lia|]. by eexists.
  - rewrite (bind_Ret _ _ _ _ _ Hp). rewrite reverse_app. rewrite length_app in Hr. simpl in Hr.
    destruct (IH don' acc' y ((k, v) :: rest) s' Hon' ltac:(lia)) as [s2 Hrun]. exists s2. exact Hrun.
Qed.

(** C25. A backward scan with [Cursor.Last] and [Cursor.Prev] over a bucket without
    empty leaves visits every pair once, in descending key order, stops at the
    first error of the callback, and ends. *)
Theorem scan_back_correct {A} (fn : A → bytes → option bytes → A * option err) fuel acc h T s0 :
  rep h T → wf T → full T → tsize T ≤ fuel → length (contents T) < fuel →
  ∃ s', scan_back fuel fn acc h (Some (tloc T)) s0 = (Ret (kv_fold fn acc (reverse (contents T))), s').
Proof.
  intros Hrep Hwf Hfull Hf Hl. pose proof (wf_no_empty_branch _ Hwf) as Hne. unfold scan_back.
  destruct (tree_Last_spec h T Hrep Hne fuel s0 Hfull Hf) as (don & y & s' & Hc & Hrun & Hon).
  rewrite (bind_Ret _ _ _ _ _ Hrun), Hc. rewrite Hc, length_app in Hl. simpl in Hl.
  rewrite reverse_app. apply (back_loop_run fn h T fuel fuel Hrep Hwf Hfull Hf don acc y [] s' Hon). lia.
Qed.

Definition ex_keys (seen : list bytes) (k : bytes) (_ : option bytes) : list bytes * option err := (k :: seen, None).

Lemma scan_back_correct_witness :
  ∃ s', scan_back 9 ex_keys [] ex_nodes (Some 1%positive) [] = (Ret ([[x61]; [x62]; [x63]; [x64]], None), s').
Proof.
  destruct (ex_readable false) as [_ _ _ Hrep Hwf].
  destruct (scan_back_correct ex_keys 9 [] ex_nodes ex_tree [] Hrep Hwf) as [s' Hs].
  - repeat split; discriminate.
  - vm_compute. lia.
  - vm_compute. lia.
  - exists s'. exact Hs.
Defined.
