(* ===== verification/Regroup.v ===== *)
(** * Splitting a node of a tree

    When a node's inodes are cut into pieces and each piece becomes a node, a new
    branch over the pieces, with the first key of each as separator, is again a
    well-formed tree with the same contents. *)
From S2P Require Import Prelude GoSort Stats World Node KV Tree Cow CowSpec.
Local Open Scope bytes_scope.

Definition tleaf (T : tree) : bool := match T with Leaf _ _ => true | Branch _ _ => false end.
Definition tchildren (T : tree) : list (bytes * tree) := match T with Leaf _ _ => [] | Branch _ cs => cs end.
Definition tree_inodes (T : tree) : list inode :=
  match T with Leaf _ kvs => leaf_inode <$> kvs | Branch _ cs => branch_inode <$> cs end.

(** The separator of a piece, and the inode [finalize] puts for it. *)
Definition first_key (pc : list inode) : bytes := match pc with [] => [] | i :: _ => i_key i end.
Definition link_inode (l : loc) (pc : list inode) : inode := mkInode 0 (first_key pc) None (Some l).

(** The node of a piece. *)
Definition piece_node (h : gmap loc node) (lf : bool) (l : loc) (pc : list inode) : Prop :=
  ∃ m, h !! l = Some m ∧ n_isLeaf m = lf ∧ n_inodes m = pc.

Lemma rep_node h T : rep h T →
  ∃ n, h !! tloc T = Some n ∧ n_isLeaf n = tleaf T ∧ n_inodes n = tree_inodes T.
Proof. destruct T; simpl; [|intros [H _]; revert H]; intros (n & ? & ? & ?); eauto. Qed.

Lemma concat_fmap_inv {A B} (f : A → B) (P : list (list B)) (l : list A) :
  concat P = f <$> l → ∃ gs : list (list A), P = (λ g : list A, f <$> g) <$> gs ∧ concat gs = l.
Proof.
  revert l. induction P as [|p P IH]; intros l; simpl.
  { intros ->%symmetry%fmap_nil_inv. by exists []. }
  intros H. symmetry in H. apply fmap_app_inv in H as (l1 & l2 & -> & H2 & ->).
  destruct (IH l2 H2) as (gs & -> & <-). by exists (l1 :: gs).
Qed.

Lemma elem_of_concat {A} (x : A) (L : list (list A)) : x ∈ concat L ↔ ∃ l, l ∈ L ∧ x ∈ l.
Proof.
  rewrite list_elem_of_In, in_concat. split; intros (l & H1 & H2); exists l; rewrite ?list_elem_of_In in *; done.
Qed.

(** Trees over groups. *)
Section groups.
Context {A : Type} (key : A → bytes) (mk : loc → list A → tree) (inode_of : A → inode).
Context (Hkey : ∀ a, i_key (inode_of a) = key a) (Hloc : ∀ l g, tloc (mk l g) = l).

Definition group_tree (l : loc) (g : list A) : bytes * tree := (first_key (inode_of <$> g), mk l g).

Lemma group_links ls gs :
  branch_inode <$> zip_with group_tree ls gs = zip_with link_inode ls ((λ g : list A, inode_of <$> g) <$> gs).
Proof.
  revert gs. induction ls as [|l ls IH]; intros [|g gs]; simpl; try done. f_equal; [|apply IH].
  unfold branch_inode, link_inode, group_tree. simpl. by rewrite Hloc.
Qed.

Lemma group_elem ls gs p : p ∈ zip_with group_tree ls gs → ∃ l g, g ∈ gs ∧ l ∈ ls ∧ p = group_tree l g.
Proof.
  intros (i & l & g & -> & Hl & Hg)%elem_of_lookup_zip_with. eauto 10 using list_elem_of_lookup_2.
Qed.

Lemma first_in g : g ≠ [] → first_key (inode_of <$> g) ∈ key <$> g.
Proof. destruct g as [|a g]; [done|]. intros _. simpl. rewrite Hkey. by left. Qed.

Lemma first_le g x : ssorted (key <$> g) → x ∈ key <$> g → first_key (inode_of <$> g) ≼ x.
Proof.
  destruct g as [|a g]; simpl; [by intros _ ?%elem_of_nil|]. rewrite Hkey.
  intros [_ Hall]%StronglySorted_inv [->|Hx]%elem_of_cons; [apply ble_refl|]. rewrite Forall_forall in Hall. by apply blt_ble, Hall.
Qed.

Lemma group_sub g gs : ssorted (key <$> concat gs) → g ∈ gs → ssorted (key <$> g).
Proof.
  intros Hs Hg. induction gs as [|g' gs IH]; [by apply elem_of_nil in Hg|].
  simpl in Hs. rewrite fmap_app in Hs. apply ssorted_app in Hs as (Hs1 & Hs2 & _).
  apply elem_of_cons in Hg as [->|Hg]; [done|by apply IH].
Qed.

(** The first key of a group is a key of the whole. *)
Lemma first_in_concat g gs : g ∈ gs → g ≠ [] → first_key (inode_of <$> g) ∈ key <$> concat gs.
Proof.
  intros Hg Hne. destruct (proj1 (list_elem_of_fmap _ _ _) (first_in g Hne)) as (a & -> & Ha).
  apply list_elem_of_fmap_2, elem_of_concat. eauto.
Qed.

Lemma group_firsts ls gs :
  Forall (λ g, g ≠ []) gs → length ls = length gs →
  (zip_with group_tree ls gs).*1 = (λ g, first_key (inode_of <$> g)) <$> gs.
Proof.
  revert ls. induction gs as [|g gs IH]; intros [|l ls] Hne Hlen; simpl in *; try done.
  apply Forall_cons in Hne as [_ Hne]. f_equal. apply IH; [done|lia].
Qed.

Lemma group_sorted ls gs :
  ssorted (key <$> concat gs) → Forall (λ g, g ≠ []) gs → ssorted (zip_with group_tree ls gs).*1.
Proof.
  revert ls. induction gs as [|g gs IH]; intros [|l ls] Hs Hne; simpl; [constructor..|].
  simpl in Hs. rewrite fmap_app in Hs. apply ssorted_app in Hs as (Hs1 & Hs2 & Hlt). apply Forall_cons in Hne as [Hg Hne].
  constructor; [by apply IH|]. apply Forall_fmap, Forall_forall. intros p (l' & g' & Hg' & _ & ->)%group_elem. simpl.
  apply Hlt; [by apply first_in|]. rewrite Forall_forall in Hne. auto using first_in_concat.
Qed.
End groups.

(** ** Leaves *)

Lemma leaf_groups ls kvss p :
  ssorted (keys (concat kvss)) → Forall (λ k, k ≠ []) (keys (concat kvss)) →
  Forall (λ g, g ≠ []) kvss → kvss ≠ [] → length ls = length kvss →
  let cs := zip_with (group_tree Leaf leaf_inode) ls kvss in
  wf (Branch p cs) ∧ flat cs = concat kvss ∧ clocs cs = ls.
Proof.
  intros Hs Hk Hne Hnil Hlen cs. split_and!.
  - apply wf_Branch. split_and!.
    + destruct kvss, ls; done.
    + by apply (group_sorted fst).
    + apply Forall_fmap, Forall_forall. intros q (l & g & Hg & _ & ->)%group_elem. rewrite Forall_forall in Hk. rewrite Forall_forall in Hne. simpl.
      apply Hk. by apply (first_in_concat fst); [..|apply Hne].
    + clear Hk Hnil Hlen. subst cs. revert ls. induction kvss as [|g kvss IH]; intros [|l ls]; simpl; try done.
      simpl in Hs. unfold keys in Hs. rewrite fmap_app in Hs. apply ssorted_app in Hs as (Hs1 & Hs2 & Hlt). apply Forall_cons in Hne as [Hg Hne].
      rewrite Forall_forall in Hne. split_and!; [| |apply IH; [done|by apply Forall_forall]].
      * apply Forall_forall. intros x Hx. apply Forall_forall. intros q (l' & g' & Hg' & _ & ->)%group_elem. apply Hlt; [done|]. simpl.
        by apply (first_in_concat fst); [..|apply Hne].
      * apply Forall_forall. intros q (l' & g' & Hg' & _ & ->)%group_elem. apply Forall_forall. intros x Hx. simpl in *.
        apply (first_le fst leaf_inode (λ _, eq_refl)); [by eapply (group_sub fst)|done].
    + apply Forall_forall. intros q (l & g & Hg & _ & ->)%group_elem. simpl. split.
      * by eapply (group_sub fst).
      * apply Forall_forall. rewrite Forall_forall in Hk. intros x (a & -> & Ha)%list_elem_of_fmap. apply Hk.
        apply list_elem_of_fmap_2, elem_of_concat. eauto.
  - clear -Hlen. subst cs. revert ls Hlen. induction kvss as [|g kvss IH]; intros [|l ls] Hlen; simpl in *; try done.
    unfold flat in *. simpl. f_equal. apply IH. lia.
  - clear -Hlen. subst cs. revert ls Hlen. induction kvss as [|g kvss IH]; intros [|l ls] Hlen; simpl in *; try done.
    unfold clocs in *. simpl. f_equal. apply IH. lia.
Qed.

(** ** Branches *)

Lemma seps_ok_app c1 c2 :
  seps_ok (c1 ++ c2) →
  seps_ok c1 ∧ seps_ok c2 ∧
  (∀ x q, x ∈ keys (flat c1) → q ∈ c2 → x ≺ q.1) ∧
  (c1 ≠ [] → ∀ q x, q ∈ c2 → x ∈ keys (contents q.2) → q.1 ≼ x).
Proof.
  induction c1 as [|[k c] c1 IH]; simpl.
  { intros Hs. split_and!; try done. by intros x q ?%elem_of_nil. }
  rewrite !Forall_app. intros (Hlt & [Hge1 Hge2] & Hs). destruct (IH Hs) as (H1 & H2 & H3 & H4).
  rewrite Forall_forall in Hlt. rewrite Forall_forall in Hge2. split_and!; auto.
  - apply Forall_forall. intros x Hx. apply Hlt in Hx. by apply Forall_app in Hx as [? _].
  - intros x q Hx Hq. rewrite flat_cons, keys_app in Hx. apply elem_of_app in Hx as [Hx|Hx]; [|by apply H3].
    apply Hlt, Forall_app in Hx as [_ Hx]. rewrite Forall_forall in Hx. auto.
  - intros _ q x Hq Hx. specialize (Hge2 q Hq). rewrite Forall_forall in Hge2. auto.
Qed.

Lemma flat_concat_elem x (css : list (list (bytes * tree))) cs :
  cs ∈ css → x ∈ keys (flat cs) → x ∈ keys (flat (concat css)).
Proof.
  intros Hcs (k & c & Hin & Hx)%elem_of_flat. apply elem_of_flat. exists k, c. split; [|done].
  apply elem_of_concat. eauto.
Qed.

Lemma clocs_app c1 c2 : clocs (c1 ++ c2) = clocs c1 ++ clocs c2.
Proof. unfold clocs. by rewrite map_app, concat_app. Qed.
Lemma clocs_cons k c cs : clocs ((k, c) :: cs) = tlocs c ++ clocs cs.
Proof. done. Qed.

Lemma branch_groups ls css p :
  ssorted (concat css).*1 → Forall (λ k, k ≠ []) (concat css).*1 → seps_ok (concat css) →
  Forall (λ q, wf q.2) (concat css) → Forall (λ g, g ≠ []) css → css ≠ [] → length ls = length css →
  let cs := zip_with (group_tree Branch branch_inode) ls css in
  wf (Branch p cs) ∧ flat cs = flat (concat css) ∧ clocs cs ≡ₚ ls ++ clocs (concat css).
Proof.
  intros Hs Hk Hseps Hwf Hne Hnil Hlen cs. split_and!.
  - apply wf_Branch. split_and!.
    + destruct css, ls; done.
    + by apply (group_sorted fst).
    + apply Forall_fmap, Forall_forall. intros q (l & g & Hg & _ & ->)%group_elem. rewrite Forall_forall in Hk.
      rewrite Forall_forall in Hne. simpl. apply Hk. by apply (first_in_concat fst); [..|apply Hne].
    + clear Hk Hnil Hlen Hwf. subst cs. revert ls. induction css as [|g css IH]; intros [|l ls]; simpl; try done.
      simpl in Hs, Hseps. rewrite fmap_app in Hs. apply ssorted_app in Hs as (Hs1 & Hs2 & Hlt).
      destruct (seps_ok_app _ _ Hseps) as (Hp1 & Hp2 & Hp3 & Hp4). apply Forall_cons in Hne as [Hg Hne].
      split_and!; [| |by apply IH].
      * apply Forall_forall. intros x Hx. apply Forall_forall. intros q (l' & g' & Hg' & _ & ->)%group_elem. simpl.
        rewrite Forall_forall in Hne.
        destruct (proj1 (list_elem_of_fmap _ _ _) (first_in_concat fst branch_inode (λ _, eq_refl) g' css Hg' (Hne _ Hg'))) as (q & -> & Hq).
        by apply Hp3.
      * apply Forall_forall. intros q (l' & g' & Hg' & _ & ->)%group_elem. apply Forall_forall. intros x Hx. simpl in *.
        apply elem_of_flat in Hx as (k & c & Hin & Hx).
        etrans; [|apply (Hp4 Hg (k, c) x); [apply elem_of_concat; eauto|done]].
        apply (first_le fst branch_inode (λ _, eq_refl)); [by eapply (group_sub fst)|]. apply list_elem_of_fmap. by exists (k, c).
    + apply Forall_forall. intros q (l & g & Hg & _ & ->)%group_elem. apply wf_Branch.
      rewrite Forall_forall in Hne. split_and!; [by apply Hne|by eapply (group_sub fst)| | |].
      * apply Forall_forall. rewrite Forall_forall in Hk. intros x (a & -> & Ha)%list_elem_of_fmap. apply Hk.
        apply list_elem_of_fmap_2, elem_of_concat. eauto.
      * clear -Hseps Hg. induction css as [|g' css IH]; [by apply elem_of_nil in Hg|].
        simpl in Hseps. destruct (seps_ok_app _ _ Hseps) as (? & ? & _). apply elem_of_cons in Hg as [->|Hg]; [done|by apply IH].
      * apply Forall_forall. intros q Hq. rewrite Forall_forall in Hwf. apply Hwf, elem_of_concat. eauto.
  - clear -Hlen. subst cs. revert ls Hlen. induction css as [|g css IH]; intros [|l ls] Hlen; simpl in *; try done.
    rewrite flat_app. unfold group_tree at 1. rewrite flat_cons, contents_Branch. f_equal. apply IH. lia.
  - clear -Hlen. subst cs. revert ls Hlen. induction css as [|g css IH]; intros [|l ls] Hlen; simpl in *; try done.
    unfold group_tree at 1. rewrite clocs_cons, tlocs_Branch, clocs_app, IH by lia. simpl. apply perm_skip.
    rewrite !app_assoc. f_equiv. apply Permutation_app_comm.
Qed.

(** ** Any node *)

Lemma group_rep {A} (mk : loc → list A → tree) inode_of h lf ls gs :
  Forall2 (piece_node h lf) ls ((λ g : list A, inode_of <$> g) <$> gs) →
  (∀ l g, g ∈ gs → piece_node h lf l (inode_of <$> g) → rep h (mk l g)) →
  Forall (λ q, rep h q.2) (zip_with (group_tree mk inode_of) ls gs).
Proof.
  intros Hp Hrep. apply Forall_forall. intros q (i & l & g & -> & Hl & Hg)%elem_of_lookup_zip_with. simpl.
  apply Hrep; [by eapply list_elem_of_lookup_2|]. eapply (Forall2_lookup_lr _ _ _ i); [done|done|].
  by rewrite list_lookup_fmap, Hg.
Qed.

(** The pieces of the root of [T], as children of a new branch at [p]. *)
Lemma regroup h T p ls pcs :
  wf T → Forall (λ q, rep h q.2) (tchildren T) → concat pcs = tree_inodes T →
  pcs ≠ [] → Forall (λ pc, pc ≠ []) pcs → Forall2 (piece_node h (tleaf T)) ls pcs →
  ∃ cs, branch_inode <$> cs = zip_with link_inode ls pcs ∧ wf (Branch p cs) ∧ flat cs = contents T ∧
    Forall (λ q, rep h q.2) cs ∧ clocs cs ≡ₚ ls ++ clocs (tchildren T) ∧ length cs = length pcs.
Proof.
  intros Hwf Hch Hcat Hnil Hne Hp. pose proof (Forall2_length _ _ _ Hp) as Hlen. destruct T as [l kvs|l cs0]; simpl in Hcat.
  - apply concat_fmap_inv in Hcat as (gs & -> & <-). rewrite length_fmap in Hlen. destruct Hwf as [Hs Hk].
    assert (Hne' : Forall (λ g, g ≠ []) gs).
    { apply Forall_forall. intros g Hg ->. rewrite Forall_forall in Hne. apply (Hne []); [|done].
      apply list_elem_of_fmap. by exists []. }
    destruct (leaf_groups ls gs p Hs Hk Hne') as (H1 & H2 & H3); [by intros ->|done|].
    exists (zip_with (group_tree Leaf leaf_inode) ls gs). split_and!; [by apply group_links|done|done| | |].
    + eapply group_rep; [done|]. intros l' g _ (m & Hm & Hl & Hi). by exists m.
    + rewrite H3. simpl. by rewrite app_nil_r.
    + rewrite length_zip_with, length_fmap. lia.
  - apply concat_fmap_inv in Hcat as (gs & -> & <-). rewrite length_fmap in Hlen.
    apply wf_Branch in Hwf as (_ & Hs & Hk & Hseps & Hwf).
    assert (Hne' : Forall (λ g, g ≠ []) gs).
    { apply Forall_forall. intros g Hg ->. rewrite Forall_forall in Hne. apply (Hne []); [|done].
      apply list_elem_of_fmap. by exists []. }
    destruct (branch_groups ls gs p Hs Hk Hseps Hwf Hne') as (H1 & H2 & H3); [by intros ->|done|].
    exists (zip_with (group_tree Branch branch_inode) ls gs). split_and!; [by apply group_links|done|done| |done|].
    + eapply group_rep; [done|]. intros l' g Hg (m & Hm & Hl & Hi). apply rep_Branch. split; [by exists m|].
      simpl in Hch. rewrite Forall_forall in Hch. apply Forall_forall. intros q Hq. apply Hch, elem_of_concat. eauto.
    + rewrite length_zip_with, length_fmap. lia.
Qed.
