(* ===== verification/Frame.v ===== *)
(** * What the code may write: the ownership discipline

    Nodes are of two kinds.  A node whose [bucket] field is nil is frozen: it has
    been published and is shared by every transaction that pinned a state.  A
    node whose [bucket] field points to a handle is that handle's own copy and
    is in its dirty set.  [core] states the discipline, [evo] what one call may
    do to the program state, and [safe] is the logic in which every function of
    node.go and bucket.go is shown to follow it, however it ends. *)
From S2P Require Import Prelude GoSort Stats World Node KV Tree Cursor Cow Bucket Spill CowSpec.
Local Open Scope st_scope.

Definition frozen (w : world) (l : loc) : Prop :=
  ∃ n, w_nodes w !! l = Some n ∧ n_bucket n = None.

Definition dirty_of (w : world) (b : bid) (l : loc) : Prop :=
  ∃ x D, w_bkts w !! b = Some x ∧ b_dirty x = Some D ∧ l ∈ D.

(** Every root of a published state is frozen. *)
Definition st_frozen (w : world) (st : dbState) : Prop :=
  ∀ name bs r, ds_buckets st !! name = Some (Some bs) → bs_root bs = Some r → frozen w r.

(** What a node of bucket [b] may point to. *)
Definition ptr_ok (w : world) (b : bid) (c : loc) : Prop := frozen w c ∨ dirty_of w b c.

Record core (w : world) : Prop := mkCore {
  s_fresh_n : ∀ l n, w_nodes w !! l = Some n → (l < w_nextn w)%positive;
  s_fresh_b : ∀ b x, w_bkts w !! b = Some x → (b < w_nextb w)%positive;
  s_fresh_t : ∀ t x, w_txs w !! t = Some x → (t < w_nextt w)%positive;
  s_dirty : ∀ b l, dirty_of w b l → ∃ n, w_nodes w !! l = Some n ∧ n_bucket n = Some b;
  s_owned : ∀ l n b, w_nodes w !! l = Some n → n_bucket n = Some b → dirty_of w b l;
  s_parent : ∀ l n b p, w_nodes w !! l = Some n → n_bucket n = Some b → n_parent n = Some p →
    dirty_of w b p;
  s_child : ∀ l n b i c, w_nodes w !! l = Some n → n_bucket n = Some b → i ∈ n_inodes n →
    i_child i = Some c → ptr_ok w b c;
  s_closed : ∀ l n i c, w_nodes w !! l = Some n → n_bucket n = None → i ∈ n_inodes n →
    i_child i = Some c → frozen w c;
  s_root : ∀ b x r, w_bkts w !! b = Some x → b_rootNode x = Some r → dirty_of w b r;
  s_db : ∀ st, db_state (w_db w) = Some st → st_frozen w st;
  s_base : ∀ t tx st, w_txs w !! t = Some tx → t_base tx = Some st → st_frozen w st
}.

(** One call inside a write transaction, before it publishes: frozen nodes keep
    their value, owned nodes stay owned, handles and transactions stay, the
    database is untouched. *)
Record evo (w w' : world) : Prop := mkEvo {
  e_core : core w';
  e_frozen : ∀ l n, w_nodes w !! l = Some n → n_bucket n = None → w_nodes w' !! l = Some n;
  e_dirty : ∀ b l, dirty_of w b l → dirty_of w' b l;
  e_bkts : ∀ b x, w_bkts w !! b = Some x → ∃ x', w_bkts w' !! b = Some x' ∧ b_tx x' = b_tx x ∧
    b_name x' = b_name x ∧ (b_dirty x = None → x' = x) ∧ (is_Some (b_dirty x) → is_Some (b_dirty x')) ∧
    (is_Some (b_rootNode x) → is_Some (b_rootNode x'));
  e_bkts_old : ∀ b x, w_bkts w' !! b = Some x → is_Some (w_bkts w !! b);
  e_txs : strip <$> w_txs w' = strip <$> w_txs w;
  e_db : w_db w' = w_db w;
  e_rest : w_nextb w' = w_nextb w ∧ w_nextt w' = w_nextt w ∧ w_fired w' = w_fired w
}.

Lemma evo_refl w : core w → evo w w.
Proof. intros H. split; eauto 10. Qed.

Lemma evo_trans w1 w2 w3 : evo w1 w2 → evo w2 w3 → evo w1 w3.
Proof.
  intros [] []. split; auto; try congruence.
  - intros b x (x2 & H2 & Ht & Hn & Hd & Hs & Hr)%e_bkts0.
    destruct (e_bkts1 _ _ H2) as (x3 & H3 & Ht3 & Hn3 & Hd3 & Hs3 & Hr3).
    exists x3. split_and!; [done|congruence|congruence| |auto|auto]. intros Hx. pose proof (Hd Hx). subst x2. auto.
  - intros b x [x2 H2]%e_bkts_old1. eauto.
  - destruct_and!. split_and!; congruence.
Qed.

Lemma frozen_evo w w' l : evo w w' → frozen w l → frozen w' l.
Proof. intros He (n & Hn & Hb). exists n. split; [by apply (e_frozen _ _ He)|done]. Qed.
Lemma ptr_evo w w' b c : evo w w' → ptr_ok w b c → ptr_ok w' b c.
Proof. intros He [?|?]; [left; by eapply frozen_evo|right; by apply (e_dirty _ _ He)]. Qed.
Lemma st_frozen_mono w w' st : (∀ l, frozen w l → frozen w' l) → st_frozen w st → st_frozen w' st.
Proof. intros H Hst name bs r Hn Hr. eapply H, Hst; eauto. Qed.

#[export] Hint Resolve frozen_evo ptr_evo e_dirty e_core evo_refl : vmbolt.

(** ** The logic *)

(** However [m] ends from [w], it follows the discipline; if it returns, [Q]. *)
Definition safe {A} (Q : A → world → Prop) (m : M A) (w : world) : Prop :=
  evo w (m w).2 ∧ ∀ a w', m w = (Ret a, w') → Q a w'.

Definition anything {A} (_ : A) (_ : world) : Prop := True.

Lemma safe_ret {A} (Q : A → world → Prop) a w : core w → Q a w → safe Q (st_ret a) w.
Proof. intros Hc HQ. split; [by apply evo_refl|]. by intros a' w' [= <- <-]. Qed.
Lemma safe_panic {A} (Q : A → world → Prop) p w : core w → safe Q (st_panic p) w.
Proof. intros Hc. split; [by apply evo_refl|done]. Qed.
Lemma safe_nofuel {A} (Q : A → world → Prop) w : core w → safe Q st_nofuel w.
Proof. intros Hc. split; [by apply evo_refl|done]. Qed.

Lemma safe_bind {A B} (Q : A → world → Prop) (R : B → world → Prop) (m : M A) (f : A → M B) w :
  safe Q m w → (∀ a w', evo w w' → Q a w' → safe R (f a) w') → safe R (st_bind m f) w.
Proof.
  intros [He HQ] Hf. unfold safe, st_bind. destruct (m w) as [[a| | |] w'] eqn:E; simpl in *; try by split.
  destruct (Hf a w' He (HQ _ _ eq_refl)) as [He' HR]. split; [by eapply evo_trans|done].
Qed.

Lemma safe_mono {A} (Q R : A → world → Prop) m w : (∀ a w', Q a w' → R a w') → safe Q m w → safe R m w.
Proof. intros H [He HQ]. split; auto. Qed.

(** Reads give facts about the current state. *)
Lemma safe_get_node {B} (R : B → world → Prop) l (f : node → M B) w :
  core w → (∀ n, w_nodes w !! l = Some n → safe R (f n) w) → safe R (st_bind (get_node l) f) w.
Proof.
  intros Hc Hf. destruct (w_nodes w !! l) as [n|] eqn:E.
  - unfold safe. rewrite (bind_Ret _ _ _ _ _ (get_node_run _ _ _ E)). by apply Hf.
  - unfold safe, get_node, st_bind, st_get, st_deref. rewrite E. split; [by apply evo_refl|done].
Qed.
Lemma safe_get_bkt {B} (R : B → world → Prop) b (f : Bucket → M B) w :
  core w → (∀ x, w_bkts w !! b = Some x → safe R (f x) w) → safe R (st_bind (get_bkt b) f) w.
Proof.
  intros Hc Hf. destruct (w_bkts w !! b) as [n|] eqn:E.
  - unfold safe. rewrite (bind_Ret _ _ _ _ _ (get_bkt_run _ _ _ E)). by apply Hf.
  - unfold safe, get_bkt, st_bind, st_get, st_deref. rewrite E. split; [by apply evo_refl|done].
Qed.
Lemma safe_get_tx {B} (R : B → world → Prop) t (f : Tx → M B) w :
  core w → (∀ x, w_txs w !! t = Some x → safe R (f x) w) → safe R (st_bind (get_tx t) f) w.
Proof.
  intros Hc Hf. destruct (w_txs w !! t) as [n|] eqn:E.
  - unfold safe. rewrite (bind_Ret _ _ _ _ _ (get_tx_run _ _ _ E)). by apply Hf.
  - unfold safe, get_tx, st_bind, st_get, st_deref. rewrite E. split; [by apply evo_refl|done].
Qed.
Lemma safe_deref {A B} (R : B → world → Prop) (o : option A) (f : A → M B) w :
  core w → (∀ a, o = Some a → safe R (f a) w) → safe R (st_bind (st_deref o) f) w.
Proof.
  intros Hc Hf. destruct o as [a|]; [by apply (Hf a)|]. split; [by apply evo_refl|done].
Qed.
Lemma safe_index {A B} (R : B → world → Prop) (l : list A) i (f : A → M B) w :
  core w → (∀ a, a ∈ l → safe R (f a) w) → safe R (st_bind (st_index l i) f) w.
Proof.
  intros Hc Hf. unfold st_index. destruct (i <? 0)%Z; [split; [by apply evo_refl|done]|].
  destruct (l !! Z.to_nat i) as [a|] eqn:E; [apply Hf; by eapply list_elem_of_lookup_2|].
  split; [by apply evo_refl|done].
Qed.
Lemma safe_Assert {B} (R : B → world → Prop) c (f : unit → M B) w :
  core w → safe R (f tt) w → safe R (st_bind (Assert c) f) w.
Proof. intros Hc Hf. destruct c; [exact Hf|]. split; [by apply evo_refl|done]. Qed.

Lemma safe_iter {A} (f : A → M unit) l w :
  core w → (∀ a w', a ∈ l → evo w w' → safe anything (f a) w') → safe anything (st_iter f l) w.
Proof.
  revert w. induction l as [|a l IH]; intros w Hc Hf; simpl; [by apply safe_ret|].
  eapply safe_bind; [apply Hf; [set_solver|by apply evo_refl]|].
  intros _ w' He _. apply IH; [apply He|]. intros a' w2 Ha' He'. apply Hf; [set_solver|by eapply evo_trans].
Qed.

(** ** Writes *)

(** A node that bucket [b] may own. *)
Definition node_ok (w : world) (b : bid) (n : node) : Prop :=
  n_bucket n = Some b ∧ (∀ p, n_parent n = Some p → dirty_of w b p) ∧
  (∀ i c, i ∈ n_inodes n → i_child i = Some c → ptr_ok w b c).

Lemma owned_ok w b l n : core w → dirty_of w b l → w_nodes w !! l = Some n → node_ok w b n.
Proof.
  intros Hc Hd Hn. destruct (s_dirty _ Hc _ _ Hd) as (n' & Hn' & Hb). simplify_eq.
  split_and!; [done|intros; by eapply s_parent|intros; by eapply s_child].
Qed.

Lemma node_ok_evo w w' b n : evo w w' → node_ok w b n → node_ok w' b n.
Proof. intros He (H1 & H2 & H3). split_and!; [done|intros; by eapply e_dirty; eauto|intros; eapply ptr_evo; eauto]. Qed.

(** A world that differs in one owned node. *)
Lemma evo_set_node w b l n' :
  core w → dirty_of w b l → node_ok w b n' → evo w (set_nodes (<[l := n']> (w_nodes w)) w).
Proof.
  intros Hc Hd (Hb & Hp & Hch). set (w' := set_nodes _ w).
  destruct (s_dirty _ Hc _ _ Hd) as (n & Hn & Hnb).
  assert (Hdi : ∀ b' l', dirty_of w b' l' → dirty_of w' b' l') by done.
  assert (Hfr : ∀ l', frozen w l' → frozen w' l').
  { intros l' (m & Hm & Hmb). exists m. split; [|done]. simpl. rewrite lookup_insert_ne; [done|].
    intros <-. congruence. }
  assert (Hpt : ∀ b' l', ptr_ok w b' l' → ptr_ok w' b' l') by (intros b' l' [?|?]; [left|right]; auto).
  assert (Hlk : ∀ l' m, w_nodes w' !! l' = Some m → (l' = l ∧ m = n') ∨ w_nodes w !! l' = Some m).
  { intros l' m. simpl. rewrite lookup_insert. case_decide; [intros [= <-]; auto|auto]. }
  split; auto.
  - split; simpl; [|apply (s_fresh_b _ Hc)|apply (s_fresh_t _ Hc)|..|apply (s_root _ Hc)| |].
    + intros l' m [[-> ->]|Hm]%Hlk; by eapply s_fresh_n.
    + intros b' l' Hd'. destruct (s_dirty _ Hc _ _ Hd') as (m & Hm & Hmb).
      rewrite lookup_insert. case_decide; [subst; exists n'; simplify_eq; by split|eauto].
    + intros l' m b' [[-> ->]|Hm]%Hlk Hmb; [simplify_eq; by apply Hdi|by eapply Hdi, s_owned].
    + intros l' m b' p [[-> ->]|Hm]%Hlk Hmb Hmp; [simplify_eq; by apply Hdi, Hp|by eapply Hdi, s_parent].
    + intros l' m b' i c [[-> ->]|Hm]%Hlk Hmb Hi Hic; [simplify_eq; by eapply Hpt, Hch|by eapply Hpt, s_child].
    + intros l' m i c [[-> ->]|Hm]%Hlk Hmb Hi Hic; [congruence|by eapply Hfr, s_closed].
    + intros st Hst. eapply st_frozen_mono; [apply Hfr|by apply (s_db _ Hc)].
    + intros t tx st Htx Hst. eapply st_frozen_mono; [apply Hfr|by eapply (s_base _ Hc)].
  - intros l' m Hm Hmb. simpl. rewrite lookup_insert_ne; [done|]. intros <-. congruence.
  - intros b' x Hx. exists x. split_and!; auto.
Qed.

Lemma safe_upd_node w b l f :
  core w → dirty_of w b l →
  (∀ n, w_nodes w !! l = Some n → node_ok w b n → node_ok w b (f n)) →
  safe anything (upd_node l f) w.
Proof.
  intros Hc Hd Hf. destruct (s_dirty _ Hc _ _ Hd) as (n & Hn & _).
  unfold safe. rewrite (upd_node_run _ _ _ _ Hn). split; [|done].
  eapply evo_set_node; eauto using owned_ok.
Qed.

Lemma safe_tx_stat w t f : core w → safe anything (tx_stat t f) w.
Proof.
  intros Hc. unfold tx_stat, upd_tx. apply safe_get_tx; [done|]. intros tx Htx.
  split; [|done]. simpl.
  assert (strip <$> <[t := set_t_stats (f (t_stats tx)) tx]> (w_txs w) = strip <$> w_txs w) as Hs.
  { rewrite fmap_insert. apply insert_id. by rewrite lookup_fmap, Htx. }
  split; auto; simpl; auto.
  - destruct Hc as [Hn Hb Ht Hd Ho Hp Hch Hcl Hr Hdb Hba]. split; auto; simpl.
    + intros t' tx'. rewrite lookup_insert. case_decide; [subst; intros _; by eapply Ht|by apply Ht].
    + intros t' tx' st. rewrite lookup_insert.
      case_decide; [subst t'; intros [= <-] Hst; by eapply (Hba t tx)|by apply Hba].
  - intros b x Hx. exists x. by split_and!.
Qed.

(** Pointing a handle's root at one of its own nodes. *)
Lemma safe_set_root w b r :
  core w → dirty_of w b r → safe anything (upd_bkt b (set_b_rootNode (Some r))) w.
Proof.
  intros Hc Hd. unfold upd_bkt. apply safe_get_bkt; [done|]. intros x Hx. split; [|done]. simpl.
  set (w' := set_bkts _ w). destruct Hd as (x0 & D & Hx0 & HD & Hr). assert (x0 = x) as -> by congruence.
  assert (Hdi : ∀ b' l', dirty_of w b' l' ↔ dirty_of w' b' l').
  { intros b' l'. unfold dirty_of. simpl. split; intros (y & D' & Hy & HD' & Hl').
    - destruct (decide (b = b')) as [<-|]; [|exists y, D'; by rewrite lookup_insert_ne].
      simplify_eq. eexists _, _. by rewrite lookup_insert_eq.
    - rewrite lookup_insert in Hy. case_decide; [|eauto]. subst b'. simplify_eq. eexists _, _. by split_and!. }
  assert (Hpt : ∀ b' l', ptr_ok w b' l' → ptr_ok w' b' l').
  { intros b' l' [?|?]; [by left|right; by apply Hdi]. }
  split; auto.
  - split; [apply (s_fresh_n _ Hc)| |apply (s_fresh_t _ Hc)|..|apply (s_db _ Hc)|apply (s_base _ Hc)].
    + intros b' y. simpl. rewrite lookup_insert.
      case_decide; [subst; intros _; by eapply s_fresh_b|by eapply s_fresh_b].
    + intros b' l' ?%Hdi. by apply (s_dirty _ Hc).
    + intros. by eapply Hdi, (s_owned _ Hc).
    + intros. by eapply Hdi, (s_parent _ Hc).
    + intros. by eapply Hpt, (s_child _ Hc).
    + apply (s_closed _ Hc).
    + intros b' y r'. simpl. rewrite lookup_insert.
      case_decide; [subst; intros [= <-] [= <-]; apply Hdi; by exists x, D|].
      intros. by eapply Hdi, (s_root _ Hc).
  - intros b' l' ?. by apply Hdi.
  - intros b' y Hy. simpl. rewrite lookup_insert. case_decide; [|eauto 10].
    subst. simplify_eq. eexists. split_and!; [done..| |done|eauto]. by rewrite HD.
  - intros b' y. simpl. rewrite lookup_insert. case_decide; [subst; eauto|eauto].
Qed.

(** The world after a fresh node has been allocated and marked dirty. *)
Definition with_alloc (b : bid) (x : Bucket) (D : gset loc) (n0 : node) (w : world) : world :=
  set_bkts (<[b := set_b_dirty (Some ({[w_nextn w]} ∪ D)) x]> (w_bkts w)) (new_node n0 w).2.

Lemma evo_alloc w b x D n0 :
  core w → w_bkts w !! b = Some x → b_dirty x = Some D → node_ok w b n0 →
  evo w (with_alloc b x D n0 w) ∧ dirty_of (with_alloc b x D n0 w) b (w_nextn w).
Proof.
  intros Hc Hx HD (Hb & Hp & Hch). set (l := w_nextn w). set (w' := with_alloc b x D n0 w).
  assert (Hnew : dirty_of w' b l).
  { eexists _, _. simpl. rewrite lookup_insert_eq. split_and!; [done|done|set_solver]. }
  assert (Hdi : ∀ b' l', dirty_of w b' l' → dirty_of w' b' l').
  { intros b' l' (y & D' & Hy & HD' & Hl'). unfold dirty_of. simpl.
    destruct (decide (b = b')) as [<-|]; [|exists y, D'; by rewrite lookup_insert_ne].
    simplify_eq. eexists _, _. rewrite lookup_insert_eq. split_and!; [done|done|set_solver]. }
  assert (Hdi' : ∀ b' l', dirty_of w' b' l' → (b' = b ∧ l' = l) ∨ dirty_of w b' l').
  { intros b' l' (y & D' & Hy & HD' & Hl'). simpl in Hy. rewrite lookup_insert in Hy.
    case_decide; [|right; by exists y, D']. subst b'. injection Hy as <-. injection HD' as <-.
    apply elem_of_union in Hl' as [->%elem_of_singleton|?]; [by left|right; by exists x, D]. }
  assert (Hold : ∀ l' m, w_nodes w !! l' = Some m → w_nodes w' !! l' = Some m).
  { intros l' m Hm. simpl. rewrite lookup_insert_ne; [done|]. apply (s_fresh_n _ Hc) in Hm. lia. }
  assert (Hfr : ∀ l', frozen w l' → frozen w' l') by (intros l' (m & Hm & ?); exists m; auto).
  assert (Hpt : ∀ b' l', ptr_ok w b' l' → ptr_ok w' b' l') by (intros b' l' [?|?]; [left|right]; auto).
  assert (Hlk : ∀ l' m, w_nodes w' !! l' = Some m → (l' = l ∧ m = n0) ∨ w_nodes w !! l' = Some m).
  { intros l' m. simpl. rewrite lookup_insert. case_decide; [intros [= <-]; auto|auto]. }
  split; [|done]. split; auto.
  - split; simpl; [| |apply (s_fresh_t _ Hc)|..].
    + intros l' m [[-> ->]|Hm]%Hlk; [lia|]. apply (s_fresh_n _ Hc) in Hm. lia.
    + intros b' y. rewrite lookup_insert. case_decide; [subst; intros _; by eapply s_fresh_b|by eapply s_fresh_b].
    + intros b' l' [[-> ->]|Hd]%Hdi'; [exists n0; by rewrite lookup_insert_eq|].
      destruct (s_dirty _ Hc _ _ Hd) as (m & Hm & ?). exists m. split; [by apply Hold|done].
    + intros l' m b' [[-> ->]|Hm]%Hlk Hmb; [by simplify_eq|by eapply Hdi, s_owned].
    + intros l' m b' p [[-> ->]|Hm]%Hlk Hmb Hmp; [simplify_eq; by apply Hdi, Hp|by eapply Hdi, s_parent].
    + intros l' m b' i c [[-> ->]|Hm]%Hlk Hmb Hi Hic; [simplify_eq; by eapply Hpt, Hch|by eapply Hpt, s_child].
    + intros l' m i c [[-> ->]|Hm]%Hlk Hmb Hi Hic; [congruence|by eapply Hfr, s_closed].
    + intros b' y r. rewrite lookup_insert. case_decide; [|intros; by eapply Hdi, (s_root _ Hc)].
      subst b'. intros [= <-] Hr. eapply Hdi, (s_root _ Hc); eauto.
    + intros st Hst. eapply st_frozen_mono; [apply Hfr|by apply (s_db _ Hc)].
    + intros t tx st Htx Hst. eapply st_frozen_mono; [apply Hfr|by eapply (s_base _ Hc)].
  - intros b' y Hy. simpl. rewrite lookup_insert. case_decide; [|eauto 10].
    subst b'. simplify_eq. eexists. split_and!; [done..| |done|done]. by rewrite HD.
  - intros b' y. simpl. rewrite lookup_insert. case_decide; [subst; eauto|eauto].
Qed.

(** [parent.inodes[idx].child = c] keeps a node in order. *)
Lemma set_child_ok w b idx c n : node_ok w b n → dirty_of w b c → node_ok w b (set_child idx c n).
Proof.
  intros (H1 & H2 & H3) Hc. split_and!; [done|done|]. simpl. intros i c' Hi Hic.
  apply list_elem_of_lookup in Hi as [j Hj]. rewrite list_lookup_alter in Hj.
  case_decide; [|eapply H3; [by eapply list_elem_of_lookup_2|done]].
  destruct (n_inodes n !! Z.to_nat idx) as [i0|]; [|done]. simplify_eq/=. by right.
Qed.

Lemma childForWrite_safe w b p idx :
  core w → dirty_of w b p → safe (λ c w', dirty_of w' b c) (childForWrite b p idx) w.
Proof.
  intros Hc Hp. unfold childForWrite. apply safe_get_node; [done|]. intros n Hn.
  apply safe_index; [done|]. intros i Hi. apply safe_get_bkt; [done|]. intros x Hx.
  destruct (i_child i) as [ch|] eqn:Hch; [|by apply safe_panic].
  destruct Hp as (x' & D & Hx' & HD & Hp). assert (x' = x) as -> by congruence. unfold isDirty. rewrite HD.
  case_bool_decide as Hd; [apply safe_ret; [done|by exists x, D]|].
  assert (Hpd : dirty_of w b p) by (by exists x, D).
  destruct (owned_ok _ _ _ _ Hc Hpd Hn) as (_ & _ & Hcs).
  unfold copyNode. destruct (w_nodes w !! ch) as [o|] eqn:Ho.
  2:{ assert (get_node ch w = (Panic PNilDeref, w)) as Hg.
      { unfold get_node, st_bind, st_get, st_deref. by rewrite Ho. }
      unfold safe. rewrite (bind_Panic _ _ _ _ _ (bind_Panic _ _ _ _ _ Hg)).
      split; [by apply evo_refl|done]. }
  set (cp := mkNode (Some b) (n_isLeaf o) false false (n_key o) None (n_inodes o)).
  assert (Hok : node_ok w b (set_n_parent (Some p) cp)).
  { split_and!; [done|by intros ? [= <-]|]. simpl. intros j c Hj Hjc.
    destruct (Hcs _ _ Hi Hch) as [(o' & Ho' & Hfo)|Hdc].
    - simplify_eq. left. by eapply (s_closed _ Hc ch).
    - destruct (owned_ok _ _ _ _ Hc Hdc Ho) as (_ & _ & Hco). by eapply Hco. }
  destruct (evo_alloc w b x D _ Hc Hx HD Hok) as [Hevo Hnew].
  set (w1 := with_alloc b x D (set_n_parent (Some p) cp) w) in *.
  assert (Hrun : (let! c := (let! o := get_node ch in new_node (mkNode (Some b) (n_isLeaf o) false false (n_key o) None (n_inodes o))) in
     upd_node c (set_n_parent (Some p)) ;! mark_dirty b c ;! upd_node p (set_child idx c) ;! st_ret c) w =
     (upd_node p (set_child idx (w_nextn w)) ;! st_ret (w_nextn w)) w1).
  { rewrite (bind_Ret _ _ w (w_nextn w) (new_node cp w).2) by (by rewrite (bind_Ret _ _ _ _ _ (get_node_run _ _ _ Ho))).
    erewrite bind_Ret by (apply upd_node_run; simpl; apply lookup_insert_eq).
    erewrite bind_Ret by (eapply mark_dirty_run; [simpl; exact Hx|exact HD]).
    f_equal. unfold w1, with_alloc, set_bkts, set_nodes. simpl. by rewrite insert_insert_eq. }
  assert (safe (λ c w', dirty_of w' b c) (upd_node p (set_child idx (w_nextn w)) ;! st_ret (w_nextn w)) w1) as [He HQ].
  { eapply safe_bind; [eapply safe_upd_node; [apply Hevo|by apply (e_dirty _ _ Hevo)|]|].
    - intros m _ Hm. by apply set_child_ok.
    - intros _ w2 He2 _. apply safe_ret; [apply He2|]. by apply (e_dirty _ _ He2). }
  unfold safe. rewrite Hrun. split; [by eapply evo_trans|done].
Qed.

Lemma childAt_safe w b p idx :
  core w → dirty_of w b p → safe (λ c w', dirty_of w' b c) (childAt p idx) w.
Proof.
  intros Hc Hp. unfold childAt. apply safe_get_node; [done|]. intros n Hn.
  destruct (owned_ok _ _ _ _ Hc Hp Hn) as (Hb & _).
  destruct (n_isLeaf n); [by apply safe_panic|]. apply safe_deref; [done|].
  intros b' Hb'. assert (b' = b) as -> by congruence. by apply childForWrite_safe.
Qed.

(** A published root is frozen. *)
Lemma baseState_frozen w x bs r :
  core w → baseState w x = Some bs → bs_root bs = Some r → frozen w r.
Proof.
  intros Hc Hb Hr. unfold baseState in Hb. destruct (w_txs w !! b_tx x) as [tx|] eqn:Ht; [|done].
  destruct (t_base tx) as [st|] eqn:Hst; [|done].
  destruct (ds_buckets st !! b_name x) as [[bs'|]|] eqn:Hn; simplify_eq/=.
  by eapply (s_base _ Hc _ tx).
Qed.

Lemma writableRoot_safe w b :
  core w → (∀ x, w_bkts w !! b = Some x → is_Some (b_dirty x)) →
  safe (λ r w', dirty_of w' b r) (writableRoot b) w.
Proof.
  intros Hc Hdirty. unfold writableRoot. apply safe_get_bkt; [done|]. intros x Hx.
  destruct (b_rootNode x) as [r|] eqn:Hr; [apply safe_ret; [done|by eapply s_root]|].
  destruct (Hdirty x Hx) as [D HD].
  assert (Halloc : ∀ m n0, m w = new_node n0 w → node_ok w b n0 →
    safe (λ r w', dirty_of w' b r)
      (let! root := m in mark_dirty b root ;! upd_bkt b (set_b_rootNode (Some root)) ;! st_ret root) w).
  { intros m n0 Hm Hok. destruct (evo_alloc w b x D n0 Hc Hx HD Hok) as [He Hnew].
    unfold safe. rewrite (bind_Ret m _ w (w_nextn w) (new_node n0 w).2) by (by rewrite Hm).
    erewrite bind_Ret by (eapply mark_dirty_run; [simpl; exact Hx|exact HD]).
    fold (with_alloc b x D n0 w).
    assert (safe (λ r w', dirty_of w' b r) (upd_bkt b (set_b_rootNode (Some (w_nextn w))) ;! st_ret (w_nextn w))
      (with_alloc b x D n0 w)) as [He2 HQ].
    { eapply safe_bind; [apply safe_set_root; [apply He|done]|].
      intros _ w2 He2 _. apply safe_ret; [apply He2|]. by apply (e_dirty _ _ He2). }
    split; [by eapply evo_trans|done]. }
  unfold safe. rewrite (bind_Ret st_get _ w w w eq_refl).
  assert (Hempty : node_ok w b (mkNode (Some b) true false false [] None [])).
  { split_and!; [done..|]. simpl. set_solver. }
  destruct (baseState w x) as [[[r|]]|] eqn:Hbs; [|by apply (Halloc _ _ eq_refl)..].
  destruct (baseState_frozen _ _ _ r Hc Hbs eq_refl) as (o & Ho & Hof).
  eapply (Halloc _ (mkNode (Some b) (n_isLeaf o) false false (n_key o) None (n_inodes o))).
  - unfold copyNode. by rewrite (bind_Ret _ _ _ _ _ (get_node_run _ _ _ Ho)).
  - split_and!; [done|done|]. simpl. intros i c Hi Hic. left. by eapply (s_closed _ Hc r).
Qed.

Lemma cow_path_safe b refs : ∀ w n,
  core w → dirty_of w b n → safe (λ l w', dirty_of w' b l) (cow_path n refs) w.
Proof.
  induction refs as [|ref refs IH]; intros w n Hc Hd; simpl; [by apply safe_ret|].
  apply safe_get_node; [done|]. intros nd _. apply safe_Assert; [done|].
  eapply safe_bind; [by apply childAt_safe|]. intros c w' He Hcd. apply IH; [apply He|done].
Qed.

Lemma Cursor_node_safe w b s :
  core w → (∀ x, w_bkts w !! b = Some x → is_Some (b_dirty x)) →
  safe (λ l w', dirty_of w' b l) (Cursor_node b s) w.
Proof.
  intros Hc Hd. unfold Cursor_node. apply safe_Assert; [done|].
  eapply safe_bind; [by apply writableRoot_safe|]. intros r w1 He1 Hr.
  eapply safe_bind; [apply (cow_path_safe b); [apply He1|done]|]. intros n w2 He2 Hn.
  apply safe_get_node; [apply He2|]. intros nd _. apply safe_Assert; [apply He2|].
  apply safe_ret; [apply He2|done].
Qed.

(** Members of an inode slice after [put] and [del]. *)
Lemma elem_of_inodes_put i o k v c f l :
  i ∈ inodes_put o k v c f l → i = mkInode f k v c ∨ i ∈ l.
Proof.
  unfold inodes_put. destruct (_ && _ && _).
  - intros [j Hj]%list_elem_of_lookup. apply list_lookup_insert_Some in Hj as [(_ & -> & _)|[_ Hj]]; [by left|].
    right. by eapply list_elem_of_lookup_2.
  - rewrite elem_of_app, elem_of_cons. intros [H|[->|H]]; [right|by left|right].
    + by eapply subseteq_take.
    + by eapply subseteq_drop.
Qed.

Lemma elem_of_inodes_del i k l l' : inodes_del k l = Some l' → i ∈ l' → i ∈ l.
Proof.
  unfold inodes_del. destruct (_ || _); [done|]. intros [= <-]. rewrite elem_of_app.
  intros [H|H]; [by eapply subseteq_take|by eapply subseteq_drop].
Qed.

Lemma put_at_safe w b n o k v c f :
  core w → dirty_of w b n → (∀ c', c = Some c' → ptr_ok w b c') →
  safe anything (put_at n o k v c f) w.
Proof.
  intros Hc Hd Hch. unfold put_at. apply safe_get_node; [done|]. intros nd Hn.
  pose proof (owned_ok _ _ _ _ Hc Hd Hn) as (H1 & H2 & H3). unfold node_put.
  destruct (_ <=? _)%Z; [by apply safe_panic|]. destruct (_ <=? _)%Z; [by apply safe_panic|].
  eapply safe_upd_node; [done|done|]. intros _ _ _. split_and!; [done|done|]. simpl.
  intros i c' [->|Hi]%elem_of_inodes_put Hic; [by apply Hch|by eapply H3].
Qed.

Lemma del_at_safe w b n k : core w → dirty_of w b n → safe anything (del_at n k) w.
Proof.
  intros Hc Hd. unfold del_at. eapply safe_upd_node; [done|done|]. intros nd _ (H1 & H2 & H3).
  unfold node_del. destruct (inodes_del k (n_inodes nd)) as [l|] eqn:E; [|by split_and!].
  split_and!; [done|done|]. simpl. intros i c Hi. eapply H3. by eapply elem_of_inodes_del.
Qed.
