(* ===== verification/FrameSpill.v ===== *)
(** * Commit follows the ownership discipline

    Splitting, finalizing, rebalancing and publishing write only nodes the
    committing buckets own; publishing freezes them. *)
From S2P Require Import Prelude GoSort Stats World Node KV Tree Cursor Cow Bucket Spill CowSpec Frame.
Local Open Scope st_scope.

(** Handle [b] has a dirty set. *)
Lemma dirty_handle w b l : dirty_of w b l → ∃ x D, w_bkts w !! b = Some x ∧ b_dirty x = Some D.
Proof. intros (x & D & ? & ? & _). eauto. Qed.

(** [&node{...}] followed by [b.dirty[...] = true]. *)
Lemma safe_alloc {B} (R : B → world → Prop) w b l0 n0 (k : loc → M B) :
  core w → dirty_of w b l0 → node_ok w b n0 →
  (∀ w', evo w w' → dirty_of w' b (w_nextn w) → safe R (k (w_nextn w)) w') →
  safe R (let! l := new_node n0 in mark_dirty b l ;! k l) w.
Proof.
  intros Hc (x & D & Hx & HD)%dirty_handle Hok Hk.
  destruct (evo_alloc w b x D n0 Hc Hx HD Hok) as [He Hnew]. destruct (Hk _ He Hnew) as [He2 HR].
  unfold safe. rewrite (bind_Ret (new_node n0) _ w (w_nextn w) (new_node n0 w).2 eq_refl).
  erewrite bind_Ret by (eapply mark_dirty_run; [simpl; exact Hx|exact HD]). fold (with_alloc b x D n0 w).
  split; [by eapply evo_trans|done].
Qed.

(** The same with the new node made a parent in between. *)
Lemma safe_alloc_parent w b n n0 :
  core w → dirty_of w b n → node_ok w b n0 →
  safe anything (let! p := new_node n0 in upd_node n (set_n_parent (Some p)) ;! mark_dirty b p) w.
Proof.
  intros Hc Hd Hok. destruct (dirty_handle _ _ _ Hd) as (x & D & Hx & HD).
  destruct (evo_alloc w b x D n0 Hc Hx HD Hok) as [He Hnew].
  destruct (s_dirty _ Hc _ _ Hd) as (nd & Hn & Hnb). set (p := w_nextn w).
  assert (Hnp : p ≠ n) by (apply (s_fresh_n _ Hc) in Hn; subst p; lia).
  assert (Hrun : (let! p := new_node n0 in upd_node n (set_n_parent (Some p)) ;! mark_dirty b p) w =
    (upd_node n (set_n_parent (Some p))) (with_alloc b x D n0 w)).
  { rewrite (bind_Ret (new_node n0) _ w p (new_node n0 w).2 eq_refl).
    assert (Hn1 : w_nodes (new_node n0 w).2 !! n = Some nd) by (simpl; by rewrite lookup_insert_ne).
    rewrite (bind_Ret _ _ _ _ _ (upd_node_run _ _ _ _ Hn1)).
    erewrite mark_dirty_run; [|simpl; exact Hx|exact HD]. by rewrite (upd_node_run (with_alloc b x D n0 w) n _ nd Hn1). }
  assert (safe anything (upd_node n (set_n_parent (Some p))) (with_alloc b x D n0 w)) as [He2 _].
  { eapply safe_upd_node; [apply He|by apply (e_dirty _ _ He)|].
    intros m _ (H1 & H2 & H3). split_and!; [done| |done]. by intros q [= <-]. }
  unfold safe. rewrite Hrun. split; [by eapply evo_trans|done].
Qed.

Lemma empty_node_ok w b lf k p : (∀ q, p = Some q → dirty_of w b q) →
  node_ok w b (mkNode (Some b) lf false false k p []).
Proof. intros Hp. split_and!; [done|done|]. simpl. set_solver. Qed.

(** A slice of inodes taken from an owned node may go into an owned node. *)
Lemma set_inodes_ok w b n l :
  node_ok w b n → (∀ i c, i ∈ l → i_child i = Some c → ptr_ok w b c) → node_ok w b (set_n_inodes l n).
Proof. intros (H1 & H2 & _) Hl. by split_and!. Qed.

Lemma splitTwo_safe w b n :
  core w → dirty_of w b n →
  safe (λ r w', dirty_of w' b r.1 ∧ ∀ n', r.2 = Some n' → dirty_of w' b n') (splitTwo n) w.
Proof.
  intros Hc Hd. unfold splitTwo. apply safe_get_node; [done|]. intros nd Hn.
  destruct (owned_ok _ _ _ _ Hc Hd Hn) as (Hb & _).
  destruct (noSplit nd); [by apply safe_ret|]. apply safe_deref; [done|]. intros b' Hb'.
  assert (b' = b) as -> by congruence. apply safe_get_bkt; [done|]. intros x Hx.
  eapply (safe_bind anything).
  { destruct (n_parent nd); [by apply safe_ret|]. apply safe_alloc_parent; [done|done|].
    by apply empty_node_ok. }
  intros _ w1 He1 _. pose proof (e_dirty _ _ He1 _ _ Hd) as Hd1. pose proof (e_core _ _ He1) as Hc1.
  apply safe_get_node; [done|]. intros nd1 Hn1. pose proof (owned_ok _ _ _ _ Hc1 Hd1 Hn1) as (_ & Hp1 & Hi1).
  eapply safe_alloc; [done|exact Hd1|by apply empty_node_ok|]. intros w2 He2 Hnew.
  pose proof (e_dirty _ _ He2 _ _ Hd1) as Hd2.
  eapply safe_bind.
  { eapply safe_upd_node; [apply He2|exact Hd2|]. intros m _ Hm. apply set_inodes_ok; [done|].
    intros i c Hi Hic. eapply ptr_evo, Hi1; [done| |done]. by eapply subseteq_take. }
  intros _ w3 He3 _. eapply safe_bind.
  { eapply safe_upd_node; [apply He3|by apply (e_dirty _ _ He3)|]. intros m _ Hm. apply set_inodes_ok; [done|].
    intros i c Hi Hic. eapply ptr_evo, ptr_evo, Hi1; [done|done| |done]. by eapply subseteq_drop. }
  intros _ w4 He4 _. eapply safe_bind; [apply safe_tx_stat, He4|]. intros _ w5 He5 _.
  apply safe_ret; [apply He5|]. simpl.
  split; [|intros ? [= <-]]; by apply (e_dirty _ _ He5), (e_dirty _ _ He4), (e_dirty _ _ He3).
Qed.

Lemma split_safe b rounds : ∀ w n,
  core w → dirty_of w b n → safe (λ l w', ∀ n', n' ∈ l → dirty_of w' b n') (split rounds n) w.
Proof.
  induction rounds as [|r IH]; intros w n Hc Hd; simpl; [by apply safe_nofuel|].
  eapply safe_bind; [by apply (splitTwo_safe _ b)|]. intros [a o] w1 He1 [Ha Ho]. simpl in *.
  destruct o as [n'|].
  - eapply safe_bind; [apply IH; [apply He1|by apply Ho]|]. intros l w2 He2 Hl.
    apply safe_ret; [apply He2|]. intros m [->|Hm]%elem_of_cons; [by apply (e_dirty _ _ He2)|auto].
  - apply safe_ret; [apply He1|]. intros m ->%list_elem_of_singleton. done.
Qed.

(** ** finalize *)

Lemma isDirty_of w b x c : w_bkts w !! b = Some x → isDirty x c = true → dirty_of w b c.
Proof.
  intros Hx. unfold isDirty. destruct (b_dirty x) as [D|] eqn:HD; [|done].
  intros ?%bool_decide_eq_true. by exists x, D.
Qed.

Lemma finalize_children_safe b (fin : loc → M (option err)) n rounds :
  (∀ w c, core w → dirty_of w b c → safe (λ e _, e = None) (fin c) w) → ∀ i w,
  core w → dirty_of w b n → safe (λ e _, e = None) (finalize_children fin n i rounds) w.
Proof.
  intros Hfin. induction rounds as [|r IH]; intros i w Hc Hd; simpl; [by apply safe_ret|].
  apply safe_get_node; [done|]. intros nd Hn. destruct (owned_ok _ _ _ _ Hc Hd Hn) as (Hb & _).
  apply safe_index; [done|]. intros ind _. destruct (i_child ind) as [c|]; [|by apply IH].
  apply safe_deref; [done|]. intros b' Hb'. assert (b' = b) as -> by congruence.
  apply safe_get_bkt; [done|]. intros x Hx. destruct (isDirty x c) eqn:E; [|by apply IH].
  eapply safe_bind; [apply Hfin; [done|by eapply isDirty_of]|]. intros e w1 He1 ->.
  apply IH; [apply He1|by apply (e_dirty _ _ He1)].
Qed.

(** Changing a field other than the pointers of an owned node. *)
Lemma upd_flag_safe w b l (f : node → node) :
  core w → dirty_of w b l →
  (∀ n, n_bucket (f n) = n_bucket n ∧ n_parent (f n) = n_parent n ∧ n_inodes (f n) = n_inodes n) →
  safe anything (upd_node l f) w.
Proof.
  intros Hc Hd Hf. eapply safe_upd_node; [done|done|]. intros n _ (H1 & H2 & H3).
  unfold node_ok. destruct (Hf n) as (-> & -> & ->). by split_and!.
Qed.

Lemma finalize_link_safe w b t n : core w → dirty_of w b n → safe anything (finalize_link t n) w.
Proof.
  intros Hc Hd. unfold finalize_link. eapply safe_bind; [by eapply upd_flag_safe|].
  intros _ w1 He1 _. pose proof (e_core _ _ He1) as Hc1. pose proof (e_dirty _ _ He1 _ _ Hd) as Hd1.
  apply safe_get_node; [done|]. intros nd Hn. pose proof (owned_ok _ _ _ _ Hc1 Hd1 Hn) as (_ & Hp & _).
  eapply (safe_bind anything); [|intros _ w2 He2 _; apply safe_tx_stat, He2].
  destruct (n_parent nd) as [p|]; [|by apply safe_ret].
  eapply (safe_bind anything).
  { destruct (_ =? _)%Z; [destruct (n_inodes nd)|]; by (apply safe_panic || apply safe_ret). }
  intros key w2 He2 _. pose proof (e_core _ _ He2) as Hc2. pose proof (e_dirty _ _ He2 _ _ Hd1) as Hd2.
  destruct (_ =? _)%Z; [by apply safe_panic|]. apply safe_index; [done|]. intros i0 _.
  eapply safe_bind.
  { eapply put_at_safe; [done|by apply (e_dirty _ _ He2), Hp|]. intros c [= <-]. by right. }
  intros _ w3 He3 _. eapply safe_bind.
  { eapply upd_flag_safe; [apply He3|by apply (e_dirty _ _ He3)|done]. }
  intros _ w4 He4 _. unfold Assert. destruct (negb _); [apply safe_ret; [apply He4|done]|apply safe_panic, He4].
Qed.

(** [finalize] never reports an error. *)
Lemma finalize_safe b fuel : ∀ w n,
  core w → dirty_of w b n → safe (λ e _, e = None) (finalize fuel n) w.
Proof.
  induction fuel as [|r IH]; intros w n Hc Hd; cbn [finalize]; [by apply safe_nofuel|].
  apply safe_get_node; [done|]. intros nd Hn. apply safe_deref; [done|]. intros b' _.
  apply safe_get_bkt; [done|]. intros x _. destruct (n_spilled nd); [by apply safe_ret|].
  eapply safe_bind; [by eapply finalize_children_safe|]. intros e w1 He1 ->.
  apply safe_get_node; [apply He1|]. intros nd1 _.
  eapply safe_bind; [apply (split_safe b); [apply He1|by apply (e_dirty _ _ He1)]|].
  intros nodes w2 He2 Hns. eapply safe_bind.
  { apply safe_iter; [apply He2|]. intros m w3 Hm He3. eapply finalize_link_safe; [apply He3|].
    apply (e_dirty _ _ He3), Hns, Hm. }
  intros _ w3 He3 _. pose proof (e_core _ _ He3) as Hc3.
  assert (Hd3 : dirty_of w3 b n) by (by apply (e_dirty _ _ He3), (e_dirty _ _ He2), (e_dirty _ _ He1)).
  apply safe_get_node; [done|]. intros nd3 Hn3. destruct (owned_ok _ _ _ _ Hc3 Hd3 Hn3) as (_ & Hp & _).
  destruct (n_parent nd3) as [p|]; [|by apply safe_ret]. apply safe_get_node; [done|]. intros pn _.
  destruct (n_spilled pn); [by apply safe_ret|]. apply IH; [done|by apply Hp].
Qed.

(** ** rebalance *)

Lemma nextSibling_safe w b n :
  core w → dirty_of w b n → safe (λ o w', ∀ c, o = Some c → dirty_of w' b c) (nextSibling n) w.
Proof.
  intros Hc Hd. unfold nextSibling. apply safe_get_node; [done|]. intros nd Hn.
  destruct (owned_ok _ _ _ _ Hc Hd Hn) as (_ & Hp & _). destruct (n_parent nd) as [p|]; [|by apply safe_ret].
  apply safe_get_node; [done|]. intros pn _. destruct (_ <=? _)%Z; [by apply safe_ret|].
  eapply safe_bind; [by apply (childAt_safe _ b), Hp|]. intros c w1 He1 Hcd.
  apply safe_ret; [apply He1|]. by intros ? [= <-].
Qed.

Lemma prevSibling_safe w b n :
  core w → dirty_of w b n → safe (λ o w', ∀ c, o = Some c → dirty_of w' b c) (prevSibling n) w.
Proof.
  intros Hc Hd. unfold prevSibling. apply safe_get_node; [done|]. intros nd Hn.
  destruct (owned_ok _ _ _ _ Hc Hd Hn) as (_ & Hp & _). destruct (n_parent nd) as [p|]; [|by apply safe_ret].
  apply safe_get_node; [done|]. intros pn _. destruct (_ =? _); [by apply safe_ret|].
  eapply safe_bind; [by apply (childAt_safe _ b), Hp|]. intros c w1 He1 Hcd.
  apply safe_ret; [apply He1|]. by intros ? [= <-].
Qed.

Lemma set_parent_safe w b c p :
  core w → dirty_of w b c → (∀ q, p = Some q → dirty_of w b q) →
  safe anything (upd_node c (set_n_parent p)) w.
Proof. intros Hc Hd Hp. eapply safe_upd_node; [done|done|]. intros n _ (H1 & _ & H3). by split_and!. Qed.

Lemma reparent_safe w b o l p :
  core w → dirty_of w b o → dirty_of w b p → safe anything (reparent o l p) w.
Proof.
  intros Hc Ho Hp. unfold reparent. apply safe_iter; [done|]. intros i w1 _ He1. pose proof (e_core _ _ He1) as Hc1.
  destruct (i_child i) as [c|]; [|by apply safe_ret]. apply safe_get_node; [done|]. intros nd Hn.
  destruct (owned_ok _ _ _ _ Hc1 (e_dirty _ _ He1 _ _ Ho) Hn) as (Hb & _).
  apply safe_deref; [done|]. intros b' Hb'. assert (b' = b) as -> by congruence.
  apply safe_get_bkt; [done|]. intros x Hx. destruct (isDirty x c) eqn:E; [|by apply safe_ret].
  eapply set_parent_safe; [done|by eapply isDirty_of|]. intros q [= <-]. by apply (e_dirty _ _ He1).
Qed.

(** The collapse of a root with a single child. *)
Lemma collapse_safe w b n :
  core w → dirty_of w b n →
  safe anything
    (let! child := childAt n 0 in
     let! cn := get_node child in
     upd_node n (set_n_isLeaf (n_isLeaf cn)) ;!
     upd_node n (set_n_inodes (n_inodes cn)) ;!
     reparent n (n_inodes cn) n ;!
     upd_node child (set_n_parent None)) w.
Proof.
  intros Hc Hd. eapply safe_bind; [by apply (childAt_safe _ b)|]. intros c w1 He1 Hcd.
  pose proof (e_core _ _ He1) as Hc1. pose proof (e_dirty _ _ He1 _ _ Hd) as Hd1.
  apply safe_get_node; [done|]. intros cn Hcn. destruct (owned_ok _ _ _ _ Hc1 Hcd Hcn) as (_ & _ & Hci).
  eapply safe_bind; [by eapply upd_flag_safe|]. intros _ w2 He2 _. eapply safe_bind.
  { eapply safe_upd_node; [apply He2|by apply (e_dirty _ _ He2)|]. intros m _ Hm.
    apply set_inodes_ok; [done|]. intros i c' Hi Hic. eapply ptr_evo; eauto. }
  intros _ w3 He3 _. assert (Hd3 : dirty_of w3 b n) by (by apply (e_dirty _ _ He3), (e_dirty _ _ He2)).
  eapply safe_bind; [eapply (reparent_safe _ b); [apply He3|done|done]|]. intros _ w4 He4 _.
  eapply (set_parent_safe _ b); [apply He4| |done].
  by apply (e_dirty _ _ He4), (e_dirty _ _ He3), (e_dirty _ _ He2).
Qed.

(** The merge of the right node of a pair into the left one. *)
Lemma merge_safe w b p left right (k : M unit) :
  core w → dirty_of w b p → (∀ l, left = Some l → dirty_of w b l) → (∀ r, right = Some r → dirty_of w b r) →
  (∀ w', core w' → dirty_of w' b p → safe anything k w') →
  safe anything
    (let! rightNode := st_deref right in
     let! rn := get_node rightNode in
     let! leftNode := st_deref left in
     reparent rightNode (n_inodes rn) leftNode ;!
     upd_node leftNode (λ ln, set_n_inodes (n_inodes ln ++ n_inodes rn) ln) ;!
     del_at p (n_key rn) ;!
     k) w.
Proof.
  intros Hc Hp Hl Hr Hk. apply safe_deref; [done|]. intros r ->. apply safe_get_node; [done|]. intros rn Hrn.
  destruct (owned_ok _ _ _ _ Hc (Hr r eq_refl) Hrn) as (_ & _ & Hri).
  apply safe_deref; [done|]. intros l ->.
  eapply safe_bind; [eapply (reparent_safe _ b); auto|]. intros _ w1 He1 _. eapply safe_bind.
  { eapply safe_upd_node; [apply He1|by apply (e_dirty _ _ He1), Hl|]. intros m _ Hm.
    apply set_inodes_ok; [done|]. destruct Hm as (_ & _ & Hm). intros i c [Hi|Hi]%elem_of_app Hic; [by eapply Hm|].
    eapply ptr_evo; eauto. }
  intros _ w2 He2 _. eapply safe_bind.
  { eapply (del_at_safe _ b); [apply He2|by apply (e_dirty _ _ He2), (e_dirty _ _ He1)]. }
  intros _ w3 He3 _. apply Hk; [apply He3|]. by apply (e_dirty _ _ He3), (e_dirty _ _ He2), (e_dirty _ _ He1).
Qed.

Lemma rebalance_safe b fuel : ∀ w n, core w → dirty_of w b n → safe anything (rebalance fuel n) w.
Proof.
  induction fuel as [|r IH]; intros w n Hc Hd; cbn [rebalance]; [by apply safe_nofuel|].
  apply safe_get_node; [done|]. intros nd Hn. destruct (owned_ok _ _ _ _ Hc Hd Hn) as (Hb & Hp & _).
  destruct (negb _); [by apply safe_ret|]. eapply safe_bind; [by eapply upd_flag_safe|].
  intros _ w1 He1 _. apply safe_deref; [apply He1|]. intros b' _. apply safe_get_bkt; [apply He1|]. intros x _.
  eapply safe_bind; [apply safe_tx_stat, He1|]. intros _ w2 He2 _.
  pose proof (e_core _ _ He2) as Hc2.
  assert (Hd2 : dirty_of w2 b n) by (by apply (e_dirty _ _ He2), (e_dirty _ _ He1)).
  destruct (_ && _); [by apply safe_ret|]. destruct (n_parent nd) as [p|].
  - assert (Hp2 : dirty_of w2 b p) by (by apply (e_dirty _ _ He2), (e_dirty _ _ He1), Hp).
    destruct (numChildren nd =? 0).
    + eapply safe_bind; [by eapply del_at_safe|]. intros _ w3 He3 _. apply IH; [apply He3|by apply (e_dirty _ _ He3)].
    + apply safe_get_node; [done|]. intros pn _. apply safe_Assert; [done|].
      eapply (safe_bind (λ q w', (∀ l, q.1 = Some l → dirty_of w' b l) ∧ (∀ l, q.2 = Some l → dirty_of w' b l))).
      * destruct (_ =? 0).
        -- eapply safe_bind; [by apply (nextSibling_safe _ b)|]. intros s w3 He3 Hs.
           apply safe_ret; [apply He3|]. simpl. split; [|done]. intros ? [= <-]. by apply (e_dirty _ _ He3).
        -- eapply safe_bind; [by apply (prevSibling_safe _ b)|]. intros s w3 He3 Hs.
           apply safe_ret; [apply He3|]. simpl. split; [done|]. intros ? [= <-]. by apply (e_dirty _ _ He3).
      * intros [lft rgt] w3 He3 [Hl Hr]. simpl in *.
        eapply (merge_safe _ b); [apply He3|by apply (e_dirty _ _ He3)|done|done|]. intros w4 Hc4 Hp4. by apply IH.
  - destruct (_ && _); [|by apply safe_ret]. by eapply collapse_safe.
Qed.

Lemma root_safe b fuel : ∀ w n, core w → dirty_of w b n → safe (λ r w', dirty_of w' b r) (root fuel n) w.
Proof.
  induction fuel as [|r IH]; intros w n Hc Hd; simpl; [by apply safe_nofuel|].
  apply safe_get_node; [done|]. intros nd Hn. destruct (owned_ok _ _ _ _ Hc Hd Hn) as (_ & Hp & _).
  destruct (n_parent nd) as [p|]; [by apply IH, Hp|by apply safe_ret].
Qed.

Lemma Bucket_spill_safe fuel w b : core w → safe (λ e _, e = None) (Bucket_spill fuel b) w.
Proof.
  intros Hc. unfold Bucket_spill. apply safe_get_bkt; [done|]. intros x Hx.
  destruct (b_rootNode x) as [r|] eqn:Hr; [|by apply safe_ret].
  pose proof (s_root _ Hc _ _ _ Hx Hr) as Hd.
  eapply safe_bind; [by apply (finalize_safe b)|]. intros e w1 He1 ->.
  eapply safe_bind; [apply (root_safe b); [apply He1|by apply (e_dirty _ _ He1)]|]. intros r' w2 He2 Hr'.
  eapply safe_bind; [apply safe_set_root; [apply He2|done]|]. intros _ w3 He3 _. apply safe_ret; [apply He3|done].
Qed.

Lemma Bucket_rebalance_safe it fuel w b :
  fair it → core w → safe anything (Bucket_rebalance it fuel b) w.
Proof.
  intros [Hit _] Hc. unfold Bucket_rebalance. apply safe_get_bkt; [done|]. intros x Hx.
  destruct (b_dirty x) as [D|] eqn:HD; [|by apply safe_ret]. apply safe_iter; [done|].
  intros n w1 Hn He1. eapply (rebalance_safe b); [apply He1|]. apply (e_dirty _ _ He1). exists x, D.
  split_and!; [done|done|]. rewrite Hit in Hn. by apply elem_of_elements.
Qed.
