(* ===== verification/SpillSpec.v ===== *)
(** * Splitting and finalizing a root

    [finalize] on the root of a bucket's tree whose children have been finalized:
    the node is cut into pieces that respect the size limits, the pieces are
    linked under a new root, and so on until the root fits.  The tree found at
    the end is well formed and has the same contents, and the recursion ends. *)
From S2P Require Import Prelude GoSort Stats World Node KV Tree Cursor Cow Bucket Spill CowSpec Regroup Frame FrameSpill.
Local Open Scope st_scope.

(** Handle [b] is open for writing, with dirty set [D]. *)
Record own (w : world) (b : bid) (x : Bucket) (D : gset loc) : Prop := mkOwn {
  o_core : core w;
  o_bkt : w_bkts w !! b = Some x;
  o_dirty : b_dirty x = Some D;
  o_tx : is_Some (w_txs w !! b_tx x)
}.

(** A step that only adds to the dirty set of [b], within the discipline. *)
Record grown (b : bid) (x : Bucket) (D : gset loc) (w w' : world) (D' : gset loc) : Prop := mkGrown {
  g_evo : evo w w';
  g_bkts : w_bkts w' = <[b := set_b_dirty (Some D') x]> (w_bkts w);
  g_sub : D ⊆ D';
  g_next : (w_nextn w ≤ w_nextn w')%positive
}.

Lemma grown_refl w b x D : own w b x D → grown b x D w w D.
Proof.
  intros [Hc Hx HD _]. split; [by apply evo_refl| |done|lia]. rewrite set_b_dirty_id by done. by rewrite insert_id.
Qed.

Lemma grown_own w b x D w' D' : own w b x D → grown b x D w w' D' → own w' b (set_b_dirty (Some D') x) D'.
Proof.
  intros [Hc Hx HD [tx Htx]] [He Hb _ _]. split; [apply He|rewrite Hb; apply lookup_insert_eq|done|].
  simpl. destruct (strip_lookup _ _ _ _ (e_txs _ _ He) Htx) as (? & ? & _). eauto.
Qed.

Lemma grown_trans b x D w1 w2 w3 D2 D3 :
  grown b x D w1 w2 D2 → grown b (set_b_dirty (Some D2) x) D2 w2 w3 D3 → grown b x D w1 w3 D3.
Proof.
  intros [He1 Hb1 Hs1 Hn1] [He2 Hb2 Hs2 Hn2]. split; [by eapply evo_trans| |set_solver|lia].
  rewrite Hb2, Hb1, insert_insert_eq. by destruct x.
Qed.

Lemma own_dirty w b x D l : own w b x D → l ∈ D → dirty_of w b l.
Proof. intros [_ Hx HD _] Hl. by exists x, D. Qed.

Lemma own_node w b x D l : own w b x D → l ∈ D → ∃ n, w_nodes w !! l = Some n ∧ n_bucket n = Some b.
Proof. intros Ho Hl. apply (s_dirty _ (o_core _ _ _ _ Ho)). by eapply own_dirty. Qed.

(** The nodes of a world other than [ls] that existed before are unchanged. *)
Definition keeps (ls : list loc) (w w' : world) : Prop :=
  ∀ l, (l < w_nextn w)%positive → l ∉ ls → w_nodes w' !! l = w_nodes w !! l.

Lemma keeps_refl ls w : keeps ls w w.
Proof. by intros l. Qed.
Lemma keeps_trans ls ls' w1 w2 w3 :
  (w_nextn w1 ≤ w_nextn w2)%positive → (∀ l, l ∈ ls' → l ∈ ls ∨ (w_nextn w1 ≤ l)%positive) →
  keeps ls w1 w2 → keeps ls' w2 w3 → keeps ls w1 w3.
Proof.
  intros Hn Hsub H1 H2 l Hl Hls. rewrite H2; [by apply H1|lia|]. intros Hl'. destruct (Hsub l Hl'); [done|lia].
Qed.

Lemma keeps_sub ls ls' w w' : ls ⊆ ls' → keeps ls w w' → keeps ls' w w'.
Proof. intros Hs H l Hl Hn. apply H; [done|]. set_solver. Qed.

Lemma Forall2_impl_in {A B} (P Q : A → B → Prop) l k :
  Forall2 P l k → (∀ x y, x ∈ l → P x y → Q x y) → Forall2 Q l k.
Proof. induction 1; intros H'; constructor; [apply H'; [by left|done]|]. apply IHForall2. intros. apply H'; [by right|done]. Qed.

(** ** One split *)

(** A fresh sibling made by [splitTwo]. *)
Definition sibling (b : bid) (nd : node) (p : loc) (pc : list inode) : node :=
  mkNode (Some b) (n_isLeaf nd) false false [] (Some p) pc.

Definition split_at (x : Bucket) (nd : node) : nat := (splitIndex nd (splitThreshold (b_FillPercent x))).1.

Lemma splitTwo_stop w n nd : w_nodes w !! n = Some nd → noSplit nd = true → splitTwo n w = (Ret (n, None), w).
Proof. intros Hn Hs. unfold splitTwo. by rewrite (bind_Ret _ _ _ _ _ (get_node_run _ _ _ Hn)), Hs. Qed.

Lemma splitTwo_run w b x D n nd p :
  own w b x D → n ∈ D → w_nodes w !! n = Some nd → n_parent nd = Some p → noSplit nd = false →
  ∃ w' next, splitTwo n w = (Ret (n, Some next), w') ∧ grown b x D w w' ({[next]} ∪ D) ∧ next = w_nextn w ∧
    w_nextn w' = Pos.succ next ∧ keeps [n] w w' ∧
    w_nodes w' !! n = Some (set_n_inodes (take (split_at x nd) (n_inodes nd)) nd) ∧
    w_nodes w' !! next = Some (sibling b nd p (drop (split_at x nd) (n_inodes nd))).
Proof.
  intros Ho HnD Hn Hp Hs. destruct (own_node _ _ _ _ _ Ho HnD) as (nd' & Hn' & Hb). simplify_eq.
  pose proof Ho as [Hc Hx HD [tx Htx]].
  destruct (splitTwo_safe w b n Hc (own_dirty _ _ _ _ _ Ho HnD)) as [He _].
  assert (Hlt : (n < w_nextn w)%positive) by (by eapply s_fresh_n). set (next := w_nextn w) in *.
  assert (Hrun : ∃ w', splitTwo n w = (Ret (n, Some next), w') ∧ w_nextn w' = Pos.succ next ∧
    w_bkts w' = <[b := set_b_dirty (Some ({[next]} ∪ D)) x]> (w_bkts w) ∧
    w_nodes w' = <[next := sibling b nd p (drop (split_at x nd) (n_inodes nd))]>
      (<[n := set_n_inodes (take (split_at x nd) (n_inodes nd)) nd]> (<[next := sibling b nd p []]> (w_nodes w)))).
  { unfold splitTwo. rewrite (bind_Ret _ _ _ _ _ (get_node_run _ _ _ Hn)), Hs, Hb.
    rewrite (bind_Ret (st_deref (Some b)) _ w b w eq_refl), (bind_Ret _ _ _ _ _ (get_bkt_run _ _ _ Hx)), Hp.
    rewrite (bind_Ret (st_ret tt) _ w tt w eq_refl), (bind_Ret _ _ _ _ _ (get_node_run _ _ _ Hn)), Hp.
    rewrite (bind_Ret (new_node _) _ w next (new_node (sibling b nd p []) w).2 eq_refl). simpl.
    erewrite bind_Ret by (eapply mark_dirty_run; [exact Hx|exact HD]).
    erewrite bind_Ret by (apply upd_node_run; simpl; rewrite lookup_insert_ne by lia; exact Hn).
    erewrite bind_Ret by (apply upd_node_run; simpl; rewrite lookup_insert_ne by lia; apply lookup_insert_eq).
    unfold tx_stat. erewrite bind_Ret by (apply upd_tx_run; exact Htx). eexists. split; [reflexivity|]. done. }
  destruct Hrun as (w' & Hrun & Hnx & Hbk & Hnodes). rewrite Hrun in He. exists w', next. split_and!; auto.
  - split; [done|done|set_solver|lia].
  - intros l Hl Hne. rewrite Hnodes, !lookup_insert_ne; [done|lia|set_solver|lia].
  - rewrite Hnodes, lookup_insert_ne by lia. apply lookup_insert_eq.
  - rewrite Hnodes. apply lookup_insert_eq.
Qed.

(** ** All splits *)

Lemma noSplit_ext n n' : n_isLeaf n = n_isLeaf n' → n_inodes n = n_inodes n' → noSplit n = noSplit n'.
Proof. unfold noSplit, minKeys, sizeLessThan. by intros -> ->. Qed.

Lemma split_inodes_ext f thr : ∀ n n', n_isLeaf n = n_isLeaf n' → n_inodes n = n_inodes n' →
  split_inodes f n thr = split_inodes f n' thr.
Proof.
  induction f as [|f IH]; intros n n' Hl Hi; simpl; [by rewrite Hi|]. rewrite (noSplit_ext n n' Hl Hi), Hi.
  assert (splitIndex n thr = splitIndex n' thr) as -> by (unfold splitIndex, minKeys; by rewrite Hl, Hi).
  destruct (noSplit n'); [done|]. f_equal. by apply IH.
Qed.

Definition pieces (rounds : nat) (x : Bucket) (nd : node) : list (list inode) :=
  split_inodes rounds nd (splitThreshold (b_FillPercent x)).

Lemma split_run b p rounds : ∀ w x D n nd,
  own w b x D → n ∈ D → w_nodes w !! n = Some nd → n_parent nd = Some p → length (n_inodes nd) < rounds →
  ∃ ls w' D' pc pcs, split rounds n w = (Ret (n :: ls), w') ∧ pieces rounds x nd = pc :: pcs ∧
    grown b x D w w' D' ∧ keeps [n] w w' ∧ D' = list_to_set ls ∪ D ∧
    NoDup ls ∧ (∀ l, l ∈ ls → (w_nextn w ≤ l < w_nextn w')%positive) ∧
    w_nodes w' !! n = Some (set_n_inodes pc nd) ∧
    Forall2 (λ l pc, w_nodes w' !! l = Some (sibling b nd p pc)) ls pcs.
Proof.
  induction rounds as [|r IH]; intros w x D n nd Ho HnD Hn Hp Hlen; [lia|]. cbn [split]. unfold pieces. simpl.
  destruct (noSplit nd) eqn:Hs.
  { rewrite (bind_Ret _ _ _ _ _ (splitTwo_stop w n nd Hn Hs)). exists [], w, D, (n_inodes nd), [].
    split_and!; try done; [by apply grown_refl|set_solver|constructor|by intros l ?%elem_of_nil|]. rewrite Hn. by destruct nd. }
  destruct (splitTwo_run w b x D n nd p Ho HnD Hn Hp Hs) as (w1 & next & Hrun & Hg & -> & Hnx & Hk & Hn1 & Hnext).
  rewrite (bind_Ret _ _ _ _ _ Hrun). set (next := w_nextn w) in *.
  assert (Hbounds : split_at x nd < length (n_inodes nd) ∧ 0 < split_at x nd).
  { unfold noSplit in Hs. apply orb_false_iff in Hs as [Hlt%Nat.leb_gt _].
    destruct (splitIndex_bounds nd (splitThreshold (b_FillPercent x)) Hlt) as (H1 & H2 & _).
    pose proof (minKeys_pos nd). unfold split_at. lia. }
  destruct (IH w1 (set_b_dirty (Some ({[next]} ∪ D)) x) ({[next]} ∪ D) next _ (grown_own _ _ _ _ _ _ Ho Hg) ltac:(set_solver) Hnext eq_refl)
    as (ls & w2 & D2 & pc & pcs & Hrun2 & Hpcs & Hg2 & Hk2 & HD2 & Hnd2 & Hls & Hn2 & Hrest).
  { simpl. rewrite length_drop. lia. }
  rewrite (bind_Ret _ _ _ _ _ Hrun2). exists (next :: ls), w2, D2, (take (split_at x nd) (n_inodes nd)), (pc :: pcs).
  assert (Hlt : (n < next)%positive) by (eapply s_fresh_n; [apply Ho|exact Hn]).
  pose proof (g_next _ _ _ _ _ _ Hg2) as Hnx2.
  split_and!; [done| |by eapply grown_trans| |set_solver| | | |].
  - f_equal. rewrite <- Hpcs. unfold pieces. by apply split_inodes_ext.
  - eapply keeps_trans; [| |exact Hk|exact Hk2]; [lia|]. intros l ->%list_elem_of_singleton. right. lia.
  - apply NoDup_cons. split; [|done]. intros [? ?]%Hls. lia.
  - intros l [->|[? ?]%Hls]%elem_of_cons; lia.
  - rewrite Hk2; [done|lia|]. intros ?%list_elem_of_singleton. lia.
  - constructor; [exact Hn2|exact Hrest].
Qed.

(** [split] never makes more pieces than it started with inodes. *)
Lemma pieces_fewer rounds x nd : length (n_inodes nd) < rounds → length (pieces rounds x nd) ≤ Nat.max 1 (length (n_inodes nd) - 1).
Proof.
  unfold pieces. revert nd. induction rounds as [|r IH]; intros nd Hlen; simpl; [lia|].
  destruct (noSplit nd) eqn:Hs; [simpl; lia|].
  unfold noSplit in Hs. apply orb_false_iff in Hs as [Hlt%Nat.leb_gt _].
  destruct (splitIndex_bounds nd (splitThreshold (b_FillPercent x)) Hlt) as (H1 & H2 & _). pose proof (minKeys_pos nd).
  simpl. etrans; [apply le_n_S, IH|]; simpl; rewrite length_drop; lia.
Qed.

Lemma pieces_spec rounds x nd : length (n_inodes nd) < rounds → minKeys nd ≤ length (n_inodes nd) →
  concat (pieces rounds x nd) = n_inodes nd ∧ Forall (λ pc, pc ≠ []) (pieces rounds x nd).
Proof.
  intros Hlen Hmin. destruct (split_inodes_spec rounds nd (splitThreshold (b_FillPercent x)) ltac:(lia) Hmin) as (Hc & Hf & _).
  split; [exact Hc|]. eapply Forall_impl; [exact Hf|]. intros pc Hpc ->. pose proof (minKeys_pos nd). simpl in Hpc. lia.
Qed.

(** ** Splitting a root: a new parent is made first *)

Definition fresh_root (b : bid) (l : list inode) : node := mkNode (Some b) false false false [] None l.

Lemma splitTwo_root w b x D n nd :
  own w b x D → n ∈ D → w_nodes w !! n = Some nd → n_parent nd = None → noSplit nd = false →
  ∃ w' p next, splitTwo n w = (Ret (n, Some next), w') ∧ grown b x D w w' ({[next]} ∪ ({[p]} ∪ D)) ∧
    p = w_nextn w ∧ next = Pos.succ p ∧ w_nextn w' = Pos.succ next ∧ keeps [n] w w' ∧
    w_nodes w' !! p = Some (fresh_root b []) ∧
    w_nodes w' !! n = Some (set_n_inodes (take (split_at x nd) (n_inodes nd)) (set_n_parent (Some p) nd)) ∧
    w_nodes w' !! next = Some (sibling b nd p (drop (split_at x nd) (n_inodes nd))).
Proof.
  intros Ho HnD Hn Hp Hs. destruct (own_node _ _ _ _ _ Ho HnD) as (nd' & Hn' & Hb). simplify_eq.
  pose proof Ho as [Hc Hx HD [tx Htx]].
  destruct (splitTwo_safe w b n Hc (own_dirty _ _ _ _ _ Ho HnD)) as [He _].
  assert (Hlt : (n < w_nextn w)%positive) by (by eapply s_fresh_n). set (p := w_nextn w) in *. set (next := Pos.succ p).
  set (nd1 := set_n_parent (Some p) nd).
  assert (Hrun : ∃ w', splitTwo n w = (Ret (n, Some next), w') ∧ w_nextn w' = Pos.succ next ∧
    w_bkts w' = <[b := set_b_dirty (Some ({[next]} ∪ ({[p]} ∪ D))) x]> (w_bkts w) ∧
    w_nodes w' = <[next := sibling b nd p (drop (split_at x nd) (n_inodes nd))]>
      (<[n := set_n_inodes (take (split_at x nd) (n_inodes nd)) nd1]> (<[next := sibling b nd p []]>
        (<[n := nd1]> (<[p := fresh_root b []]> (w_nodes w)))))).
  { unfold splitTwo. rewrite (bind_Ret _ _ _ _ _ (get_node_run _ _ _ Hn)), Hs, Hb.
    rewrite (bind_Ret (st_deref (Some b)) _ w b w eq_refl), (bind_Ret _ _ _ _ _ (get_bkt_run _ _ _ Hx)), Hp.
    erewrite bind_Ret.
    2:{ rewrite (bind_Ret (new_node _) _ w p (new_node (fresh_root b []) w).2 eq_refl).
        erewrite bind_Ret by (apply upd_node_run; simpl; rewrite lookup_insert_ne by lia; exact Hn).
        eapply mark_dirty_run; [exact Hx|exact HD]. }
    erewrite bind_Ret by (apply get_node_run; simpl; apply lookup_insert_eq).
    erewrite (bind_Ret (new_node _)) by reflexivity. simpl. fold p next.
    erewrite bind_Ret by (eapply mark_dirty_run; [simpl; apply lookup_insert_eq|reflexivity]).
    erewrite bind_Ret by (apply upd_node_run; simpl; rewrite lookup_insert_ne by lia; apply lookup_insert_eq).
    erewrite bind_Ret by (apply upd_node_run; simpl; rewrite lookup_insert_ne by lia; apply lookup_insert_eq).
    unfold tx_stat. erewrite bind_Ret by (apply upd_tx_run; exact Htx). eexists. split; [reflexivity|]. simpl.
    split; [done|]. split; [by rewrite insert_insert_eq|done]. }
  destruct Hrun as (w' & Hrun & Hnx & Hbk & Hnodes). rewrite Hrun in He. exists w', p, next. split_and!; auto.
  - split; [done|done|set_solver|lia].
  - intros l Hl Hne. rewrite Hnodes, !lookup_insert_ne; [done|lia|set_solver|lia|set_solver|lia].
  - rewrite Hnodes, !lookup_insert_ne by lia. apply lookup_insert_eq.
  - rewrite Hnodes, lookup_insert_ne by lia. apply lookup_insert_eq.
  - rewrite Hnodes. apply lookup_insert_eq.
Qed.

(** A root that does not fit, after all splits. *)
Lemma split_root_run b rounds w x D n nd :
  own w b x D → n ∈ D → w_nodes w !! n = Some nd → n_parent nd = None → noSplit nd = false →
  length (n_inodes nd) < rounds →
  ∃ p ls w' D' pc pcs, split rounds n w = (Ret (n :: ls), w') ∧ pieces rounds x nd = pc :: pcs ∧
    grown b x D w w' D' ∧ keeps [n] w w' ∧ D' = list_to_set ls ∪ ({[p]} ∪ D) ∧
    NoDup (n :: p :: ls) ∧ (∀ l, l ∈ p :: ls → (w_nextn w ≤ l < w_nextn w')%positive) ∧
    w_nodes w' !! p = Some (fresh_root b []) ∧
    w_nodes w' !! n = Some (set_n_inodes pc (set_n_parent (Some p) nd)) ∧
    Forall2 (λ l pc, w_nodes w' !! l = Some (sibling b nd p pc)) ls pcs ∧ pcs ≠ [].
Proof.
  intros Ho HnD Hn Hp Hs Hlen. destruct rounds as [|r]; [lia|]. cbn [split]. unfold pieces. simpl. rewrite Hs.
  destruct (splitTwo_root w b x D n nd Ho HnD Hn Hp Hs) as (w1 & p & next & Hrun & Hg & -> & -> & Hnx & Hk & Hp1 & Hn1 & Hnext).
  rewrite (bind_Ret _ _ _ _ _ Hrun). set (p := w_nextn w) in *. set (next := Pos.succ p) in *.
  assert (Hbounds : split_at x nd < length (n_inodes nd) ∧ 0 < split_at x nd).
  { unfold noSplit in Hs. apply orb_false_iff in Hs as [Hlt%Nat.leb_gt _].
    destruct (splitIndex_bounds nd (splitThreshold (b_FillPercent x)) Hlt) as (H1 & H2 & _).
    pose proof (minKeys_pos nd). unfold split_at. lia. }
  destruct (split_run b p r w1 _ _ next _ (grown_own _ _ _ _ _ _ Ho Hg) ltac:(set_solver) Hnext eq_refl)
    as (ls & w2 & D2 & pc & pcs & Hrun2 & Hpcs & Hg2 & Hk2 & HD2 & Hnd2 & Hls & Hn2 & Hrest).
  { simpl. rewrite length_drop. lia. }
  rewrite (bind_Ret _ _ _ _ _ Hrun2). exists p, (next :: ls), w2, D2, (take (split_at x nd) (n_inodes nd)), (pc :: pcs).
  assert (Hlt : (n < p)%positive) by (eapply s_fresh_n; [apply Ho|exact Hn]).
  pose proof (g_next _ _ _ _ _ _ Hg2) as Hnx2.
  split_and!; [done| |by eapply grown_trans| |set_solver| | | | | |done].
  - f_equal. rewrite <- Hpcs. unfold pieces. by apply split_inodes_ext.
  - eapply keeps_trans; [| |exact Hk|exact Hk2]; [lia|]. intros l ->%list_elem_of_singleton. right. lia.
  - apply NoDup_cons. split; [|apply NoDup_cons; split; [|apply NoDup_cons; split; [|done]]].
    + intros [?|[?|[? ?]%Hls]%elem_of_cons]%elem_of_cons; lia.
    + intros [?|[? ?]%Hls]%elem_of_cons; lia.
    + intros [? ?]%Hls. lia.
  - intros l [->|[->|[? ?]%Hls]%elem_of_cons]%elem_of_cons; lia.
  - rewrite Hk2; [done|lia|]. intros ?%list_elem_of_singleton. lia.
  - rewrite Hk2; [done|lia|]. intros ?%list_elem_of_singleton. lia.
  - constructor; [exact Hn2|exact Hrest].
Qed.

(** ** Linking the pieces into the parent *)

Lemma search_keys_mid l1 l2 key :
  ssorted (l1 ++ l2) → (∀ k, k ∈ l1 → blt k key) → (∀ k, k ∈ l2 → ble key k) → search_keys (l1 ++ l2) key = length l1.
Proof.
  intros Hs H1 H2. destruct (search_keys_spec (l1 ++ l2) key Hs) as (Hr & Hlo & Hhi). set (r := search_keys (l1 ++ l2) key) in *.
  rewrite length_app in Hr. destruct (Nat.lt_trichotomy r (length l1)) as [Hlt|[Heq|Hlt]]; [|done|]; exfalso.
  - destruct (lookup_lt_is_Some_2 l1 r Hlt) as [k Hk]. apply (Hhi k); [|apply H1; by eapply list_elem_of_lookup_2].
    apply (list_elem_of_lookup_2 _ 0). rewrite lookup_drop, Nat.add_0_r. by rewrite lookup_app_l.
  - destruct (lookup_lt_is_Some_2 l2 0 ltac:(lia)) as [k Hk]. apply (H2 k); [by eapply list_elem_of_lookup_2|]. apply Hlo.
    apply (list_elem_of_lookup_2 _ (length l1)). rewrite lookup_take_lt by done. by rewrite lookup_app_r, Nat.sub_diag.
Qed.

(** [put] of a key that is there overwrites its inode; of another key, inserts. *)
Lemma inodes_put_exact key nk v c f l1 i l2 :
  ssorted (ikeys (l1 ++ i :: l2)) → i_key i = key →
  inodes_put key nk v c f (l1 ++ i :: l2) = l1 ++ mkInode f nk v c :: l2.
Proof.
  intros Hs Hi. unfold inodes_put. assert (Hk : ikeys (l1 ++ i :: l2) !! length l1 = Some key).
  { unfold ikeys. rewrite list_lookup_fmap, list_lookup_middle by done. by simpl; rewrite Hi. }
  rewrite (search_keys_found _ _ _ Hs Hk), (nth_lookup_Some _ _ _ _ Hk), (proj2 (Equal_spec key key) eq_refl), length_app. cbn [length].
  rewrite (proj2 (Nat.ltb_lt 0 _)) by lia. rewrite (proj2 (Nat.ltb_lt (length l1) _)) by lia. simpl.
  rewrite insert_app_r_alt by lia. by rewrite Nat.sub_diag.
Qed.
Lemma inodes_put_mid key nk v c f l1 l2 :
  ssorted (ikeys (l1 ++ l2)) → (∀ k, k ∈ ikeys l1 → blt k key) → (∀ k, k ∈ ikeys l2 → blt key k) →
  inodes_put key nk v c f (l1 ++ l2) = l1 ++ mkInode f nk v c :: l2.
Proof.
  intros Hs H1 H2. unfold inodes_put. cbv zeta. assert (Hik : ikeys (l1 ++ l2) = ikeys l1 ++ ikeys l2) by apply fmap_app.
  rewrite Hik in Hs |- *. rewrite search_keys_mid by (done || intros k ?; by apply blt_ble, H2).
  assert (length (ikeys l1) = length l1) as -> by apply length_fmap. rewrite take_app_length, drop_app_length.
  destruct l2 as [|i l2]; [by rewrite app_nil_r, Nat.ltb_irrefl, andb_false_r|].
  rewrite (nth_lookup_Some _ _ [] (i_key i)) by (rewrite lookup_app_r; unfold ikeys; rewrite length_fmap; [by rewrite Nat.sub_diag|lia]).
  assert (Equal (i_key i) key = false) as ->; [|by rewrite andb_false_r].
  destruct (Equal (i_key i) key) eqn:E; [|done]. apply Equal_spec in E. destruct (blt_irrefl key). rewrite <- E at 2. apply H2. by left.
Qed.

(** The node after it has been linked. *)
Definition linked (m : node) : node := set_n_key (first_key (n_inodes m)) (set_n_spilled true m).
Definition link_key (m : node) : bytes := if decide (n_key m = []) then first_key (n_inodes m) else n_key m.

Lemma link_node w b x D n m p pn :
  own w b x D → n ∈ D → n ≠ p → w_nodes w !! n = Some m → n_parent m = Some p → w_nodes w !! p = Some pn →
  first_key (n_inodes m) ≠ [] →
  ∃ w', finalize_link (b_tx x) n w = (Ret tt, w') ∧ grown b x D w w' D ∧ w_nextn w' = w_nextn w ∧ keeps [p; n] w w' ∧
    w_nodes w' !! p = Some (set_n_inodes (inodes_put (link_key m) (first_key (n_inodes m)) None (Some n) 0 (n_inodes pn)) pn) ∧
    w_nodes w' !! n = Some (linked m).
Proof.
  intros Ho HnD Hnp Hn Hp Hpn Hfk. pose proof Ho as [Hc Hx HD [tx Htx]].
  destruct (finalize_link_safe w b (b_tx x) n Hc (own_dirty _ _ _ _ _ Ho HnD)) as [He _].
  destruct (n_inodes m) as [|i0 il] eqn:Hi; [by destruct Hfk|]. simpl in Hfk.
  assert (Hk0 : (blen (i_key i0) =? 0)%Z = false) by (unfold blen; destruct (i_key i0); [done|simpl; lia]).
  assert (Hkey : link_key m ≠ []) by (unfold link_key; rewrite Hi; case_decide; done).
  assert (Hrun : ∃ w', finalize_link (b_tx x) n w = (Ret tt, w') ∧ w_nextn w' = w_nextn w ∧ w_bkts w' = w_bkts w ∧
    w_nodes w' = <[n := set_n_key (i_key i0) (set_n_spilled true m)]>
      (<[p := set_n_inodes (inodes_put (link_key m) (i_key i0) None (Some n) 0 (n_inodes pn)) pn]> (<[n := set_n_spilled true m]> (w_nodes w)))).
  { unfold finalize_link. rewrite (bind_Ret _ _ _ _ _ (upd_node_run _ _ _ _ Hn)).
    erewrite bind_Ret by (apply get_node_run; simpl; apply lookup_insert_eq). simpl. rewrite Hp, Hi.
    erewrite bind_Ret.
    2:{ erewrite (bind_Ret _ _ _ (link_key m)).
        2:{ unfold link_key, blen. rewrite Hi. destruct (n_key m); reflexivity. }
        replace (blen (link_key m) =? 0)%Z with false by (unfold blen; destruct (link_key m); done).
        erewrite (bind_Ret (st_index _ _)) by reflexivity.
        erewrite bind_Ret.
        2:{ unfold put_at. erewrite bind_Ret by (apply get_node_run; simpl; rewrite lookup_insert_ne by done; exact Hpn).
            unfold node_put. replace (blen (link_key m) <=? 0)%Z with false by (unfold blen; destruct (link_key m); done).
            replace (blen (i_key i0) <=? 0)%Z with false by (unfold blen; destruct (i_key i0); done).
            apply upd_node_run. simpl. rewrite lookup_insert_ne by done. exact Hpn. }
        erewrite bind_Ret by (apply upd_node_run; simpl; rewrite lookup_insert_ne by done; apply lookup_insert_eq).
        rewrite Hk0. reflexivity. }
    unfold tx_stat. rewrite (upd_tx_run _ _ _ tx) by exact Htx. eexists. split; [reflexivity|]. done. }
  destruct Hrun as (w' & Hrun & Hnx & Hbk & Hnodes). rewrite Hrun in He. exists w'. split_and!; auto.
  - split; [done| |done|lia]. rewrite set_b_dirty_id, insert_id by done. done.
  - intros l Hl Hne. rewrite Hnodes, !lookup_insert_ne; [done|set_solver..].
  - rewrite Hnodes, lookup_insert_ne by done. apply lookup_insert_eq.
  - rewrite Hnodes, lookup_insert_eq. unfold linked. by rewrite Hi.
Qed.

Lemma link_one w b x D n m p pn A B :
  own w b x D → n ∈ D → n ≠ p → w_nodes w !! n = Some m → n_parent m = Some p → w_nodes w !! p = Some pn → n_inodes pn = A ++ B →
  first_key (n_inodes m) ≠ [] → ssorted (ikeys (A ++ B)) → (∀ k, k ∈ ikeys A → blt k (link_key m)) → (∀ k, k ∈ ikeys B → blt (link_key m) k) →
  ∃ w', finalize_link (b_tx x) n w = (Ret tt, w') ∧ grown b x D w w' D ∧ w_nextn w' = w_nextn w ∧ keeps [p; n] w w' ∧
    w_nodes w' !! p = Some (set_n_inodes (A ++ link_inode n (n_inodes m) :: B) pn) ∧
    w_nodes w' !! n = Some (linked m).
Proof.
  intros Ho HnD Hnp Hn Hp Hpn HAB Hfk Hsort HA HB. destruct (link_node w b x D n m p pn Ho HnD Hnp Hn Hp Hpn Hfk) as (w' & H1 & H2 & H3 & H4 & H5 & H6).
  rewrite HAB, inodes_put_mid in H5 by done. by exists w'.
Qed.

(** The fresh siblings in the order of their first keys. *)
Lemma link_all b x D p nd B ls : ∀ pcs w pn A,
  own w b x D → (∀ l, l ∈ ls → l ∈ D) → NoDup (p :: ls) → w_nodes w !! p = Some pn → n_inodes pn = A ++ B →
  (∀ l, l ∈ p :: ls → (l < w_nextn w)%positive) →
  Forall2 (λ l pc, w_nodes w !! l = Some (sibling b nd p pc)) ls pcs →
  Forall (λ pc, first_key pc ≠ []) pcs → ssorted (ikeys A ++ (first_key <$> pcs) ++ ikeys B) →
  ∃ w', st_iter (finalize_link (b_tx x)) ls w = (Ret tt, w') ∧ grown b x D w w' D ∧ w_nextn w' = w_nextn w ∧
    keeps (p :: ls) w w' ∧
    w_nodes w' !! p = Some (set_n_inodes (A ++ zip_with link_inode ls pcs ++ B) pn) ∧
    Forall2 (λ l pc, w_nodes w' !! l = Some (linked (sibling b nd p pc))) ls pcs.
Proof.
  induction ls as [|l ls IH]; intros pcs w pn A Ho HlD Hnd Hp HAB Hfresh Hls Hne Hs.
  { apply Forall2_nil_inv_l in Hls as ->. exists w. split_and!; [done|by apply grown_refl|done|apply keeps_refl| |constructor].
    simpl. rewrite <- HAB, Hp. by destruct pn. }
  destruct pcs as [|pc pcs]; [by apply Forall2_cons_nil_inv in Hls|]. apply Forall2_cons in Hls as [Hl Hls].
  apply Forall_cons in Hne as [Hpc Hne]. apply NoDup_cons in Hnd as [Hpl Hnd]. pose proof Hnd as [Hll Hnd']%NoDup_cons.
  rewrite fmap_cons in Hs. pose proof Hs as (Hs1 & Hs2 & Hlt)%ssorted_app. cbn [st_iter]. simpl in Hs2.
  pose proof Hs2 as [Hs2' Hlt2]%StronglySorted_inv. rewrite Forall_forall in Hlt2. pose proof Hs2' as (_ & HsB & _)%ssorted_app.
  destruct (link_one w b x D l _ p pn A B Ho (HlD l ltac:(left)) ltac:(set_solver) Hl eq_refl Hp HAB Hpc) as (w1 & Hrun & Hg & Hnx & Hk & Hp1 & Hl1).
  { unfold ikeys. rewrite fmap_app. apply ssorted_app. split_and!; [done|done|]. intros y z Hy Hz. apply Hlt; [done|]. apply elem_of_app. by right. }
  { intros k Hk. apply Hlt; [done|]. unfold link_key. simpl. by left. }
  { intros k Hk. unfold link_key. simpl. apply Hlt2. apply elem_of_app. by right. }
  simpl in Hp1. rewrite (bind_Ret _ _ _ _ _ Hrun).
  assert (Hx : set_b_dirty (Some D) x = x) by apply set_b_dirty_id, Ho.
  pose proof (grown_own _ _ _ _ _ _ Ho Hg) as Ho1. rewrite Hx in Ho1.
  destruct (IH pcs w1 (set_n_inodes (A ++ link_inode l pc :: B) pn) (A ++ [link_inode l pc]) Ho1) as (w2 & Hrun2 & Hg2 & Hnx2 & Hk2 & Hp2 & Hls2).
  - set_solver.
  - apply NoDup_cons. set_solver.
  - exact Hp1.
  - simpl. by rewrite <- app_assoc.
  - rewrite Hnx. set_solver.
  - eapply Forall2_impl_in; [exact Hls|]. intros l' pc' Hl' Hn'. rewrite Hk; [exact Hn'|apply Hfresh; set_solver|set_solver].
  - done.
  - simpl. unfold ikeys. rewrite fmap_app, <- app_assoc. exact Hs.
  - exists w2. split_and!; [done| |lia| | |].
    + rewrite <- Hx in Hg2. by eapply grown_trans.
    + apply (keeps_trans (p :: l :: ls) (p :: ls) w w1 w2); [lia|set_solver| |exact Hk2].
      eapply keeps_sub; [|exact Hk]. set_solver.
    + rewrite Hp2. simpl. by rewrite <- app_assoc.
    + constructor; [|done]. rewrite Hk2; [exact Hl1|rewrite Hnx; apply Hfresh; set_solver|set_solver].
Qed.

(** The node that was split, then its siblings: [A] and [B] are the other links of
    the parent once the first piece is linked. *)
Lemma link_pieces w b x D n m p pn A B nd ls pc pcs :
  own w b x D → (∀ l, l ∈ n :: ls → l ∈ D) → NoDup (n :: p :: ls) → (∀ l, l ∈ n :: p :: ls → (l < w_nextn w)%positive) →
  w_nodes w !! n = Some m → n_inodes m = pc → n_parent m = Some p → w_nodes w !! p = Some pn →
  Forall2 (λ l pc, w_nodes w !! l = Some (sibling b nd p pc)) ls pcs → Forall (λ pc, first_key pc ≠ []) (pc :: pcs) →
  inodes_put (link_key m) (first_key pc) None (Some n) 0 (n_inodes pn) = A ++ link_inode n pc :: B →
  ssorted (ikeys A ++ (first_key <$> pc :: pcs) ++ ikeys B) →
  ∃ w', st_iter (finalize_link (b_tx x)) (n :: ls) w = (Ret tt, w') ∧ grown b x D w w' D ∧ w_nextn w' = w_nextn w ∧
    keeps (n :: p :: ls) w w' ∧ w_nodes w' !! p = Some (set_n_inodes (A ++ zip_with link_inode (n :: ls) (pc :: pcs) ++ B) pn) ∧
    w_nodes w' !! n = Some (linked m) ∧ Forall2 (λ l pc, w_nodes w' !! l = Some (linked (sibling b nd p pc))) ls pcs.
Proof.
  intros Ho HD [Hnp Hndp]%NoDup_cons Hlt Hn <- Hpar Hp Hls [Hfk0 Hfk]%Forall_cons Hput Hsort.
  assert (Hx : set_b_dirty (Some D) x = x) by (apply set_b_dirty_id, Ho).
  destruct (link_node w b x D n m p pn Ho (HD n ltac:(by left)) ltac:(intros ->; apply Hnp; by left) Hn Hpar Hp Hfk0)
    as (w2 & Hrun2 & Hg2 & Hnx2 & Hk2 & Hp2 & Hn2). rewrite Hput in Hp2.
  assert (Hin : ∀ l, l ∈ ls → l ∉ [p; n]).
  { intros l Hl Hl'. apply elem_of_cons in Hl' as [-> | ->%list_elem_of_singleton]; [by apply NoDup_cons in Hndp as [? _]|apply Hnp; by right]. }
  pose proof (grown_own _ _ _ _ _ _ Ho Hg2) as Ho2. rewrite Hx in Ho2.
  destruct (link_all b x D p nd B ls pcs w2 (set_n_inodes (A ++ link_inode n (n_inodes m) :: B) pn) (A ++ [link_inode n (n_inodes m)]) Ho2)
    as (w3 & Hrun3 & Hg3 & Hnx3 & Hk3 & Hp3 & Hls3); [intros l Hl; apply HD; by right|done|exact Hp2|simpl; by rewrite <- app_assoc| | |done| |].
  { rewrite Hnx2. intros l Hl. apply Hlt. by right. }
  { eapply Forall2_impl_in; [exact Hls|]. intros l pc' Hl Hl'. rewrite Hk2; [exact Hl'|apply Hlt; by do 2 right|by apply Hin]. }
  { unfold ikeys. rewrite fmap_app, <- app_assoc. exact Hsort. }
  exists w3. split_and!.
  - cbn [st_iter]. by rewrite (bind_Ret _ _ _ _ _ Hrun2).
  - rewrite <- Hx in Hg3. by eapply grown_trans.
  - lia.
  - apply (keeps_trans _ (p :: ls) _ w2); [lia|intros l Hl; left; by right| |done]. eapply keeps_sub; [|exact Hk2]. clear. set_solver.
  - rewrite Hp3. simpl. by rewrite <- app_assoc.
  - rewrite Hk3; [done|rewrite Hnx2; apply Hlt; by left|done].
  - done.
Qed.

(** ** Finalizing a root *)

(** The tree of [b] is [T]; its root has not been finalized, its dirty children
    have. *)
Record ready (w : world) (b : bid) (x : Bucket) (D : gset loc) (T : tree) : Prop := mkReady {
  r_own : own w b x D;
  r_dirty : tloc T ∈ D;
  r_rep : rep (w_nodes w) T;
  r_wf : wf T;
  r_nodup : NoDup (tlocs T);
  r_root : ∀ nd, w_nodes w !! tloc T = Some nd → n_parent nd = None ∧ n_spilled nd = false;
  r_children : ∀ q m, q ∈ tchildren T → tloc q.2 ∈ D → w_nodes w !! tloc q.2 = Some m → n_spilled m = true
}.

Lemma finalize_S r n : finalize (S r) n =
  (let! nd := get_node n in
   let! b := st_deref (n_bucket nd) in
   let! x := get_bkt b in
   if n_spilled nd then st_ret None
   else
     let! e := finalize_children (finalize r) n 0 (length (n_inodes nd)) in
     match e with
     | Some _ => st_ret e
     | None =>
         let! nd := get_node n in
         let! nodes := split (S (length (n_inodes nd))) n in
         st_iter (finalize_link (b_tx x)) nodes ;!
         let! nd := get_node n in
         match n_parent nd with
         | None => st_ret None
         | Some p => let! pn := get_node p in if n_spilled pn then st_ret None else finalize r p
         end
     end).
Proof. done. Qed.

Lemma finalize_spilled f w b x D l m :
  own w b x D → l ∈ D → w_nodes w !! l = Some m → n_spilled m = true → finalize (S f) l w = (Ret None, w).
Proof.
  intros Ho Hl Hm Hs. destruct (own_node _ _ _ _ _ Ho Hl) as (m' & Hm' & Hb). simplify_eq. cbn [finalize].
  rewrite (bind_Ret _ _ _ _ _ (get_node_run _ _ _ Hm)), Hb, (bind_Ret (st_deref (Some b)) _ w b w eq_refl).
  by rewrite (bind_Ret _ _ _ _ _ (get_bkt_run _ _ _ (o_bkt _ _ _ _ Ho))), Hs.
Qed.

Lemma children_done f w b x D T nd rounds : ∀ i,
  ready w b x D T → w_nodes w !! tloc T = Some nd → i + rounds = length (n_inodes nd) →
  finalize_children (finalize (S f)) (tloc T) i rounds w = (Ret None, w).
Proof.
  induction rounds as [|r IH]; intros i Hr Hn Hlen; [done|]. cbn [finalize_children].
  rewrite (bind_Ret _ _ _ _ _ (get_node_run _ _ _ Hn)).
  destruct (lookup_lt_is_Some_2 (n_inodes nd) i ltac:(lia)) as [ind Hi].
  rewrite (bind_Ret _ _ _ ind w).
  2:{ unfold st_index. destruct (Z.ltb_spec (Z.of_nat i) 0); [lia|]. by rewrite Nat2Z.id, Hi. }
  destruct (i_child ind) as [c|] eqn:Hc; [|apply IH; [done|done|lia]].
  destruct (own_node _ _ _ _ _ (r_own _ _ _ _ _ Hr) (r_dirty _ _ _ _ _ Hr)) as (nd' & Hn' & Hb). simplify_eq.
  rewrite Hb, (bind_Ret (st_deref (Some b)) _ w b w eq_refl).
  rewrite (bind_Ret _ _ _ _ _ (get_bkt_run _ _ _ (o_bkt _ _ _ _ (r_own _ _ _ _ _ Hr)))).
  unfold isDirty. rewrite (o_dirty _ _ _ _ (r_own _ _ _ _ _ Hr)). case_bool_decide as HcD; [|apply IH; [done|done|lia]].
  assert (∃ q, q ∈ tchildren T ∧ tloc q.2 = c) as (q & Hq & <-).
  { destruct (rep_node _ _ (r_rep _ _ _ _ _ Hr)) as (nd' & Hn2 & _ & Hin). simplify_eq. rewrite Hin in Hi.
    apply list_elem_of_lookup_2 in Hi. destruct T as [l kvs|l cs]; simpl in Hi.
    - apply list_elem_of_fmap in Hi as (? & -> & _). done.
    - apply list_elem_of_fmap in Hi as (q & -> & Hq). exists q. by simplify_eq/=. }
  destruct (own_node _ _ _ _ _ (r_own _ _ _ _ _ Hr) HcD) as (m & Hm & _).
  rewrite (bind_Ret _ _ w None w); [apply IH; [done|done|lia]|].
  eapply finalize_spilled; [apply Hr|done|done|]. by eapply r_children.
Qed.

(** The last step of a root that fits. *)
Lemma finalize_fits f w b x D T nd :
  ready w b x D T → w_nodes w !! tloc T = Some nd → noSplit nd = true →
  ∃ w', finalize (S (S f)) (tloc T) w = (Ret None, w') ∧ grown b x D w w' D ∧ keeps [tloc T] w w' ∧
    w_nodes w' !! tloc T = Some (set_n_spilled true nd).
Proof.
  intros Hr Hn Hs. pose proof Hr as [Ho HnD Hrep Hwf Hnd Hroot Hch]. destruct (Hroot nd Hn) as [Hpar Hsp].
  destruct (own_node _ _ _ _ _ Ho HnD) as (nd' & Hn' & Hb). simplify_eq. pose proof Ho as [Hc Hx HD [tx Htx]].
  destruct (finalize_safe b (S (S f)) w (tloc T) Hc (own_dirty _ _ _ _ _ Ho HnD)) as [He _].
  assert (Hrun : ∃ w', finalize (S (S f)) (tloc T) w = (Ret None, w') ∧ w_nextn w' = w_nextn w ∧ w_bkts w' = w_bkts w ∧
    w_nodes w' = <[tloc T := set_n_spilled true nd]> (w_nodes w)).
  { cbn [finalize]. rewrite (bind_Ret _ _ _ _ _ (get_node_run _ _ _ Hn)), Hb, (bind_Ret (st_deref (Some b)) _ w b w eq_refl).
    rewrite (bind_Ret _ _ _ _ _ (get_bkt_run _ _ _ Hx)), Hsp.
    rewrite (bind_Ret _ _ _ _ _ (children_done f w b x D T nd (length (n_inodes nd)) 0 Hr Hn eq_refl)).
    rewrite (bind_Ret _ _ _ _ _ (get_node_run _ _ _ Hn)).
    rewrite (bind_Ret _ _ w [tloc T] w).
    2:{ cbn [split]. by rewrite (bind_Ret _ _ _ _ _ (splitTwo_stop w _ nd Hn Hs)). }
    cbn [st_iter]. erewrite bind_Ret.
    2:{ erewrite bind_Ret; [reflexivity|]. unfold finalize_link. rewrite (bind_Ret _ _ _ _ _ (upd_node_run _ _ _ _ Hn)).
        erewrite bind_Ret by (apply get_node_run; simpl; apply lookup_insert_eq). simpl. rewrite Hpar.
        rewrite (bind_Ret (st_ret tt) _ _ tt _ eq_refl). unfold tx_stat. apply upd_tx_run. exact Htx. }
    erewrite bind_Ret by (apply get_node_run; simpl; apply lookup_insert_eq). simpl. rewrite Hpar.
    eexists. split; [reflexivity|]. done. }
  destruct Hrun as (w' & Hrun & Hnx & Hbk & Hnodes). rewrite Hrun in He. exists w'. split_and!; auto.
  - split; [done| |done|lia]. by rewrite set_b_dirty_id, insert_id.
  - intros l Hl Hne. rewrite Hnodes, lookup_insert_ne; [done|set_solver].
  - rewrite Hnodes. apply lookup_insert_eq.
Qed.

Lemma link_firsts ls pcs : length ls = length pcs → ikeys (zip_with link_inode ls pcs) = first_key <$> pcs.
Proof.
  revert pcs. induction ls as [|l ls IH]; intros [|pc pcs] Hlen; simpl in *; try done. f_equal. apply IH. lia.
Qed.

Lemma rep_some h T l : rep h T → l ∈ tlocs T → is_Some (h !! l).
Proof.
  induction T as [l' kvs|l' cs IH] using tree_nested_ind; intros Hrep Hl.
  - apply list_elem_of_singleton in Hl as ->. destruct Hrep as (n & ? & _). eauto.
  - apply rep_Branch in Hrep as [(n & Hn & _) Hall]. rewrite tlocs_Branch in Hl. apply elem_of_cons in Hl as [->|Hl]; [eauto|].
    apply elem_of_clocs in Hl as (k & c & Hin & Hl). rewrite Forall_forall in IH, Hall.
    apply (IH (k, c)); [done|by apply (Hall (k, c))|done].
Qed.

Lemma tlocs_fresh w b x D T l : own w b x D → rep (w_nodes w) T → l ∈ tlocs T → (l < w_nextn w)%positive.
Proof. intros Ho Hrep Hl. destruct (rep_some _ _ _ Hrep Hl) as [n Hn]. eapply s_fresh_n; [apply Ho|done]. Qed.

Lemma tlocs_children T : tlocs T = tloc T :: clocs (tchildren T).
Proof. by destruct T. Qed.

Lemma link_locs cs ls pcs q : branch_inode <$> cs = zip_with link_inode ls pcs → q ∈ cs → tloc q.2 ∈ ls.
Proof.
  intros Hl Hq. assert (Hin : branch_inode q ∈ zip_with link_inode ls pcs) by (rewrite <- Hl; by apply list_elem_of_fmap_2).
  apply elem_of_lookup_zip_with in Hin as (i & l & pc & Heq & Hi & _). apply list_elem_of_lookup_2 in Hi.
  unfold branch_inode, link_inode in Heq. by simplify_eq.
Qed.

(** Every child hangs at its own key, which is its first one. *)
Definition keyed_node (h : gmap loc node) (n : node) : Prop :=
  ∀ i c, i ∈ n_inodes n → i_child i = Some c → ∃ m, h !! c = Some m ∧ n_key m = i_key i ∧ first_key (n_inodes m) = i_key i.
Definition keyed (h : gmap loc node) (T : tree) : Prop := ∀ l n, l ∈ tlocs T → h !! l = Some n → keyed_node h n.

Lemma inode_child T i c : i ∈ tree_inodes T → i_child i = Some c → c ∈ clocs (tchildren T).
Proof.
  destruct T as [l kvs|l cs]; simpl; intros ([k u] & -> & Hin)%list_elem_of_fmap; simpl; [done|]. intros [= <-].
  apply elem_of_clocs. exists k, u. split; [done|apply tloc_in].
Qed.

(** The children of the nodes of a tree are nodes of the tree. *)
Lemma tree_child h T : rep h T → ∀ l n i c, l ∈ tlocs T → h !! l = Some n → i ∈ n_inodes n → i_child i = Some c →
  c ∈ tlocs T.
Proof.
  induction T as [l0 kvs|l0 cs IH] using tree_nested_ind; intros Hrep l n i c Hl Hn Hi Hc.
  - apply list_elem_of_singleton in Hl as ->. destruct Hrep as (n' & Hn' & _ & Hin). simplify_eq. rewrite Hin in Hi.
    apply list_elem_of_fmap in Hi as ([k v] & -> & _). done.
  - rewrite tlocs_Branch in Hl |- *. apply rep_Branch in Hrep as [(n' & Hn' & _ & Hin) Hall]. apply elem_of_cons in Hl as [->|Hl].
    + simplify_eq. rewrite Hin in Hi. right. by apply (inode_child (Branch l0 cs) i c).
    + apply elem_of_clocs in Hl as (k & u & Hu & Hl). rewrite Forall_forall in IH, Hall.
      right. apply elem_of_clocs. exists k, u. split; [done|]. exact (IH (k, u) Hu (Hall (k, u) Hu) l n i c Hl Hn Hi Hc).
Qed.

Lemma keyed_frame h h' T : rep h T → (∀ l, l ∈ tlocs T → h' !! l = h !! l) → keyed h T → keyed h' T.
Proof.
  intros Hrep Hl Hk l n Hin Hn i c Hi Hc. rewrite Hl in Hn by done. rewrite Hl; [by eapply Hk|]. by eapply tree_child.
Qed.

(** The pieces of a node under a new parent. *)
Lemma pieces_keyed h h' T p nd ls pcs cs pn :
  rep h T → h !! tloc T = Some nd → n_inodes nd = tree_inodes T → concat pcs = tree_inodes T → length ls = length pcs →
  clocs cs ≡ₚ ls ++ clocs (tchildren T) → (∀ l, l ∈ clocs (tchildren T) → h' !! l = h !! l) →
  h' !! p = Some pn → n_inodes pn = zip_with link_inode ls pcs →
  Forall2 (λ l pc, ∃ m, h' !! l = Some m ∧ n_inodes m = pc ∧ n_key m = first_key pc) ls pcs →
  keyed h T → keyed h' (Branch p cs).
Proof.
  intros Hrep Hnd Hin Hcat Hlen Hclocs Hkeep Hp Hpi Hls HK.
  assert (Hold : ∀ i c, i ∈ tree_inodes T → i_child i = Some c → ∃ m, h' !! c = Some m ∧ n_key m = i_key i ∧ first_key (n_inodes m) = i_key i).
  { intros i c Hi Hc. rewrite Hkeep by (by eapply inode_child). eapply HK; [apply tloc_in|done|by rewrite Hin|done]. }
  intros l n Hl Hn i c Hi Hc. rewrite tlocs_Branch in Hl. apply elem_of_cons in Hl as [->|Hl].
  { simplify_eq. rewrite Hpi in Hi. apply elem_of_lookup_zip_with in Hi as (j & l & pc & -> & Hj & Hpc). simpl in Hc. simplify_eq.
    destruct (Forall2_lookup_lr _ _ _ _ _ _ Hls Hj Hpc) as (m & Hm & Hmi & Hmk). exists m. simpl. by rewrite Hmi. }
  rewrite Hclocs in Hl. apply elem_of_app in Hl as [Hl|Hl].
  - apply list_elem_of_lookup in Hl as [j Hj]. destruct (Forall2_lookup_l _ _ _ _ _ Hls Hj) as (pc & Hpc & m & Hm & Hmi & _). simplify_eq.
    apply Hold; [|done]. rewrite <- Hcat. apply elem_of_concat. exists (n_inodes n). split; [by eapply list_elem_of_lookup_2|done].
  - rewrite Hkeep in Hn by done. assert (HlT : l ∈ tlocs T) by (rewrite tlocs_children; by right).
    assert (Hc' : c ∈ clocs (tchildren T)).
    { destruct T as [l0 kvs|l0 cs0]; [by apply elem_of_nil in Hl|]. apply rep_Branch in Hrep as [_ Hall]. simpl in Hl |- *.
      apply elem_of_clocs in Hl as (k & u & Hu & Hl). rewrite Forall_forall in Hall. apply elem_of_clocs. exists k, u. split; [done|].
      eapply tree_child; [by apply (Hall (k, u))|done|exact Hn|done|done]. }
    rewrite Hkeep by done. by eapply HK.
Qed.

(** What a root that does not fit becomes: a branch over its pieces. *)
Lemma finalize_splits f w b x D T nd :
  ready w b x D T → w_nodes w !! tloc T = Some nd → noSplit nd = false →
  ∃ w' D' p cs, finalize (S (S f)) (tloc T) w = finalize (S f) p w' ∧ grown b x D w w' D' ∧ keeps [tloc T] w w' ∧
    ready w' b (set_b_dirty (Some D') x) D' (Branch p cs) ∧ flat cs = contents T ∧ length cs < length (n_inodes nd) ∧
    (w_nextn w ≤ p)%positive ∧ (∀ l, l ∈ clocs cs → l ∈ tlocs T ∨ (w_nextn w ≤ l)%positive) ∧
    (∃ m, w_nodes w' !! tloc T = Some m ∧ n_parent m = Some p) ∧ (keyed (w_nodes w) T → keyed (w_nodes w') (Branch p cs)).
Proof.
  intros Hr Hn Hs. pose proof Hr as [Ho HnD Hrep Hwf Hnd Hroot Hch]. destruct (Hroot nd Hn) as [Hpar Hsp].
  destruct (own_node _ _ _ _ _ Ho HnD) as (nd' & Hn' & Hb). simplify_eq. set (n := tloc T) in *.
  destruct (rep_node _ _ Hrep) as (nd' & Hn2 & Hlf & Hin). fold n in Hn2. simplify_eq.
  destruct (split_root_run b (S (length (n_inodes nd))) w x D n nd Ho HnD Hn Hpar Hs ltac:(lia))
    as (p & ls & w1 & D1 & pc & pcs & Hsplit & Hpcs & Hg1 & Hk1 & HD1 & Hnd1 & Hfr1 & Hp1 & Hn1 & Hls1 & Hmany).
  assert (Hmin : minKeys nd * 2 < length (n_inodes nd)).
  { unfold noSplit in Hs. by apply orb_false_iff in Hs as [Hlt%Nat.leb_gt _]. }
  destruct (pieces_spec (S (length (n_inodes nd))) x nd ltac:(lia) ltac:(pose proof (minKeys_pos nd); lia)) as [Hcat Hne].
  pose proof (pieces_fewer (S (length (n_inodes nd))) x nd ltac:(lia)) as Hfew. rewrite Hpcs in Hcat, Hne, Hfew.
  assert (Hnfresh : (n < w_nextn w)%positive) by (eapply tlocs_fresh; [done|done|apply tloc_in]).
  assert (Hrepch : ∀ w', keeps [n] w w' → Forall (λ q, rep (w_nodes w') q.2) (tchildren T)).
  { intros w' Hk. assert (Hall : Forall (λ q, rep (w_nodes w) q.2) (tchildren T)).
    { destruct T; simpl; [constructor|]. by apply rep_Branch in Hrep as [_ ?]. }
    rewrite Forall_forall in Hall. apply Forall_forall. intros [k c] Hq. eapply rep_frame; [|apply (Hall (k, c) Hq)].
    intros l Hl. assert (Hlc : l ∈ clocs (tchildren T)) by (apply elem_of_clocs; eauto).
    apply Hk; [eapply tlocs_fresh; [done|exact Hrep|]; rewrite tlocs_children; by right|].
    intros ->%list_elem_of_singleton. rewrite tlocs_children in Hnd. by apply NoDup_cons in Hnd as [? _]. }
  assert (Hlen : length (n :: ls) = length (pc :: pcs)) by (simpl; f_equal; by eapply Forall2_length).
  (* the pieces are in order *)
  destruct (regroup (w_nodes w1) T p (n :: ls) (pc :: pcs) Hwf (Hrepch _ Hk1)) as (cs1 & Hlink1 & Hwf1 & _); [congruence|done|done| |].
  { constructor; [eexists; split; [exact Hn1|done]|]. eapply Forall2_impl; [exact Hls1|]. intros l pc' Hl. eexists. split; [exact Hl|done]. }
  assert (Hfirsts : cs1.*1 = first_key <$> pc :: pcs).
  { rewrite <- ikeys_branch, Hlink1. by apply link_firsts. }
  apply wf_Branch in Hwf1 as (_ & Hsort & Hkne & _). rewrite Hfirsts in Hsort, Hkne. rewrite Forall_fmap in Hkne.
  pose proof Hkne as [Hpc0 Hpcsne]%Forall_cons. pose proof (grown_own _ _ _ _ _ _ Ho Hg1) as Ho1.
  pose proof Hnd1 as [Hnpls Hndp]%NoDup_cons. pose proof Hndp as [Hpls Hndls]%NoDup_cons.
  pose proof (g_next _ _ _ _ _ _ Hg1) as Hnx1.
  (* link the first piece, then the others *)
  set (x1 := set_b_dirty (Some D1) x) in *. assert (Hx1 : set_b_dirty (Some D1) x1 = x1) by done.
  destruct (link_pieces w1 b x1 D1 n (set_n_inodes pc (set_n_parent (Some p) nd)) p (fresh_root b []) [] [] nd ls pc pcs Ho1 ltac:(set_solver) Hnd1) as (w3 & Hrun3 & Hg3 & Hnx3 & Hk3 & Hp3 & Hn3 & Hls3);
    [intros l [->|Hl]%elem_of_cons; [lia|by apply Hfr1]|exact Hn1|done|done|exact Hp1|done|done|done|by rewrite app_nil_r|].
  rewrite app_nil_r in Hp3. cbn [app] in Hp3. pose proof (grown_own _ _ _ _ _ _ Ho1 Hg3) as Ho3. rewrite Hx1 in Ho3.
  assert (Hk : keeps [n] w w3).
  { apply (keeps_trans _ (n :: p :: ls) _ w1); [lia| |done|done]. intros l [->|Hl]%elem_of_cons; [left; by left|right; by apply Hfr1]. }
  destruct (regroup (w_nodes w3) T p (n :: ls) (pc :: pcs) Hwf (Hrepch _ Hk)) as (cs & Hlink & Hwfcs & Hflat & Hrepcs & Hclocs & Hlencs);
    [congruence|done|done| |].
  { constructor; [eexists; split; [exact Hn3|done]|]. eapply Forall2_impl; [exact Hls3|]. intros l pc' Hl. eexists. split; [exact Hl|done]. }
  exists w3, D1, p, cs. refine (conj _ (conj _ (conj Hk (conj _ (conj Hflat (conj _ (conj _ (conj _ (conj _ _))))))))).
  - rewrite finalize_S.
    rewrite (bind_Ret _ _ _ _ _ (get_node_run _ _ _ Hn)), Hb, (bind_Ret (st_deref (Some b)) _ w b w eq_refl).
    rewrite (bind_Ret _ _ _ _ _ (get_bkt_run _ _ _ (o_bkt _ _ _ _ Ho))), Hsp.
    rewrite (bind_Ret _ _ _ _ _ (children_done f w b x D T nd (length (n_inodes nd)) 0 Hr Hn eq_refl)).
    rewrite (bind_Ret _ _ _ _ _ (get_node_run _ _ _ Hn)), (bind_Ret _ _ _ _ _ Hsplit).
    rewrite (bind_Ret _ _ w1 tt w3) by exact Hrun3.
    rewrite (bind_Ret _ _ _ _ _ (get_node_run _ _ _ Hn3)).
    replace (n_parent (linked (set_n_inodes pc (set_n_parent (Some p) nd)))) with (Some p) by done. cbv iota. rewrite (bind_Ret _ _ _ _ _ (get_node_run _ _ _ Hp3)). done.
  - eapply grown_trans; [exact Hg1|exact Hg3].
  - split; [done|set_solver| |done| | |].
    + apply rep_Branch. split; [|done]. eexists. split; [exact Hp3|]. split; [done|]. simpl. by rewrite Hlink.
    + rewrite tlocs_Branch. apply NoDup_cons. rewrite Hclocs. rewrite tlocs_children in Hnd. fold n in Hnd.
      apply NoDup_cons in Hnd as [Hnc Hndc].
      assert (Hold : ∀ l, l ∈ clocs (tchildren T) → (l < w_nextn w)%positive).
      { intros l Hl. eapply tlocs_fresh; [done|exact Hrep|]. rewrite tlocs_children. by right. }
      split.
      * rewrite elem_of_app. intros [?|?%Hold]; [set_solver|]. pose proof (Hfr1 p ltac:(by left)). lia.
      * apply NoDup_app. split; [apply NoDup_cons; set_solver|]. split; [|done].
        intros l [Hl|Hl]%elem_of_cons; [by subst|]. intros ?%Hold. pose proof (Hfr1 l ltac:(by right)). lia.
    + intros m Hm. simpl in Hm. rewrite Hp3 in Hm. by simplify_eq.
    + intros q m Hq _ Hm. simpl in Hq. assert (Hqin : tloc q.2 ∈ n :: ls).
      { eapply (link_locs cs); [exact Hlink|done]. }
      apply elem_of_cons in Hqin as [Hqin|Hqin]; [rewrite Hqin in Hm; by simplify_eq|].
      apply list_elem_of_lookup in Hqin as [i Hi]. destruct (Forall2_lookup_l _ _ _ _ _ Hls3 Hi) as (pc' & _ & Hl).
      by simplify_eq.
  - rewrite Hlencs. simpl in Hfew |- *. pose proof (minKeys_pos nd). lia.
  - apply Hfr1. by left.
  - intros l. rewrite Hclocs. rewrite tlocs_children. fold n. rewrite elem_of_app, !elem_of_cons.
    intros [[Hl|Hl]|Hl]; [left; left; exact Hl|right; apply Hfr1; by right|left; by right].
  - eexists. split; [exact Hn3|done].
  - intros HK. eapply (pieces_keyed (w_nodes w) (w_nodes w3) T p nd (n :: ls) (pc :: pcs)); [done|done|done|congruence|done|exact Hclocs| |exact Hp3|done| |].
    + intros l Hl. apply Hk; [by eapply tlocs_fresh; [done|exact Hrep|rewrite tlocs_children; right]|].
      intros ->%list_elem_of_singleton. rewrite tlocs_children in Hnd. by apply NoDup_cons in Hnd as [? _].
    + constructor; [by eexists (linked _)|]. eapply Forall2_impl; [exact Hls3|]. intros l pc' Hl. eexists. split; [exact Hl|done].
    + exact HK.
Qed.

Lemma rep_root_node h h' T nd m :
  rep h T → NoDup (tlocs T) → (∀ l, l ∈ tlocs T → l ≠ tloc T → h' !! l = h !! l) →
  h !! tloc T = Some nd → h' !! tloc T = Some m → n_isLeaf m = n_isLeaf nd → n_inodes m = n_inodes nd → rep h' T.
Proof.
  intros Hrep Hnd Hk Hn Hm Hl Hi. destruct T as [l kvs|l cs]; simpl in Hn, Hm, Hk.
  - destruct Hrep as (n & Hn' & Hleaf). simplify_eq. exists m. split; [done|]. unfold leaf_node in *. by rewrite Hl, Hi.
  - apply rep_Branch in Hrep as [(n & Hn' & Hb) Hall]. simplify_eq. apply rep_Branch. split.
    { exists m. split; [done|]. unfold branch_node in *. by rewrite Hl, Hi. }
    rewrite tlocs_Branch in Hnd. apply NoDup_cons in Hnd as [Hlc _]. rewrite Forall_forall in Hall. apply Forall_forall.
    intros [k c] Hc. eapply rep_frame; [|apply (Hall (k, c) Hc)]. intros l' Hl'.
    assert (l' ∈ clocs cs) by (apply elem_of_clocs; eauto). apply Hk; [by right|]. intros ->. done.
Qed.

(** The outcome of finalizing a root: a tree with the same contents. *)
Record finalized (b : bid) (x : Bucket) (D : gset loc) (w : world) (T : tree) (k : nat) (w' : world) (D' : gset loc) (T' : tree)
    : Prop := mkFinalized {
  f_grown : grown b x D w w' D';
  f_keeps : keeps [tloc T] w w';
  f_rep : rep (w_nodes w') T';
  f_wf : wf T';
  f_nodup : NoDup (tlocs T');
  f_contents : contents T' = contents T;
  f_locs : ∀ l, l ∈ tlocs T' → l ∈ tlocs T ∨ (w_nextn w ≤ l)%positive;
  f_dirty : tloc T' ∈ D';
  f_keyed : keyed (w_nodes w) T → keyed (w_nodes w') T';
  f_root : ∀ f, k < f → root f (tloc T) w' = (Ret (tloc T'), w');
  f_fits : ∀ nd, w_nodes w !! tloc T = Some nd → noSplit nd = true → T' = T
}.

Lemma finalize_root b k : ∀ f w x D T,
  ready w b x D T → length (tree_inodes T) ≤ k → S k < f →
  ∃ w' D' T', finalize f (tloc T) w = (Ret None, w') ∧ finalized b x D w T k w' D' T'.
Proof.
  induction k as [k IH] using lt_wf_ind. intros f w x D T Hr Hk Hf. destruct f as [|[|f]]; [lia|lia|].
  destruct (rep_node _ _ (r_rep _ _ _ _ _ Hr)) as (nd & Hn & _ & Hin). destruct (noSplit nd) eqn:Hs.
  { destruct (finalize_fits f w b x D T nd Hr Hn Hs) as (w' & Hrun & Hg & Hkeep & Hn'). exists w', D, T. split; [done|].
    pose proof Hr as [Ho HnD Hrep Hwf Hnd Hroot Hch]. split; auto.
    - eapply rep_root_node; [exact Hrep|done| |exact Hn|exact Hn'|done|done]. intros l Hl Hne.
      apply Hkeep; [by eapply tlocs_fresh|]. by intros ->%list_elem_of_singleton.
    - intros HK l n Hl Hln i c Hi Hc. assert (Hsame : ∀ y m, y ∈ tlocs T → w_nodes w' !! y = Some m → ∃ m0, w_nodes w !! y = Some m0 ∧ n_inodes m0 = n_inodes m ∧ n_key m0 = n_key m).
      { intros y m Hy Hym. destruct (decide (y = tloc T)) as [->|Hne]; [rewrite Hn' in Hym; injection Hym as <-; by exists nd|].
        exists m. rewrite Hkeep in Hym; [done|by eapply tlocs_fresh|]. by intros ->%list_elem_of_singleton. }
      destruct (Hsame _ _ Hl Hln) as (n0 & Hn0 & Hi0 & _). rewrite <- Hi0 in Hi. destruct (HK _ _ Hl Hn0 _ _ Hi Hc) as (m & Hm & Hmk & Hmf).
      assert (HcT : c ∈ tlocs T) by (by eapply tree_child).
      assert (∃ m', w_nodes w' !! c = Some m' ∧ n_inodes m' = n_inodes m ∧ n_key m' = n_key m) as (m' & Hm' & Hmi' & Hmk').
      { destruct (decide (c = tloc T)) as [->|Hne]; [assert (m = nd) as -> by congruence; by eexists|].
        exists m. rewrite Hkeep; [done|by eapply tlocs_fresh|]. by intros ->%list_elem_of_singleton. }
      exists m'. by rewrite Hmi', Hmk'.
    - intros f' Hf'. destruct f' as [|f']; [lia|]. simpl. rewrite (bind_Ret _ _ _ _ _ (get_node_run _ _ _ Hn')). simpl.
      by destruct (Hroot nd Hn) as [-> _]. }
  destruct (finalize_splits f w b x D T nd Hr Hn Hs)
    as (w1 & D1 & p & cs & Hrun & Hg & Hkeep & Hr1 & Hflat & Hlen & Hfresh & Hlocs & (m & Hm & Hpar) & HK1).
  rewrite Hin in Hlen. rewrite Hrun.
  destruct (IH (length cs) ltac:(lia) (S f) w1 _ _ _ Hr1) as (w2 & D2 & T2 & Hrun2 & [Hg2 Hk2 Hrep2 Hwf2 Hnd2 Hc2 Hl2 HD2 HK2 Hroot2 _]).
  { simpl. by rewrite length_fmap. } { lia. }
  exists w2, D2, T2. split; [exact Hrun2|]. pose proof (g_next _ _ _ _ _ _ Hg) as Hnx. split; auto.
  - by eapply grown_trans.
  - eapply keeps_trans; [exact Hnx| |exact Hkeep|exact Hk2]. intros l ->%list_elem_of_singleton. right. done.
  - rewrite Hc2, contents_Branch. done.
  - intros l [Hl|Hl]%Hl2; [|right; lia]. rewrite tlocs_Branch in Hl. apply elem_of_cons in Hl as [->|Hl]; [by right|by apply Hlocs].
  - intros f' Hf'. destruct f' as [|f']; [lia|]. simpl.
    assert (Hlt : (tloc T < w_nextn w)%positive) by (eapply tlocs_fresh; [apply Hr|apply Hr|apply tloc_in]).
    rewrite (bind_Ret _ _ _ m w2).
    2:{ apply get_node_run. rewrite Hk2; [exact Hm|lia|]. intros ?%list_elem_of_singleton. simpl in *. lia. }
    rewrite Hpar. apply Hroot2. lia.
  - intros nd' Hnd'. rewrite Hn in Hnd'. injection Hnd' as <-. by rewrite Hs.
Qed.
