(* ===== verification/Marked.v ===== *)
(** * Trees with the progress of a commit

    The tree of a bucket that is being spilled, each node marked [Clean] (shared
    with the published state), [Pending] (copied, not finalized yet) or [Spilled]
    (finalized).  [good lo hi T] is the search-tree invariant with the interval of
    keys each node may hold; finalizing one node is a step on such trees that
    keeps it.  A tree is seen from one of its nodes through a context [ctx], from
    the node up to the root. *)
From S2P Require Import Prelude GoSort Stats World Node KV Tree CowSpec Regroup.
Local Open Scope bytes_scope.

Inductive mark := Clean | Pending | Spilled.
#[export] Instance mark_eq_dec : EqDecision mark.
Proof. solve_decision. Defined.

Inductive mtree :=
| MLeaf (l : loc) (m : mark) (kvs : list kv)
| MBranch (l : loc) (m : mark) (cs : list (bytes * mtree)).

Lemma mtree_nested_ind (P : mtree → Prop) :
  (∀ l m kvs, P (MLeaf l m kvs)) →
  (∀ l m cs, Forall (λ p, P p.2) cs → P (MBranch l m cs)) →
  ∀ t, P t.
Proof.
  intros HL HB. fix IH 1. intros [l m kvs|l m cs]; [apply HL|].
  apply HB. induction cs as [|p cs IHcs]; constructor; [apply IH|exact IHcs].
Qed.

Definition mloc (t : mtree) : loc := match t with MLeaf l _ _ => l | MBranch l _ _ => l end.
Definition mmark (t : mtree) : mark := match t with MLeaf _ m _ => m | MBranch _ m _ => m end.
Definition mhead (t : mtree) : bytes :=
  match t with MLeaf _ _ kvs => first_key (leaf_inode <$> kvs) | MBranch _ _ cs => hd [] cs.*1 end.

(** The tree without its marks. *)
Fixpoint plain (t : mtree) : tree :=
  match t with
  | MLeaf l _ kvs => Leaf l kvs
  | MBranch l _ cs => Branch l (map (λ p, (p.1, plain p.2)) cs)
  end.
Definition plains (cs : list (bytes * mtree)) : list (bytes * tree) := map (λ p, (p.1, plain p.2)) cs.

(** The number of nodes still to be finalized, and of levels. *)
Fixpoint pend (t : mtree) : nat :=
  match t with
  | MLeaf _ m _ => if decide (m = Pending) then 1 else 0
  | MBranch _ m cs => (if decide (m = Pending) then 1 else 0) + list_sum (map (λ p, pend p.2) cs)
  end.
Definition pends (cs : list (bytes * mtree)) : nat := list_sum (map (λ p, pend p.2) cs).
Fixpoint mheight (t : mtree) : nat :=
  match t with
  | MLeaf _ _ _ => 1
  | MBranch _ _ cs => S (list_max (map (λ p, mheight p.2) cs))
  end.
Definition mheights (cs : list (bytes * mtree)) : nat := list_max (map (λ p, mheight p.2) cs).

(** The branches, with the number of their children. *)
Fixpoint branches (t : mtree) : list (loc * nat) :=
  match t with
  | MLeaf _ _ _ => []
  | MBranch l _ cs => (l, length cs) :: concat (map (λ p, branches p.2) cs)
  end.

(** ** The invariant *)

Definition above (lo : option bytes) (k : bytes) : Prop := match lo with Some a => a ≼ k | None => True end.
Definition below (hi : option bytes) (k : bytes) : Prop := match hi with Some b => k ≺ b | None => True end.
Definition within (lo hi : option bytes) (k : bytes) : Prop := k ≠ [] ∧ above lo k ∧ below hi k.

(** The upper bound of what lies before [cs]. *)
Definition next_hi {A} (hi : option bytes) (cs : list (bytes * A)) : option bytes :=
  match cs with [] => hi | (k, _) :: _ => Some k end.

(** A branch with these separators is not split. *)
Definition fits (ks : list bytes) : Prop :=
  noSplit (mkNode None false false false [] None ((λ k, mkInode 0 k None None) <$> ks)) = true.

Section marked.
Context (thr : Z).

(** The pieces [split] makes of a leaf. *)
Definition leaf_pieces (kvs : list kv) : list (list inode) :=
  split_inodes (S (length kvs)) (mkNode None true false false [] None (leaf_inode <$> kvs)) thr.

(** The separators that stand for the child [c] at [k] once it is finalized. *)
Fixpoint after (k : bytes) (c : mtree) : list bytes :=
  match c with
  | MLeaf _ m kvs => if decide (m = Pending) then first_key <$> leaf_pieces kvs else [k]
  | MBranch _ m cs =>
      if decide (m = Pending) then match cs with [] => [] | (k0, c0) :: _ => take 1 (after k0 c0) end else [k]
  end.
Definition seps_after (cs : list (bytes * mtree)) : list bytes := concat (map (λ p, after p.1 p.2) cs).

(** Finalized and shared nodes are at their first key, and no node is finalized
    before its children; what is shared hangs off shared nodes. *)
Definition marks_ok (m : mark) (cs : list (bytes * mtree)) : Prop :=
  Forall (λ p, (m = Clean → mmark p.2 = Clean) ∧ (m = Spilled → mmark p.2 ≠ Pending) ∧
               (mmark p.2 ≠ Pending → p.1 = mhead p.2)) cs.

Fixpoint good (lo hi : option bytes) (t : mtree) : Prop :=
  match t with
  | MLeaf _ _ kvs => kvs ≠ [] ∧ ssorted (keys kvs) ∧ Forall (within lo hi) (keys kvs)
  | MBranch _ m cs =>
      cs ≠ [] ∧ ssorted cs.*1 ∧ Forall (within lo hi) cs.*1 ∧ marks_ok m cs ∧ (m ≠ Clean → fits (seps_after cs)) ∧
      (fix kids (edge : bool) (cs : list (bytes * mtree)) : Prop :=
         match cs with
         | [] => True
         | (k, c) :: cs' => good (if edge then None else Some k) (next_hi hi cs') c ∧ kids false cs'
         end) (match lo with None => true | Some _ => false end) cs
  end.
(** The children of a branch; the first one has no lower bound at the left [edge]. *)
Fixpoint kids (hi : option bytes) (edge : bool) (cs : list (bytes * mtree)) : Prop :=
  match cs with
  | [] => True
  | (k, c) :: cs' => good (if edge then None else Some k) (next_hi hi cs') c ∧ kids hi false cs'
  end.
Definition edge_of (lo : option bytes) : bool := match lo with None => true | Some _ => false end.

Lemma good_Branch lo hi l m cs :
  good lo hi (MBranch l m cs) ↔
  cs ≠ [] ∧ ssorted cs.*1 ∧ Forall (within lo hi) cs.*1 ∧ marks_ok m cs ∧ (m ≠ Clean → fits (seps_after cs)) ∧
  kids hi (edge_of lo) cs.
Proof.
  cbn [good]. assert (∀ e, (fix kids (edge : bool) (cs : list (bytes * mtree)) : Prop :=
     match cs with [] => True | (k, c) :: cs' => good (if edge then None else Some k) (next_hi hi cs') c ∧ kids false cs' end) e cs = kids hi e cs) as H.
  { induction cs as [|[k c] cs IH]; intros e; [done|]. simpl. by rewrite IH. }
  by rewrite H.
Qed.

(** ** The invariant without the room for the separators *)

(** [shape] is what the operations of a bucket keep; [roomy] is what a commit
    needs on top, and can be evaluated. *)
Fixpoint shape (lo hi : option bytes) (t : mtree) : Prop :=
  match t with
  | MLeaf _ _ kvs => kvs ≠ [] ∧ ssorted (keys kvs) ∧ Forall (within lo hi) (keys kvs)
  | MBranch _ m cs =>
      cs ≠ [] ∧ ssorted cs.*1 ∧ Forall (within lo hi) cs.*1 ∧ marks_ok m cs ∧
      (fix skids (edge : bool) (cs : list (bytes * mtree)) : Prop :=
         match cs with
         | [] => True
         | (k, c) :: cs' => shape (if edge then None else Some k) (next_hi hi cs') c ∧ skids false cs'
         end) (edge_of lo) cs
  end.
Fixpoint skids (hi : option bytes) (edge : bool) (cs : list (bytes * mtree)) : Prop :=
  match cs with
  | [] => True
  | (k, c) :: cs' => shape (if edge then None else Some k) (next_hi hi cs') c ∧ skids hi false cs'
  end.

Lemma shape_Branch lo hi l m cs :
  shape lo hi (MBranch l m cs) ↔
  cs ≠ [] ∧ ssorted cs.*1 ∧ Forall (within lo hi) cs.*1 ∧ marks_ok m cs ∧ skids hi (edge_of lo) cs.
Proof.
  cbn [shape]. assert (∀ e, (fix skids (edge : bool) (cs : list (bytes * mtree)) : Prop :=
     match cs with [] => True | (k, c) :: cs' => shape (if edge then None else Some k) (next_hi hi cs') c ∧ skids false cs' end) e cs = skids hi e cs) as H.
  { induction cs as [|[k c] cs IH]; intros e; [done|]. simpl. by rewrite IH. }
  by rewrite H.
Qed.

Definition fitsb (ks : list bytes) : bool :=
  noSplit (mkNode None false false false [] None ((λ k, mkInode 0 k None None) <$> ks)).

Fixpoint roomy (t : mtree) : bool :=
  match t with
  | MLeaf _ _ _ => true
  | MBranch _ m cs => (bool_decide (m = Clean) || fitsb (seps_after cs)) && forallb (λ p, roomy p.2) cs
  end.

Lemma shape_good t : ∀ lo hi, shape lo hi t → roomy t = true → good lo hi t.
Proof.
  induction t as [l m kvs|l m cs IH] using mtree_nested_ind; intros lo hi; [by intros H _|].
  rewrite shape_Branch, good_Branch. intros (H1 & H2 & H3 & H4 & H5) [Hm Hr]%andb_prop. split_and!; auto.
  { intros Hne. apply orb_prop in Hm as [Hm%bool_decide_eq_true|Hm]; done. }
  clear -IH H5 Hr. revert H5. generalize (edge_of lo). induction cs as [|[k c] cs IHcs]; intros e; [done|].
  simpl in Hr. apply andb_prop in Hr as [Hc Hr]. apply Forall_cons in IH as [IHc IH]. intros [Hs Hk]. split; [by apply IHc|by apply IHcs].
Qed.

Lemma good_shape t : ∀ lo hi, good lo hi t → shape lo hi t.
Proof.
  induction t as [l m kvs|l m cs IH] using mtree_nested_ind; intros lo hi; [done|].
  rewrite shape_Branch, good_Branch. intros (H1 & H2 & H3 & H4 & _ & H6). split_and!; auto.
  clear -IH H6. revert H6. generalize (edge_of lo). induction cs as [|[k c] cs IHcs]; intros e; [done|].
  apply Forall_cons in IH as [IHc IH]. intros [Hs Hk]. split; [by apply IHc|by apply IHcs].
Qed.

(** ** Bounds *)

Lemma next_hi_app {A} hi (c1 c2 : list (bytes * A)) : next_hi hi (c1 ++ c2) = next_hi (next_hi hi c2) c1.
Proof. by destruct c1 as [|[]]. Qed.

Lemma kids_app hi edge c1 c2 :
  kids hi edge (c1 ++ c2) ↔ kids (next_hi hi c2) edge c1 ∧ kids hi (match c1 with [] => edge | _ => false end) c2.
Proof.
  revert edge. induction c1 as [|[k c] c1 IH]; intros edge; simpl; [tauto|]. rewrite next_hi_app, IH.
  destruct c1; simpl; tauto.
Qed.

(** Raising an upper bound. *)
Definition hi_le (h h' : option bytes) : Prop := ∀ k, below h k → below h' k.
Lemma hi_le_refl h : hi_le h h.
Proof. by intros k. Qed.
Lemma hi_le_Some a b : a ≼ b → hi_le (Some a) (Some b).
Proof. intros H k Hk. simpl in *. by eapply blt_ble_trans. Qed.

Lemma within_hi lo h h' k : hi_le h h' → within lo h k → within lo h' k.
Proof. intros H (? & ? & ?). split_and!; auto. Qed.

Lemma good_hi t : ∀ lo h h', hi_le h h' → good lo h t → good lo h' t.
Proof.
  induction t as [l m kvs|l m cs IH] using mtree_nested_ind; intros lo h h' Hh.
  - intros (? & ? & H). split_and!; auto. eapply Forall_impl; [exact H|]. eauto using within_hi.
  - rewrite !good_Branch. intros (H1 & H2 & H3 & H4 & H5 & H6). split_and!; auto.
    { eapply Forall_impl; [exact H3|]. eauto using within_hi. }
    clear H1 H2 H3 H4 H5. revert H6. generalize (edge_of lo). induction cs as [|[k c] cs IHcs]; intros e; [done|].
    apply Forall_cons in IH as [IHc IH]. intros [Hc Hk]. split; [|by apply IHcs].
    eapply IHc; [|exact Hc]. destruct cs as [|[]]; [done|apply hi_le_refl].
Qed.

Lemma kids_hi h h' e cs : hi_le h h' → kids h e cs → kids h' e cs.
Proof.
  intros Hh. revert e. induction cs as [|[k c] cs IH]; intros e; [done|]. intros [Hc Hk]. split; [|by apply IH].
  eapply good_hi; [|exact Hc]. destruct cs as [|[]]; [done|apply hi_le_refl].
Qed.

(** The lower bound of a branch may be raised to its first separator. *)
Lemma good_lo_head lo hi l m k c cs :
  lo ≠ None → good lo hi (MBranch l m ((k, c) :: cs)) → good (Some k) hi (MBranch l m ((k, c) :: cs)).
Proof.
  rewrite !good_Branch. destruct lo as [a|]; [|done]. intros _ (H1 & H2 & H3 & H4 & H5 & H6). split_and!; auto.
  cbn [fmap list_fmap fst] in H2, H3 |- *. apply StronglySorted_inv in H2 as [_ H2]. apply Forall_cons in H3 as [(H31 & H32 & H33) H3].
  constructor; [split_and!; auto; apply ble_refl|].
  rewrite Forall_forall in H3, H2 |- *. intros x Hx. destruct (H3 x Hx) as (? & ? & ?). split_and!; auto. simpl. by apply blt_ble, H2.
Qed.

Lemma flat_plains_cons k c cs : flat (plains ((k, c) :: cs)) = contents (plain c) ++ flat (plains cs).
Proof. done. Qed.
Lemma contents_plain l m cs : contents (plain (MBranch l m cs)) = flat (plains cs).
Proof. done. Qed.
Lemma plains_app c1 c2 : plains (c1 ++ c2) = plains c1 ++ plains c2.
Proof. apply map_app. Qed.
Lemma plains_fst cs : (plains cs).*1 = cs.*1.
Proof. unfold plains. rewrite <- list_fmap_compose. by apply list_fmap_ext. Qed.

(** Every pair is within the bounds. *)
Lemma shape_within t : ∀ lo hi, shape lo hi t → ∀ x, x ∈ keys (contents (plain t)) → within lo hi x.
Proof.
  induction t as [l m kvs|l m cs IH] using mtree_nested_ind; intros lo hi.
  - intros (_ & _ & H) x Hx. rewrite Forall_forall in H. by apply H.
  - rewrite shape_Branch, contents_plain. intros (_ & Hs & Hr & _ & Hk).
    assert (Hgen : ∀ e, (e = true → lo = None) → skids hi e cs → ∀ x, x ∈ keys (flat (plains cs)) → within lo hi x).
    { clear Hk. induction cs as [|[k c] cs IHcs]; intros e He; [by intros _ x ?%elem_of_nil|]. intros [Hc Hk] x.
      apply Forall_cons in IH as [IHc IH]. cbn [fmap list_fmap fst] in Hs, Hr. apply StronglySorted_inv in Hs as [Hs Hlt].
      apply Forall_cons in Hr as [(Hk1 & Hk2 & Hk3) Hr]. rewrite flat_plains_cons, keys_app, elem_of_app. intros [Hx|Hx].
      - destruct (IHc _ _ Hc x Hx) as (Hx1 & Hx2 & Hx3). split; [done|]. split.
        + destruct e; [by rewrite He|]. simpl in Hx2. destruct lo as [a|]; [|done]. simpl in *. by eapply ble_trans.
        + destruct cs as [|[k' c'] cs]; [done|]. simpl in Hx3. destruct hi as [b|]; [|done]. simpl.
          apply Forall_cons in Hr as [(_ & _ & Hb) _]. simpl in Hb. by eapply blt_trans.
      - eapply (IHcs IH Hs Hr false); [done|done|exact Hx]. }
    eapply (Hgen (edge_of lo)); [by destruct lo|done].
Qed.

(** The invariant gives a well-formed tree. *)
Lemma skids_seps hi e cs : ssorted cs.*1 → skids hi e cs → seps_ok (plains cs).
Proof.
  revert e. induction cs as [|[k c] cs IH]; intros e Hs Hk; [done|]. cbn [fmap list_fmap fst] in Hs.
  apply StronglySorted_inv in Hs as [Hs Hlt]. destruct Hk as [Hc Hk]. cbn [plains map seps_ok fst snd]. fold (plains cs).
  split_and!; [| |by eapply IH].
  - apply Forall_forall. intros x Hx. destruct (shape_within _ _ _ Hc x Hx) as (_ & _ & Hb). destruct cs as [|[k' c'] cs]; [constructor|].
    simpl in Hb. constructor; [done|]. cbn [fmap list_fmap fst] in Hs. apply StronglySorted_inv in Hs as [_ Hlt'].
    apply Forall_forall. intros [k2 c2] Hin. simpl. assert (Hk2 : k2 ∈ cs.*1).
    { rewrite <- plains_fst. by apply (list_elem_of_fmap_2 fst (plains cs) (k2, c2)). }
    rewrite Forall_forall in Hlt'. by eapply blt_trans, Hlt'.
  - clear IH Hc Hlt. induction cs as [|[k' c'] cs IHcs]; [constructor|]. destruct Hk as [Hc Hk]. cbn [fmap list_fmap fst] in Hs.
    apply StronglySorted_inv in Hs as [Hs _]. constructor; [|by apply IHcs]. simpl. apply Forall_forall. intros x Hx.
    by destruct (shape_within _ _ _ Hc x Hx) as (_ & ? & _).
Qed.

Lemma skids_lookup hi e cs p : skids hi e cs → p ∈ cs → ∃ lo' hi', shape lo' hi' p.2.
Proof.
  revert e. induction cs as [|[k c] cs IH]; intros e Hk Hp; [by apply elem_of_nil in Hp|]. destruct Hk as [Hc Hk].
  apply elem_of_cons in Hp as [->|Hp]; [eauto|by eapply IH].
Qed.

Lemma shape_wf t : ∀ lo hi, shape lo hi t → wf (plain t).
Proof.
  induction t as [l m kvs|l m cs IH] using mtree_nested_ind; intros lo hi.
  - intros (_ & Hs & Hr). split; [done|]. eapply Forall_impl; [exact Hr|]. by intros k [? _].
  - rewrite shape_Branch. intros (Hne & Hs & Hr & _ & Hk). cbn [plain]. apply wf_Branch. fold (plains cs). split_and!.
    + by destruct cs.
    + by rewrite plains_fst.
    + rewrite plains_fst. eapply Forall_impl; [exact Hr|]. by intros k [? _].
    + by eapply skids_seps.
    + unfold plains. apply Forall_map. simpl. rewrite Forall_forall in IH |- *. intros p Hp.
      destruct (skids_lookup _ _ _ _ Hk Hp) as (lo' & hi' & Hg). by eapply IH.
Qed.

Lemma kids_lookup hi e cs p : kids hi e cs → p ∈ cs → ∃ lo' hi', good lo' hi' p.2.
Proof.
  revert e. induction cs as [|[k c] cs IH]; intros e Hk Hp; [by apply elem_of_nil in Hp|]. destruct Hk as [Hc Hk].
  apply elem_of_cons in Hp as [->|Hp]; [eauto|by eapply IH].
Qed.

Lemma good_wf t lo hi : good lo hi t → wf (plain t).
Proof. intros H. by eapply shape_wf, good_shape. Qed.

(** ** Before the commit *)

(** Nothing is finalized yet, and branches are still at their first separators. *)
Fixpoint unspilled (t : mtree) : Prop :=
  match t with
  | MLeaf _ m _ => m ≠ Spilled
  | MBranch _ m cs => m ≠ Spilled ∧ foldr (λ p Q, ((tleaf (plain p.2) = false → p.1 = mhead p.2) ∧ unspilled p.2) ∧ Q) True cs
  end.
Definition at_head (p : bytes * mtree) : Prop := tleaf (plain p.2) = false → p.1 = mhead p.2.

Lemma unspilled_Branch l m cs : unspilled (MBranch l m cs) ↔ m ≠ Spilled ∧ Forall (λ p, at_head p ∧ unspilled p.2) cs.
Proof.
  cbn [unspilled]. assert (foldr (λ p Q, ((tleaf (plain p.2) = false → p.1 = mhead p.2) ∧ unspilled p.2) ∧ Q) True cs ↔
    Forall (λ p, at_head p ∧ unspilled p.2) cs) as ->; [|done].
  induction cs as [|p cs IH]; simpl; [done|]. by rewrite Forall_cons, IH.
Qed.

(** ** Finalizing one node *)

(** The children that replace the finalized child [c] at [k]. *)
Record settles (k : bytes) (c : mtree) (new : list (bytes * mtree)) : Prop := mkSettles {
  st_after : new.*1 = after k c;
  st_done : Forall (λ p, mmark p.2 = Spilled ∧ p.1 = mhead p.2) new;
  st_contents : flat (plains new) = contents (plain c);
  st_good : ∀ lo hi, good lo hi c → new ≠ [] ∧ ssorted new.*1 ∧ Forall (within lo hi) new.*1 ∧ kids hi (edge_of lo) new
}.

Lemma seps_after_app c1 c2 : seps_after (c1 ++ c2) = seps_after c1 ++ seps_after c2.
Proof. unfold seps_after. by rewrite map_app, concat_app. Qed.

Lemma after_done k c : mmark c ≠ Pending → after k c = [k].
Proof. destruct c; simpl; intros H; by rewrite decide_False. Qed.

Lemma seps_after_done cs : Forall (λ p, mmark p.2 ≠ Pending) cs → seps_after cs = cs.*1.
Proof.
  induction 1 as [|[k c] cs Hc _ IH]; [done|]. change (seps_after ((k, c) :: cs)) with (after k c ++ seps_after cs).
  by rewrite IH, after_done.
Qed.

Lemma settles_after k c new : settles k c new → seps_after new = after k c.
Proof.
  intros [Ha Hd _ _]. rewrite <- Ha. apply seps_after_done. eapply Forall_impl; [exact Hd|]. by intros p [-> _].
Qed.

(** The lower bound of a child is its separator, except at the left edge. *)
Lemma settle_good lo hi l pre k c post new :
  good lo hi (MBranch l Pending (pre ++ (k, c) :: post)) → settles k c new → good lo hi (MBranch l Pending (pre ++ new ++ post)).
Proof.
  intros Hg Hst. pose proof (settles_after _ _ _ Hst) as Haf. destruct Hst as [Ha Hd _ Hgood].
  apply good_Branch in Hg as (_ & Hs & Hr & Hm & Hf & Hk). apply kids_app in Hk as [Hkpre [Hc Hkpost]].
  destruct (Hgood _ _ Hc) as (Hne & Hns & Hnr & Hnk).
  rewrite fmap_app, fmap_cons in Hs, Hr. cbn [fst] in Hs, Hr. apply ssorted_app in Hs as (Hs1 & Hs2 & Hs12).
  apply StronglySorted_inv in Hs2 as [Hs2 Hs2']. apply Forall_app in Hr as [Hr1 Hr2]. apply Forall_cons in Hr2 as [Hrk Hr2].
  assert (Hlow : pre ≠ [] → ∀ y, y ∈ new.*1 → k ≼ y).
  { intros Hp y Hy. rewrite Forall_forall in Hnr. destruct (Hnr y Hy) as (_ & Hab & _). by destruct pre. }
  assert (Hhigh : ∀ y z, y ∈ new.*1 → z ∈ post.*1 → y ≺ z).
  { intros y z Hy Hz. rewrite Forall_forall in Hnr. destruct (Hnr y Hy) as (_ & _ & Hb). destruct post as [|[k2 c2] post]; [by apply elem_of_nil in Hz|].
    simpl in Hb. apply elem_of_cons in Hz as [->|Hz]; [done|]. apply StronglySorted_inv in Hs2 as [_ Hlt]. rewrite Forall_forall in Hlt.
    by eapply blt_trans, Hlt. }
  assert (Hbel : ∀ y, y ∈ new.*1 → below hi y).
  { intros y Hy. rewrite Forall_forall in Hnr. destruct (Hnr y Hy) as (_ & _ & Hb). destruct post as [|[k2 c2] post]; [done|].
    simpl in Hb. apply Forall_cons in Hr2 as [(_ & _ & Hb2) _]. simpl in Hb2. destruct hi as [h|]; [|done]. simpl in *. by eapply blt_trans. }
  assert (Habo : ∀ y, y ∈ new.*1 → above lo y).
  { intros y Hy. destruct lo as [a|]; [|done]. simpl. assert (Hky : k ≼ y).
    { rewrite Forall_forall in Hnr. destruct (Hnr y Hy) as (_ & Hab & _). by destruct pre. }
    destruct Hrk as (_ & Hak & _). simpl in Hak. by eapply ble_trans. }
  apply good_Branch. split_and!.
  - destruct pre; [|done]. by destruct new.
  - rewrite !fmap_app. apply ssorted_app. split_and!; [done|apply ssorted_app; split_and!; [done|done|exact Hhigh]|].
    intros x y Hx [Hy|Hy]%elem_of_app.
    + eapply blt_ble_trans; [apply (Hs12 x k Hx); by left|]. apply Hlow; [|done]. intros ->. by apply elem_of_nil in Hx.
    + apply Hs12; [done|by right].
  - rewrite !fmap_app. apply Forall_app. split; [done|]. apply Forall_app. split; [|done]. apply Forall_forall. intros y Hy.
    split_and!; [|by apply Habo|by apply Hbel]. rewrite Forall_forall in Hnr. by destruct (Hnr y Hy).
  - apply Forall_app in Hm as [Hm1 Hm2]. apply Forall_cons in Hm2 as [_ Hm2]. apply Forall_app. split; [done|].
    apply Forall_app. split; [|done]. eapply Forall_impl; [exact Hd|]. intros p [Hp1 Hp2]. by split_and!.
  - intros _. rewrite !seps_after_app, Haf. rewrite seps_after_app in Hf. by apply Hf.
  - apply kids_app. split.
    + destruct pre as [|q pre]; [done|]. eapply kids_hi; [|exact Hkpre]. destruct new as [|[k1 c1] new]; [done|]. simpl.
      apply hi_le_Some, Hlow; [done|]. by left.
    + apply kids_app. split.
      * destruct pre as [|q pre]; [|exact Hnk]. revert Hnk. by destruct (edge_of lo).
      * by destruct pre, new.
Qed.

(** A leaf is replaced by its pieces. *)
Definition spilled_leaf (l : loc) (g : list kv) : bytes * mtree := (first_key (leaf_inode <$> g), MLeaf l Spilled g).

Lemma first_key_leaf (p : kv) g : first_key (leaf_inode <$> p :: g) = p.1.
Proof. done. Qed.

Lemma leaf_pieces_good ls gs lo hi :
  length ls = length gs → Forall (λ g, g ≠ []) gs → ssorted (keys (concat gs)) → Forall (within lo hi) (keys (concat gs)) → gs ≠ [] →
  zip_with spilled_leaf ls gs ≠ [] ∧ ssorted (zip_with spilled_leaf ls gs).*1 ∧
  Forall (within lo hi) (zip_with spilled_leaf ls gs).*1 ∧ kids hi (edge_of lo) (zip_with spilled_leaf ls gs).
Proof.
  revert ls lo. induction gs as [|g gs IH]; intros [|l ls] lo Hlen Hne Hs Hr Hnil; try done. clear Hnil.
  apply Forall_cons in Hne as [Hg Hne]. cbn [concat] in Hs, Hr. rewrite keys_app in Hs, Hr. apply ssorted_app in Hs as (Hs1 & Hs2 & Hlt).
  apply Forall_app in Hr as [Hr1 Hr2]. destruct g as [|[k v] g]; [done|]. cbn [zip_with]. unfold spilled_leaf at 1 3 5 7.
  rewrite first_key_leaf. cbn [fst fmap list_fmap]. injection Hlen as Hlen.
  pose proof Hr1 as [Hk0 Hr1']%Forall_cons. pose proof Hs1 as [Hs1' Hlt1]%StronglySorted_inv.
  (* bounds of the first piece *)
  assert (Hrest : gs = [] ∨ (zip_with spilled_leaf ls gs ≠ [] ∧ ssorted (zip_with spilled_leaf ls gs).*1 ∧
    Forall (λ y, y ∈ keys (concat gs)) (zip_with spilled_leaf ls gs).*1 ∧ kids hi false (zip_with spilled_leaf ls gs))).
  { destruct gs as [|g' gs']; [by left|right]. destruct g' as [|[k' v'] g']; [by apply Forall_cons in Hne as [? _]|].
    destruct (IH ls (Some k') Hlen Hne Hs2) as (H1 & H2 & H3 & H4); [|done|].
    - cbn [concat app] in Hs2, Hr2 |- *. pose proof Hs2 as [_ Hlt2]%StronglySorted_inv. rewrite Forall_forall in Hr2. rewrite Forall_forall in Hlt2.
      apply Forall_forall. intros y Hy. destruct (Hr2 y Hy) as (? & ? & ?). split_and!; auto. simpl.
      apply elem_of_cons in Hy as [->|Hy]; [apply ble_refl|by apply blt_ble, Hlt2].
    - split_and!; auto. clear -Hne Hlen. revert ls Hlen. generalize (((k', v') :: g') :: gs') as gs, Hne. clear.
      intros gs Hne ls Hlen. apply Forall_fmap, Forall_forall. intros q (i & l' & g & -> & _ & Hg)%elem_of_lookup_zip_with.
      apply list_elem_of_lookup_2 in Hg. rewrite Forall_forall in Hne. specialize (Hne g Hg). destruct g as [|[a b] g]; [done|].
      simpl. apply list_elem_of_fmap. exists (a, b). split; [done|]. apply elem_of_concat. exists ((a, b) :: g). split; [done|by left]. }
  assert (Hup : ∀ y, y ∈ keys ((k, v) :: g) → below (next_hi hi (zip_with spilled_leaf ls gs)) y).
  { intros y Hy. destruct Hrest as [->|(Hz & _ & Hin & _)].
    - rewrite Forall_forall in Hr1. destruct ls; by destruct (Hr1 y Hy) as (_ & _ & ?).
    - destruct (zip_with spilled_leaf ls gs) as [|[k2 c2] rest]; [done|]. simpl. apply Forall_cons in Hin as [Hin _].
      apply Hlt; done. }
  assert (Hsort : ssorted (k :: (zip_with spilled_leaf ls gs).*1)).
  { constructor.
    - destruct Hrest as [->|(_ & ? & _)]; [|done]. destruct ls; constructor.
    - destruct Hrest as [->|(_ & _ & Hin & _)]; [destruct ls; constructor|]. rewrite Forall_forall in Hin |- *. intros y Hy.
      apply Hlt; [by left|by apply Hin]. }
  assert (Hkeep : kids hi false (zip_with spilled_leaf ls gs)).
  { destruct Hrest as [->|(_ & _ & _ & ?)]; [|done]. by destruct ls. }
  assert (Hleaf : ∀ lo', (lo' = None ∨ lo' = Some k) → good lo' (next_hi hi (zip_with spilled_leaf ls gs)) (MLeaf l Spilled ((k, v) :: g))).
  { intros lo' Hlo'. split_and!; [done|done|]. rewrite Forall_forall in Hr1. apply Forall_forall. intros y Hy.
    destruct (Hr1 y Hy) as (? & _ & _). split_and!; [done| |by apply Hup]. destruct Hlo' as [-> | ->]; [done|]. simpl.
    apply elem_of_cons in Hy as [->|Hy]; [apply ble_refl|]. rewrite Forall_forall in Hlt1. by apply blt_ble, Hlt1. }
  split_and!; [done|done| |].
  - constructor; [done|]. destruct Hrest as [->|(_ & _ & Hin & _)]; [destruct ls; constructor|]. rewrite Forall_forall in Hin, Hr2 |- *. auto.
  - simpl. split; [|done]. apply Hleaf. destruct (edge_of lo); auto.
Qed.

Lemma settles_leaf k l kvs ls gs :
  leaf_pieces kvs = (λ g : list kv, leaf_inode <$> g) <$> gs → concat gs = kvs → Forall (λ g, g ≠ []) gs → gs ≠ [] →
  length ls = length gs → settles k (MLeaf l Pending kvs) (zip_with spilled_leaf ls gs).
Proof.
  intros Hp Hc Hne Hnil Hlen. split.
  - simpl. rewrite Hp, <- list_fmap_compose. clear -Hlen. revert ls Hlen. induction gs as [|g gs IH]; intros [|l ls] Hlen; try done.
    simpl. f_equal. apply IH. by injection Hlen.
  - apply Forall_forall. by intros q (i & l' & g & -> & _)%elem_of_lookup_zip_with.
  - simpl. rewrite <- Hc. clear -Hlen. revert ls Hlen. induction gs as [|g gs IH]; intros [|l ls] Hlen; try done.
    cbn [zip_with concat]. unfold spilled_leaf at 1. rewrite flat_plains_cons. simpl. f_equal. apply IH. by injection Hlen.
  - intros lo hi (_ & Hs & Hr). subst kvs. by apply leaf_pieces_good.
Qed.

Lemma settles_branch k l cs :
  Forall (λ p, mmark p.2 ≠ Pending) cs → cs ≠ [] →
  settles k (MBranch l Pending cs) [(hd [] cs.*1, MBranch l Spilled cs)].
Proof.
  intros Hd Hne. destruct cs as [|[k0 c0] cs]; [done|]. split.
  - apply Forall_cons in Hd as [Hd _]. simpl. rewrite after_done by done. done.
  - by repeat constructor.
  - cbn [plains map flat concat fst snd]. unfold flat. simpl. by rewrite app_nil_r.
  - intros lo hi Hg. pose proof Hg as (_ & _ & Hr & Hm & Hf & Hk)%good_Branch.
    assert (Hg' : good lo hi (MBranch l Spilled ((k0, c0) :: cs))).
    { apply good_Branch in Hg as (H1 & H2 & H3 & H4 & H5 & H6). apply good_Branch. split_and!; auto.
      unfold marks_ok in *. rewrite Forall_forall in H4, Hd |- *. intros p Hp. destruct (H4 p Hp) as (_ & _ & ?). split_and!; auto. done. }
    cbn [fmap list_fmap fst hd] in Hr |- *. apply Forall_cons in Hr as [Hr _]. split_and!; [done|constructor; constructor|by constructor; [|constructor]|].
    cbn [kids next_hi]. split; [|done]. destruct lo as [a|]; [|exact Hg']. by apply (good_lo_head (Some a)).
Qed.

(** ** Contexts *)

Record frame := mkFrame { fr_loc : loc; fr_mark : mark; fr_pre : list (bytes * mtree); fr_key : bytes; fr_post : list (bytes * mtree) }.
Definition wrap (f : frame) (t : mtree) : mtree :=
  MBranch (fr_loc f) (fr_mark f) (fr_pre f ++ (fr_key f, t) :: fr_post f).

(** From the node up: the first frame is the parent. *)
Fixpoint fill (C : list frame) (t : mtree) : mtree :=
  match C with [] => t | f :: C' => fill C' (wrap f t) end.

Lemma good_inner C : ∀ t lo hi, good lo hi (fill C t) → ∃ lo' hi', good lo' hi' t.
Proof.
  induction C as [|[l m pre k post] C IH]; intros t lo hi Hg; simpl in *; [eauto|].
  destruct (IH _ _ _ Hg) as (lo' & hi' & (_ & _ & _ & _ & _ & Hk)%good_Branch).
  apply (kids_lookup hi' (edge_of lo') (pre ++ (k, t) :: post) (k, t)); [done|]. apply elem_of_app. right. left.
Qed.

Lemma wrap_pending lo hi f t : good lo hi (wrap f t) → mmark t = Pending → fr_mark f = Pending.
Proof.
  destruct f as [l m pre k post]. intros (_ & _ & _ & Hmk & _)%good_Branch Hm. unfold marks_ok in Hmk. rewrite Forall_forall in Hmk.
  destruct (Hmk (k, t)) as (H1 & H2 & _); [apply elem_of_app; right; left|]. simpl in *.
  destruct m; [by rewrite H1 in Hm|done|by destruct H2].
Qed.

(** Replacing the node in the hole by one with the same future. *)
Lemma good_fill C : ∀ t lo hi, good lo hi (fill C t) → mmark t = Pending →
  ∃ lo' hi', good lo' hi' t ∧ Forall (λ f, fr_mark f = Pending) C ∧
    ∀ t', good lo' hi' t' → mmark t' = Pending → (∀ k, after k t' = after k t) → good lo hi (fill C t').
Proof.
  induction C as [|f C IH]; intros t lo hi Hg Hm; simpl in *.
  { exists lo, hi. split_and!; [done|constructor|done]. }
  destruct (good_inner _ _ _ _ Hg) as (lo0 & hi0 & Hg0). pose proof (wrap_pending _ _ _ _ Hg0 Hm) as Hfm. clear Hg0 lo0 hi0.
  destruct (IH _ _ _ Hg Hfm) as (lo1 & hi1 & Hg1 & Hall & Hrep). destruct f as [l m pre k post]. simpl in Hfm. subst m.
  pose proof Hg1 as (Hne & Hs & Hr & Hmk & Hf & Hk)%good_Branch. pose proof Hk as [Hk1 [Hkt Hk2]]%kids_app.
  eexists _, _. split; [exact Hkt|]. split; [by constructor|]. intros t' Hg' Hm' Haf. apply Hrep; [|done|].
  - apply good_Branch. rewrite fmap_app, fmap_cons in Hs, Hr |- *. split_and!; auto.
    + by destruct pre.
    + apply Forall_app in Hmk as [Hm1 Hm2]. apply Forall_cons in Hm2 as [_ Hm2]. apply Forall_app. split; [done|]. constructor; [|done].
      simpl. rewrite Hm'. by split_and!.
    + intros H. specialize (Hf H). rewrite seps_after_app in Hf |- *. unfold seps_after at 2. unfold seps_after at 2 in Hf. simpl in Hf |- *. by rewrite Haf.
    + apply kids_app. split; [done|]. by split.
  - intros k'. destruct pre as [|[k0 c0] pre]; [|done]. simpl. by rewrite Haf.
Qed.

Lemma contents_fill C : ∀ t t', contents (plain t) = contents (plain t') → contents (plain (fill C t)) = contents (plain (fill C t')).
Proof.
  induction C as [|[l m pre k post] C IH]; intros t t' Heq; simpl; [done|]. apply IH. unfold wrap. simpl.
  rewrite !map_app, !concat_app. simpl. by rewrite Heq.
Qed.

Lemma pend_wrap f t : pend (wrap f t) = pend (wrap f (MLeaf 1 Clean [])) + pend t.
Proof. destruct f as [l m pre k post]. unfold wrap. simpl. rewrite !map_app, !list_sum_app. simpl. lia. Qed.

Lemma pend_fill C : ∀ t, pend (fill C t) = pend (fill C (MLeaf 1 Clean [])) + pend t.
Proof.
  induction C as [|f C IH]; intros t; simpl; [done|]. rewrite IH, (IH (wrap f (MLeaf 1 Clean []))), pend_wrap. lia.
Qed.

Lemma mheight_child cs p : p ∈ cs → mheight p.2 ≤ mheights cs.
Proof.
  intros Hp. unfold mheights. pose proof (proj1 (list_max_le (map (λ p, mheight p.2) cs) _) (le_n _)) as H.
  rewrite Forall_forall in H. apply H. by apply (list_elem_of_fmap_2 (λ p : bytes * mtree, mheight p.2)).
Qed.

Lemma mheight_fill C : ∀ t t', mheight t' ≤ mheight t → mheight (fill C t') ≤ mheight (fill C t).
Proof.
  induction C as [|[l m pre k post] C IH]; intros t t' H; simpl; [done|]. apply IH. unfold wrap. simpl.
  rewrite !map_app, !list_max_app. simpl. lia.
Qed.

Lemma mheight_sub C : ∀ t, mheight t ≤ mheight (fill C t).
Proof.
  induction C as [|[l m pre k post] C IH]; intros t; simpl; [done|]. etrans; [|apply IH]. unfold wrap. simpl.
  rewrite map_app, list_max_app. simpl. lia.
Qed.

(** Where a branch is. *)
Lemma branches_focus l n t : (l, n) ∈ branches t → ∃ C m cs, t = fill C (MBranch l m cs) ∧ length cs = n.
Proof.
  induction t as [l' m' kvs|l' m' cs' IH] using mtree_nested_ind; simpl; [by intros ?%elem_of_nil|].
  intros [[= -> ->]|Hin]%elem_of_cons; [by exists [], m', cs'|].
  apply elem_of_concat in Hin as (bs & (p & -> & Hp)%list_elem_of_fmap & Hin). rewrite Forall_forall in IH.
  destruct (IH p Hp Hin) as (C & m & cs & Heq & Hlen). apply list_elem_of_split in Hp as (pre & post & ->).
  exists (C ++ [mkFrame l' m' pre p.1 post]), m, cs. split; [|done]. destruct p as [k c]. simpl in *. subst c. clear.
  revert m cs. enough (∀ t, MBranch l' m' (pre ++ (k, fill C t) :: post) = fill (C ++ [mkFrame l' m' pre k post]) t) by auto.
  induction C as [|f C IH]; intros t; simpl; [done|]. apply IH.
Qed.

Lemma branches_wrap f t : ∀ q, q ∈ branches (wrap f t) ↔
  q = (fr_loc f, S (length (fr_pre f) + length (fr_post f))) ∨ q ∈ branches t ∨
  (∃ p, p ∈ fr_pre f ++ fr_post f ∧ q ∈ branches p.2).
Proof.
  destruct f as [l m pre k post]. intros q. unfold wrap. simpl. rewrite elem_of_cons, elem_of_concat, length_app. simpl.
  assert ((l, length pre + S (length post)) = (l, S (length pre + length post))) as -> by (f_equal; lia).
  split.
  - intros [->|(bs & (p & -> & Hp)%list_elem_of_fmap & Hq)]; [by left|]. apply elem_of_app in Hp as [Hp|[->|Hp]%elem_of_cons].
    + right; right. exists p. split; [set_solver|done].
    + by right; left.
    + right; right. exists p. split; [set_solver|done].
  - intros [->|[Hq|(p & Hp & Hq)]]; [by left|right|right].
    + exists (branches t). split; [|done]. apply list_elem_of_fmap. exists (k, t). split; [done|set_solver].
    + exists (branches p.2). split; [|done]. apply list_elem_of_fmap. exists p. split; [done|set_solver].
Qed.

(** Branches only get more children. *)
Definition grows (t t' : mtree) : Prop := ∀ l n, (l, n) ∈ branches t → ∃ n', n ≤ n' ∧ (l, n') ∈ branches t'.

Lemma grows_refl t : grows t t.
Proof. intros l n H. eauto. Qed.
Lemma grows_trans t1 t2 t3 : grows t1 t2 → grows t2 t3 → grows t1 t3.
Proof. intros H1 H2 l n (n2 & ? & (n3 & ? & ?)%H2)%H1. exists n3. split; [lia|done]. Qed.
Lemma grows_fill C : ∀ t t', grows t t' → grows (fill C t) (fill C t').
Proof.
  induction C as [|f C IH]; intros t t' H; simpl; [done|]. apply IH. intros l n [Heq|[(n' & ? & ?)%H|Hp]]%branches_wrap.
  - exists n. split; [done|]. apply branches_wrap. by left.
  - exists n'. split; [done|]. apply branches_wrap. by right; left.
  - exists n. split; [done|]. apply branches_wrap. by right; right.
Qed.
End marked.
#[global] Arguments good : simpl never.
