(* ===== verification/MarkedPath.v ===== *)
(** * Paths in marked trees

    The node at the end of a path of child indices, seen through the context that
    the path makes, the interval of keys its place in the tree allows, and what
    may replace it there. *)
From S2P Require Import Prelude GoSort Stats World Node KV Tree TreePath CowSpec Regroup Marked.
Local Open Scope bytes_scope.

(** ** Contexts of paths *)

Definition cpath (C : list frame) : list nat := (λ f, length (fr_pre f)) <$> reverse C.

Lemma cpath_cons f C : cpath (f :: C) = cpath C ++ [length (fr_pre f)].
Proof. unfold cpath. by rewrite reverse_cons, fmap_app. Qed.

Lemma fill_app C1 C2 t : fill (C1 ++ C2) t = fill C2 (fill C1 t).
Proof. revert t. induction C1 as [|f C1 IH]; intros t; simpl; [done|]. apply IH. Qed.

(** Every path leads to a context. *)
Lemma path_focus p : ∀ t T, at_path (plain t) p = Some T → ∃ C u, t = fill C u ∧ plain u = T ∧ cpath C = p.
Proof.
  induction p as [|i p IH]; intros t T; simpl; [intros [= <-]; by exists [], t|].
  destruct t as [|l m cs]; simpl; [done|]. change (map ?f cs) with (f <$> cs). rewrite list_lookup_fmap.
  destruct (cs !! i) as [[k c]|] eqn:Hi; [|done]. simpl. intros (C & u & -> & Hu & Hp)%IH.
  exists (C ++ [mkFrame l m (take i cs) k (drop (S i) cs)]), u. rewrite fill_app. split_and!; [|done|].
  - simpl. unfold wrap. simpl. f_equal. symmetry. by apply take_drop_middle.
  - unfold cpath in *. rewrite reverse_snoc. cbn [fmap list_fmap fr_pre]. rewrite Hp. f_equal. apply length_take_le.
    apply lookup_lt_Some in Hi. lia.
Qed.

(** The search for [key] goes through the frame. *)
Definition leads (key : bytes) (f : frame) : Prop :=
  (fr_pre f = [] ∨ fr_key f ≼ key) ∧ Forall (λ p, key ≺ p.1) (fr_post f).

Lemma at_path_fill C : ∀ t p, at_path (plain (fill C t)) (cpath C ++ p) = at_path (plain t) p.
Proof.
  induction C as [|f C IH]; intros t p; [done|]. rewrite cpath_cons, <- app_assoc. simpl. rewrite IH. destruct f as [l m pre k post]. simpl.
  change (map ?f ?l) with (f <$> l). by rewrite fmap_app, lookup_app_r, length_fmap, Nat.sub_diag by (by rewrite length_fmap).
Qed.

Lemma path_ok_app t p q key u : at_path t p = Some u → path_ok t (p ++ q) key → path_ok t p key ∧ path_ok u q key.
Proof.
  revert t. induction p as [|i p IH]; intros t; simpl; [by intros [= <-]|].
  destruct t as [|l cs]; [done|]. destruct (cs !! i) as [[k c]|]; [|done]. intros Hat (H1 & H2 & H3).
  destruct (IH _ Hat H3). by split_and!.
Qed.

Lemma leads_fill key C : ∀ t, path_ok (plain (fill C t)) (cpath C) key → Forall (leads key) C.
Proof.
  induction C as [|f C IH]; intros t Hp; [constructor|]. rewrite cpath_cons in Hp. simpl in Hp.
  assert (Hat : at_path (plain (fill C (wrap f t))) (cpath C) = Some (plain (wrap f t))) by (by rewrite <- (app_nil_r (cpath C)), at_path_fill).
  destruct (path_ok_app _ _ _ _ _ Hat Hp) as [Hp1 Hp2].
  constructor; [|by eapply IH]. destruct f as [l m pre k post]. simpl in Hp2. change (map ?f ?l) with (f <$> l) in Hp2.
  rewrite fmap_app, fmap_cons in Hp2. rewrite lookup_app_r in Hp2 by (by rewrite length_fmap). rewrite length_fmap, Nat.sub_diag in Hp2.
  simpl in Hp2. destruct Hp2 as (H1 & H2 & _). split; simpl.
  - destruct H1 as [H1|H1]; [left|by right]. by destruct pre.
  - apply Forall_forall. intros [k' c'] (j & Hj)%list_elem_of_lookup. apply (H2 (S (length pre + j)) k' (plain c')); [lia|].
    rewrite lookup_app_r by (rewrite length_fmap; lia). rewrite length_fmap. replace (S (length pre + j) - length pre) with (S j) by lia. simpl.
    by rewrite list_lookup_fmap, Hj.
Qed.

(** ** The interval of a hole *)

Fixpoint bounds (C : list frame) : option bytes * option bytes :=
  match C with
  | [] => (None, None)
  | f :: C' =>
      let '(lo, hi) := bounds C' in
      (match fr_pre f, lo with [], None => None | _, _ => Some (fr_key f) end, next_hi hi (fr_post f))
  end.

Lemma skids_app hi edge c1 c2 :
  skids hi edge (c1 ++ c2) ↔ skids (next_hi hi c2) edge c1 ∧ skids hi (match c1 with [] => edge | _ => false end) c2.
Proof.
  revert edge. induction c1 as [|[k c] c1 IH]; intros edge; simpl; [tauto|]. rewrite next_hi_app, IH.
  destruct c1; simpl; tauto.
Qed.

Lemma bounds_cons f C : bounds (f :: C) =
  (if match fr_pre f with [] => edge_of (bounds C).1 | _ => false end then None else Some (fr_key f), next_hi (bounds C).2 (fr_post f)).
Proof. simpl. destruct (bounds C) as [[a|] hi], (fr_pre f); done. Qed.

Lemma shape_fill C : ∀ t, shape None None (fill C t) → shape (bounds C).1 (bounds C).2 t.
Proof.
  induction C as [|f C IH]; intros t Hs; [done|]. simpl in Hs. apply IH in Hs. rewrite bounds_cons. destruct f as [l m pre k post].
  apply shape_Branch in Hs as (_ & _ & _ & _ & Hk). apply skids_app in Hk as [_ [Hc _]]. exact Hc.
Qed.

(** The frame allows a child with the mark and first key of [t]. *)
Definition admits (f : frame) (t : mtree) : Prop := marks_ok (fr_mark f) [(fr_key f, t)].

Lemma shape_wrap lo hi f t t' :
  shape lo hi (wrap f t) →
  shape (if match fr_pre f with [] => edge_of lo | _ => false end then None else Some (fr_key f)) (next_hi hi (fr_post f)) t' →
  admits f t' → shape lo hi (wrap f t').
Proof.
  destruct f as [l m pre k post]. unfold wrap. cbn [fr_loc fr_mark fr_pre fr_key fr_post]. rewrite !shape_Branch, !fmap_app, !fmap_cons. intros (_ & H2 & H3 & H4 & H5) Ht' Hm.
  apply skids_app in H5 as [H5 [_ H6]]. apply Forall_app in H4 as [H41 H42]. apply Forall_cons in H42 as [_ H42].
  split_and!; [by destruct pre|done|done| |].
  - apply Forall_app. split; [done|]. constructor; [|done]. by apply Forall_cons in Hm as [? _].
  - apply skids_app. split; [done|]. by split.
Qed.

Lemma mhead_wrap f t t' : mhead (wrap f t') = mhead (wrap f t).
Proof. unfold wrap. simpl. by rewrite !fmap_app, !fmap_cons. Qed.

Lemma shape_refill C : ∀ t t', shape None None (fill C t) → shape (bounds C).1 (bounds C).2 t' →
  match C with [] => True | f :: _ => admits f t' end → shape None None (fill C t').
Proof.
  induction C as [|f C IH]; intros t t' Hs Ht' Hm; [done|]. cbn [fill] in *. pose proof (shape_fill C _ Hs) as Hf.
  apply (IH (wrap f t)); [done| |].
  - eapply shape_wrap; [exact Hf| |done]. rewrite bounds_cons in Ht'. exact Ht'.
  - destruct C as [|g C]; [done|]. simpl in Hs. apply shape_fill in Hs. apply shape_Branch in Hs as (_ & _ & _ & Hmk & _).
    apply Forall_app in Hmk as [_ Hmk]. apply Forall_cons in Hmk as [Hmk _]. unfold admits, marks_ok. constructor; [|constructor].
    cbn [fst snd] in *. by rewrite (mhead_wrap f t t').
Qed.

Lemma unspilled_fill C : ∀ t, unspilled (fill C t) → unspilled t.
Proof.
  induction C as [|f C IH]; intros t; [done|]. intros [_ H]%IH%unspilled_Branch. apply Forall_app in H as [_ H]. by apply Forall_cons in H as [[_ ?] _].
Qed.

Lemma unspilled_refill C : ∀ t t', unspilled (fill C t) → unspilled t' →
  match C with [] => True | f :: _ => at_head (fr_key f, t') end → unspilled (fill C t').
Proof.
  induction C as [|f C IH]; intros t t' Hs Ht' Hh; [done|]. cbn [fill] in *. pose proof (unspilled_fill C _ Hs) as [Hm Hf]%unspilled_Branch.
  apply Forall_app in Hf as [Hf1 Hf2]. apply Forall_cons in Hf2 as [_ Hf2].
  apply (IH (wrap f t)); [done| |].
  - apply unspilled_Branch. split; [done|]. apply Forall_app. split; [done|]. by constructor.
  - destruct C as [|g C]; [done|]. simpl in Hs. apply unspilled_fill, unspilled_Branch in Hs as [_ Hs]. apply Forall_app in Hs as [_ Hs].
    apply Forall_cons in Hs as [[Hs _] _]. intros _. cbn [fst snd]. rewrite (mhead_wrap f t t'). by apply Hs.
Qed.

(** The key that the search led here is allowed here. *)
Lemma within_bounds key C : ∀ t, shape None None (fill C t) → unspilled (fill C t) → key ≠ [] → Forall (leads key) C →
  within (bounds C).1 (bounds C).2 key.
Proof.
  induction C as [|f C IH]; intros t Hs Hu Hne Hl; [done|]. apply Forall_cons in Hl as [[Hlo Hhi] Hl]. simpl in Hs, Hu.
  destruct (IH _ Hs Hu Hne Hl) as (_ & Ha & Hb). rewrite bounds_cons. split; [done|]. split.
  - cbn [fst]. destruct f as [l m pre k post]. simpl in Hlo. cbn [fr_pre fr_key]. destruct pre as [|q pre].
    + destruct C as [|g C]; [done|]. rewrite bounds_cons in Ha |- *. cbn [fst] in Ha |- *.
      destruct (match fr_pre g with [] => edge_of (bounds C).1 | _ => false end); [done|]. simpl in Ha |- *.
      simpl in Hu. apply unspilled_fill, unspilled_Branch in Hu as [_ Hu]. apply Forall_app in Hu as [_ Hu].
      apply Forall_cons in Hu as [[Hg _] _]. specialize (Hg eq_refl). simpl in Hg. by rewrite Hg in Ha.
    + by destruct Hlo as [?|?].
  - cbn [snd]. destruct (fr_post f) as [|[k' c'] post]; [done|]. by apply Forall_cons in Hhi as [? _].
Qed.
