(* ===== verification/SpillTree.v ===== *)
(** * Finalizing a tree of several levels

    [finalize] on the tree of a bucket whose root is a branch.  A child that has
    been finalized finalizes its parent, so the first pending leaf that is
    reached finishes the whole tree while the loops above it are still running;
    [FinalizeTree] says so, and that every loop then ends without harm.  The
    condition is that no branch outgrows its node ([fits] in [good]): the
    theorem [Defects.branch_split_panics] shows what happens otherwise. *)
From S2P Require Import Prelude GoSort Stats World Node KV Tree Cursor Cow Bucket Spill CowSpec Regroup Frame FrameSpill SpillSpec Marked.
Local Open Scope st_scope.

Lemma tloc_plain t : tloc (plain t) = mloc t.
Proof. by destruct t. Qed.

(** ** Marked trees in the node store *)

(** The node [n] at [l] carries the mark [m]: [D] is the dirty set, [par] the
    parent and [key] the separator in it. *)
Definition marked_node (D : gset loc) (par : option loc) (key : option bytes) (l : loc) (m : mark) (n : node) : Prop :=
  (∀ k, key = Some k → n_key n = k) ∧
  match m with
  | Clean => l ∉ D
  | Pending => l ∈ D ∧ n_parent n = par ∧ n_spilled n = false
  | Spilled => l ∈ D ∧ n_parent n = par ∧ n_spilled n = true
  end.

Fixpoint mrep (h : gmap loc node) (D : gset loc) (par : option loc) (key : option bytes) (t : mtree) : Prop :=
  match t with
  | MLeaf l m kvs => ∃ n, h !! l = Some n ∧ leaf_node kvs n ∧ marked_node D par key l m n
  | MBranch l m cs =>
      (∃ n, h !! l = Some n ∧ branch_node (plains cs) n ∧ marked_node D par key l m n) ∧
      foldr (λ p Q, mrep h D (Some l) (Some p.1) p.2 ∧ Q) True cs
  end.

Lemma mrep_Branch h D par key l m cs :
  mrep h D par key (MBranch l m cs) ↔
  (∃ n, h !! l = Some n ∧ branch_node (plains cs) n ∧ marked_node D par key l m n) ∧
  Forall (λ p, mrep h D (Some l) (Some p.1) p.2) cs.
Proof.
  simpl. assert (foldr (λ p Q, mrep h D (Some l) (Some p.1) p.2 ∧ Q) True cs ↔ Forall (λ p, mrep h D (Some l) (Some p.1) p.2) cs) as ->; [|done].
  induction cs as [|p cs IH]; simpl; [done|]. by rewrite Forall_cons, IH.
Qed.

Lemma mrep_node h D par key t : mrep h D par key t →
  ∃ n, h !! mloc t = Some n ∧ n_isLeaf n = tleaf (plain t) ∧ n_inodes n = tree_inodes (plain t) ∧ marked_node D par key (mloc t) (mmark t) n.
Proof.
  destruct t as [l m kvs|l m cs]; [|rewrite mrep_Branch; intros [H _]; revert H]; intros (n & Hn & [? ?] & ?); by exists n.
Qed.

Lemma mrep_rep h D t : ∀ par key, mrep h D par key t → rep h (plain t).
Proof.
  induction t as [l m kvs|l m cs IH] using mtree_nested_ind; intros par key.
  - intros (n & Hn & Hl & _). by exists n.
  - rewrite mrep_Branch. intros [(n & Hn & Hb & _) Hall]. cbn [plain]. apply rep_Branch. split; [by exists n|].
    apply Forall_map. simpl. rewrite Forall_forall in IH, Hall |- *. intros p Hp. by eapply IH, Hall.
Qed.

Lemma marked_node_frame D D' par key l m n : (l ∈ D' ↔ l ∈ D) → marked_node D par key l m n → marked_node D' par key l m n.
Proof. intros Hl [Hk Hm]. split; [done|]. destruct m; by rewrite ?Hl. Qed.

Definition mlocs (t : mtree) : list loc := tlocs (plain t).
Definition cslocs (cs : list (bytes * mtree)) : list loc := clocs (plains cs).

Lemma mlocs_Branch l m cs : mlocs (MBranch l m cs) = l :: cslocs cs.
Proof. done. Qed.
Lemma elem_of_cslocs l cs : l ∈ cslocs cs ↔ ∃ p, p ∈ cs ∧ l ∈ mlocs p.2.
Proof.
  unfold cslocs. rewrite elem_of_clocs. split.
  - intros (k & c & (p & [= -> ->] & Hp)%list_elem_of_fmap & Hl). by exists p.
  - intros (p & Hp & Hl). exists p.1, (plain p.2). split; [|done]. by apply (list_elem_of_fmap_2 (λ p : bytes * mtree, (p.1, plain p.2))).
Qed.
Lemma cslocs_app c1 c2 : cslocs (c1 ++ c2) = cslocs c1 ++ cslocs c2.
Proof. unfold cslocs. by rewrite plains_app, clocs_app. Qed.
Lemma cslocs_cons k c cs : cslocs ((k, c) :: cs) = mlocs c ++ cslocs cs.
Proof. done. Qed.

Lemma mrep_frame h h' D D' t : ∀ par key,
  (∀ l, l ∈ mlocs t → h' !! l = h !! l ∧ (l ∈ D' ↔ l ∈ D)) → mrep h D par key t → mrep h' D' par key t.
Proof.
  induction t as [l m kvs|l m cs IH] using mtree_nested_ind; intros par key Hl.
  - intros (n & Hn & Hlf & Hm). destruct (Hl l) as [Heq HD]; [by left|]. exists n. rewrite Heq. split_and!; [done|done|by eapply marked_node_frame].
  - rewrite !mrep_Branch. intros [(n & Hn & Hb & Hm) Hall]. rewrite mlocs_Branch in Hl. destruct (Hl l) as [Heq HD]; [by left|]. split.
    + exists n. rewrite Heq. split_and!; [done|done|by eapply marked_node_frame].
    + rewrite Forall_forall in IH, Hall |- *. intros p Hp. apply IH; [done| |by apply Hall]. intros l' Hl'. apply Hl. right.
      apply elem_of_cslocs. by exists p.
Qed.

Lemma mrep_list_frame h h' D D' par cs :
  (∀ l, l ∈ cslocs cs → h' !! l = h !! l ∧ (l ∈ D' ↔ l ∈ D)) →
  Forall (λ p, mrep h D par (Some p.1) p.2) cs → Forall (λ p, mrep h' D' par (Some p.1) p.2) cs.
Proof.
  intros Hl Hall. rewrite Forall_forall in Hall |- *. intros p Hp. eapply mrep_frame; [|by apply Hall].
  intros l Hlp. apply Hl, elem_of_cslocs. by exists p.
Qed.

(** ** The context of a node *)

Definition parent_of (C : list frame) : option loc := match C with [] => None | f :: _ => Some (fr_loc f) end.
Definition key_of (C : list frame) : option bytes := match C with [] => None | f :: _ => Some (fr_key f) end.
Definition frame_inodes (f : frame) (l : loc) : list inode :=
  (branch_inode <$> plains (fr_pre f)) ++ mkInode 0 (fr_key f) None (Some l) :: (branch_inode <$> plains (fr_post f)).

Fixpoint crep (h : gmap loc node) (D : gset loc) (C : list frame) (l : loc) : Prop :=
  match C with
  | [] => True
  | f :: C' =>
      (∃ n, h !! fr_loc f = Some n ∧ n_isLeaf n = false ∧ n_inodes n = frame_inodes f l ∧
         marked_node D (parent_of C') (key_of C') (fr_loc f) (fr_mark f) n) ∧
      Forall (λ p, mrep h D (Some (fr_loc f)) (Some p.1) p.2) (fr_pre f ++ fr_post f) ∧
      crep h D C' (fr_loc f)
  end.

Lemma wrap_inodes f t : branch_inode <$> plains (fr_pre f ++ (fr_key f, t) :: fr_post f) = frame_inodes f (mloc t).
Proof. unfold frame_inodes, plains. rewrite map_app, fmap_app. simpl. unfold branch_inode at 2. simpl. by rewrite tloc_plain. Qed.

Lemma mrep_fill h D C : ∀ t, mrep h D None None (fill C t) ↔ crep h D C (mloc t) ∧ mrep h D (parent_of C) (key_of C) t.
Proof.
  induction C as [|f C IH]; intros t; simpl; [tauto|]. rewrite IH. unfold wrap. rewrite mrep_Branch. cbn [mloc].
  unfold branch_node. rewrite wrap_inodes, !Forall_app, Forall_cons. cbn [fst snd]. naive_solver.
Qed.

(** The locations of a context. *)
Fixpoint flocs (C : list frame) : list loc :=
  match C with [] => [] | f :: C' => fr_loc f :: cslocs (fr_pre f ++ fr_post f) ++ flocs C' end.

Lemma mlocs_wrap f t : mlocs (wrap f t) ≡ₚ fr_loc f :: cslocs (fr_pre f ++ fr_post f) ++ mlocs t.
Proof.
  unfold wrap. rewrite mlocs_Branch, !cslocs_app, cslocs_cons. constructor. rewrite <- app_assoc. f_equiv. apply Permutation_app_comm.
Qed.

Lemma mlocs_fill C : ∀ t, mlocs (fill C t) ≡ₚ flocs C ++ mlocs t.
Proof.
  induction C as [|f C IH]; intros t; simpl; [done|]. rewrite IH, mlocs_wrap.
  rewrite (Permutation_app_comm (flocs C)). simpl. constructor. rewrite <- !app_assoc. f_equiv. apply Permutation_app_comm.
Qed.

Lemma crep_frame h h' D D' C : ∀ l, (∀ l', l' ∈ flocs C → h' !! l' = h !! l' ∧ (l' ∈ D' ↔ l' ∈ D)) → crep h D C l → crep h' D' C l.
Proof.
  induction C as [|f C IH]; intros l Hl; [done|]. intros [(n & Hn & Hlf & Hi & Hm) [Hsib Hc]]. simpl in Hl. split_and!.
  - destruct (Hl (fr_loc f)) as [Heq HD]; [by left|]. exists n. rewrite Heq. split_and!; auto. by eapply marked_node_frame.
  - eapply mrep_list_frame; [|done]. intros l' Hl'. apply Hl. right. apply elem_of_app. by left.
  - apply IH; [|done]. intros l' Hl'. apply Hl. right. apply elem_of_app. by right.
Qed.

Definition mchildren (t : mtree) : list (bytes * mtree) := match t with MLeaf _ _ _ => [] | MBranch _ _ cs => cs end.

(** ** What finalizing one node makes of it *)

(** Below a node that is not pending nothing is. *)
Lemma shape_done t : ∀ lo hi, shape lo hi t → mmark t ≠ Pending → pend t = 0.
Proof.
  induction t as [l m kvs|l m cs IH] using mtree_nested_ind; intros lo hi Hg Hm; simpl; simpl in Hm; rewrite decide_False by done; [done|].
  apply shape_Branch in Hg as (_ & _ & _ & Hmk & Hk). unfold marks_ok in Hmk.
  assert (Hall : Forall (λ p, pend p.2 = 0) cs).
  { rewrite Forall_forall in IH, Hmk |- *. intros p Hp. destruct (skids_lookup _ _ _ _ Hk Hp) as (lo' & hi' & Hg').
    eapply IH; [done|exact Hg'|]. destruct (Hmk p Hp) as (H1 & H2 & _). destruct m; [by rewrite H1|done|by apply H2]. }
  clear -Hall. induction Hall as [|p cs Hp _ IH]; [done|]. simpl. by rewrite Hp, IH.
Qed.
Lemma done_pend thr t lo hi : good thr lo hi t → mmark t ≠ Pending → pend t = 0.
Proof. intros H. by eapply shape_done, good_shape. Qed.

Lemma pends_zero cs : Forall (λ p : bytes * mtree, pend p.2 = 0) cs → pends cs = 0.
Proof. unfold pends. induction 1 as [|p cs Hp _ IH]; [done|]. simpl. by rewrite Hp, IH. Qed.

(** A branch whose children are finalized is not split. *)
Lemma noSplit_keys n ks : n_isLeaf n = false → Forall (λ i, i_value i = None) (n_inodes n) → ikeys (n_inodes n) = ks →
  fits ks → noSplit n = true.
Proof.
  intros Hl Hv <- Hf. rewrite <- Hf. unfold fits in *. unfold noSplit, minKeys, sizeLessThan. simpl. rewrite Hl.
  unfold ikeys. rewrite !length_fmap. f_equal. clear -Hv. generalize nodeHeaderOverheadBytes.
  induction Hv as [|i l Hi _ IH]; intros z; simpl; [done|].
  assert (inode_size i = inode_size (mkInode 0 (i_key i) None None)) as -> by (unfold inode_size; by rewrite Hi).
  destruct (_ <=? _)%Z; [done|apply IH].
Qed.

Lemma branch_values cs : Forall (λ i, i_value i = None) (branch_inode <$> plains cs).
Proof. apply Forall_fmap, Forall_forall. done. Qed.

Lemma branch_noSplit thr lo hi l m cs n :
  good thr lo hi (MBranch l m cs) → m ≠ Clean → Forall (λ p, mmark p.2 ≠ Pending) cs → branch_node (plains cs) n → noSplit n = true.
Proof.
  intros (_ & _ & _ & _ & Hf & _)%good_Branch Hm Hd [Hl Hi]. specialize (Hf Hm). rewrite seps_after_done in Hf by done.
  eapply (noSplit_keys n); [done|rewrite Hi; apply branch_values| |exact Hf]. by rewrite Hi, ikeys_branch, plains_fst.
Qed.

Lemma pieces_stop rounds x nd : noSplit nd = true → 0 < rounds → pieces rounds x nd = [n_inodes nd].
Proof. intros Hs Hr. destruct rounds; [lia|]. unfold pieces. simpl. by rewrite Hs. Qed.

(** The node of a finalized piece. *)
Definition spilled_node (h : gmap loc node) (D : gset loc) (p : loc) (lf : bool) (l : loc) (pc : list inode) : Prop :=
  ∃ m, h !! l = Some m ∧ n_isLeaf m = lf ∧ n_inodes m = pc ∧ n_key m = first_key pc ∧ n_parent m = Some p ∧ n_spilled m = true ∧ l ∈ D.

(** What replaces the node [t] at [k] in its parent. *)
Record renewed (x : Bucket) (k : bytes) (t : mtree) (ls : list loc) (pcs : list (list inode)) (new : list (bytes * mtree)) : Prop := mkRenewed {
  rn_links : branch_inode <$> plains new = zip_with link_inode (mloc t :: ls) pcs;
  rn_settles : settles (splitThreshold (b_FillPercent x)) k t new;
  rn_locs : cslocs new ≡ₚ mloc t :: ls ++ cslocs (mchildren t);
  rn_pend : pends new = 0;
  rn_height : mheights new ≤ mheight t;
  rn_grows : ∀ l n, (l, n) ∈ branches t → ∃ p, p ∈ new ∧ (l, n) ∈ branches p.2;
  rn_rep : ∀ h D p, Forall2 (spilled_node h D p (tleaf (plain t))) (mloc t :: ls) pcs →
    Forall (λ q, mrep h D (Some (mloc t)) (Some q.1) q.2) (mchildren t) → Forall (λ q, mrep h D (Some p) (Some q.1) q.2) new
}.

Lemma renew_leaf x k l kvs nd ls pcs :
  leaf_node kvs nd → kvs ≠ [] → pieces (S (length (n_inodes nd))) x nd = pcs → length (l :: ls) = length pcs →
  ∃ new, renewed x k (MLeaf l Pending kvs) ls pcs new.
Proof.
  intros [Hlf Hi] Hne Hp Hlen. assert (Hmin : minKeys nd ≤ length (n_inodes nd)).
  { unfold minKeys. rewrite Hlf, Hi, length_fmap. destruct kvs; [done|simpl; lia]. }
  destruct (pieces_spec (S (length (n_inodes nd))) x nd ltac:(lia) Hmin) as [Hcat Hpne]. rewrite Hp, Hi in Hcat. rewrite Hp in Hpne.
  apply concat_fmap_inv in Hcat as (gs & -> & Hgs). rewrite length_fmap in Hlen.
  assert (Hgne : Forall (λ g, g ≠ []) gs) by (rewrite Forall_fmap in Hpne; eapply Forall_impl; [exact Hpne|]; by intros g Hg ->).
  assert (Hnil : gs ≠ []) by (intros ->; done).
  exists (zip_with spilled_leaf (l :: ls) gs). split.
  - cbn [mloc]. clear -Hlen. revert gs Hlen. generalize (l :: ls). clear. intros ls. induction ls as [|l ls IH]; intros [|g gs] Hlen; try done.
    cbn [zip_with fmap list_fmap plains map]. f_equal. apply IH. by injection Hlen.
  - apply settles_leaf; auto. unfold leaf_pieces. rewrite <- Hp. unfold pieces. rewrite Hi, length_fmap. by apply split_inodes_ext.
  - cbn [mchildren]. change (cslocs []) with (@nil loc). rewrite app_nil_r. cbn [mloc].
    enough (cslocs (zip_with spilled_leaf (l :: ls) gs) = l :: ls) as -> by done.
    clear -Hlen. revert gs Hlen. generalize (l :: ls). clear. intros ls. induction ls as [|l ls IH]; intros [|g gs] Hlen; try done.
    cbn [zip_with]. unfold spilled_leaf at 1. rewrite cslocs_cons. cbn [mlocs plain tlocs app]. f_equal. apply IH. by injection Hlen.
  - apply pends_zero, Forall_forall. by intros q (i & l' & g & -> & _)%elem_of_lookup_zip_with.
  - unfold mheights. cbn [mheight]. apply list_max_le, Forall_forall. intros n (q & -> & (i & l' & g & -> & _)%elem_of_lookup_zip_with)%list_elem_of_fmap. done.
  - by intros l' n ?%elem_of_nil.
  - intros h D p Hf2 _. apply Forall_forall. intros q (i & l' & g & -> & Hl' & Hg)%elem_of_lookup_zip_with. cbn [mloc] in Hf2.
    destruct (Forall2_lookup_lr _ _ _ i l' (leaf_inode <$> g) Hf2 Hl') as (m & Hm & H1 & H2 & H3 & H4 & H5 & H6); [by rewrite list_lookup_fmap, Hg|].
    simpl. exists m. split; [done|]. split; [done|]. split; [|done]. by intros k' [= <-].
Qed.

Lemma renew_branch x k l cs nd pcs :
  branch_node (plains cs) nd → Forall (λ p, mmark p.2 ≠ Pending) cs → Forall (λ p, pend p.2 = 0) cs → cs ≠ [] → noSplit nd = true →
  pieces (S (length (n_inodes nd))) x nd = pcs →
  ∃ new, renewed x k (MBranch l Pending cs) [] pcs new.
Proof.
  intros [Hlf Hi] Hd Hpd Hne Hs Hp. rewrite pieces_stop in Hp by (done || lia). subst pcs. exists [(hd [] cs.*1, MBranch l Spilled cs)].
  assert (Hfk : first_key (n_inodes nd) = hd [] cs.*1) by (rewrite Hi; by destruct cs as [|[]]).
  split.
  - simpl. unfold link_inode, branch_inode. simpl. by rewrite Hfk.
  - by apply settles_branch.
  - cbn [mloc mchildren app]. rewrite cslocs_cons. change (cslocs []) with (@nil loc). by rewrite app_nil_r, mlocs_Branch.
  - apply pends_zero. constructor; [|constructor]. simpl. by apply pends_zero.
  - unfold mheights. simpl. lia.
  - intros l' n Hin. eexists. split; [by left|]. exact Hin.
  - intros h D p [(m0 & Hm0 & H1 & H2 & H3 & H4 & H5 & H6) _]%Forall2_cons Hch. cbn [mloc mchildren] in *.
    constructor; [|constructor]. cbn [fst snd]. apply mrep_Branch. split; [|exact Hch].
    exists m0. split; [done|]. split; [split; [done|congruence]|]. split; [|done]. intros k' [= <-]. congruence.
Qed.

(** ** One step of [finalize] *)

(** The tree of the open handle [b] is [T], partly finalized. *)
Record tended (w : world) (b : bid) (x : Bucket) (D : gset loc) (T : mtree) : Prop := mkTended {
  td_own : own w b x D;
  td_rep : mrep (w_nodes w) D None None T;
  td_good : good (splitThreshold (b_FillPercent x)) None None T;
  td_nodup : NoDup (mlocs T);
  td_root : mmark T ≠ Clean ∧ tleaf (plain T) = false
}.

(** Only nodes of [D] and fresh ones have been written. *)
Definition within_dirty (D : gset loc) (w w' : world) : Prop :=
  ∀ l, (l < w_nextn w)%positive → l ∉ D → w_nodes w' !! l = w_nodes w !! l.

Lemma within_dirty_refl D w : within_dirty D w w.
Proof. by intros l. Qed.
Lemma within_dirty_trans b x D D' w1 w2 w3 :
  own w1 b x D → grown b x D w1 w2 D' → (∀ l, l ∈ D' → l ∈ D ∨ (w_nextn w1 ≤ l)%positive) →
  within_dirty D w1 w2 → within_dirty D' w2 w3 → within_dirty D w1 w3.
Proof.
  intros _ Hg HD H1 H2 l Hl Hn. pose proof (g_next _ _ _ _ _ _ Hg). rewrite H2; [by apply H1|lia|]. intros [?|?]%HD; [done|lia].
Qed.

Lemma tended_locs w b x D T l : tended w b x D T → l ∈ mlocs T → (l < w_nextn w)%positive.
Proof. intros Ht Hl. eapply tlocs_fresh; [apply Ht|by eapply mrep_rep, Ht|exact Hl]. Qed.

Lemma new_locs C f t new ls :
  cslocs new ≡ₚ mloc t :: ls ++ cslocs (mchildren t) →
  mlocs (fill C (MBranch (fr_loc f) Pending (fr_pre f ++ new ++ fr_post f))) ≡ₚ ls ++ mlocs (fill (f :: C) t).
Proof.
  intros Hn. cbn [fill]. rewrite !mlocs_fill, mlocs_wrap, mlocs_Branch, !cslocs_app, Hn.
  assert (mlocs t = mloc t :: cslocs (mchildren t)) as -> by (by destruct t).
  assert (cslocs (fr_pre f) ++ (mloc t :: ls ++ cslocs (mchildren t)) ++ cslocs (fr_post f) ≡ₚ
    ls ++ (cslocs (fr_pre f) ++ cslocs (fr_post f)) ++ mloc t :: cslocs (mchildren t)) as ->.
  { rewrite (Permutation_app_comm (mloc t :: ls ++ cslocs (mchildren t))), app_assoc.
    change (mloc t :: ls ++ cslocs (mchildren t)) with ([mloc t] ++ ls ++ cslocs (mchildren t)).
    rewrite (Permutation_app_swap_app [mloc t] ls), (Permutation_app_swap_app _ ls). done. }
  change (fr_loc f :: ls ++ (cslocs (fr_pre f) ++ cslocs (fr_post f)) ++ mloc t :: cslocs (mchildren t))
    with ([fr_loc f] ++ ls ++ (cslocs (fr_pre f) ++ cslocs (fr_post f)) ++ mloc t :: cslocs (mchildren t)).
  rewrite (Permutation_app_swap_app [fr_loc f] ls), (Permutation_app_swap_app (flocs C) ls). done.
Qed.

(** What the parent holds afterwards. *)
Definition settled_parent (f : frame) (new : list (bytes * mtree)) : mtree := MBranch (fr_loc f) Pending (fr_pre f ++ new ++ fr_post f).

Lemma settled_good thr C f t new :
  good thr None None (fill (f :: C) t) → mmark t = Pending → settles thr (fr_key f) t new →
  fr_mark f = Pending ∧ good thr None None (fill C (settled_parent f new)) ∧ ssorted (fr_pre f ++ new ++ fr_post f).*1 ∧
  Forall (λ k, k ≠ []) (fr_pre f ++ new ++ fr_post f).*1 ∧ ssorted (fr_pre f ++ (fr_key f, t) :: fr_post f).*1 ∧ fr_key f ≠ [].
Proof.
  intros Hg Hm Hst. cbn [fill] in Hg. destruct (good_inner _ _ _ _ _ Hg) as (lo0 & hi0 & Hg0).
  pose proof (wrap_pending _ _ _ _ _ Hg0 Hm) as Hfm. destruct (good_fill _ _ _ _ _ Hg Hfm) as (lo & hi & Hgw & _ & Hrep).
  destruct f as [p m pre k post]. simpl in *. subst m. pose proof (settle_good _ _ _ _ _ _ _ _ _ Hgw Hst) as Hg'.
  pose proof Hg' as (_ & Hs & Hr & _)%good_Branch. pose proof Hgw as (_ & Hs0 & Hr0 & _)%good_Branch. split_and!; auto.
  - apply Hrep; [exact Hg'|done|]. intros k'. unfold settled_parent, wrap. simpl. destruct pre as [|[k0 c0] pre]; [|done]. simpl.
    pose proof (st_after _ _ _ _ Hst) as Ha. pose proof (st_done _ _ _ _ Hst) as Hd.
    apply good_Branch in Hgw as (_ & _ & _ & _ & _ & [Hgt _]).
    destruct (st_good _ _ _ _ Hst _ _ Hgt) as (Hne & _). destruct new as [|[k1 c1] new]; [done|]. simpl.
    apply Forall_cons in Hd as [[Hd1 _] _]. simpl in Hd1. rewrite after_done by (by rewrite Hd1). rewrite <- Ha. done.
  - eapply Forall_impl; [exact Hr|]. by intros y [? _].
  - rewrite fmap_app, fmap_cons in Hr0. apply Forall_app in Hr0 as [_ Hr0]. by apply Forall_cons in Hr0 as [[? _] _].
Qed.

(** The pieces of the node in the hole. *)
Lemma renew x k t nd ls pc pcs lo hi :
  good (splitThreshold (b_FillPercent x)) lo hi t → mmark t = Pending → Forall (λ p, mmark p.2 ≠ Pending) (mchildren t) →
  n_isLeaf nd = tleaf (plain t) → n_inodes nd = tree_inodes (plain t) →
  pieces (S (length (n_inodes nd))) x nd = pc :: pcs → length ls = length pcs →
  ∃ new, renewed x k t ls (pc :: pcs) new.
Proof.
  intros Hg Hm Hd Hlf Hi Hp Hlen. destruct t as [l m kvs|l m cs]; simpl in Hm; subst m.
  - destruct Hg as (Hne & _). apply (renew_leaf x k l kvs nd ls (pc :: pcs)); auto; [by split|by simpl; rewrite Hlen].
  - assert (Hb : branch_node (plains cs) nd) by (by split). pose proof (branch_noSplit _ _ _ _ _ _ _ Hg ltac:(done) Hd Hb) as Hs.
    pose proof Hp as Hp'. rewrite pieces_stop in Hp' by (done || lia). injection Hp' as _ <-. destruct ls; [|done].
    pose proof Hg as (Hne & _ & _ & _ & _ & Hk)%good_Branch.
    apply (renew_branch x k l cs nd (pc :: [])); auto. cbn [mchildren] in Hd. rewrite Forall_forall in Hd |- *. intros p Hin.
    destruct (kids_lookup _ _ _ _ _ Hk Hin) as (lo' & hi' & Hg'). eapply done_pend; [exact Hg'|by apply Hd].
Qed.

(** The nodes of a tree beside the one in the focus and its parent. *)
Lemma focus_others (L1 L2 L3 : list loc) p n l :
  NoDup (L1 ++ p :: L2 ++ n :: L3) → l ∈ L1 ++ L2 ++ L3 → l ≠ n ∧ l ≠ p ∧ l ∈ L1 ++ p :: L2 ++ n :: L3.
Proof.
  intros (_ & H1 & [H2 (_ & H3 & [H4 _]%NoDup_cons)%NoDup_app]%NoDup_cons)%NoDup_app Hl.
  assert (Hin : l ∈ L1 ++ p :: L2 ++ n :: L3) by (clear -Hl; set_solver).
  split_and!; [| |done]; intros ->; apply elem_of_app in Hl as [Hl|Hl].
  - apply (H1 _ Hl). right. apply elem_of_app. right. by left.
  - apply elem_of_app in Hl as [Hl|Hl]; [apply (H3 _ Hl); by left|done].
  - apply (H1 _ Hl). by left.
  - apply H2. apply elem_of_app in Hl as [Hl|Hl]; apply elem_of_app; [by left|right; by right].
Qed.

(** The tree after the step, where only the focus and its parent have changed. *)
Lemma settled_rep x h h' D D' C f t ls pcs new pn :
  mrep h D None None (fill (f :: C) t) → renewed x (fr_key f) t ls pcs new →
  (∀ l, l ∈ flocs C ++ cslocs (fr_pre f ++ fr_post f) ++ cslocs (mchildren t) → h' !! l = h !! l ∧ (l ∈ D' ↔ l ∈ D)) →
  h' !! fr_loc f = Some pn → n_isLeaf pn = false → marked_node D' (parent_of C) (key_of C) (fr_loc f) Pending pn →
  n_inodes pn = (branch_inode <$> plains (fr_pre f)) ++ zip_with link_inode (mloc t :: ls) pcs ++ (branch_inode <$> plains (fr_post f)) →
  Forall2 (spilled_node h' D' (fr_loc f) (tleaf (plain t))) (mloc t :: ls) pcs →
  mrep h' D' None None (fill C (settled_parent f new)).
Proof.
  intros [[_ [Hsib Hcr]] Hmr]%mrep_fill [Hlinks _ _ _ _ _ Hrn] Hframe Hp Hlf Hpm Hpi Hls. apply mrep_fill. split.
  - cbn [settled_parent mloc]. eapply crep_frame; [|exact Hcr]. intros l Hl. apply Hframe. apply elem_of_app. by left.
  - unfold settled_parent. apply mrep_Branch. split.
    + exists pn. split; [done|]. split; [|done]. split; [done|]. by rewrite Hpi, !plains_app, !fmap_app, Hlinks.
    + apply Forall_app in Hsib as [Hs1 Hs2]. rewrite !Forall_app. split_and!.
      * eapply mrep_list_frame; [|exact Hs1]. intros l Hl. apply Hframe. rewrite cslocs_app, !elem_of_app. tauto.
      * apply Hrn; [done|]. assert (Hch : Forall (λ q, mrep h D (Some (mloc t)) (Some q.1) q.2) (mchildren t)).
        { destruct t; [constructor|]. by apply mrep_Branch in Hmr as [_ ?]. }
        eapply mrep_list_frame; [|exact Hch]. intros l Hl. apply Hframe. rewrite !elem_of_app. tauto.
      * eapply mrep_list_frame; [|exact Hs2]. intros l Hl. apply Hframe. rewrite cslocs_app, !elem_of_app. tauto.
Qed.

(** The root is the same branch, unless the parent is the root. *)
Lemma fill_root C g u v : mmark (fill (g :: C) u) = mmark (fill (g :: C) v) ∧ tleaf (plain (fill (g :: C) v)) = false.
Proof. revert g u v. induction C as [|g' C IH]; intros g u v; [done|]. apply (IH g'). Qed.

(** [split] of a pending node with finalized children, and the links to its
    parent. *)
Lemma settle_step w b x D C f t nd :
  tended w b x D (fill (f :: C) t) → mmark t = Pending → Forall (λ p, mmark p.2 ≠ Pending) (mchildren t) →
  w_nodes w !! mloc t = Some nd →
  ∃ nodes w1 w' D' ls pcs new, split (S (length (n_inodes nd))) (mloc t) w = (Ret nodes, w1) ∧
    st_iter (finalize_link (b_tx x)) nodes w1 = (Ret tt, w') ∧ grown b x D w w' D' ∧ within_dirty D w w' ∧
    (∀ l, l ∈ D' → l ∈ D ∨ (w_nextn w ≤ l)%positive) ∧
    renewed x (fr_key f) t ls pcs new ∧ tended w' b (set_b_dirty (Some D') x) D' (fill C (settled_parent f new)) ∧
    ∃ m, w_nodes w' !! mloc t = Some m ∧ n_parent m = Some (fr_loc f).
Proof.
  intros Ht Hm Hd Hn. pose proof Ht as [Ho Hrep Hg Hnd Hroot]. set (n := mloc t) in *. set (p := fr_loc f).
  pose proof Hrep as [Hcr Hmr]%mrep_fill. cbn [crep] in Hcr. destruct Hcr as [(pn & Hpn & Hplf & Hpi & Hpm) [Hsib Hcr]].
  destruct (mrep_node _ _ _ _ _ Hmr) as (nd' & Hn' & Hlf & Hi & Hkey & Hmk). fold n in Hn'. simplify_eq. rewrite Hm in Hmk.
  destruct Hmk as (HnD & Hpar & Hsp). cbn [parent_of key_of] in Hpar, Hkey. specialize (Hkey _ eq_refl).
  destruct (good_inner _ _ _ _ _ Hg) as (lo & hi & Hgt).
  destruct (split_run b p (S (length (n_inodes nd))) w x D n nd Ho HnD Hn Hpar ltac:(lia))
    as (ls & w1 & D1 & pc & pcs & Hsplit & Hpcs & Hg1 & Hk1 & HD1 & Hndls & Hfr & Hn1 & Hls1).
  destruct (renew x (fr_key f) t nd ls pc pcs lo hi Hgt Hm Hd Hlf Hi Hpcs (Forall2_length _ _ _ Hls1)) as (new & Hrn).
  pose proof Hrn as [Hlinks Hst Hlocs Hpend Hheight Hgrows Hrnrep].
  destruct (settled_good _ _ _ _ _ Hg Hm Hst) as (Hfm & Hgood' & Hsort & Hkne & Hsort0 & Hkf). rewrite Hfm in Hpm.
  destruct Hpm as (Hpkey & HpD & Hppar & Hpsp).
  (* locations *)
  pose proof (g_next _ _ _ _ _ _ Hg1) as Hnx1. pose proof (grown_own _ _ _ _ _ _ Ho Hg1) as Ho1. set (x1 := set_b_dirty (Some D1) x) in *.
  assert (Hperm : mlocs (fill (f :: C) t) ≡ₚ flocs C ++ p :: cslocs (fr_pre f ++ fr_post f) ++ n :: cslocs (mchildren t)).
  { cbn [fill]. rewrite mlocs_fill, mlocs_wrap. assert (mlocs t = n :: cslocs (mchildren t)) as -> by (by destruct t). done. }
  assert (Hlt : ∀ l, l ∈ mlocs (fill (f :: C) t) → (l < w_nextn w)%positive) by (intros; by eapply tended_locs).
  rewrite Hperm in Hnd. assert (Hpn_ne : n ≠ p).
  { intros <-. apply NoDup_app in Hnd as (_ & _ & Hnd). apply NoDup_cons in Hnd as [Hnd _]. apply Hnd. apply elem_of_app. right. left. }
  assert (Hplt : (p < w_nextn w)%positive) by (apply Hlt; rewrite Hperm; set_solver).
  assert (Hnlt : (n < w_nextn w)%positive) by (apply Hlt; rewrite Hperm; set_solver).
  assert (Hpls : p ∉ ls) by (intros [? ?]%Hfr; lia). assert (Hnls : n ∉ ls) by (intros [? ?]%Hfr; lia).
  assert (Hp1 : w_nodes w1 !! p = Some pn) by (rewrite Hk1; [done|done|set_solver]).
  (* the keys *)
  assert (Hfirsts : new.*1 = first_key <$> pc :: pcs).
  { rewrite <- plains_fst, <- ikeys_branch, Hlinks. apply link_firsts. simpl. f_equal. by eapply Forall2_length. }
  assert (Hfk : Forall (λ pc, first_key pc ≠ []) (pc :: pcs)).
  { rewrite !fmap_app, !Forall_app, Hfirsts in Hkne. destruct Hkne as (_ & Hkne & _). exact (proj1 (Forall_fmap _ _ _) Hkne). }
  pose proof Hfk as [Hfk0 Hfkr]%Forall_cons.
  set (A := branch_inode <$> plains (fr_pre f)) in *. set (B := branch_inode <$> plains (fr_post f)) in *.
  assert (HkA : ikeys A = (fr_pre f).*1) by (unfold A; by rewrite ikeys_branch, plains_fst).
  assert (HkB : ikeys B = (fr_post f).*1) by (unfold B; by rewrite ikeys_branch, plains_fst).
  assert (Hput : inodes_put (link_key (set_n_inodes pc nd)) (first_key pc) None (Some n) 0 (n_inodes pn) = A ++ link_inode n pc :: B).
  { assert (link_key (set_n_inodes pc nd) = fr_key f) as -> by (unfold link_key; simpl; rewrite Hkey; by rewrite decide_False).
    rewrite Hpi. unfold frame_inodes. fold A B. rewrite inodes_put_exact; [done| |done].
    unfold ikeys. rewrite fmap_app, fmap_cons. fold (ikeys A) (ikeys B). rewrite HkA, HkB. simpl. by rewrite fmap_app, fmap_cons in Hsort0. }
  assert (Hndl : NoDup (n :: p :: ls)).
  { apply NoDup_cons. split; [|by apply NoDup_cons]. intros [?|?]%elem_of_cons; done. }
  destruct (link_pieces w1 b x1 D1 n (set_n_inodes pc nd) p pn A B nd ls pc pcs Ho1) as (w3 & Hrun3 & Hg3 & Hnx3 & Hk3 & Hp3 & Hn3 & Hls3);
    [set_solver|done| |done|done|done|done|done|done|done| |].
  { intros l [->|[->|[? ?]%Hfr]%elem_of_cons]%elem_of_cons; lia. }
  { rewrite HkA, HkB, <- Hfirsts. by rewrite !fmap_app in Hsort. }
  assert (Hx1 : set_b_dirty (Some D1) x1 = x1) by done. pose proof (grown_own _ _ _ _ _ _ Ho1 Hg3) as Ho3. rewrite Hx1 in Ho3.
  assert (Hkeep : ∀ l, (l < w_nextn w)%positive → l ≠ n → l ≠ p → w_nodes w3 !! l = w_nodes w !! l).
  { intros l Hl Hln Hlp. rewrite Hk3; [|lia|]. 2:{ intros [?|[?|[? ?]%Hfr]%elem_of_cons]%elem_of_cons; [done|done|lia]. }
    apply Hk1; [done|]. by intros ?%list_elem_of_singleton. }
  assert (HDl : ∀ l, (l < w_nextn w)%positive → l ∈ D1 ↔ l ∈ D).
  { intros l Hl. rewrite HD1, elem_of_union, elem_of_list_to_set. split; [|tauto]. intros [[? ?]%Hfr|?]; [lia|done]. }
  assert (Hframe : ∀ l, l ∈ flocs C ++ cslocs (fr_pre f ++ fr_post f) ++ cslocs (mchildren t) →
    w_nodes w3 !! l = w_nodes w !! l ∧ (l ∈ D1 ↔ l ∈ D)).
  { intros l Hl. destruct (focus_others _ _ _ _ _ _ Hnd Hl) as (Hln & Hlp & Hin).
    assert (Hll : (l < w_nextn w)%positive) by (apply Hlt; by rewrite Hperm). split; [by apply Hkeep|by apply HDl]. }
  exists (n :: ls), w1, w3, D1, ls, (pc :: pcs), new.
  split; [done|]. split; [exact Hrun3|]. split; [by eapply grown_trans|].
  split; [intros l Hl HlD; apply Hkeep; [done|intros ->; done|intros ->; done]|].
  split; [intros l; rewrite HD1, elem_of_union, elem_of_list_to_set; intros [[? ?]%Hfr|?]; [by right|by left]|].
  split; [done|]. split; [|eexists; split; [exact Hn3|done]].
  split.
  - exact Ho3.
  - eapply (settled_rep x (w_nodes w) _ D _ _ _ _ ls (pc :: pcs)); [done|done|exact Hframe|exact Hp3|done| |done|].
    + split; [done|]. split; [set_solver|done].
    + constructor; [eexists; split; [exact Hn3|]; split_and!; [done..|set_solver]|].
      eapply Forall2_impl_in; [exact Hls3|]. intros l pc' Hl Hl3. eexists. split; [exact Hl3|]. split_and!; [done..|set_solver].
  - exact Hgood'.
  - rewrite (new_locs C f t new ls Hlocs), Hperm. apply NoDup_app. split_and!; [done| |done].
    intros l [? ?]%Hfr Hl. rewrite <- Hperm in Hl. apply Hlt in Hl. lia.
  - destruct C as [|g C]; [done|]. destruct (fill_root C g (settled_parent f new) (settled_parent f new)) as [_ ?]. split; [|done].
    rewrite (proj1 (fill_root C g _ (wrap f t))). apply Hroot.
Qed.

(** ** Progress *)

Record moved (b : bid) (x : Bucket) (D : gset loc) (w : world) (T : mtree) (w' : world) (D' : gset loc) (T' : mtree) : Prop := mkMoved {
  mv_grown : grown b x D w w' D';
  mv_within : within_dirty D w w';
  mv_fresh : ∀ l, l ∈ D' → l ∈ D ∨ (w_nextn w ≤ l)%positive;
  mv_tended : tended w' b (set_b_dirty (Some D') x) D' T';
  mv_contents : contents (plain T') = contents (plain T);
  mv_grows : grows T T';
  mv_height : mheight T' ≤ mheight T;
  mv_root : mloc T' = mloc T
}.

Lemma moved_trans b x D w1 T1 w2 D2 T2 w3 D3 T3 :
  own w1 b x D → moved b x D w1 T1 w2 D2 T2 → moved b (set_b_dirty (Some D2) x) D2 w2 T2 w3 D3 T3 → moved b x D w1 T1 w3 D3 T3.
Proof.
  intros Ho [Hg1 Hw1 Hf1 Ht1 Hc1 Hgr1 Hh1 Hr1] [Hg2 Hw2 Hf2 Ht2 Hc2 Hgr2 Hh2 Hr2]. split.
  - by eapply grown_trans.
  - by eapply within_dirty_trans.
  - pose proof (g_next _ _ _ _ _ _ Hg1). intros l [?%Hf1|?]%Hf2; [done|right; lia].
  - exact Ht2.
  - congruence.
  - by eapply grows_trans.
  - lia.
  - congruence.
Qed.

(** A change of the world that only the statistics see. *)
Lemma tended_same w w' b x D T :
  tended w b x D T → own w' b x D → (∀ l, l ∈ mlocs T → w_nodes w' !! l = w_nodes w !! l) → tended w' b x D T.
Proof.
  intros [Ho Hrep Hg Hnd Hroot] Ho' Hl. split; auto. eapply mrep_frame; [|exact Hrep]. intros l Hin. split; [by apply Hl|done].
Qed.

Lemma moved_same w w' b x D T :
  tended w b x D T → grown b x D w w' D → (∀ l, (l < w_nextn w)%positive → w_nodes w' !! l = w_nodes w !! l) → moved b x D w T w' D T.
Proof.
  intros Ht Hg Hl. pose proof Ht as [Ho _ _ _ _]. pose proof (grown_own _ _ _ _ _ _ Ho Hg) as Ho'.
  assert (Hx : set_b_dirty (Some D) x = x) by apply set_b_dirty_id, Ho. split; auto.
  - intros l Hll _. by apply Hl.
  - rewrite Hx in Ho' |- *. eapply tended_same; [done|done|]. intros l Hin. apply Hl. by eapply tended_locs.
  - apply grows_refl.
Qed.

(** The node in the hole, with its bucket. *)
Lemma tended_node w b x D C t :
  tended w b x D (fill C t) → mmark t ≠ Clean →
  ∃ nd, w_nodes w !! mloc t = Some nd ∧ n_bucket nd = Some b ∧ n_isLeaf nd = tleaf (plain t) ∧ n_inodes nd = tree_inodes (plain t) ∧
    mloc t ∈ D ∧ n_parent nd = parent_of C ∧ n_spilled nd = (if decide (mmark t = Spilled) then true else false) ∧
    (∀ k, key_of C = Some k → n_key nd = k).
Proof.
  intros [Ho Hrep _ _ _] Hm. apply mrep_fill in Hrep as [_ Hmr]. destruct (mrep_node _ _ _ _ _ Hmr) as (nd & Hn & Hlf & Hi & Hk & Hmk).
  exists nd. assert (HD : mloc t ∈ D) by (destruct (mmark t); tauto). destruct (own_node _ _ _ _ _ Ho HD) as (nd' & Hn' & Hb). simplify_eq.
  split_and!; auto; destruct (mmark t); naive_solver.
Qed.

Lemma child_inode t i ind : tree_inodes (plain t) !! i = Some ind →
  match i_child ind with None => tleaf (plain t) = true | Some c => ∃ k u, mchildren t !! i = Some (k, u) ∧ mloc u = c end.
Proof.
  destruct t as [l m kvs|l m cs]; simpl; rewrite list_lookup_fmap.
  - destruct (kvs !! i); [|done]. simpl. by intros [= <-].
  - unfold plains. rewrite list_lookup_fmap. destruct (cs !! i) as [[k u]|]; [|done]. simpl. intros [= <-]. simpl. exists k, u.
    by rewrite tloc_plain.
Qed.

Lemma st_index_nat {S A} (l : list A) i a (s : S) : l !! i = Some a → st_index l (Z.of_nat i) s = (Ret a, s).
Proof. intros Hi. unfold st_index. destruct (Z.ltb_spec (Z.of_nat i) 0); [lia|]. by rewrite Nat2Z.id, Hi. Qed.

(** The loop over the children, from a state in which none of them is pending. *)
Lemma loop_quiet f w b x D C t rounds : ∀ i,
  tended w b x D (fill C t) → mmark t ≠ Clean → Forall (λ p, mmark p.2 ≠ Pending) (mchildren t) →
  i + rounds ≤ length (tree_inodes (plain t)) →
  finalize_children (finalize (S f)) (mloc t) i rounds w = (Ret None, w).
Proof.
  induction rounds as [|r IH]; intros i Ht Hm Hd Hlen; [done|]. cbn [finalize_children].
  destruct (tended_node _ _ _ _ _ _ Ht Hm) as (nd & Hn & Hb & Hlf & Hi & _).
  rewrite (bind_Ret _ _ _ _ _ (get_node_run _ _ _ Hn)), Hi.
  destruct (lookup_lt_is_Some_2 (tree_inodes (plain t)) i ltac:(lia)) as [ind Hind].
  rewrite (bind_Ret _ _ _ _ _ (st_index_nat _ _ _ w Hind)). pose proof (child_inode _ _ _ Hind) as Hc.
  destruct (i_child ind) as [c|]; [|apply IH; auto; lia]. destruct Hc as (k & u & Hu & <-).
  pose proof Ht as [[Hco Hx HD _] Hrep Hg _ _]. rewrite Hb, (bind_Ret (st_deref (Some b)) _ w b w eq_refl), (bind_Ret _ _ _ _ _ (get_bkt_run _ _ _ Hx)).
  unfold isDirty. rewrite HD. case_bool_decide as HcD; [|apply IH; auto; lia].
  apply list_elem_of_lookup_2 in Hu. assert (Hum : mmark u ≠ Pending) by (rewrite Forall_forall in Hd; by apply (Hd (k, u))).
  destruct t as [|l m cs]; [by apply elem_of_nil in Hu|]. apply mrep_fill in Hrep as [_ [_ Hall]%mrep_Branch].
  rewrite Forall_forall in Hall. destruct (mrep_node _ _ _ _ _ (Hall _ Hu)) as (un & Hun & _ & _ & _ & Hmk). simpl in Hun, Hmk.
  destruct (mmark u); [done|done|]. destruct Hmk as (_ & _ & Hsp).
  rewrite (bind_Ret _ _ w None w); [apply IH; auto; lia|]. eapply finalize_spilled; [apply Ht|done|done|done].
Qed.

(** Relinking a finalized node changes nothing. *)
Lemma split_stop w n nd : w_nodes w !! n = Some nd → noSplit nd = true → split (S (length (n_inodes nd))) n w = (Ret [n], w).
Proof. intros Hn Hs. cbn [split]. by rewrite (bind_Ret _ _ _ _ _ (splitTwo_stop w n nd Hn Hs)). Qed.

(** Marking the root. *)
Lemma link_root w b x D n nd :
  own w b x D → n ∈ D → w_nodes w !! n = Some nd → n_parent nd = None →
  ∃ w', finalize_link (b_tx x) n w = (Ret tt, w') ∧ grown b x D w w' D ∧
    w_nodes w' = <[n := set_n_spilled true nd]> (w_nodes w) ∧ w_nextn w' = w_nextn w.
Proof.
  intros Ho HnD Hn Hp. pose proof Ho as [Hc Hx HD [tx Htx]].
  destruct (finalize_link_safe w b (b_tx x) n Hc (own_dirty _ _ _ _ _ Ho HnD)) as [He _].
  assert (Hrun : ∃ w', finalize_link (b_tx x) n w = (Ret tt, w') ∧ w_nodes w' = <[n := set_n_spilled true nd]> (w_nodes w) ∧
    w_nextn w' = w_nextn w ∧ w_bkts w' = w_bkts w).
  { unfold finalize_link. rewrite (bind_Ret _ _ _ _ _ (upd_node_run _ _ _ _ Hn)).
    erewrite bind_Ret by (apply get_node_run; simpl; apply lookup_insert_eq). simpl. rewrite Hp.
    rewrite (bind_Ret (st_ret tt) _ _ tt _ eq_refl). unfold tx_stat. rewrite (upd_tx_run _ _ _ tx) by exact Htx. by eexists. }
  destruct Hrun as (w' & Hrun & Hnodes & Hnx & Hbk). rewrite Hrun in He. exists w'. split_and!; auto.
  split; [done| |done|lia]. rewrite set_b_dirty_id, insert_id by done. done.
Qed.
