(* ===== verification/FinalizeTree.v ===== *)
(** * The whole run of [finalize] on a tree of several levels

    [finalize] of one pending node finishes the whole tree: the node is settled
    in its parent ([SpillTree.settle_step]), the parent is finalized in turn, and
    so on up to the root and down again through the parents' loops; the loops
    that are still running meet only finalized nodes ([loop_rest]) and link them
    again without any effect ([relink]). *)
From S2P Require Import Prelude GoSort Stats World Node KV Tree Cursor Cow Bucket Spill CowSpec Regroup Frame FrameSpill SpillSpec Marked SpillTree.
Local Open Scope st_scope.

(** ** Trees with nothing pending *)

Lemma fill_split C : ∀ t, pend t ≤ pend (fill C t).
Proof. intros t. rewrite pend_fill. lia. Qed.

Lemma pend_mark t : pend t = 0 → mmark t ≠ Pending.
Proof. destruct t; simpl; intros H ->; by rewrite decide_True in H. Qed.

Lemma pend_child (cs : list (bytes * mtree)) p : p ∈ cs → pend p.2 ≤ list_sum (map (λ p, pend p.2) cs).
Proof.
  induction cs as [|q cs IH]; [by intros ?%elem_of_nil|]. intros [->|Hp]%elem_of_cons; simpl; [lia|]. specialize (IH Hp). lia.
Qed.

Lemma pend_children t : pend t = 0 → Forall (λ p, mmark p.2 ≠ Pending) (mchildren t).
Proof.
  destruct t as [l m kvs|l m cs]; simpl; [constructor|]. intros H. apply Forall_forall. intros p Hp. apply pend_mark.
  pose proof (pend_child cs p Hp). lia.
Qed.

(** A branch of the dirty set in a finished tree is finalized. *)
Lemma spilled_focus w b x D T l n :
  tended w b x D T → pend T = 0 → (l, n) ∈ branches T → l ∈ D →
  ∃ C cs, T = fill C (MBranch l Spilled cs) ∧ length cs = n ∧ Forall (λ p, mmark p.2 ≠ Pending) cs.
Proof.
  intros Ht Hp (C & m & cs & -> & Hlen)%branches_focus HlD. pose proof (fill_split C (MBranch l m cs)) as Hle.
  assert (H0 : pend (MBranch l m cs) = 0) by lia. exists C, cs. assert (m = Spilled) as ->; [|split_and!; [done|done|exact (pend_children _ H0)]].
  apply pend_mark in H0. simpl in H0. pose proof (td_rep _ _ _ _ _ Ht) as [_ Hmr]%mrep_fill.
  destruct (mrep_node _ _ _ _ _ Hmr) as (nd & _ & _ & _ & _ & Hmk). simpl in Hmk. by destruct m.
Qed.

(** The parent of a finalized node of a finished tree is finalized, and has it at
    its first key. *)
Lemma spilled_parent thr lo hi C f t :
  good thr lo hi (fill (f :: C) t) → pend (fill (f :: C) t) = 0 → mmark t = Spilled →
  fr_mark f = Spilled ∧ fr_key f = mhead t ∧ fr_key f ≠ [] ∧ ssorted (fr_pre f ++ (fr_key f, t) :: fr_post f).*1.
Proof.
  intros Hg Hp Hm. cbn [fill] in *. destruct (good_inner _ _ _ _ _ Hg) as (lo' & hi' & (_ & Hs & Hr & Hmk & _)%good_Branch).
  pose proof (fill_split C (wrap f t)) as Hle. assert (H0 : pend (wrap f t) = 0) by lia. apply pend_mark in H0. simpl in H0.
  unfold marks_ok in Hmk. rewrite Forall_forall in Hmk. destruct (Hmk (fr_key f, t)) as (H1 & _ & H3); [apply elem_of_app; right; left|].
  simpl in *. rewrite Hm in H1. split_and!; [|apply H3; by rewrite Hm| |done].
  - destruct (fr_mark f); [by specialize (H1 eq_refl)|done|done].
  - rewrite fmap_app, fmap_cons in Hr. apply Forall_app in Hr as [_ Hr]. by apply Forall_cons in Hr as [[? _] _].
Qed.

Lemma set_n_spilled_id nd : n_spilled nd = true → set_n_spilled true nd = nd.
Proof. destruct nd. simpl. by intros ->. Qed.
Lemma set_n_inodes_id nd : set_n_inodes (n_inodes nd) nd = nd.
Proof. by destruct nd. Qed.
Lemma linked_id nd : n_spilled nd = true → n_key nd = first_key (n_inodes nd) → linked nd = nd.
Proof. destruct nd. unfold linked. simpl. by intros -> ->. Qed.

Lemma first_key_mhead t : first_key (tree_inodes (plain t)) = mhead t.
Proof. destruct t as [l m kvs|l m cs]; [done|]. by destruct cs as [|[]]. Qed.

(** In a finished tree every child hangs at its own first key. *)
Lemma mrep_keyed h D t : ∀ par key lo hi, mrep h D par key t → shape lo hi t → pend t = 0 → keyed h (plain t).
Proof.
  induction t as [l m kvs|l m cs IH] using mtree_nested_ind; intros par key lo hi Hrep Hs Hp l' n Hl Hn i c Hi Hc.
  - apply list_elem_of_singleton in Hl as ->. destruct Hrep as (n' & Hn' & [_ Hin] & _). simplify_eq. rewrite Hin in Hi.
    apply list_elem_of_fmap in Hi as ([k v] & -> & _). done.
  - pose proof (pend_children _ Hp) as Hnp. cbn [mchildren] in Hnp. apply mrep_Branch in Hrep as [(n' & Hn' & [_ Hin] & _) Hall].
    apply shape_Branch in Hs as (_ & _ & _ & Hmk & Hk). unfold marks_ok in Hmk. rewrite Forall_forall in IH, Hall, Hnp, Hmk. cbn [plain] in Hl.
    rewrite tlocs_Branch in Hl. apply elem_of_cons in Hl as [->|Hl].
    + simplify_eq. rewrite Hin in Hi. apply list_elem_of_fmap in Hi as (q & -> & (p & -> & Hq)%list_elem_of_fmap). simpl in Hc. injection Hc as <-.
      destruct (mrep_node _ _ _ _ _ (Hall _ Hq)) as (m' & Hm' & _ & Hi' & Hk' & _). exists m'. rewrite tloc_plain. split_and!; [done|by apply Hk'|].
      simpl. rewrite Hi', first_key_mhead. symmetry. apply Hmk; [done|by apply Hnp].
    + apply elem_of_clocs in Hl as (k & u & (p & [= -> ->] & Hq)%list_elem_of_fmap & Hl).
      destruct (skids_lookup _ _ _ _ Hk Hq) as (lo' & hi' & Hs'). eapply (IH p Hq); [by apply Hall|exact Hs'| |exact Hl|exact Hn|exact Hi|exact Hc].
      simpl in Hp. pose proof (pend_child cs p Hq). lia.
Qed.

(** Linking a finalized node again changes nothing. *)
Lemma relink w b x D C t :
  tended w b x D (fill C t) → pend (fill C t) = 0 → mmark t = Spilled →
  ∃ w', finalize_link (b_tx x) (mloc t) w = (Ret tt, w') ∧ moved b x D w (fill C t) w' D (fill C t).
Proof.
  intros Ht Hp Hm. pose proof Ht as [Ho Hrep Hg Hnd _].
  destruct (tended_node _ _ _ _ _ _ Ht) as (nd & Hn & _ & _ & Hi & HD & Hpar & Hsp & Hkey); [by rewrite Hm|].
  rewrite decide_True in Hsp by done. destruct C as [|f C].
  - destruct (link_root w b x D (mloc t) nd Ho HD Hn Hpar) as (w' & Hrun & Hgr & Hnodes & _). exists w'. split; [done|].
    apply moved_same; [done|done|]. intros l _. by rewrite Hnodes, set_n_spilled_id, insert_id.
  - destruct (spilled_parent _ _ _ _ _ _ Hg Hp Hm) as (_ & Hhead & Hne & Hsort). specialize (Hkey _ eq_refl).
    assert (Hfk : first_key (n_inodes nd) = fr_key f) by (by rewrite Hi, first_key_mhead).
    pose proof Hrep as [[(pn & Hpn & _ & Hpi & _) _] _]%mrep_fill. assert (Hnp : mloc t ≠ fr_loc f).
    { intros Heq. cbn [fill] in Hnd. rewrite mlocs_fill, mlocs_wrap in Hnd. apply NoDup_app in Hnd as (_ & _ & Hnd).
      apply NoDup_cons in Hnd as [Hnd _]. apply Hnd, elem_of_app. right. rewrite <- Heq. destruct t; by left. }
    destruct (link_node w b x D (mloc t) nd (fr_loc f) pn Ho HD Hnp Hn Hpar Hpn) as (w' & Hrun & Hgr & _ & Hk & Hp' & Hn'); [by rewrite Hfk|].
    exists w'. split; [done|]. apply moved_same; [done|done|]. intros l Hl.
    assert (Hlk : link_key nd = fr_key f) by (unfold link_key; rewrite Hkey; by rewrite decide_False).
    rewrite Hlk, Hfk in Hp'. assert (Hput : inodes_put (fr_key f) (fr_key f) None (Some (mloc t)) 0 (n_inodes pn) = n_inodes pn).
    { rewrite Hpi. assert (Hs : ssorted (ikeys (frame_inodes f (mloc t)))) by (by rewrite <- wrap_inodes, ikeys_branch, plains_fst).
      by apply inodes_put_exact. }
    rewrite Hput, set_n_inodes_id in Hp'. rewrite linked_id in Hn' by (congruence || done).
    destruct (decide (l = fr_loc f)) as [->|Hlp]; [congruence|]. destruct (decide (l = mloc t)) as [->|Hln]; [congruence|].
    apply Hk; [done|set_solver].
Qed.

(** ** The loop over the children *)

Definition rounds_left (T t : mtree) : nat := pend T * S (mheight T) + mheight t.

(** What a run of [finalize] leaves behind. *)
Definition finishes (b : bid) (x : Bucket) (D : gset loc) (w : world) (T : mtree) {A} (r : res A * world) (a : A) : Prop :=
  ∃ w' D' T', r = (Ret a, w') ∧ moved b x D w T w' D' T' ∧ pend T' = 0.

Lemma branch_of_fill C l m cs : (l, length cs) ∈ branches (fill C (MBranch l m cs)).
Proof.
  enough (H : ∀ t, (l, length cs) ∈ branches t → (l, length cs) ∈ branches (fill C t)) by (apply H; simpl; left).
  induction C as [|f C IH]; intros t Ht; simpl; [done|]. apply IH, branches_wrap. by right; left.
Qed.

(** The rest of a loop over the children of [l] in a finished tree. *)
Lemma loop_rest f w b x D T l n i rounds :
  tended w b x D T → pend T = 0 → (l, n) ∈ branches T → l ∈ D → i + rounds ≤ n →
  finalize_children (finalize (S f)) l i rounds w = (Ret None, w).
Proof.
  intros Ht Hp Hin HD Hlen. destruct (spilled_focus _ _ _ _ _ _ _ Ht Hp Hin HD) as (C & cs & -> & <- & Hcs).
  eapply (loop_quiet f w b x D C (MBranch l Spilled cs)); [done|done|done|]. simpl. unfold plains. by rewrite length_fmap, length_map.
Qed.

(** [finalize] after the loop over the children. *)
Definition finalize_tail (r : nat) (t : tid) (n : loc) : M (option err) :=
  let! nd := get_node n in
  let! nodes := split (S (length (n_inodes nd))) n in
  st_iter (finalize_link t) nodes ;!
  let! nd := get_node n in
  match n_parent nd with
  | None => st_ret None
  | Some p => let! pn := get_node p in if n_spilled pn then st_ret None else finalize r p
  end.

Lemma tail_run r t w w1 w2 n nodes nd m :
  w_nodes w !! n = Some nd → split (S (length (n_inodes nd))) n w = (Ret nodes, w1) →
  st_iter (finalize_link t) nodes w1 = (Ret tt, w2) → w_nodes w2 !! n = Some m →
  finalize_tail r t n w =
  match n_parent m with
  | None => (Ret None, w2)
  | Some p => (let! pn := get_node p in if n_spilled pn then st_ret None else finalize r p) w2
  end.
Proof.
  intros Hn Hs Hl Hm. unfold finalize_tail. rewrite (bind_Ret _ _ _ _ _ (get_node_run _ _ _ Hn)), (bind_Ret _ _ _ _ _ Hs), (bind_Ret _ _ _ _ _ Hl).
  rewrite (bind_Ret _ _ _ _ _ (get_node_run _ _ _ Hm)). by destruct (n_parent m).
Qed.

(** The tree was finished during the loop. *)
Lemma tail_done r w b x D C l cs :
  tended w b x D (fill C (MBranch l Spilled cs)) → pend (fill C (MBranch l Spilled cs)) = 0 →
  finishes b x D w (fill C (MBranch l Spilled cs)) (finalize_tail r (b_tx x) l w) None.
Proof.
  intros Ht Hp. destruct (tended_node _ _ _ _ _ _ Ht) as (nd & Hn & _ & Hlf & Hi & _); [done|].
  pose proof (td_good _ _ _ _ _ Ht) as Hg. destruct (good_inner _ _ _ _ _ Hg) as (lo & hi & Hgt).
  assert (Hcs : Forall (λ p, mmark p.2 ≠ Pending) cs) by (pose proof (fill_split C (MBranch l Spilled cs)); apply (pend_children (MBranch l Spilled cs)); lia).
  assert (Hs : noSplit nd = true) by (eapply branch_noSplit; [exact Hgt|done|done|by split]).
  destruct (relink _ _ _ _ _ _ Ht Hp eq_refl) as (w' & Hlink & Hmv). cbn [mloc] in Hn, Hlink.
  exists w', D, (fill C (MBranch l Spilled cs)). split; [|done].
  pose proof (mv_tended _ _ _ _ _ _ _ _ Hmv) as Ht'. destruct (tended_node _ _ _ _ _ _ Ht') as (m & Hm & _ & _ & _ & _ & Hpar & _); [done|].
  rewrite (tail_run r _ w w w' l [l] nd m Hn (split_stop _ _ _ Hn Hs) (eq_trans (bind_Ret _ _ _ _ _ Hlink) eq_refl) Hm), Hpar.
  destruct C as [|f C]; [done|]. cbn [parent_of]. destruct (spilled_parent _ _ _ _ _ _ Hg Hp eq_refl) as (Hfm & _).
  destruct (tended_node w' b (set_b_dirty (Some D) x) D C (wrap f (MBranch l Spilled cs)) Ht') as (pn & Hpn & _ & _ & _ & _ & _ & Hsp & _); [simpl; by rewrite Hfm|].
  simpl in Hpn, Hsp. rewrite Hfm, decide_True in Hsp by done. by rewrite (bind_Ret _ _ _ _ _ (get_node_run _ _ _ Hpn)), Hsp.
Qed.

(** The root is the last node to be finalized. *)
Lemma tail_root r w b x D l cs :
  tended w b x D (MBranch l Pending cs) → Forall (λ p, mmark p.2 ≠ Pending) cs →
  finishes b x D w (MBranch l Pending cs) (finalize_tail r (b_tx x) l w) None.
Proof.
  intros Ht Hcs. pose proof Ht as [Ho Hrep Hg Hnd Hroot].
  destruct (tended_node _ _ _ _ [] _ Ht) as (nd & Hn & _ & Hlf & Hi & HlD & Hpar & _); [done|]. simpl in Hn, HlD, Hpar.
  assert (Hs : noSplit nd = true) by (eapply branch_noSplit; [exact Hg|done|done|by split]).
  destruct (link_root w b x D l nd Ho HlD Hn Hpar) as (w' & Hlink & Hgr & Hnodes & Hnx).
  assert (Hx : set_b_dirty (Some D) x = x) by apply set_b_dirty_id, Ho.
  pose proof (grown_own _ _ _ _ _ _ Ho Hgr) as Ho'. exists w', D, (MBranch l Spilled cs).
  assert (Hm : w_nodes w' !! l = Some (set_n_spilled true nd)) by (rewrite Hnodes; apply lookup_insert_eq).
  assert (Hp0 : pend (MBranch l Spilled cs) = 0).
  { pose proof Hg as (_ & _ & _ & _ & _ & Hk)%good_Branch. simpl. apply pends_zero. rewrite Forall_forall in Hcs |- *. intros p Hp.
    destruct (kids_lookup _ _ _ _ _ Hk Hp) as (lo' & hi' & Hg'). eapply done_pend; [exact Hg'|by apply Hcs]. }
  split; [|split; [|done]].
  { rewrite (tail_run r _ w w w' l [l] nd _ Hn (split_stop _ _ _ Hn Hs) (eq_trans (bind_Ret _ _ _ _ _ Hlink) eq_refl) Hm).
    simpl. by rewrite Hpar. }
  split; [done| |by intros ? ?; left| |done|intros l' n Hin; eauto|done|done].
  { intros l' _ Hl'. rewrite Hnodes, lookup_insert_ne; [done|by intros <-]. }
  rewrite Hx in Ho' |- *. split; [done| | |done|done].
  - apply mrep_Branch in Hrep as [(nd' & Hn' & Hb & Hk & _) Hall]. assert (nd' = nd) as -> by congruence. apply mrep_Branch. split.
    { exists (set_n_spilled true nd). split; [done|]. split; [exact Hb|]. by split. }
    eapply mrep_list_frame; [|exact Hall]. intros l' Hl'. split; [|done]. rewrite Hnodes. apply lookup_insert_ne. intros <-.
    rewrite mlocs_Branch in Hnd. by apply NoDup_cons in Hnd as [? _].
  - pose proof Hg as (Hne & _)%good_Branch. destruct (settles_branch (splitThreshold (b_FillPercent x)) [] l cs Hcs Hne) as [_ _ _ Hst].
    destruct (Hst _ _ Hg) as (_ & _ & _ & [Hg' _]). exact Hg'.
Qed.

(** Settling one node leaves one node less to be finalized. *)
Lemma pend_settled C f t new : mmark t = Pending → fr_mark f = Pending → Forall (λ p, pend p.2 = 0) (mchildren t) → pends new = 0 →
  pend (fill (f :: C) t) = S (pend (fill C (settled_parent f new))).
Proof.
  intros Hm Hf Hc Hn. cbn [fill]. rewrite (pend_fill C (wrap f t)), (pend_fill C (settled_parent f new)).
  assert (Ht : pend t = 1).
  { destruct t as [l m kvs|l m cs]; simpl in Hm, Hc |- *; rewrite decide_True by done; [done|]. by rewrite (pends_zero cs Hc : list_sum _ = 0). }
  unfold pends in Hn. unfold wrap, settled_parent. simpl. rewrite Hf, !map_app, !list_sum_app. simpl. lia.
Qed.

Lemma height_settled f t new : mheights new ≤ mheight t → mheight (settled_parent f new) ≤ mheight (wrap f t).
Proof. unfold wrap, settled_parent, mheights. intros H. simpl. rewrite !map_app, !list_max_app. simpl. lia. Qed.

Lemma grows_settled f t x k ls pcs new : renewed x k t ls pcs new → 1 ≤ length new → grows (wrap f t) (settled_parent f new).
Proof.
  intros Hrn Hne l n [[= -> ->]|[Hin|(p & Hp & Hin)]]%branches_wrap.
  - exists (length (fr_pre f ++ new ++ fr_post f)). split; [rewrite !length_app; lia|]. unfold settled_parent. simpl. left.
  - destruct (rn_grows _ _ _ _ _ _ Hrn l n Hin) as (p & Hp & Hin'). exists n. split; [done|]. unfold settled_parent. simpl. right.
    apply elem_of_concat. exists (branches p.2). split; [|done]. apply list_elem_of_fmap. exists p. set_solver.
  - exists n. split; [done|]. unfold settled_parent. simpl. right. apply elem_of_concat. exists (branches p.2). split; [|done].
    apply list_elem_of_fmap. exists p. set_solver.
Qed.

Lemma settled_contents f t x k ls pcs new :
  renewed x k t ls pcs new → contents (plain (settled_parent f new)) = contents (plain (wrap f t)).
Proof.
  intros Hrn. pose proof (st_contents _ _ _ _ (rn_settles _ _ _ _ _ _ Hrn)) as Hc. unfold flat, plains in Hc. rewrite map_map in Hc. simpl in Hc.
  unfold settled_parent, wrap. simpl. rewrite !map_map. simpl. rewrite !map_app, !concat_app. simpl. by rewrite Hc.
Qed.

Lemma mloc_fill C : ∀ t t', mloc t = mloc t' → mloc (fill C t) = mloc (fill C t').
Proof. induction C as [|f C IH]; intros t t' H; simpl; [done|]. by apply IH. Qed.

(** A pending node with finalized children is settled in its parent. *)
Lemma settle_moved w b x D C f t nd :
  tended w b x D (fill (f :: C) t) → mmark t = Pending → Forall (λ p, mmark p.2 ≠ Pending) (mchildren t) →
  w_nodes w !! mloc t = Some nd →
  ∃ nodes w1 w' D' new, split (S (length (n_inodes nd))) (mloc t) w = (Ret nodes, w1) ∧
    st_iter (finalize_link (b_tx x)) nodes w1 = (Ret tt, w') ∧
    moved b x D w (fill (f :: C) t) w' D' (fill C (settled_parent f new)) ∧
    pend (fill (f :: C) t) = S (pend (fill C (settled_parent f new))) ∧
    ∃ m, w_nodes w' !! mloc t = Some m ∧ n_parent m = Some (fr_loc f).
Proof.
  intros Ht Hm Hd Hn. pose proof (td_good _ _ _ _ _ Ht) as Hg.
  destruct (settle_step w b x D C f t nd Ht Hm Hd Hn) as (nodes & w1 & w' & D' & ls & pcs & new & Hs & Hl & Hgr & Hw & Hfr & Hrn & Ht' & Hp).
  pose proof (rn_settles _ _ _ _ _ _ Hrn) as Hst. destruct (settled_good _ _ _ _ _ Hg Hm Hst) as (Hfm & _).
  destruct (good_inner _ _ _ _ _ Hg) as (lo & hi & Hgt). destruct (st_good _ _ _ _ Hst _ _ Hgt) as (Hne & _).
  exists nodes, w1, w', D', new. split_and!; [done|done| |apply pend_settled; auto; [|by eapply rn_pend]|done].
  - split; [done|done|done|done| | | |].
    + cbn [fill]. apply contents_fill. by eapply settled_contents.
    + cbn [fill]. apply grows_fill. eapply grows_settled; [done|]. destruct new; [done|simpl; lia].
    + cbn [fill]. apply mheight_fill, height_settled. by eapply rn_height.
    + cbn [fill]. by apply mloc_fill.
  - destruct t as [|l m cs]; [constructor|]. apply good_Branch in Hgt as (_ & _ & _ & _ & _ & Hk). simpl in *.
    rewrite Forall_forall in Hd |- *. intros p Hin. destruct (kids_lookup _ _ _ _ _ Hk Hin) as (lo' & hi' & Hg'). eapply done_pend; [exact Hg'|by apply Hd].
Qed.

Section finalize.
Context (b : bid) (f : nat).
(** The recursive calls of [finalize]. *)
Hypothesis IHf : ∀ w x D C t, tended w b x D (fill C t) → mmark t = Pending → rounds_left (fill C t) t < S f →
  finishes b x D w (fill C t) (finalize (S f) (mloc t) w) None.

(** The loop reaches a pending child, whose finalization finishes the tree, or
    finds none. *)
Lemma loop_pending w x D C l cs rounds : ∀ i,
  tended w b x D (fill C (MBranch l Pending cs)) → rounds_left (fill C (MBranch l Pending cs)) (MBranch l Pending cs) < S (S f) →
  i + rounds = length cs → Forall (λ p, mmark p.2 ≠ Pending) (take i cs) →
  (Forall (λ p, mmark p.2 ≠ Pending) cs ∧ finalize_children (finalize (S f)) l i rounds w = (Ret None, w)) ∨
  finishes b x D w (fill C (MBranch l Pending cs)) (finalize_children (finalize (S f)) l i rounds w) None.
Proof.
  induction rounds as [|r IH]; intros i Ht Hm Hlen Hd.
  { left. rewrite take_ge in Hd by lia. by split. }
  destruct (lookup_lt_is_Some_2 cs i ltac:(lia)) as [[k u] Hu].
  destruct (tended_node _ _ _ _ _ _ Ht) as (nd & Hn & Hb & _ & Hi & HlD & _); [done|]. cbn [mloc plain tree_inodes] in Hn, Hi, HlD.
  pose proof Ht as [[Hco Hx HD _] Hrep Hg _ _].
  assert (Hstep : finalize_children (finalize (S f)) l i (S r) w =
    (if bool_decide (mloc u ∈ D)
     then (let! e := finalize (S f) (mloc u) in match e with Some _ => st_ret e | None => finalize_children (finalize (S f)) l (S i) r end) w
     else finalize_children (finalize (S f)) l (S i) r w)).
  { cbn [finalize_children]. rewrite (bind_Ret _ _ _ _ _ (get_node_run _ _ _ Hn)), Hi.
    assert (Hind : (branch_inode <$> map (λ p, (p.1, plain p.2)) cs) !! i = Some (branch_inode (k, plain u))).
    { rewrite list_lookup_fmap. change (map (λ p, (p.1, plain p.2)) cs) with ((λ p : bytes * mtree, (p.1, plain p.2)) <$> cs).
      by rewrite list_lookup_fmap, Hu. }
    rewrite (bind_Ret _ _ _ _ _ (st_index_nat _ _ _ w Hind)). cbn [branch_inode i_child fst snd]. rewrite tloc_plain.
    rewrite Hb, (bind_Ret (st_deref (Some b)) _ w b w eq_refl), (bind_Ret _ _ _ _ _ (get_bkt_run _ _ _ Hx)).
    unfold isDirty. rewrite HD. by case_bool_decide. }
  rewrite Hstep. clear Hstep. pose proof (take_drop_middle _ _ _ Hu) as Hcs.
  assert (Hnext : mmark u ≠ Pending → Forall (λ p, mmark p.2 ≠ Pending) (take (S i) cs)).
  { intros Hum. rewrite (take_S_r _ _ _ Hu). apply Forall_app. split; [done|]. by repeat constructor. }
  pose proof Hrep as [_ [_ Hall]%mrep_Branch]%mrep_fill. rewrite Forall_forall in Hall.
  destruct (mrep_node _ _ _ _ _ (Hall _ (list_elem_of_lookup_2 _ _ _ Hu))) as (un & Hun & _ & _ & _ & Hmk). simpl in Hun, Hmk.
  destruct (mmark u) eqn:Hum.
  - rewrite bool_decide_eq_false_2 by done. apply IH; [done|done|lia|by apply Hnext].
  - rewrite bool_decide_eq_true_2 by apply Hmk. right.
    set (fr := mkFrame l Pending (take i cs) k (drop (S i) cs)).
    assert (Hfill : fill C (MBranch l Pending cs) = fill (fr :: C) u) by (cbn [fill]; unfold wrap, fr; simpl; by rewrite Hcs).
    assert (Hmu : rounds_left (fill (fr :: C) u) u < S f).
    { rewrite <- Hfill. unfold rounds_left in *. pose proof (mheight_child cs (k, u) (list_elem_of_lookup_2 _ _ _ Hu)). simpl in *. unfold mheights in *. lia. }
    rewrite Hfill in Ht. destruct (IHf w x D (fr :: C) u Ht Hum Hmu) as (w' & D' & T' & Hrun & Hmv & Hp').
    exists w', D', T'. rewrite Hfill. split; [|done]. rewrite (bind_Ret _ _ _ _ _ Hrun).
    destruct (mv_grows _ _ _ _ _ _ _ _ Hmv l (length cs)) as (n' & Hn' & Hin'); [rewrite <- Hfill; apply branch_of_fill|].
    eapply loop_rest; [apply Hmv|done|exact Hin'| |lia]. by apply (g_sub _ _ _ _ _ _ (mv_grown _ _ _ _ _ _ _ _ Hmv)).
  - rewrite bool_decide_eq_true_2 by apply Hmk. rewrite (bind_Ret _ _ w None w).
    + apply IH; [done|done|lia|by apply Hnext].
    + eapply finalize_spilled; [apply Ht|apply Hmk|done|apply Hmk].
Qed.
(** The node is settled and its parent finalized. *)
Lemma tail_settle w x D C fr t :
  tended w b x D (fill (fr :: C) t) → mmark t = Pending → Forall (λ p, mmark p.2 ≠ Pending) (mchildren t) →
  rounds_left (fill (fr :: C) t) t < S (S f) →
  finishes b x D w (fill (fr :: C) t) (finalize_tail (S f) (b_tx x) (mloc t) w) None.
Proof.
  intros Ht Hm Hd Hf. destruct (tended_node _ _ _ _ _ _ Ht) as (nd & Hn & _); [by rewrite Hm|].
  destruct (settle_moved w b x D C fr t nd Ht Hm Hd Hn) as (nodes & w1 & w' & D' & new & Hs & Hl & Hmv & Hpend & m & Hm' & Hpar).
  set (x' := set_b_dirty (Some D') x). pose proof (mv_tended _ _ _ _ _ _ _ _ Hmv) as Ht'. fold x' in Ht'.
  destruct (tended_node w' b x' D' C (settled_parent fr new) Ht') as (pn & Hpn & _ & _ & _ & _ & _ & Hsp & _); [done|].
  destruct (IHf w' x' D' C (settled_parent fr new) Ht' eq_refl) as (w2 & D2 & T2 & Hrun & Hmv2 & Hp2).
  { pose proof (mv_height _ _ _ _ _ _ _ _ Hmv). pose proof (mheight_sub C (settled_parent fr new)). unfold rounds_left in *.
    rewrite Hpend in Hf. assert (1 ≤ mheight t) by (destruct t; simpl; lia). cbn [fill] in *. nia. }
  exists w2, D2, T2. split; [|split; [|done]].
  - rewrite (tail_run _ _ w w1 w' (mloc t) nodes nd m Hn Hs Hl Hm'), Hpar. cbn [settled_parent mloc] in Hpn.
    rewrite (bind_Ret _ _ _ _ _ (get_node_run _ _ _ Hpn)), Hsp. exact Hrun.
  - eapply moved_trans; [apply Ht|exact Hmv|exact Hmv2].
Qed.
End finalize.


(** Finalizing one pending node finishes the tree. *)
Lemma finalize_pending b fuel : ∀ w x D C t,
  tended w b x D (fill C t) → mmark t = Pending → rounds_left (fill C t) t < fuel →
  finishes b x D w (fill C t) (finalize fuel (mloc t) w) None.
Proof.
  induction fuel as [|[|f] IHf]; intros w x D C t Ht Hm Hf; [lia| |].
  { unfold rounds_left in Hf. pose proof (fill_split C t). assert (1 ≤ pend t); [|nia]. destruct t; simpl in Hm |- *; rewrite decide_True by done; lia. }
  destruct (tended_node _ _ _ _ _ _ Ht) as (nd & Hn & Hb & _ & Hi & HlD & _ & Hsp & _); [by rewrite Hm|].
  rewrite Hm in Hsp. pose proof Ht as [[Hco Hx HD _] Hrep Hg _ Hroot].
  assert (Hstart : finalize (S (S f)) (mloc t) w =
    (let! e := finalize_children (finalize (S f)) (mloc t) 0 (length (n_inodes nd)) in
     match e with Some _ => st_ret e | None => finalize_tail (S f) (b_tx x) (mloc t) end) w).
  { rewrite finalize_S, (bind_Ret _ _ _ _ _ (get_node_run _ _ _ Hn)), Hb, (bind_Ret (st_deref (Some b)) _ w b w eq_refl).
    by rewrite (bind_Ret _ _ _ _ _ (get_bkt_run _ _ _ Hx)), Hsp. }
  assert (Hquiet : Forall (λ p, mmark p.2 ≠ Pending) (mchildren t) → finishes b x D w (fill C t) (finalize_tail (S f) (b_tx x) (mloc t) w) None).
  { intros Hd. destruct C as [|fr C]; [|by apply tail_settle]. destruct t as [|l m cs]; [by destruct Hroot|]. simpl in Hm. subst m. by apply tail_root. }
  rewrite Hstart. clear Hstart. rewrite Hi. destruct t as [l m kvs|l m cs]; simpl in Hm; subst m.
  - rewrite (bind_Ret _ _ w None w); [by apply Hquiet; constructor|].
    eapply (loop_quiet f w b x D C (MLeaf l Pending kvs)); [done|done|constructor|done].
  - cbn [mloc plain tree_inodes]. rewrite length_fmap, length_map.
    destruct (loop_pending b f IHf w x D C l cs (length cs) 0 Ht Hf eq_refl ltac:(constructor)) as [[Hd Hrun]|(w1 & D1 & T1 & Hrun & Hmv & Hp1)].
    + rewrite (bind_Ret _ _ _ _ _ Hrun). by apply Hquiet.
    + rewrite (bind_Ret _ _ _ _ _ Hrun). destruct (mv_grows _ _ _ _ _ _ _ _ Hmv l (length cs)) as (n' & _ & Hin'); [apply branch_of_fill|].
      pose proof (mv_tended _ _ _ _ _ _ _ _ Hmv) as Ht1.
      assert (HlD1 : l ∈ D1) by (by apply (g_sub _ _ _ _ _ _ (mv_grown _ _ _ _ _ _ _ _ Hmv))).
      destruct (spilled_focus _ _ _ _ _ _ _ Ht1 Hp1 Hin' HlD1) as (C1 & cs1 & -> & _ & _).
      destruct (tail_done (S f) w1 b (set_b_dirty (Some D1) x) D1 C1 l cs1 Ht1 Hp1) as (w2 & D2 & T2 & Hrun2 & Hmv2 & Hp2).
      exists w2, D2, T2. split; [exact Hrun2|]. split; [|done]. eapply moved_trans; [apply Ht|exact Hmv|exact Hmv2].
Qed.
