(* ===== verification/KeysFit.v ===== *)
(** * Buckets whose keys fit into one node

    A commit needs room in the branches for the separators it will put there.
    They are keys of the bucket, so there is room when all the keys of the bucket
    together, without the values, would fit into one node. *)
From S2P Require Import Prelude GoSort Stats World Node KV Tree CowSpec Regroup Frame FrameSpill SpillSpec Marked SpillTree FinalizeTree.

(** What the keys [ks] take in a branch. *)
Definition keys_size (ks : list bytes) : Z := sum_size ((λ k, mkInode 0 k None None) <$> ks).
Definition small_keys (ks : list bytes) : Prop := (nodeHeaderOverheadBytes + keys_size ks < defaultMaxNodeSizeBytes)%Z.

Lemma keys_size_sublist ks ks' : sublist ks ks' → (keys_size ks ≤ keys_size ks')%Z.
Proof.
  unfold keys_size. induction 1 as [|k l l' _ IH|k l l' _ IH]; cbn [fmap list_fmap sum_size]; [done|lia|].
  pose proof (inode_size_pos (mkInode 0 k None None)). unfold nodeInodeOverheadBytes in *. lia.
Qed.

Lemma small_keys_sublist ks ks' : sublist ks ks' → small_keys ks' → small_keys ks.
Proof. unfold small_keys. intros H%keys_size_sublist. lia. Qed.

Lemma small_fits ks : small_keys ks → fitsb ks = true.
Proof.
  unfold small_keys, fitsb, noSplit, sizeLessThan. intros H. simpl. rewrite sizeLessThan_loop_spec. fold (keys_size ks).
  apply orb_true_iff. right. apply orb_true_iff. right. by apply Z.ltb_lt.
Qed.

(** A shared tree begins with its first key. *)
Lemma clean_first t : ∀ lo hi, shape lo hi t → mmark t = Clean → ∃ v rest, contents (plain t) = (mhead t, v) :: rest.
Proof.
  induction t as [l m kvs|l m cs IH] using mtree_nested_ind; intros lo hi Hs Hm; simpl in Hm; subst m.
  - destruct Hs as (Hne & _). destruct kvs as [|[k v] kvs]; [done|]. by exists v, kvs.
  - apply shape_Branch in Hs as (Hne & _ & _ & Hmk & Hk). destruct cs as [|[k c] cs]; [done|]. apply Forall_cons in IH as [IHc _].
    apply Forall_cons in Hmk as [(Hc & _ & Hh) _]. specialize (Hc eq_refl). cbn [fst snd] in *. destruct Hk as [Hs _].
    destruct (IHc _ _ Hs Hc) as (v & rest & Heq). rewrite Hh by (by rewrite Hc). simpl. rewrite Heq. by eexists v, _.
Qed.

Lemma firsts_sublist (pcs : list (list inode)) : Forall (λ pc, pc ≠ []) pcs → sublist (first_key <$> pcs) (ikeys (concat pcs)).
Proof.
  induction 1 as [|pc pcs Hpc _ IH]; [constructor|]. cbn [concat fmap list_fmap]. unfold ikeys in *. rewrite fmap_app. destruct pc as [|i pc]; [done|].
  cbn [first_key fmap list_fmap app]. apply sublist_skip. by apply sublist_inserts_l.
Qed.

(** The separators of the future are keys. *)
Lemma after_sublist thr t : ∀ lo hi k, shape lo hi t → unspilled t → (mmark t ≠ Pending → k = mhead t) →
  sublist (after thr k t) (keys (contents (plain t))).
Proof.
  assert (Hclean : ∀ t lo hi k, shape lo hi t → mmark t = Clean → k = mhead t → sublist [k] (keys (contents (plain t)))).
  { intros u lo hi k Hs Hm ->. destruct (clean_first u lo hi Hs Hm) as (v & rest & ->). simpl. apply sublist_skip, sublist_nil_l. }
  induction t as [l m kvs|l m cs IH] using mtree_nested_ind; intros lo hi k Hs Hu Hk.
  - cbn [after]. destruct (decide (m = Pending)) as [->|Hm].
    2:{ apply (Hclean (MLeaf l m kvs) lo hi); [done| |by apply Hk]. simpl in Hu |- *. by destruct m. }
    destruct Hs as (Hne & _). set (nd := mkNode None true false false [] None (leaf_inode <$> kvs)).
    assert (Hmin : minKeys nd ≤ length (n_inodes nd)) by (unfold minKeys; simpl; rewrite length_fmap; destruct kvs; [done|simpl; lia]).
    assert (Hlt : length (n_inodes nd) < S (length kvs)) by (simpl; rewrite length_fmap; lia).
    destruct (split_inodes_spec (S (length kvs)) nd thr ltac:(lia) Hmin) as (Hcat & Hf & _).
    assert (Heq : keys kvs = ikeys (concat (leaf_pieces thr kvs))) by (unfold leaf_pieces; fold nd; rewrite Hcat; symmetry; apply ikeys_leaf).
    cbn [plain contents]. rewrite Heq. apply firsts_sublist. eapply Forall_impl; [exact Hf|]. intros pc Hpc ->. pose proof (minKeys_pos nd). simpl in Hpc. lia.
  - cbn [after]. destruct (decide (m = Pending)) as [->|Hm].
    2:{ apply (Hclean (MBranch l m cs) lo hi); [done| |by apply Hk]. apply unspilled_Branch in Hu as [Hu _]. simpl. by destruct m. }
    destruct cs as [|[k0 c0] cs]; [apply sublist_nil_l|]. apply shape_Branch in Hs as (_ & _ & _ & Hmk & [Hs0 _]).
    apply unspilled_Branch in Hu as [_ Hu]. apply Forall_cons in IH as [IH _], Hmk as [(_ & _ & Hh) _], Hu as [[_ Hu] _]. cbn [fst snd] in *.
    etrans; [apply sublist_take|]. etrans; [eapply IH; [exact Hs0|exact Hu|exact Hh]|]. simpl. unfold keys. rewrite fmap_app. apply sublist_inserts_r. done.
Qed.

Lemma seps_sublist thr hi cs : ∀ e m, skids hi e cs → marks_ok m cs → Forall (λ p, at_head p ∧ unspilled p.2) cs →
  sublist (seps_after thr cs) (keys (flat (plains cs))).
Proof.
  induction cs as [|[k c] cs IH]; intros e m Hsk Hm Hun; [constructor|]. destruct Hsk as [Hs Hk]. apply Forall_cons in Hm as [(_ & _ & Hh) Hmk].
  apply Forall_cons in Hun as [[_ Hu] Hus]. cbn [fst snd] in *. change (seps_after thr ((k, c) :: cs)) with (after thr k c ++ seps_after thr cs). rewrite flat_plains_cons, keys_app.
  apply sublist_app; [by eapply after_sublist|by eapply IH].
Qed.

(** Small keys leave room everywhere. *)
Lemma small_roomy thr t : ∀ lo hi, shape lo hi t → unspilled t → small_keys (keys (contents (plain t))) → roomy thr t = true.
Proof.
  induction t as [l m kvs|l m cs IH] using mtree_nested_ind; intros lo hi Hs Hu Hsm; [done|].
  apply shape_Branch in Hs as (_ & _ & _ & Hmk & Hk). apply unspilled_Branch in Hu as [_ Hu]. rewrite contents_plain in Hsm.
  cbn [roomy]. apply andb_true_intro. split.
  - apply orb_true_iff. right. apply small_fits. eapply small_keys_sublist; [|exact Hsm]. by eapply seps_sublist.
  - apply forallb_forall. intros p Hp%list_elem_of_In. rewrite Forall_forall in IH, Hu. destruct (skids_lookup _ _ _ _ Hk Hp) as (lo' & hi' & Hs').
    eapply (IH p Hp); [exact Hs'|by apply Hu|]. eapply small_keys_sublist; [|exact Hsm]. apply list_elem_of_split in Hp as (c1 & c2 & ->).
    destruct p as [k c]. rewrite plains_app. change (plains ((k, c) :: c2)) with ((k, plain c) :: plains c2). rewrite flat_app, flat_cons, !keys_app.
    apply sublist_inserts_l, sublist_inserts_r. done.
Qed.
