(* ===== verification/Publish.v ===== *)
(** * Publishing a bucket freezes its nodes

    [Bucket.publishRoot] hands the bucket's own nodes over to the published
    state.  [iso] is what any call of the program may do to what others see:
    frozen nodes and the handles and pinned states of readers never change. *)
From S2P Require Import Prelude GoSort Stats World Node KV Tree Cursor Cow Bucket Spill CowSpec Frame FrameSpill.
Local Open Scope st_scope.

Record iso (w w' : world) : Prop := mkIso {
  i_core : core w';
  i_frozen : ∀ l n, w_nodes w !! l = Some n → n_bucket n = None → w_nodes w' !! l = Some n;
  i_bkts : ∀ b x, w_bkts w !! b = Some x → ∃ x', w_bkts w' !! b = Some x' ∧ b_tx x' = b_tx x ∧
    b_name x' = b_name x ∧ (b_dirty x = None → x' = x);
  i_txs : ∀ t tx, w_txs w !! t = Some tx → ∃ tx', w_txs w' !! t = Some tx' ∧
    t_writable tx' = t_writable tx ∧ (t_db tx' = true → t_db tx = true ∧ t_base tx' = t_base tx)
}.

Lemma iso_refl w : core w → iso w w.
Proof. intros Hc. split; eauto 10. Qed.

Lemma iso_trans w1 w2 w3 : iso w1 w2 → iso w2 w3 → iso w1 w3.
Proof.
  intros [_ Hf Hb Ht] [Hc Hf' Hb' Ht']. split; auto.
  - intros b x (x2 & H2 & Htx & Hn & Hd)%Hb. destruct (Hb' _ _ H2) as (x3 & H3 & Htx3 & Hn3 & Hd3).
    exists x3. split_and!; [done|congruence..|]. intros Hx. pose proof (Hd Hx). subst x2. auto.
  - intros t tx (tx2 & H2 & Hw & Hdb)%Ht. destruct (Ht' _ _ H2) as (tx3 & H3 & Hw3 & Hdb3).
    exists tx3. split_and!; [done|congruence|]. intros [H ->]%Hdb3. auto.
Qed.

Lemma evo_iso w w' : evo w w' → iso w w'.
Proof.
  intros [Hc Hf _ Hb _ Ht _ _]. split; auto.
  - intros b x (x' & H & H1 & H2 & H3 & _)%Hb. eauto 10.
  - intros t tx Htx. destruct (strip_lookup _ _ _ _ Ht Htx) as (tx' & Htx' & Hs).
    destruct (strip_fields _ _ Hs) as (Hw & Hd & Hba & _). exists tx'. split_and!; auto. intros. by split; congruence.
Qed.

Lemma frozen_iso w w' l : iso w w' → frozen w l → frozen w' l.
Proof. intros Hi (n & Hn & Hb). exists n. split; [by apply (i_frozen _ _ Hi)|done]. Qed.

(** ** detachPublishedNodes *)

Lemma iter_upd_node (f : node → node) ls : ∀ w,
  NoDup ls → (∀ l, l ∈ ls → is_Some (w_nodes w !! l)) →
  ∃ h, st_iter (λ n, upd_node n f) ls w = (Ret tt, set_nodes h w) ∧
    ∀ l, h !! l = if decide (l ∈ ls) then f <$> w_nodes w !! l else w_nodes w !! l.
Proof.
  induction ls as [|a ls IH]; intros w Hnd Hex.
  { exists (w_nodes w). split; [by destruct w|]. intros l. by rewrite decide_False by set_solver. }
  cbn [st_iter]. apply NoDup_cons in Hnd as [Ha Hnd]. destruct (Hex a ltac:(set_solver)) as [n Hn].
  rewrite (bind_Ret _ _ _ _ _ (upd_node_run _ _ _ _ Hn)).
  destruct (IH (set_nodes (<[a := f n]> (w_nodes w)) w) Hnd) as (h & Hrun & Hh).
  { intros l Hl. simpl. rewrite lookup_insert. case_decide; [eauto|]. apply Hex. set_solver. }
  exists h. split; [exact Hrun|]. intros l. rewrite Hh. simpl.
  destruct (decide (l = a)) as [->|Hla].
  - rewrite decide_False, decide_True by set_solver. by rewrite lookup_insert_eq, Hn.
  - rewrite lookup_insert_ne by done. repeat case_decide; try done; set_solver.
Qed.

(** What publishing one handle changes: its nodes, and the handle itself. *)
Record published (b : bid) (D : gset loc) (w w' : world) : Prop := mkPublished {
  p_nodes : ∀ l, w_nodes w' !! l =
    if decide (l ∈ D) then (λ n, set_n_parent None (set_n_bucket None n)) <$> w_nodes w !! l
    else w_nodes w !! l;
  p_bkts : w_bkts w' =
    alter (λ x, set_b_dirty None (set_b_rootNode None x)) b (w_bkts w);
  p_rest : w_txs w' = w_txs w ∧ w_db w' = w_db w ∧ w_nextn w' = w_nextn w ∧ w_nextb w' = w_nextb w ∧
    w_nextt w' = w_nextt w ∧ w_fired w' = w_fired w
}.

Lemma detach_run w b x D :
  core w → w_bkts w !! b = Some x → b_dirty x = Some D →
  ∃ w', detachPublishedNodes b w = (Ret tt, w') ∧ published b D w w'.
Proof.
  intros Hc Hx HD. unfold detachPublishedNodes. rewrite (bind_Ret _ _ _ _ _ (get_bkt_run _ _ _ Hx)), HD.
  destruct (iter_upd_node (λ nd, set_n_parent None (set_n_bucket None nd)) (elements D) w) as (h & Hrun & Hh).
  { apply NoDup_elements. }
  { intros l Hl%elem_of_elements. destruct (s_dirty _ Hc b l) as (n & Hn & _); [by exists x, D|eauto]. }
  rewrite (bind_Ret _ _ _ _ _ Hrun). eexists. split; [apply upd_bkt_run; exact Hx|]. split; simpl; auto.
  - intros l. rewrite Hh. repeat case_decide; try done; set_solver.
  - apply map_eq. intros b'. rewrite lookup_insert, lookup_alter. case_decide; [|done]. subst. by rewrite Hx.
  - by split_and!.
Qed.

Lemma published_iso w w' b x D :
  core w → w_bkts w !! b = Some x → b_dirty x = Some D → published b D w w' →
  iso w w' ∧ (∀ l, l ∈ D → frozen w' l).
Proof.
  intros Hc Hx HD [Hn Hb (Ht & Hdb & Hnn & Hnb & Hnt & _)].
  assert (HDo : ∀ l, l ∈ D → ∃ n, w_nodes w !! l = Some n ∧ n_bucket n = Some b).
  { intros l Hl. apply (s_dirty _ Hc). by exists x, D. }
  assert (Hfz : ∀ l, l ∈ D → frozen w' l).
  { intros l Hl. destruct (HDo l Hl) as (n & Hl1 & _). eexists. rewrite Hn, decide_True, Hl1 by done. done. }
  assert (Hkeep : ∀ l n, w_nodes w !! l = Some n → n_bucket n ≠ Some b → w_nodes w' !! l = Some n).
  { intros l n Hl Hne. rewrite Hn, decide_False; [done|]. intros (m & Hm & ?)%HDo. congruence. }
  assert (Hfr : ∀ l, frozen w l → frozen w' l).
  { intros l (n & Hl & Hnl). exists n. split; [apply Hkeep; [done|congruence]|done]. }
  assert (Hlk : ∀ b', w_bkts w' !! b' =
    if decide (b = b') then Some (set_b_dirty None (set_b_rootNode None x)) else w_bkts w !! b').
  { intros b'. rewrite Hb, lookup_alter. case_decide; [subst; by rewrite Hx|done]. }
  assert (Hdi : ∀ b' l, dirty_of w' b' l ↔ b' ≠ b ∧ dirty_of w b' l).
  { intros b' l. unfold dirty_of. rewrite Hlk. case_decide as Hbb.
    - subst b'. split; [|naive_solver]. intros (y & D' & [= <-] & HD' & _). done.
    - naive_solver. }
  assert (Hown : ∀ l n b', w_nodes w' !! l = Some n → n_bucket n = Some b' → w_nodes w !! l = Some n ∧ b' ≠ b).
  { intros l n b'. rewrite Hn. case_decide as Hl.
    - destruct (HDo l Hl) as (m & -> & _). by intros [= <-].
    - intros Hl1 Hnb1. split; [done|]. intros ->. destruct (s_owned _ Hc _ _ _ Hl1 Hnb1) as (y & D' & Hy & HD' & ?).
      simplify_eq. done. }
  assert (Hfz' : ∀ l, dirty_of w b l → frozen w' l).
  { intros l (y & D' & Hy & HD' & Hl). simplify_eq. by apply Hfz. }
  split; [|done]. split.
  - split.
    + intros l n. rewrite Hnn, Hn. case_decide as Hl; [|by apply (s_fresh_n _ Hc)].
      destruct (HDo l Hl) as (m & Hm & _). intros _. by eapply s_fresh_n.
    + intros b' y. rewrite Hnb, Hlk. case_decide; [subst; intros _; by eapply s_fresh_b|by apply s_fresh_b].
    + rewrite Ht, Hnt. apply (s_fresh_t _ Hc).
    + intros b' l [Hne Hd]%Hdi. destruct (s_dirty _ Hc _ _ Hd) as (n & Hl & Hbn). exists n.
      split; [apply Hkeep; [done|congruence]|done].
    + intros l n b' Hl Hbn. destruct (Hown _ _ _ Hl Hbn) as [Hl0 Hne]. apply Hdi. split; [done|]. by eapply s_owned.
    + intros l n b' p Hl Hbn Hp. destruct (Hown _ _ _ Hl Hbn) as [Hl0 Hne]. apply Hdi. split; [done|]. by eapply s_parent.
    + intros l n b' i c Hl Hbn Hi Hic. destruct (Hown _ _ _ Hl Hbn) as [Hl0 Hne].
      destruct (s_child _ Hc _ _ _ _ _ Hl0 Hbn Hi Hic); [left; auto|right; by apply Hdi].
    + intros l n i c. rewrite Hn. case_decide as Hl; [|intros; by eapply Hfr, s_closed].
      destruct (HDo l Hl) as (m & Hm & Hmb). rewrite Hm. intros [= <-] _ Hi Hic. simpl in Hi.
      destruct (s_child _ Hc _ _ _ _ _ Hm Hmb Hi Hic); auto.
    + intros b' y r. rewrite Hlk. case_decide; [by intros [= <-]|]. intros Hy Hr. apply Hdi. split; [done|].
      by eapply s_root.
    + intros st. rewrite Hdb. intros Hst. eapply st_frozen_mono; [apply Hfr|by apply (s_db _ Hc)].
    + intros t tx st. rewrite Ht. intros Htx Hst. eapply st_frozen_mono; [apply Hfr|by eapply (s_base _ Hc)].
  - intros l n Hl Hnl. apply Hkeep; [done|congruence].
  - intros b' y Hy. rewrite Hlk. case_decide; [|eauto 10]. subst b'. simplify_eq. eexists.
    split_and!; [done..|]. by rewrite HD.
  - rewrite Ht. eauto 10.
Qed.

(** [publishRoot] on an existing handle returns a state whose root is frozen. *)
Lemma publishRoot_run w b x :
  core w → w_bkts w !! b = Some x →
  ∃ st w', publishRoot b w = (Ret st, w') ∧ iso w w' ∧
    (∀ bs r, st = Some bs → bs_root bs = Some r → frozen w' r) ∧
    w_txs w' = w_txs w ∧ w_db w' = w_db w ∧ w_fired w' = w_fired w ∧
    (∀ b', b' ≠ b → w_bkts w' !! b' = w_bkts w !! b').
Proof.
  intros Hc Hx. unfold publishRoot. rewrite (bind_Ret _ _ _ _ _ (get_bkt_run _ _ _ Hx)).
  destruct (b_rootNode x) as [r|] eqn:Hr.
  - destruct (s_root _ Hc _ _ _ Hx Hr) as (y & D & Hy & HD & HrD). assert (y = x) as -> by congruence.
    destruct (detach_run w b x D Hc Hx HD) as (w' & Hrun & Hp). destruct (published_iso _ _ _ _ _ Hc Hx HD Hp) as [Hi Hf].
    rewrite (bind_Ret _ _ _ _ _ Hrun). eexists _, w'. split; [done|]. destruct Hp as [_ Hb (? & ? & _ & _ & _ & ?)].
    split_and!; auto.
    + intros bs r' [= <-] [= <-]. auto.
    + intros b' Hne. by rewrite Hb, lookup_alter_ne.
  - rewrite (bind_Ret st_get _ w w w eq_refl). eexists _, w. split; [done|].
    split_and!; auto using iso_refl. intros bs r' Hbs Hr'. by eapply baseState_frozen.
Qed.
