(* ===== verification/Isolation.v ===== *)
(** * Every call keeps the discipline: snapshot isolation and atomic commit

    [sane] is the invariant of the whole program state.  Every call of the API
    keeps it, and does to the rest of the world only what [iso] allows; a call
    other than a successful [Commit] (and [Close]) does not change the published
    state. *)
From S2P Require Import Prelude GoSort Stats World Node KV Tree TreePath Cursor CursorSpec Cow Bucket Spill Tx DB.
From S2P Require Import CowSpec BucketSpec Frame FrameSpill Publish.
Local Open Scope st_scope.

(** [t] is an open write transaction. *)
Definition writer (txs : gmap tid Tx) (t : tid) : Prop :=
  ∃ tx, txs !! t = Some tx ∧ t_writable tx && t_db tx = true.

(** The writer lock is held exactly while a write transaction is open, and there
    is at most one. *)
Record lock_ok (txs : gmap tid Tx) (held : bool) : Prop := mkLockOk {
  lk_held : held = true ↔ ∃ t, writer txs t;
  lk_one : ∀ t t', writer txs t → writer txs t' → t = t'
}.

Lemma lock_ok_ext txs txs' held :
  (∀ t, writer txs' t ↔ writer txs t) → lock_ok txs held → lock_ok txs' held.
Proof. intros H [H1 H2]. split; [setoid_rewrite H; done|]. intros t t'. rewrite !H. auto. Qed.

Lemma writer_strip txs txs' t : strip <$> txs' = strip <$> txs → writer txs t → writer txs' t.
Proof.
  intros H (tx & Htx & Hw). destruct (strip_lookup _ _ _ _ H Htx) as (tx' & Htx' & Hs).
  exists tx'. split; [done|]. by destruct (strip_fields _ _ Hs) as (-> & -> & _).
Qed.

Lemma writer_insert txs t tx tx' u :
  txs !! t = Some tx → t_writable tx' && t_db tx' = t_writable tx && t_db tx →
  writer (<[t := tx']> txs) u ↔ writer txs u.
Proof.
  intros Ht He. unfold writer. setoid_rewrite lookup_insert. case_decide; [|done]. subst u.
  rewrite Ht. split; intros (y & [= <-] & Hy); eexists; (split; [done|]); congruence.
Qed.

(** Handles belong to transactions; a handle without a dirty set belongs to a
    read-only or closed one; cached handles exist. *)
Record sane (w : world) : Prop := mkSane {
  sn_core : core w;
  sn_handle : ∀ b x, w_bkts w !! b = Some x → ∃ tx, w_txs w !! b_tx x = Some tx ∧
    (b_dirty x = None → t_writable tx && t_db tx = false);
  sn_bctx : ∀ t tx name b, w_txs w !! t = Some tx → t_bctx tx !! name = Some b →
    ∃ x, w_bkts w !! b = Some x ∧ b_tx x = t;
  sn_lock : lock_ok (w_txs w) (db_rwlock (w_db w))
}.

(** What a call that publishes nothing does. *)
Record quiet (w w' : world) : Prop := mkQuiet {
  q_sane : sane w';
  q_iso : iso w w';
  q_state : db_state (w_db w') = db_state (w_db w)
}.

Lemma quiet_refl w : sane w → quiet w w.
Proof. intros H. split; auto. apply iso_refl, H. Qed.
Lemma quiet_trans w1 w2 w3 : quiet w1 w2 → quiet w2 w3 → quiet w1 w3.
Proof. intros [] []. split; [done|by eapply iso_trans|congruence]. Qed.

Lemma sane_evo w w' : sane w → evo w w' → sane w'.
Proof.
  intros [_ Hh Hb Hl] He. split; [apply He| | |].
  - intros b x Hx. destruct (e_bkts_old _ _ He _ _ Hx) as [x0 Hx0].
    destruct (e_bkts _ _ He _ _ Hx0) as (x' & Hx' & Ht & _ & _ & Hd & _). simplify_eq.
    destruct (Hh _ _ Hx0) as (tx & Htx & Himp). rewrite Ht.
    destruct (strip_lookup _ _ _ _ (e_txs _ _ He) Htx) as (tx' & Htx' & Hs). exists tx'. split; [done|].
    destruct (strip_fields _ _ Hs) as (-> & -> & _). intros Hn. apply Himp.
    destruct (b_dirty x0); [|done]. destruct Hd as [? Hd]; [eauto|]. congruence.
  - intros t tx' name b Htx' Hn. destruct (strip_lookup _ _ _ _ (eq_sym (e_txs _ _ He)) Htx') as (tx & Htx & Hs).
    destruct (strip_fields _ _ Hs) as (_ & _ & _ & Hbc). rewrite <- Hbc in Hn.
    destruct (Hb _ _ _ _ Htx Hn) as (x & Hx & Hxt). destruct (e_bkts _ _ He _ _ Hx) as (x' & ? & ? & _).
    exists x'. split; [done|congruence].
  - rewrite (e_db _ _ He). eapply lock_ok_ext; [|exact Hl]. pose proof (e_txs _ _ He).
    intros t. split; by apply writer_strip.
Qed.

Lemma evo_quiet w w' : sane w → evo w w' → quiet w w'.
Proof.
  intros Hs He. split; [by eapply sane_evo|by apply evo_iso|]. by rewrite (e_db _ _ He).
Qed.

(** ** The logic of quiet calls *)

Definition qsafe {A} (Q : A → world → Prop) (m : M A) (w : world) : Prop :=
  quiet w (m w).2 ∧ ∀ a w', m w = (Ret a, w') → Q a w'.

Lemma qsafe_ret {A} (Q : A → world → Prop) a w : sane w → Q a w → qsafe Q (st_ret a) w.
Proof. intros Hs HQ. split; [by apply quiet_refl|]. by intros ? ? [= <- <-]. Qed.
Lemma qsafe_stop {A} (Q : A → world → Prop) (m : M A) w r :
  sane w → m w = (r, w) → (∀ a, r ≠ Ret a) → qsafe Q m w.
Proof. intros Hs Hm Hr. unfold qsafe. rewrite Hm. split; [by apply quiet_refl|]. intros a w' [= Ha _]. by destruct (Hr a). Qed.
Lemma qsafe_safe {A} (Q : A → world → Prop) (m : M A) w : sane w → safe Q m w → qsafe Q m w.
Proof. intros Hs [He HQ]. split; [by apply evo_quiet|done]. Qed.
Lemma qsafe_bind {A B} (Q : A → world → Prop) (R : B → world → Prop) (m : M A) (f : A → M B) w :
  qsafe Q m w → (∀ a w', quiet w w' → Q a w' → qsafe R (f a) w') → qsafe R (st_bind m f) w.
Proof.
  intros [He HQ] Hf. unfold qsafe, st_bind. destruct (m w) as [[a| | |] w'] eqn:E; simpl in *; try by split.
  destruct (Hf a w' He (HQ _ _ eq_refl)) as [He' HR]. split; [by eapply quiet_trans|done].
Qed.
Lemma qsafe_eq {A} (Q : A → world → Prop) (m m' : M A) w : m w = m' w → qsafe Q m' w → qsafe Q m w.
Proof. unfold qsafe. by intros ->. Qed.
Lemma qsafe_get_db {B} (R : B → world → Prop) (f : DB → M B) w :
  qsafe R (f (w_db w)) w → qsafe R (st_bind get_db f) w.
Proof. done. Qed.
Lemma qsafe_get_bkt {B} (R : B → world → Prop) b (f : Bucket → M B) w :
  sane w → (∀ x, w_bkts w !! b = Some x → qsafe R (f x) w) → qsafe R (st_bind (get_bkt b) f) w.
Proof.
  intros Hs Hf. destruct (w_bkts w !! b) as [x|] eqn:E.
  - unfold qsafe. rewrite (bind_Ret _ _ _ _ _ (get_bkt_run _ _ _ E)). by apply Hf.
  - eapply (qsafe_stop _ _ _ (Panic PNilDeref)); [done| |done].
    unfold get_bkt, st_bind, st_get, st_deref. by rewrite E.
Qed.
Lemma qsafe_get_tx {B} (R : B → world → Prop) t (f : Tx → M B) w :
  sane w → (∀ x, w_txs w !! t = Some x → qsafe R (f x) w) → qsafe R (st_bind (get_tx t) f) w.
Proof.
  intros Hs Hf. destruct (w_txs w !! t) as [x|] eqn:E.
  - unfold qsafe. rewrite (bind_Ret _ _ _ _ _ (get_tx_run _ _ _ E)). by apply Hf.
  - eapply (qsafe_stop _ _ _ (Panic PNilDeref)); [done| |done].
    unfold get_tx, st_bind, st_get, st_deref. by rewrite E.
Qed.
Lemma qsafe_Assert {B} (R : B → world → Prop) c (f : unit → M B) w :
  sane w → qsafe R (f tt) w → qsafe R (st_bind (Assert c) f) w.
Proof. intros Hs Hf. destruct c; [exact Hf|]. by eapply (qsafe_stop _ _ _ (Panic PAssert)). Qed.

(** A walk only reads. *)
Lemma safe_walk {A B} (R : B → world → Prop) b s (m : gmap loc node → option loc → CM A) (f : A * list elemRef → M B) w :
  core w → (∀ r, safe R (f r) w) → safe R (st_bind (walk b s m) f) w.
Proof.
  intros Hc Hf. unfold walk. eapply (safe_bind (λ _ w', w' = w)); [|intros r w' _ ->; apply Hf].
  split; [destruct (w_bkts w !! b); [destruct (m _ _ _) as [[]]|]; by apply evo_refl|].
  intros a w'. destruct (w_bkts w !! b); [destruct (m _ _ _) as [[]]|]; naive_solver.
Qed.

(** ** Bucket and cursor calls *)

(** [Bucket.Cursor] counts; the handles stay as they are. *)
Lemma Bucket_Cursor_safe b w : core w → safe (λ _ w', w_bkts w' = w_bkts w) (Bucket_Cursor b) w.
Proof.
  intros Hc. unfold Bucket_Cursor. apply safe_get_bkt; [done|]. intros x _.
  eapply (safe_bind (λ _ w', w_bkts w' = w_bkts w)); [|intros _ w' He Hb; apply safe_ret; [apply He|done]].
  split; [apply (safe_tx_stat _ _ _ Hc)|]. intros u w'. unfold tx_stat, upd_tx, get_tx, st_bind, st_get, st_deref.
  destruct (w_txs w !! b_tx x); [|done]. by intros [= _ <-].
Qed.

Ltac sif := match goal with |- safe _ (if ?c then _ else _) _ => destruct c eqn:? end.
Ltac qif := match goal with |- qsafe _ (if ?c then _ else _) _ => destruct c eqn:? end.

(** A handle whose transaction is open and writable has a dirty set. *)
Lemma writable_handle w b x tx :
  sane w → w_bkts w !! b = Some x → w_txs w !! b_tx x = Some tx → t_db tx = true → t_writable tx = true →
  ∀ x', w_bkts w !! b = Some x' → is_Some (b_dirty x').
Proof.
  intros Hs Hx Htx Hd Hw x' Hx'. simplify_eq. destruct (sn_handle _ Hs _ _ Hx) as (tx' & Htx' & Himp). simplify_eq.
  destruct (b_dirty x); [eauto|]. rewrite Hd, Hw in Himp. naive_solver.
Qed.

Lemma cursor_write_safe w b s (op : loc → M unit) :
  core w → (∀ x, w_bkts w !! b = Some x → is_Some (b_dirty x)) →
  (∀ n w', core w' → dirty_of w' b n → safe anything (op n) w') →
  safe anything (let! n := Cursor_node b s in op n ;! st_ret (@None err)) w.
Proof.
  intros Hc Hd Hop. eapply safe_bind; [by apply Cursor_node_safe|].
  intros n w1 He1 Hn. eapply safe_bind; [apply Hop; [apply He1|done]|].
  intros _ w2 He2 _. apply safe_ret; [apply He2|done].
Qed.

Lemma Put_safe fuel b k v w : sane w → safe anything (Put fuel b k v) w.
Proof.
  intros Hs. pose proof (sn_core _ Hs) as Hc. unfold Put. apply safe_get_bkt; [done|]. intros x Hx.
  apply safe_get_tx; [done|]. intros tx Htx. do 5 (sif; [by apply safe_ret|]).
  eapply safe_bind; [by apply Bucket_Cursor_safe|]. intros cur w1 He1 Hb1. apply safe_walk; [apply He1|]. intros [r s].
  apply cursor_write_safe; [apply He1| |].
  - rewrite Hb1. eapply (writable_handle w b x tx); eauto; by apply negb_false_iff.
  - intros n w' Hc' Hd. by eapply put_at_safe.
Qed.

Lemma Delete_safe fuel b k w : sane w → safe anything (Delete fuel b k) w.
Proof.
  intros Hs. pose proof (sn_core _ Hs) as Hc. unfold Delete. apply safe_get_bkt; [done|]. intros x Hx.
  apply safe_get_tx; [done|]. intros tx Htx. do 2 (sif; [by apply safe_ret|]).
  eapply safe_bind; [by apply Bucket_Cursor_safe|]. intros cur w1 He1 Hb1. apply safe_walk; [apply He1|]. intros [r s].
  cbv zeta. sif; [apply safe_ret; [apply He1|done]|]. apply cursor_write_safe; [apply He1| |].
  - rewrite Hb1. eapply (writable_handle w b x tx); eauto; by apply negb_false_iff.
  - intros n w' Hc' Hd. by eapply del_at_safe.
Qed.

Lemma Cursor_Delete_safe c w : sane w → safe anything (Cursor_Delete c) w.
Proof.
  intros Hs. pose proof (sn_core _ Hs) as Hc. unfold Cursor_Delete. destruct (c_bucket c) as [b|]; [|by apply safe_ret].
  apply safe_get_bkt; [done|]. intros x Hx. apply safe_get_tx; [done|]. intros tx Htx.
  do 2 (sif; [by apply safe_ret|]). apply safe_walk; [done|]. intros [r s]. cbv zeta.
  apply cursor_write_safe; [done| |].
  - eapply (writable_handle w b x tx); eauto; by apply negb_false_iff.
  - intros n w' Hc' Hd. by eapply del_at_safe.
Qed.

Lemma Get_safe fuel b k w : core w → safe anything (Get fuel b k) w.
Proof.
  intros Hc. unfold Get. eapply safe_bind; [by apply Bucket_Cursor_safe|]. intros cur w1 He1 _.
  apply safe_walk; [apply He1|]. intros [[[[k' v] f]|] s]; apply safe_ret; (apply He1 || done).
Qed.

Lemma ForEach_safe {A} fuel b (fn : A → bytes → option bytes → A * option err) acc w :
  core w → safe anything (Bucket_ForEach fuel b fn acc) w.
Proof.
  intros Hc. unfold Bucket_ForEach. apply safe_get_bkt; [done|]. intros x _. apply safe_get_tx; [done|].
  intros tx _. sif; [by apply safe_ret|]. eapply safe_bind; [by apply Bucket_Cursor_safe|]. intros cur w1 He1 _.
  apply safe_walk; [apply He1|]. intros [r s]. apply safe_ret; [apply He1|done].
Qed.

Lemma cursor_method_safe d m c w : core w → safe anything (cursor_method d m c) w.
Proof.
  intros Hc. unfold cursor_method. destruct (c_bucket c) as [b|]; [|by apply safe_ret].
  apply safe_get_bkt; [done|]. intros x _. apply safe_get_tx; [done|]. intros tx _. apply safe_Assert; [done|].
  apply safe_walk; [done|]. intros [r s]. by apply safe_ret.
Qed.

(** ** Transaction and database fields *)

(** Changes of transactions and of the database keep [core] when every state they
    mention is frozen. *)
Lemma core_txs w w' :
  core w → w_nodes w' = w_nodes w → w_nextn w' = w_nextn w → w_bkts w' = w_bkts w → w_nextb w' = w_nextb w →
  (∀ t tx, w_txs w' !! t = Some tx → (t < w_nextt w')%positive ∧ ∀ st, t_base tx = Some st → st_frozen w st) →
  (∀ st, db_state (w_db w') = Some st → st_frozen w st) →
  core w'.
Proof.
  intros Hc Hn Hnn Hb Hnb Ht Hd.
  assert (Hfr : ∀ l, frozen w l ↔ frozen w' l) by (unfold frozen; by rewrite Hn).
  assert (Hdi : ∀ b l, dirty_of w b l ↔ dirty_of w' b l) by (unfold dirty_of; by rewrite Hb).
  assert (Hst : ∀ st, st_frozen w st → st_frozen w' st) by (intros st; apply st_frozen_mono; intros l; apply Hfr).
  split.
  - rewrite Hn, Hnn. apply (s_fresh_n _ Hc).
  - rewrite Hb, Hnb. apply (s_fresh_b _ Hc).
  - intros t tx Htx. by destruct (Ht _ _ Htx).
  - intros b l ?%Hdi. rewrite Hn. by apply (s_dirty _ Hc).
  - rewrite Hn. intros. by eapply Hdi, s_owned.
  - rewrite Hn. intros. by eapply Hdi, s_parent.
  - rewrite Hn. intros l n b i c H1 H2 H3 H4. destruct (s_child _ Hc _ _ _ _ _ H1 H2 H3 H4); [left; by apply Hfr|right; by apply Hdi].
  - rewrite Hn. intros. by eapply Hfr, s_closed.
  - rewrite Hb. intros. by eapply Hdi, s_root.
  - intros st ?%Hd. auto.
  - intros t tx st Htx Hb0. destruct (Ht _ _ Htx) as [_ H]. auto.
Qed.

Lemma upd_db_q f w :
  sane w → (∀ d, db_state (f d) = db_state d ∧ db_rwlock (f d) = db_rwlock d) → qsafe anything (upd_db f) w.
Proof.
  intros Hs Hf0. assert (Hf : ∀ d, db_state (f d) = db_state d) by apply Hf0.
  split; [|done]. simpl. split; [|split|apply Hf]; try by eauto 10.
  - destruct Hs as [Hc Hh Hb Hl]. split; [|done|done|simpl; by rewrite (proj2 (Hf0 _))]. apply (core_txs w); simpl; auto.
    + intros t tx Htx. split; [by eapply s_fresh_t|]. intros. by eapply s_base.
    + rewrite Hf. apply (s_db _ Hc).
  - apply (core_txs w); simpl; auto using sn_core.
    + intros t tx Htx. split; [by eapply s_fresh_t; [apply Hs|]|]. intros. eapply s_base; eauto using sn_core.
    + rewrite Hf. apply (s_db _ (sn_core _ Hs)).
Qed.

(** Writing a field of a transaction other than its state and its flags. *)
Lemma upd_tx_q t f w :
  sane w →
  (∀ tx, w_txs w !! t = Some tx →
    t_writable (f tx) = t_writable tx ∧ t_db (f tx) = t_db tx ∧ t_base (f tx) = t_base tx ∧
    (∀ name b, t_bctx (f tx) !! name = Some b → ∃ x, w_bkts w !! b = Some x ∧ b_tx x = t)) →
  qsafe anything (upd_tx t f) w.
Proof.
  intros Hs Hf. unfold upd_tx. apply qsafe_get_tx; [done|]. intros tx Htx. split; [|done]. simpl.
  destruct (Hf tx Htx) as (Hw & Hd & Hba & Hbc). pose proof (sn_core _ Hs) as Hc.
  assert (Hc' : core (set_txs (<[t := f tx]> (w_txs w)) w)).
  { apply (core_txs w); simpl; auto; [|apply (s_db _ Hc)]. intros t' tx'. rewrite lookup_insert.
    case_decide; [subst t'; intros [= <-]|]; (split; [by eapply s_fresh_t|]); intros st Hst; [|by eapply s_base].
    eapply s_base; [done|done|congruence]. }
  split; [split|split|]; simpl; auto.
  - intros b x Hx. destruct (sn_handle _ Hs _ _ Hx) as (tx0 & Htx0 & Himp). rewrite lookup_insert.
    case_decide; [|eauto]. subst. simplify_eq. exists (f tx). split; [done|]. intros Hn. by rewrite Hw, Hd, Himp.
  - intros t' tx' name b. rewrite lookup_insert. case_decide; [subst t'; intros [= <-]; apply Hbc|by apply (sn_bctx _ Hs)].
  - eapply lock_ok_ext; [|apply (sn_lock _ Hs)]. intros u. eapply writer_insert; [done|]. by rewrite Hw, Hd.
  - intros b x Hx. eauto 10.
  - intros t' tx' Htx'. rewrite lookup_insert. case_decide; [|eauto 10]. subst. simplify_eq.
    exists (f tx). split_and!; auto. intros. by split; congruence.
Qed.

(** The transaction after [Tx.close]. *)
Definition closed_tx (tx : Tx) : Tx :=
  mkTx (t_writable tx) (t_managed tx) false None ∅ ∅ ∅ (t_stats tx) (t_commitHandlers tx).

Lemma Tx_close_run w t tx :
  w_txs w !! t = Some tx → t_db tx = true →
  ∃ d, Tx_close t w = (Ret tt, set_txs (<[t := closed_tx tx]> (w_txs w)) (set_db d w)) ∧
    db_state d = db_state (w_db w) ∧ db_opened d = db_opened (w_db w) ∧
    db_rwlock d = if t_writable tx then false else db_rwlock (w_db w).
Proof.
  intros Htx Hdb. unfold Tx_close. rewrite (bind_Ret _ _ _ _ _ (get_tx_run _ _ _ Htx)), Hdb.
  change (negb true) with false. cbv iota. destruct (t_writable tx).
  - erewrite bind_Ret by reflexivity. rewrite (upd_tx_run _ t _ tx) by exact Htx.
    eexists. split; [reflexivity|]. simpl. by destruct (db_stats (w_db w)).
  - erewrite bind_Ret by reflexivity. rewrite (upd_tx_run _ t _ tx) by exact Htx.
    eexists. split; [reflexivity|]. simpl. by destruct (db_stats (w_db w)).
Qed.

(** Closing a transaction of a sane state. *)
Lemma writer_close txs t tx u :
  txs !! t = Some tx → writer (<[t := closed_tx tx]> txs) u ↔ writer txs u ∧ u ≠ t.
Proof.
  intros Ht. unfold writer. setoid_rewrite lookup_insert. case_decide as Htu.
  - subst u. split; [|naive_solver]. intros (y & [= <-] & Hy). simpl in Hy. by rewrite andb_false_r in Hy.
  - naive_solver.
Qed.

Lemma lock_ok_close txs t tx held :
  lock_ok txs held → txs !! t = Some tx → t_db tx = true →
  lock_ok (<[t := closed_tx tx]> txs) (if t_writable tx then false else held).
Proof.
  intros [H1 H2] Ht Hd. split.
  - destruct (t_writable tx) eqn:Hw.
    + split; [done|]. intros (u & [Hu Hne]%(writer_close _ _ _ _ Ht)). destruct Hne. apply H2; [done|].
      exists tx. by rewrite Hw, Hd.
    + rewrite H1. split; intros (u & Hu); exists u; [|by destruct (proj1 (writer_close _ _ _ _ Ht) Hu)].
      apply (writer_close _ _ _ _ Ht). split; [done|]. intros ->. destruct Hu as (y & Hy & Hyw). simplify_eq.
      by rewrite Hw in Hyw.
  - intros u u' [Hu _]%(writer_close _ _ _ _ Ht) [Hu' _]%(writer_close _ _ _ _ Ht). auto.
Qed.

Lemma Tx_close_q t w : sane w → qsafe anything (Tx_close t) w.
Proof.
  intros Hs. destruct (w_txs w !! t) as [tx|] eqn:Ht.
  2:{ unfold Tx_close. apply qsafe_get_tx; [done|]. congruence. }
  destruct (t_db tx) eqn:Hd.
  2:{ unfold Tx_close. apply qsafe_get_tx; [done|]. intros tx' Ht'. simplify_eq. rewrite Hd. by apply qsafe_ret. }
  destruct (Tx_close_run w t tx Ht Hd) as (d & Hrun & Hst & _ & Hlk). unfold qsafe. rewrite Hrun. split; [|done]. simpl.
  pose proof (sn_core _ Hs) as Hc. set (w' := set_txs _ _).
  assert (Hc' : core w').
  { apply (core_txs w); simpl; auto; [|rewrite Hst; apply (s_db _ Hc)]. intros t' y. rewrite lookup_insert.
    case_decide; [subst t'; intros [= <-]; split; [by eapply s_fresh_t|done]|].
    intros Hy. split; [by eapply s_fresh_t|]. intros. by eapply s_base. }
  split; [split; [done|..]|split; [done|..]|done]; simpl; try by eauto 10.
  - intros b x Hx. destruct (sn_handle _ Hs _ _ Hx) as (y & Hy & Himp). rewrite lookup_insert.
    case_decide; [eexists; split; [done|]; intros _; apply andb_false_r|eauto].
  - intros t' y nm b. rewrite lookup_insert. case_decide; [by intros [= <-]|by apply (sn_bctx _ Hs)].
  - rewrite Hlk. apply lock_ok_close; [apply Hs|done|done].
  - intros t' y Hy. rewrite lookup_insert. case_decide; [|eauto 10]. subst t'. simplify_eq.
    exists (closed_tx tx). by split_and!.
Qed.

Lemma rollback_q t w : sane w → qsafe anything (rollback t) w.
Proof.
  intros Hs. unfold rollback. apply qsafe_get_tx; [done|]. intros tx _. qif; [by apply qsafe_ret|by apply Tx_close_q].
Qed.

Lemma Rollback_q t w : sane w → qsafe anything (Rollback t) w.
Proof.
  intros Hs. unfold Rollback. apply qsafe_get_tx; [done|]. intros tx _. apply qsafe_Assert; [done|].
  qif; [by apply qsafe_ret|]. eapply qsafe_bind; [by apply rollback_q|]. intros _ w1 Hq1 _.
  apply qsafe_ret; [apply Hq1|done].
Qed.

(** ** Opening, creating and deleting buckets *)

Lemma newBucket_q t name w :
  sane w →
  qsafe (λ b w', w_txs w' = w_txs w ∧ ∃ tx, w_txs w !! t = Some tx ∧ w_bkts w' !! b =
      Some (mkBucket t name None (if t_writable tx then Some ∅ else None) DefaultFillPercent))
    (newBucket t name) w.
Proof.
  intros Hs. unfold newBucket. apply qsafe_get_tx; [done|]. intros tx Htx.
  set (x := mkBucket _ _ _ _ _). pose proof (sn_core _ Hs) as Hc.
  split; [|intros b w' [= <- <-]; split; [done|]; exists tx; split; [done|]; simpl; apply lookup_insert_eq].
  set (w' := (new_bkt x w).2). set (b := w_nextb w).
  assert (Hold : ∀ b' y, w_bkts w !! b' = Some y → w_bkts w' !! b' = Some y).
  { intros b' y Hy. simpl. rewrite lookup_insert_ne; [done|]. apply (s_fresh_b _ Hc) in Hy. lia. }
  assert (Hlk : ∀ b' y, w_bkts w' !! b' = Some y → (b' = b ∧ y = x) ∨ w_bkts w !! b' = Some y).
  { intros b' y. simpl. rewrite lookup_insert. case_decide; [intros [= <-]; auto|auto]. }
  assert (Hdi : ∀ b' l, dirty_of w b' l ↔ dirty_of w' b' l).
  { intros b' l. split.
    - intros (y & D & ?%Hold & ? & ?). by exists y, D.
    - intros (y & D & [[-> ->]|?]%Hlk & HD & Hl); [|by exists y, D]. exfalso. subst x. simpl in HD.
      destruct (t_writable tx); simplify_eq. set_solver. }
  assert (Hc' : core w').
  { split; [apply (s_fresh_n _ Hc)| |apply (s_fresh_t _ Hc)| | | | |apply (s_closed _ Hc)| |apply (s_db _ Hc)|apply (s_base _ Hc)].
    - intros b' y [[-> ->]|Hy]%Hlk; [simpl; lia|]. apply (s_fresh_b _ Hc) in Hy. simpl. lia.
    - intros b' l ?%Hdi. by apply (s_dirty _ Hc).
    - intros. by eapply Hdi, (s_owned _ Hc).
    - intros. by eapply Hdi, (s_parent _ Hc).
    - intros l n b' i c H1 H2 H3 H4. destruct (s_child _ Hc _ _ _ _ _ H1 H2 H3 H4); [by left|right; by apply Hdi].
    - intros b' y r [[-> ->]|Hy]%Hlk Hr; [done|]. by eapply Hdi, (s_root _ Hc). }
  split; [split; [done|..]|split; [done|..]|done].
  - intros b' y [[-> ->]|Hy]%Hlk; [|exact (sn_handle _ Hs b' y Hy)]. exists tx. split; [done|]. simpl.
    by destruct (t_writable tx).
  - intros t' tx' nm b' Htx' Hb'. destruct (sn_bctx _ Hs _ _ _ _ Htx' Hb') as (y & ?%Hold & ?). eauto.
  - apply (sn_lock _ Hs).
  - intros. done.
  - intros b' y Hy. exists y. auto.
  - intros t' tx' Htx'. exists tx'. auto.
Qed.

Lemma putBctx_q t name b w :
  sane w → (∃ x, w_bkts w !! b = Some x ∧ b_tx x = t) → qsafe anything (putBctx t name b) w.
Proof.
  intros Hs Hb. apply upd_tx_q; [done|]. intros tx Htx. simpl. split_and!; auto.
  intros nm b'. rewrite lookup_insert. case_decide; [by intros [= <-]|]. by apply (sn_bctx _ Hs).
Qed.

(** Updates of the transaction's name sets. *)
Lemma upd_sets_q t f w :
  sane w →
  (∀ tx, t_writable (f tx) = t_writable tx ∧ t_db (f tx) = t_db tx ∧ t_base (f tx) = t_base tx ∧
     t_bctx (f tx) ⊆ t_bctx tx) →
  qsafe anything (upd_tx t f) w.
Proof.
  intros Hs Hf. apply upd_tx_q; [done|]. intros tx Htx. destruct (Hf tx) as (-> & -> & -> & Hsub).
  split_and!; auto. intros nm b Hb. eapply (sn_bctx _ Hs); [done|]. by eapply lookup_weaken.
Qed.

Lemma base_buckets_q {B} (R : B → world → Prop) tx (f : _ → M B) w :
  sane w → (∀ st, t_base tx = Some st → qsafe R (f (ds_buckets st)) w) → qsafe R (st_bind (base_buckets tx) f) w.
Proof.
  intros Hs Hf. unfold base_buckets. destruct (t_base tx) as [st|]; [by apply (Hf st)|].
  by eapply (qsafe_stop _ _ _ (Panic PNilDeref)).
Qed.

Lemma Tx_Bucket_q t name w : sane w → qsafe anything (Tx_Bucket t name) w.
Proof.
  intros Hs. unfold Tx_Bucket. apply qsafe_get_tx; [done|]. intros tx Htx. qif; [by apply qsafe_ret|].
  destruct (t_bctx tx !! name); [by apply qsafe_ret|]. qif; [by apply qsafe_ret|].
  apply base_buckets_q; [done|]. intros st _. destruct (mjoin _); [|by apply qsafe_ret].
  eapply qsafe_bind; [by apply newBucket_q|]. intros b1 w1 Hq1 [Ht1 (tx1 & Htx1 & Hb1)].
  eapply qsafe_bind; [apply putBctx_q; [apply Hq1|eauto]|]. intros _ w2 Hq2 _. apply qsafe_ret; [apply Hq2|done].
Qed.

(** The root node [CreateBucket] gives a new bucket. *)
Lemma create_root_q w t name b :
  sane w → w_bkts w !! b = Some (mkBucket t name None (Some ∅) DefaultFillPercent) →
  qsafe (λ _ w', ∃ x, w_bkts w' !! b = Some x ∧ b_tx x = t)
    (let! root := new_node (mkNode (Some b) true false false [] None []) in
     upd_bkt b (set_b_rootNode (Some root)) ;! mark_dirty b root) w.
Proof.
  intros Hs Hx. set (n0 := mkNode (Some b) true false false [] None []). pose proof (sn_core _ Hs) as Hc.
  destruct (evo_alloc w b _ ∅ n0 Hc Hx eq_refl) as [He Hnew]; [by apply empty_node_ok|].
  set (w1 := with_alloc _ _ _ _ _) in *.
  assert (Hrun : (let! root := new_node n0 in upd_bkt b (set_b_rootNode (Some root)) ;! mark_dirty b root) w =
    upd_bkt b (set_b_rootNode (Some (w_nextn w))) w1).
  { rewrite (bind_Ret (new_node n0) _ w (w_nextn w) (new_node n0 w).2 eq_refl).
    erewrite bind_Ret by (apply upd_bkt_run; simpl; exact Hx).
    erewrite mark_dirty_run by (simpl; (apply lookup_insert_eq || done)).
    erewrite (upd_bkt_run w1) by (simpl; apply lookup_insert_eq).
    unfold w1, with_alloc, set_bkts. simpl. by rewrite !insert_insert_eq. }
  destruct (safe_set_root w1 b (w_nextn w) (e_core _ _ He) Hnew) as [He2 _].
  unfold qsafe. rewrite Hrun. split; [apply evo_quiet; [done|by eapply evo_trans]|].
  intros u w2 Hw2. destruct (e_bkts _ _ (evo_trans _ _ _ He He2) _ _ Hx) as (x2 & Hx2 & Ht2 & _).
  rewrite Hw2 in Hx2. exists x2. split; [exact Hx2|exact Ht2].
Qed.

Lemma bind_assoc3 {A B C D} (m : M A) (f : A → M B) (g : A → M C) (k : M D) w :
  (let! a := m in f a ;! g a ;! k) w = ((let! a := m in f a ;! g a) ;! k) w.
Proof. unfold st_bind. destruct (m w) as [[a| | |] w1]; [|done..]. by destruct (f a w1) as [[]]. Qed.

Lemma CreateBucket_q t name w : sane w → qsafe anything (CreateBucket t name) w.
Proof.
  intros Hs. unfold CreateBucket. apply qsafe_get_tx; [done|]. intros tx Htx.
  qif; [by apply qsafe_ret|]. destruct (t_writable tx) eqn:Hw; simpl; [|by apply qsafe_ret].
  qif; [by apply qsafe_ret|]. eapply (qsafe_bind (λ _ w', w' = w)).
  { qif; [by apply qsafe_ret|]. qif; [by apply qsafe_ret|]. unfold bucketExistsCommitted.
    apply base_buckets_q; [done|]. intros st _. by apply qsafe_ret. }
  intros [] w0 _ ->; [by apply qsafe_ret|].
  eapply qsafe_bind; [by apply newBucket_q|]. intros b w1 Hq1 [Ht1 (tx1 & Htx1 & Hb1)].
  assert (tx1 = tx) as -> by congruence. rewrite Hw in Hb1.
  eapply qsafe_eq; [apply bind_assoc3|].
  eapply (qsafe_bind (λ _ w', ∃ x, w_bkts w' !! b = Some x ∧ b_tx x = t)).
  { eapply create_root_q; [apply Hq1|exact Hb1]. }
  intros _ w2 Hq2 Hb2. eapply qsafe_bind; [by apply upd_sets_q; [apply Hq2|]|]. intros _ w3 Hq3 _.
  eapply qsafe_bind; [by apply upd_sets_q; [apply Hq3|]|]. intros _ w4 Hq4 _.
  eapply qsafe_bind; [apply putBctx_q; [apply Hq4|]|].
  { destruct Hb2 as (x & Hx & <-). destruct (i_bkts _ _ (iso_trans _ _ _ (q_iso _ _ Hq3) (q_iso _ _ Hq4)) _ _ Hx) as (x' & ? & ? & _).
    eauto. }
  intros _ w5 Hq5 _. apply qsafe_ret; [apply Hq5|done].
Qed.

Lemma CreateBucketIfNotExists_q t name w : sane w → qsafe anything (CreateBucketIfNotExists t name) w.
Proof.
  intros Hs. unfold CreateBucketIfNotExists. apply qsafe_get_tx; [done|]. intros tx _.
  do 3 (qif; [by apply qsafe_ret|]). eapply qsafe_bind; [by apply Tx_Bucket_q|].
  intros [b|] w1 Hq1 _; [apply qsafe_ret; [apply Hq1|done]|apply CreateBucket_q, Hq1].
Qed.

Lemma DeleteBucket_q t name w : sane w → qsafe anything (DeleteBucket t name) w.
Proof.
  intros Hs. unfold DeleteBucket. apply qsafe_get_tx; [done|]. intros tx _.
  do 2 (qif; [by apply qsafe_ret|]). qif.
  - eapply qsafe_bind; [by apply upd_sets_q|]. intros _ w1 Hq1 _.
    eapply qsafe_bind; [apply upd_sets_q; [apply Hq1|]|].
    { intros tx'. simpl. split_and!; auto. apply delete_subseteq. }
    intros _ w2 Hq2 _. apply qsafe_ret; [apply Hq2|done].
  - unfold bucketExistsCommitted. eapply (qsafe_bind (λ _ w', w' = w)).
    { apply base_buckets_q; [done|]. intros st _. by apply qsafe_ret. }
    intros ex w0 _ ->. qif; [by apply qsafe_ret|].
    eapply qsafe_bind; [by apply upd_sets_q|]. intros _ w1 Hq1 _.
    eapply qsafe_bind; [apply upd_sets_q; [apply Hq1|]|].
    { intros tx'. simpl. split_and!; auto. apply delete_subseteq. }
    intros _ w2 Hq2 _. apply qsafe_ret; [apply Hq2|done].
Qed.

Lemma OnCommit_q t h w : sane w → qsafe anything (OnCommit t h) w.
Proof. intros Hs. by apply upd_sets_q. Qed.

Lemma set_managed_q t m w : sane w → qsafe anything (upd_tx t (set_t_managed m)) w.
Proof. intros Hs. by apply upd_sets_q. Qed.

(** ** Beginning and closing *)

(** Replacing the database fields and adding a transaction over its state. *)
Lemma begin_q d tx w :
  sane w → t_bctx tx = ∅ → db_state d = db_state (w_db w) →
  (∀ st, t_base tx = Some st → db_state (w_db w) = Some st) →
  lock_ok (<[w_nextt w := tx]> (w_txs w)) (db_rwlock d) →
  quiet w (new_tx tx (set_db d w)).2.
Proof.
  intros Hs Hb Hd Hba Hl. pose proof (sn_core _ Hs) as Hc. set (t := w_nextt w) in *.
  assert (Hold : ∀ t' y, w_txs w !! t' = Some y → <[t := tx]> (w_txs w) !! t' = Some y).
  { intros t' y Hy. rewrite lookup_insert_ne; [done|]. apply (s_fresh_t _ Hc) in Hy. subst t. lia. }
  assert (Hcore : core (new_tx tx (set_db d w)).2).
  { apply (core_txs w); simpl; auto; [|rewrite Hd; apply (s_db _ Hc)]. intros t' y. rewrite lookup_insert. case_decide.
    - subst t'. intros [= <-]. split; [subst t; lia|]. intros st Hst. by apply (s_db _ Hc), Hba.
    - intros Hy. split; [apply (s_fresh_t _ Hc) in Hy; lia|]. intros. by eapply s_base. }
  split; [split; [exact Hcore|..]|split; [exact Hcore|..]|done]; simpl.
  - intros b x Hx. destruct (sn_handle _ Hs _ _ Hx) as (y & ?%Hold & ?). eauto.
  - intros t' y nm b. rewrite lookup_insert. case_decide; [intros [= <-]; by rewrite Hb|]. by apply (sn_bctx _ Hs).
  - done.
  - done.
  - intros b x Hx. eauto 10.
  - intros t' y Hy. exists y. auto.
Qed.

(** A new transaction and the lock. *)
Lemma writer_new txs t tx u :
  txs !! t = None → writer (<[t := tx]> txs) u ↔ (u = t ∧ t_writable tx && t_db tx = true) ∨ writer txs u.
Proof.
  intros Ht. unfold writer. setoid_rewrite lookup_insert. case_decide; [subst u|]; naive_solver.
Qed.

Lemma fresh_tx w : core w → w_txs w !! w_nextt w = None.
Proof.
  intros Hc. destruct (w_txs w !! w_nextt w) eqn:E; [|done]. apply (s_fresh_t _ Hc) in E. lia.
Qed.

Lemma beginTx_q w : sane w → qsafe anything beginTx w.
Proof.
  intros Hs. unfold beginTx. apply qsafe_get_db. qif; [by apply qsafe_ret|].
  destruct (db_state (w_db w)) as [st|] eqn:Hst; [|by apply qsafe_ret].
  eapply (qsafe_bind anything).
  { split; [|done]. eapply quiet_trans; [apply quiet_refl, Hs|]. destruct w as [h nn bk nb txs nt d fi]. simpl in *.
    apply (begin_q d _ (mkWorld h nn bk nb txs nt d fi)); simpl; auto; [by intros ? [= <-]|].
    eapply lock_ok_ext; [|apply (sn_lock _ Hs)]. intros u.
    rewrite writer_new by (apply (fresh_tx (mkWorld h nn bk nb txs nt d fi)), Hs). simpl. naive_solver. }
  intros t w2 Hq2 _. eapply qsafe_bind; [apply upd_db_q; [apply Hq2|]|]. { intros d. by destruct (db_stats d). }
  intros _ w3 Hq3 _. apply qsafe_ret; [apply Hq3|done].
Qed.

(** Taking and dropping the lock without opening a transaction. *)
Lemma relock_quiet w d :
  sane w → db_state d = db_state (w_db w) → db_rwlock d = db_rwlock (w_db w) → quiet w (set_db d w).
Proof.
  intros Hs Hd Hl. pose proof (upd_db_q (λ d0, mkDB (db_opened d) (db_stats d) (db_state d0) (db_rwlock d0) (db_readOnly d)) w Hs) as [Hq _]; [done|].
  unfold upd_db, st_modify in Hq. simpl in Hq. destruct d. simpl in *. by subst.
Qed.

Lemma beginRWTx_q w : sane w → qsafe anything beginRWTx w.
Proof.
  intros Hs. unfold beginRWTx. apply qsafe_get_db. qif; [by apply qsafe_ret|].
  destruct (db_rwlock (w_db w)) eqn:Hl.
  { eapply (qsafe_stop _ _ _ Blocked); [done| |done]. unfold lock, st_bind, get_db, st_gets. simpl. by rewrite Hl. }
  split; [|done]. unfold lock, unlock, st_bind, get_db, st_gets, upd_db, st_modify. simpl. rewrite Hl. simpl.
  destruct (db_opened (w_db w)); simpl; [|apply (relock_quiet w (set_db_rwlock false (set_db_rwlock true (w_db w)))); [done|done|by rewrite Hl]].
  destruct (db_state (w_db w)) as [st|] eqn:Hst; simpl; [|apply (relock_quiet w (set_db_rwlock false (set_db_rwlock true (w_db w)))); [done|done|by rewrite Hl]].
  apply (begin_q (set_db_rwlock true (w_db w))); simpl; auto; [by intros ? [= <-]|].
  pose proof (fresh_tx w (sn_core _ Hs)) as Hfr. destruct (sn_lock _ Hs) as [H1 H2]. rewrite Hl in H1.
  assert (Hno : ∀ u, ¬ writer (w_txs w) u) by (intros u Hu; assert (false = true) by (apply H1; eauto); done).
  split.
  - split; [|done]. intros _. exists (w_nextt w). apply writer_new; [done|]. by left.
  - intros u u' [[-> _]|Hu]%(writer_new _ _ _ _ Hfr) [[-> _]|Hu']%(writer_new _ _ _ _ Hfr); try done; by destruct (Hno _ ltac:(eassumption)).
Qed.

Lemma Begin_q wr w : sane w → qsafe anything (Begin wr) w.
Proof. intros Hs. destruct wr; [by apply beginRWTx_q|by apply beginTx_q]. Qed.

(** ** Commit *)

(** The loops of [Commit] before anything is published; no bucket reports an
    error, so [Commit] never rolls back by itself. *)
Lemma rebalance_all_safe it fuel bs w :
  fair it → core w → safe anything (st_iter (λ p : bytes * bid, Bucket_rebalance it fuel p.2) bs) w.
Proof.
  intros Hf Hc. apply safe_iter; [done|]. intros p w1 _ He1. apply Bucket_rebalance_safe; [done|apply He1].
Qed.

Lemma spill_all_safe fuel t bs : ∀ w, core w → safe (λ e _, e = None) (spill_all fuel t bs) w.
Proof.
  induction bs as [|[nm b] bs IH]; intros w Hc; simpl; [by apply safe_ret|].
  eapply safe_bind; [by apply Bucket_spill_safe|]. intros e w1 He1 ->. apply IH, He1.
Qed.

Lemma publish_all_run del bs : ∀ w acc,
  core w → (∀ p, p ∈ bs → is_Some (w_bkts w !! p.2)) → st_frozen w (mkDbState acc) →
  ∃ m w', publish_all del bs acc w = (Ret m, w') ∧ iso w w' ∧ st_frozen w' (mkDbState m) ∧
    w_txs w' = w_txs w ∧ w_db w' = w_db w ∧ w_fired w' = w_fired w ∧
    (∀ b, b ∉ bs.*2 → w_bkts w' !! b = w_bkts w !! b).
Proof.
  induction bs as [|[nm b] bs IH]; intros w acc Hc Hex Hacc; simpl.
  { exists acc, w. split_and!; auto using iso_refl. }
  case_bool_decide as Hdel.
  { destruct (IH w acc Hc) as (m & w' & Hrun & Hi & Hm & Ht & Hd & Hfd & Hb); [set_solver|done|].
    exists m, w'. split_and!; auto. intros b' Hb'. apply Hb. set_solver. }
  destruct (Hex (nm, b)) as [x Hx]; [set_solver|]. simpl in Hx.
  destruct (publishRoot_run w b x Hc Hx) as (st & w1 & Hrun1 & Hi1 & Hst & Ht1 & Hd1 & Hfd1 & Hb1).
  rewrite (bind_Ret _ _ _ _ _ Hrun1).
  destruct (IH w1 (<[nm := st]> acc) (i_core _ _ Hi1)) as (m & w' & Hrun & Hi & Hm & Ht & Hd & Hfd & Hb).
  - intros p Hp. destruct (Hex p) as [y Hy]; [set_solver|]. destruct (i_bkts _ _ Hi1 _ _ Hy) as (? & ? & _). eauto.
  - intros n bs' r. simpl. rewrite lookup_insert. case_decide; [intros [= ->]; by apply Hst|].
    intros H1 H2. eapply frozen_iso; [done|]. by eapply Hacc.
  - exists m, w'. split_and!; auto; [by eapply iso_trans|congruence..|].
    intros b' Hb'. simpl in Hb'. rewrite Hb by set_solver. apply Hb1. set_solver.
Qed.

(** What [Commit] may do: keep the discipline, open no writer, and publish only
    if it returns nil. *)
Record commits (m : M (option err)) (w : world) : Prop := mkCommits {
  c_sane : sane (m w).2;
  c_iso : iso w (m w).2;
  c_writers : ∀ u, writer (w_txs (m w).2) u → writer (w_txs w) u;
  c_atomic : (m w).1 = Ret None ∨ db_state (w_db (m w).2) = db_state (w_db w);
  c_opened : db_opened (w_db (m w).2) = db_opened (w_db w)
}.

Lemma commits_evo m w : sane w → evo w (m w).2 → commits m w.
Proof.
  intros Hs He. destruct (evo_quiet _ _ Hs He). split; auto; [|by rewrite (e_db _ _ He)].
  intros u. apply writer_strip. by rewrite (e_txs _ _ He).
Qed.

(** One phase of a computation: it stops the whole, or the rest goes on from a
    state it may have reached. *)
Lemma phase {A} (Q : A → world → Prop) (m : M A) (f : A → M (option err)) w0 w
    (R : res (option err) * world → Prop) :
  evo w0 w → safe Q m w →
  (∀ r w', evo w0 w' → r ≠ Ret None → R (r, w')) → (∀ a w', evo w0 w' → Q a w' → R (f a w')) →
  R (st_bind m f w).
Proof.
  intros He0 [He HQ] Hstop Hgo. unfold st_bind. destruct (m w) as [[a| | |] w'] eqn:E; simpl in *.
  - apply Hgo; [by eapply evo_trans|auto].
  - apply Hstop; [by eapply evo_trans|done].
  - apply Hstop; [by eapply evo_trans|done].
  - apply Hstop; [by eapply evo_trans|done].
Qed.

Lemma set_fold_delete_sub {A} (m : gmap bytes A) (X : gset bytes) : set_fold delete m X ⊆ m.
Proof.
  apply (set_fold_ind_L (λ r _, r ⊆ m)); [done|]. intros x Y r _ Hr. etrans; [apply delete_subseteq|done].
Qed.

(** The last phase of [Commit]: publish every opened bucket, swap the state, close. *)
Definition commit_tail (it : iteration) (t : tid) (tx : Tx) : M (option err) :=
  let! base := base_buckets tx in
  let live := set_fold delete base (t_deleted tx) in
  let! newBuckets := publish_all (t_deleted tx) (it_bkts it 2 (t_bctx tx)) live in
  upd_db (set_db_state (Some (mkDbState newBuckets))) ;!
  Tx_close t ;!
  let! tx := get_tx t in
  st_modify (λ w, set_fired (w_fired w ++ t_commitHandlers tx) w) ;!
  st_ret None.

Lemma commit_finish it t tx w :
  fair it → sane w →
  (∃ tx', w_txs w !! t = Some tx' ∧ strip tx' = strip tx) → t_db tx = true →
  commits (commit_tail it t tx) w.
Proof.
  intros [_ Hfb] Hs (tx' & Htx' & Hst) Hdb. destruct (strip_fields _ _ Hst) as (_ & Hdb' & Hba & Hbc).
  destruct (t_base tx) as [st|] eqn:Hbase.
  2:{ apply commits_evo; [done|]. unfold commit_tail, base_buckets. rewrite Hbase. apply evo_refl, Hs. }
  pose proof (sn_core _ Hs) as Hc.
  assert (Hhandles : ∀ p, p ∈ it_bkts it 2 (t_bctx tx) → ∃ x, w_bkts w !! p.2 = Some x ∧ b_tx x = t).
  { intros [nm b] Hp. rewrite Hfb in Hp. apply elem_of_map_to_list in Hp.
    eapply (sn_bctx _ Hs _ tx'); [done|]. by rewrite Hbc. }
  destruct (publish_all_run (t_deleted tx) (it_bkts it 2 (t_bctx tx)) w (set_fold delete (ds_buckets st) (t_deleted tx)))
    as (m & w3 & Hrun & Hi & Hm & Ht3 & Hd3 & _ & Hb3); [done| | |].
  { intros p Hp. destruct (Hhandles p Hp) as (x & ? & _). eauto. }
  { intros nm bs r Hn. eapply (s_base _ Hc _ tx'); [done|by rewrite Hba|].
    eapply lookup_weaken; [exact Hn|]. apply set_fold_delete_sub. }
  set (m0 := commit_tail it t tx). set (w4 := set_db (set_db_state (Some (mkDbState m)) (w_db w3)) w3).
  destruct (Tx_close_run w4 t tx') as (d & Hclose & Hdst & Hop & Hlk); [simpl; by rewrite Ht3|congruence|].
  set (w5 := set_fired (w_fired w4 ++ t_commitHandlers (closed_tx tx')) (set_txs (<[t := closed_tx tx']> (w_txs w4)) (set_db d w4))).
  assert (Hm0 : m0 w = (Ret None, w5)).
  { unfold m0, commit_tail. rewrite (bind_Ret _ _ w (ds_buckets st) w) by (unfold base_buckets; by rewrite Hbase).
    rewrite (bind_Ret _ _ _ _ _ Hrun). erewrite (bind_Ret (upd_db _) _ w3) by reflexivity. fold w4.
    rewrite (bind_Ret _ _ _ _ _ Hclose). by erewrite bind_Ret by (apply get_tx_run; simpl; apply lookup_insert_eq). }
  assert (Hc5 : core w5).
  { apply (core_txs w3); simpl; auto; [apply Hi| |].
    - intros t' y. rewrite Ht3, lookup_insert. case_decide; [subst t'; intros [= <-]|intros Hy].
      + split; [|done]. eapply (s_fresh_t _ (i_core _ _ Hi) t tx'). by rewrite Ht3.
      + split; [eapply (s_fresh_t _ (i_core _ _ Hi)); by rewrite Ht3|]. intros st' Hst'.
        eapply (s_base _ (i_core _ _ Hi)); [by rewrite Ht3|done].
    - intros st' Hst'. simpl in Hdst. rewrite Hdst in Hst'. injection Hst' as <-. exact Hm. }
  split; rewrite Hm0; [split; [done|..]|split; [done|..]| |by left|by simpl; rewrite Hop; simpl; rewrite Hd3]; simpl.
  - intros b x. rewrite Ht3. intros Hx. rewrite lookup_insert. case_decide as Htb.
    + eexists. split; [done|]. intros _. apply andb_false_r.
    + destruct (decide (b ∈ (it_bkts it 2 (t_bctx tx)).*2)) as [Hin|Hnin].
      * exfalso. apply list_elem_of_fmap in Hin as (p & -> & (x0 & Hx0 & Hx0t)%Hhandles).
        destruct (i_bkts _ _ Hi _ _ Hx0) as (x1 & Hx1 & Hx1t & _). apply Htb. congruence.
      * rewrite Hb3 in Hx by done. exact (sn_handle _ Hs b x Hx).
  - intros t' y nm b. rewrite Ht3, lookup_insert. case_decide; [by intros [= <-]|]. intros Hy Hnb.
    destruct (sn_bctx _ Hs _ _ _ _ Hy Hnb) as (x0 & Hx0 & Hx0t).
    destruct (i_bkts _ _ Hi _ _ Hx0) as (x1 & Hx1 & Hx1t & _). exists x1. split; [done|congruence].
  - rewrite Hlk, Ht3. simpl. rewrite Hd3. apply lock_ok_close; [apply Hs|done|congruence].
  - apply (i_frozen _ _ Hi).
  - apply (i_bkts _ _ Hi).
  - intros t' y Hy. rewrite Ht3, lookup_insert. case_decide; [|eauto 10]. subst t'. simplify_eq.
    exists (closed_tx tx'). by split_and!.
  - intros u. rewrite Ht3. by intros [Hu _]%(writer_close _ _ _ _ Htx').
Qed.

(** [Commit] stops before publishing, with only its own nodes changed, or goes on
    to its last phase. *)
Lemma Commit_split it fuel rt sp t w :
  fair it → sane w →
  (evo w (Commit it fuel rt sp t w).2 ∧ (Commit it fuel rt sp t w).1 ≠ Ret None) ∨
  ∃ tx w1, w_txs w !! t = Some tx ∧ t_db tx = true ∧ evo w w1 ∧
    Commit it fuel rt sp t w = commit_tail it t tx w1.
Proof.
  intros Hf Hs. pose proof (sn_core _ Hs) as Hc. pose proof (evo_refl w Hc) as He0. unfold Commit.
  destruct (w_txs w !! t) as [tx|] eqn:Htx.
  2:{ left. unfold get_tx, st_bind, st_get, st_deref. by rewrite Htx. }
  rewrite (bind_Ret _ _ _ _ _ (get_tx_run _ _ _ Htx)). destruct (negb (t_managed tx)); [|by left].
  rewrite (bind_Ret (Assert true) _ w tt w eq_refl). destruct (t_db tx) eqn:Hdb; [|by left].
  destruct (t_writable tx); [|by left]. change (negb true) with false. cbv iota.
  set (R := λ rw : res (option err) * world, (evo w rw.2 ∧ rw.1 ≠ Ret None) ∨
    ∃ tx0 w1, Some tx = Some tx0 ∧ t_db tx0 = true ∧ evo w w1 ∧ rw = commit_tail it t tx0 w1).
  assert (HR : ∀ r w', evo w w' → r ≠ Ret None → R (r, w')) by (intros; by left).
  apply (phase anything _ _ w w R); [done|by apply rebalance_all_safe|done|]. intros _ w1 He1 _.
  apply (phase anything _ _ w w1 R); [done| |done|].
  { apply safe_get_tx; [apply He1|]. intros y _.
    destruct (_ <? _)%Z; [apply safe_tx_stat, He1|apply safe_ret; [apply He1|done]]. }
  intros _ w2 He2 _. eapply (phase _ _ _ w w2 R); [done|apply spill_all_safe, He2|done|].
  intros e w3 He3 ->. apply (phase anything _ _ w w3 R); [done|apply safe_tx_stat, He3|done|].
  intros _ w4 He4 _. right. by exists tx, w4.
Qed.

Lemma Commit_commits it fuel rt sp t w :
  fair it → sane w → commits (Commit it fuel rt sp t) w.
Proof.
  intros Hf Hs. destruct (Commit_split it fuel rt sp t w Hf Hs) as [[He _]|(tx & w1 & Htx & Hdb & He & Hrun)].
  { by apply commits_evo. }
  destruct (commits_evo (λ _, (Panic PAssert, w1)) w Hs He) as [_ Hi0 Hw0 [?|Ha0] Hp0]; [done|]. simpl in *.
  destruct (commit_finish it t tx w1 Hf (sane_evo _ _ Hs He)) as [H1 H2 H3 H4 H5]; [|done|].
  { eapply strip_lookup; [|exact Htx]. apply (e_txs _ _ He). }
  split; rewrite Hrun; [done|by eapply iso_trans|auto| |congruence].
  destruct H4 as [?|H4]; [by left|right]. congruence.
Qed.

(** ** The fill percentage is not part of the discipline *)

Lemma evo_set_fill w b x q :
  core w → w_bkts w !! b = Some x → is_Some (b_dirty x) → evo w (set_bkts (<[b := set_b_FillPercent q x]> (w_bkts w)) w).
Proof.
  intros Hc Hx [D0 HD0]. set (w' := set_bkts _ w).
  assert (Hlk : ∀ b' y, w_bkts w' !! b' = Some y → ∃ y0, w_bkts w !! b' = Some y0 ∧ b_dirty y = b_dirty y0 ∧ b_rootNode y = b_rootNode y0).
  { intros b' y. simpl. rewrite lookup_insert. case_decide; [subst; intros [= <-]; by exists x|]. intros. by exists y. }
  assert (Hdi : ∀ b' l, dirty_of w' b' l ↔ dirty_of w b' l).
  { intros b' l. split; intros (y & D & Hy & HD & Hl).
    - destruct (Hlk _ _ Hy) as (y0 & Hy0 & Hd & _). exists y0, D. split_and!; congruence.
    - destruct (decide (b = b')) as [->|Hne].
      + assert (y = x) as -> by congruence. eexists _, D. simpl. rewrite lookup_insert_eq. by split_and!.
      + exists y, D. simpl. by rewrite lookup_insert_ne. }
  assert (Hp : ∀ b' c, ptr_ok w b' c → ptr_ok w' b' c) by (intros b' c [?|?]; [by left|right; by apply Hdi]).
  split; [split|..]; simpl.
  - apply (s_fresh_n _ Hc).
  - intros b' y Hy. destruct (Hlk _ _ Hy) as (y0 & Hy0 & _). by eapply s_fresh_b.
  - apply (s_fresh_t _ Hc).
  - intros b' l Hd%Hdi. by apply (s_dirty _ Hc).
  - intros l n b' Hl Hb. apply Hdi. by eapply s_owned.
  - intros l n b' p Hl Hb Hpa. apply Hdi. by eapply s_parent.
  - intros l n b' i c Hl Hb Hi Hic. apply Hp. by eapply s_child.
  - apply (s_closed _ Hc).
  - intros b' y r Hy Hr. destruct (Hlk _ _ Hy) as (y0 & Hy0 & _ & Hry). apply Hdi. eapply s_root; [done|done|congruence].
  - apply (s_db _ Hc).
  - apply (s_base _ Hc).
  - done.
  - intros b' l Hd. by apply Hdi.
  - intros b' y Hy. rewrite lookup_insert. case_decide; [subst; simplify_eq|by exists y].
    eexists. split_and!; try done. congruence.
  - intros b' y Hy. destruct (Hlk _ _ Hy) as (y0 & ? & _). eauto.
  - done.
  - done.
  - done.
Qed.

(** [with_rollback] on results and on equal bodies. *)
Lemma with_rollback_map {A B} (f : A → B) t (body : M A) w :
  (let! r := with_rollback t body in st_ret (f r)) w = with_rollback t (let! r := body in st_ret (f r)) w.
Proof.
  unfold with_rollback, st_bind. destruct (body w) as [[a|p| |] w1]; simpl; try done;
    by destruct (rollback t w1) as [[]].
Qed.

Lemma with_rollback_ext {A} t (body body' : M A) w : body w = body' w → with_rollback t body w = with_rollback t body' w.
Proof. unfold with_rollback. by intros ->. Qed.
