(* ===== verification/System.v ===== *)
(** * The program as a transition system

    Every call of the API is a step, whatever it returns and even if it panics;
    calls of different transactions interleave in any order.  The invariant
    [sane] holds in every reachable state, published data never changes, and
    only a successful commit publishes. *)
From S2P Require Import Prelude GoSort Stats World Node KV Tree TreePath Cursor CursorSpec Cow Bucket Spill Tx DB.
From S2P Require Import CowSpec BucketSpec Frame FrameSpill Publish Isolation.
Local Open Scope st_scope.

Inductive call :=
| CBegin (writable : bool)
| CBucket (t : tid) (name : bytes)
| CCreateBucket (t : tid) (name : bytes)
| CCreateBucketIfNotExists (t : tid) (name : bytes)
| CDeleteBucket (t : tid) (name : bytes)
| COnCommit (t : tid) (handler : nat)
| CManaged (t : tid) (managed : bool)      (** the flag [Update] and [View] set *)
| CCommit (it : iteration) (fuel : nat) (rebalanceTime spillTime : Z) (t : tid)
| CRollback (t : tid)
| CAbandon (t : tid)                       (** the deferred [t.rollback] of [Update] and [View] *)
| CGet (fuel : nat) (b : bid) (key : bytes)
| CPut (fuel : nat) (b : bid) (key value : bytes)
| CDelete (fuel : nat) (b : bid) (key : bytes)
| CForEach (fuel : nat) (b : bid)
| CFirst (fuel : nat) (c : Cursor)
| CLast (fuel : nat) (c : Cursor)
| CNext (fuel : nat) (c : Cursor)
| CPrev (fuel : nat) (c : Cursor)
| CSeek (fuel : nat) (key : bytes) (c : Cursor)
| CCursorDelete (c : Cursor)
| CSetFillPercent (b : bid) (q : Q)         (** [b.FillPercent = q] *)
| CClose.

(** An assignment to the public field of a handle.  Nothing reads the field of a handle
    that cannot write (of a read transaction, or after the commit), and there it is
    left alone. *)
Definition set_FillPercent (b : bid) (q : Q) : M unit :=
  let! x := get_bkt b in
  match b_dirty x with
  | Some _ => upd_bkt b (set_b_FillPercent q)
  | None => st_ret tt
  end.

(** What a call returns does not matter here. *)
Definition ignore {A} (m : M A) : M unit := let! _ := m in st_ret tt.

Definition run_call (c : call) : M unit :=
  match c with
  | CBegin wr => ignore (Begin wr)
  | CBucket t name => ignore (Tx_Bucket t name)
  | CCreateBucket t name => ignore (CreateBucket t name)
  | CCreateBucketIfNotExists t name => ignore (CreateBucketIfNotExists t name)
  | CDeleteBucket t name => ignore (DeleteBucket t name)
  | COnCommit t h => OnCommit t h
  | CManaged t m => upd_tx t (set_t_managed m)
  | CCommit it fuel rt st t => ignore (Commit it fuel rt st t)
  | CRollback t => ignore (Rollback t)
  | CAbandon t => rollback t
  | CGet fuel b k => ignore (Get fuel b k)
  | CPut fuel b k v => ignore (Put fuel b k v)
  | CDelete fuel b k => ignore (Delete fuel b k)
  | CForEach fuel b => ignore (Bucket_ForEach fuel b (λ n _ _, (S n, None)) 0)
  | CFirst fuel c => ignore (Cursor_First fuel c)
  | CLast fuel c => ignore (Cursor_Last fuel c)
  | CNext fuel c => ignore (Cursor_Next fuel c)
  | CPrev fuel c => ignore (Cursor_Prev fuel c)
  | CSeek fuel k c => ignore (Cursor_Seek fuel k c)
  | CCursorDelete c => ignore (Cursor_Delete c)
  | CSetFillPercent b q => set_FillPercent b q
  | CClose => DB_Close
  end.

(** Go chooses the order of a commit's map iterations. *)
Definition fair_call (c : call) : Prop :=
  match c with CCommit it _ _ _ _ => fair it | _ => True end.

Inductive step (w : world) : world → Prop :=
| step_call c : fair_call c → step w (run_call c w).2.

Definition reachable (w : world) : Prop := ∃ o, rtc step (open_mem o empty_world).2 w.

(** ** Every step keeps the invariant *)

Lemma ignore_state {A} (m : M A) w : (ignore m w).2 = (m w).2.
Proof. unfold ignore, st_bind. by destruct (m w) as [[]]. Qed.

Lemma ignore_q {A} (m : M A) w : qsafe anything m w → quiet w (ignore m w).2.
Proof. intros [H _]. by rewrite ignore_state. Qed.

Lemma DB_Close_keeps w : sane w → sane (DB_Close w).2 ∧ iso w (DB_Close w).2.
Proof.
  intros Hs. unfold DB_Close, DB_close, lock, unlock. destruct (db_rwlock (w_db w)) eqn:E.
  { unfold st_bind, get_db, st_gets, upd_db, st_modify. simpl. rewrite E. simpl.
    split; [done|apply iso_refl, Hs]. }
  set (w' := (_ w).2).
  assert (Hw : ∃ d, w' = set_db d w ∧ (db_state d = None ∨ db_state d = db_state (w_db w)) ∧
    db_rwlock d = db_rwlock (w_db w)).
  { subst w'. unfold st_bind, get_db, st_gets, upd_db, st_modify. simpl. rewrite E. simpl.
    destruct (db_opened (w_db w)); simpl; eexists; (split; [reflexivity|]); simpl; auto. }
  destruct Hw as (d & -> & Hd & Hl). pose proof (sn_core _ Hs) as Hc.
  assert (Hc' : core (set_db d w)).
  { apply (core_txs w); simpl; auto.
    - intros t tx Htx. split; [by eapply s_fresh_t|]. intros. by eapply s_base.
    - intros st Hst. destruct Hd as [Hd|Hd]; rewrite Hd in Hst; [done|by apply (s_db _ Hc)]. }
  split; [split; [done|apply Hs|apply Hs|simpl; rewrite Hl; apply Hs]|split; simpl; eauto 10].
Qed.

(** Reads and writes of bucket contents. *)
Definition data_call (c : call) : bool :=
  match c with
  | CGet _ _ _ | CPut _ _ _ _ | CDelete _ _ _ | CForEach _ _ | CFirst _ _ | CLast _ _ | CNext _ _
  | CPrev _ _ | CSeek _ _ _ | CCursorDelete _ | CSetFillPercent _ _ => true
  | _ => false
  end.

Lemma ignore_evo {A} (m : M A) w : safe anything m w → evo w (ignore m w).2.
Proof. intros [H _]. by rewrite ignore_state. Qed.

Lemma set_FillPercent_evo b q w : core w → evo w (set_FillPercent b q w).2.
Proof.
  intros Hc. unfold set_FillPercent. destruct (w_bkts w !! b) as [x|] eqn:Hx.
  - rewrite (bind_Ret _ _ _ _ _ (get_bkt_run _ _ _ Hx)). destruct (b_dirty x) as [D|] eqn:HD; [|by apply evo_refl].
    rewrite (upd_bkt_run _ _ _ _ Hx). apply evo_set_fill; [done|done|eauto].
  - unfold get_bkt, st_bind, st_get, st_deref. rewrite Hx. by apply evo_refl.
Qed.

Lemma data_call_evo c w : sane w → data_call c = true → evo w (run_call c w).2.
Proof.
  intros Hs Hd. pose proof (sn_core _ Hs). destruct c; try done; simpl; first [by apply set_FillPercent_evo|apply ignore_evo];
    first [by apply Get_safe|by apply Put_safe|by apply Delete_safe|by apply ForEach_safe
          |by apply cursor_method_safe|by apply Cursor_Delete_safe].
Qed.

(** Calls other than [Commit] and [Close] publish nothing. *)
Lemma call_quiet c w :
  sane w → match c with CCommit _ _ _ _ _ | CClose => False | _ => True end → quiet w (run_call c w).2.
Proof.
  intros Hs Hc. destruct (data_call c) eqn:Hd; [by apply evo_quiet, data_call_evo|].
  destruct c; try done; simpl;
    first [apply ignore_q|idtac];
    first [by apply Begin_q|by apply Tx_Bucket_q|by apply CreateBucket_q|by apply CreateBucketIfNotExists_q
          |by apply DeleteBucket_q|by apply (OnCommit_q t handler w Hs)|by apply (set_managed_q t managed w Hs)
          |by apply Rollback_q|by apply (rollback_q t w Hs)].
Qed.

Lemma step_keeps w w' : sane w → step w w' → sane w' ∧ iso w w'.
Proof.
  intros Hs [c Hf].
  destruct c; try (match goal with |- sane (run_call ?c _).2 ∧ _ => destruct (call_quiet c _ Hs I) as [? ? _] end; by split).
  - simpl. rewrite ignore_state. by destruct (Commit_commits it fuel rebalanceTime spillTime t w Hf Hs).
  - by apply DB_Close_keeps.
Qed.

Lemma steps_keep w w' : sane w → rtc step w w' → sane w' ∧ iso w w'.
Proof.
  intros Hs Hr. revert Hs. induction Hr as [w|w w1 w2 H1 _ IH]; intros Hs; [split; [done|apply iso_refl, Hs]|].
  destruct (step_keeps _ _ Hs H1) as [Hs1 Hi1]. destruct (IH Hs1). split; [done|by eapply iso_trans].
Qed.

Lemma open_sane o : sane (open_mem o empty_world).2.
Proof.
  set (w := (open_mem o empty_world).2).
  assert (w_nodes w = ∅ ∧ w_bkts w = ∅ ∧ w_txs w = ∅ ∧ db_state (w_db w) = Some (mkDbState ∅) ∧
    db_rwlock (w_db w) = false) as (Hn & Hb & Ht & Hd & Hl)
    by (by destruct o as [[[] []]|]).
  split; [split|..]; unfold dirty_of, ptr_ok; rewrite ?Hn, ?Hb, ?Ht; try (intros; by rewrite lookup_empty in * ); try done.
  - intros b l (x & D & Hx & _). by rewrite lookup_empty in Hx.
  - rewrite Hd. intros st [= <-] nm bs r. simpl. by rewrite lookup_empty.
  - assert (Hno : ∀ t, ¬ writer ∅ t) by (intros t (y & Hy & _); by rewrite lookup_empty in Hy).
    rewrite Hl. split; [split; [done|]; by intros (t & ?%Hno)|]. by intros t u ?%Hno.
Qed.

(** ** Theorems *)

(** Every node of a tree with a frozen root is frozen. *)
Lemma tree_frozen w T : core w → rep (w_nodes w) T → frozen w (tloc T) → ∀ l, l ∈ tlocs T → frozen w l.
Proof.
  intros Hc. induction T as [l kvs|l cs IH] using tree_nested_ind; intros Hr Hf y.
  - by intros ->%list_elem_of_singleton.
  - rewrite tlocs_Branch, elem_of_cons, elem_of_clocs. intros [->|(k & c & Hin & Hy)]; [done|].
    apply rep_Branch in Hr as [(n & Hn & _ & Hi) Hall]. rewrite Forall_forall in IH. rewrite Forall_forall in Hall.
    apply (IH _ Hin); [by apply (Hall _ Hin)| |done].
    destruct Hf as (n' & Hn' & Hb). simpl in Hn'. assert (n' = n) as -> by congruence.
    eapply (s_closed _ Hc l n (branch_inode (k, c))); [done|done| |done].
    rewrite Hi. apply list_elem_of_fmap. by exists (k, c).
Qed.

Lemma rep_iso w w' T : core w → iso w w' → rep (w_nodes w) T → frozen w (tloc T) → rep (w_nodes w') T.
Proof.
  intros Hc Hi Hr Hf. eapply rep_frame; [|exact Hr]. intros l Hl.
  destruct (tree_frozen w T Hc Hr Hf l Hl) as (n & Hn & Hb). rewrite Hn. by apply (i_frozen _ _ Hi).
Qed.

(** A reader's handle shows the same tree after any steps, while its
    transaction is open. *)
Lemma readable_iso w w' b x T :
  sane w → iso w w' → readable w b x T → b_dirty x = None →
  (∀ tx, w_txs w' !! b_tx x = Some tx → t_db tx = true) → readable w' b x T.
Proof.
  intros Hs Hi [Hx [tx Htx] Hroot Hrep Hwf] Hd Hopen. pose proof (sn_core _ Hs) as Hc.
  destruct (i_bkts _ _ Hi _ _ Hx) as (x' & Hx' & _ & _ & Heq). rewrite (Heq Hd) in Hx'.
  destruct (i_txs _ _ Hi _ _ Htx) as (tx' & Htx' & _ & Hba). destruct (Hba (Hopen _ Htx')) as [_ Hbase].
  unfold rootView in Hroot. destruct (b_rootNode x) as [r|] eqn:Hrn.
  { destruct (s_root _ Hc _ _ _ Hx Hrn) as (y & D & Hy & HD & _). by simplify_eq. }
  destruct (baseState w x) as [bs|] eqn:Hbs; [|done].
  pose proof (baseState_frozen _ _ _ _ Hc Hbs Hroot) as Hf. split; [done|eauto| | |done].
  - unfold rootView. rewrite Hrn. unfold baseState in *. rewrite Htx in Hbs. rewrite Htx', Hbase. by rewrite Hbs.
  - by eapply rep_iso.
Qed.

(** C10. The ownership invariant holds in every state the program can reach by any
    interleaving of API calls, including calls that fail or panic. *)
Theorem reachable_sane w : reachable w → sane w.
Proof. intros (o & Hr). by destruct (steps_keep _ _ (open_sane o) Hr). Qed.

Lemma reachable_sane_witness : sane (run_call (CBegin true) (open_mem None empty_world).2).2.
Proof. apply reachable_sane. exists None. eapply rtc_l; [apply (step_call _ (CBegin true)); exact I|apply rtc_refl]. Defined.

(** C1. Snapshot isolation: what a read transaction sees through a bucket handle
    is fixed.  After any calls by anyone (writes, commits, deletions of the
    bucket, panics), as long as the transaction is open the handle shows the
    same tree and [Get] returns the same values. *)
Theorem snapshot_isolation w w' b x T fuel key :
  reachable w → rtc step w w' → readable w b x T → b_dirty x = None →
  (∀ tx, w_txs w' !! b_tx x = Some tx → t_db tx = true) → tsize T ≤ fuel →
  readable w' b x T ∧ (Get fuel b key w').1 = (Get fuel b key w).1.
Proof.
  intros [o Hr0] Hr Hread Hd Hopen Hf. destruct (steps_keep _ _ (open_sane o) Hr0) as [Hs _].
  destruct (steps_keep _ _ Hs Hr) as [_ Hi].
  pose proof (readable_iso _ _ _ _ _ Hs Hi Hread Hd Hopen) as Hread'. split; [done|].
  destruct (rd_tx _ _ _ _ Hread) as [tx Htx]. destruct (rd_tx _ _ _ _ Hread') as [tx' Htx'].
  by rewrite (Get_run fuel b key w x T tx), (Get_run fuel b key w' x T tx').
Qed.

(** C13. Published trees are immutable: a tree hanging off a root of the current
    database state, or of the state a transaction pinned, is found unchanged in
    every later state. *)
Theorem published_immutable w w' st name bs T :
  reachable w → rtc step w w' →
  (db_state (w_db w) = Some st ∨ ∃ t tx, w_txs w !! t = Some tx ∧ t_base tx = Some st) →
  ds_buckets st !! name = Some (Some bs) → bs_root bs = Some (tloc T) →
  rep (w_nodes w) T → rep (w_nodes w') T.
Proof.
  intros [o Hr0] Hr Hst Hn Hroot Hrep. destruct (steps_keep _ _ (open_sane o) Hr0) as [Hs _].
  destruct (steps_keep _ _ Hs Hr) as [_ Hi]. pose proof (sn_core _ Hs) as Hc.
  eapply rep_iso; [done|done|done|]. destruct Hst as [Hst|(t & tx & Htx & Hst)].
  - by eapply (s_db _ Hc).
  - by eapply (s_base _ Hc).
Qed.

(** C8. Atomicity: the published state changes only by a [Commit] that returns nil
    (or by closing the database).  No write, failed commit, rollback or panic in
    the middle of a commit makes anything visible. *)
Theorem only_commit_publishes w c :
  reachable w → fair_call c → db_state (w_db (run_call c w).2) ≠ db_state (w_db w) →
  (∃ it fuel rt sp t, c = CCommit it fuel rt sp t ∧ (Commit it fuel rt sp t w).1 = Ret None) ∨ c = CClose.
Proof.
  intros [o Hr0] Hf Hne. destruct (steps_keep _ _ (open_sane o) Hr0) as [Hs _].
  destruct c; try (match type of Hne with db_state (w_db (run_call ?c _).2) ≠ _ =>
    destruct Hne; apply (q_state _ _ (call_quiet c w Hs I)) end); [left|by right].
  exists it, fuel, rebalanceTime, spillTime, t. split; [done|]. simpl in Hne. rewrite ignore_state in Hne.
  by destruct (Commit_commits it fuel rebalanceTime spillTime t w Hf Hs) as [_ _ _ [?|?] _].
Qed.

(** ** An example run *)

Fixpoint run_calls (cs : list call) (w : world) : world :=
  match cs with [] => w | c :: cs' => run_calls cs' (run_call c w).2 end.

Lemma run_calls_steps cs w : Forall fair_call cs → rtc step w (run_calls cs w).
Proof.
  revert w. induction cs as [|c cs IH]; intros w Hf; simpl; [apply rtc_refl|].
  apply Forall_cons in Hf as [H1 H2]. eapply rtc_l; [by constructor|auto].
Qed.

(** A writer creates a bucket with two keys and commits; a reader opens it. *)
Definition ex_setup : list call :=
  [CBegin true; CCreateBucket 1 [x6e]; CPut 9 1 [x61] [x01]; CPut 9 1 [x62] [x02];
   CCommit std_iteration 9 0 0 1; CBegin false; CBucket 2 [x6e]].
(** Another writer changes and deletes the keys and commits. *)
Definition ex_later : list call :=
  [CBegin true; CBucket 3 [x6e]; CPut 9 3 [x61] [xff]; CDelete 9 3 [x62]; CCommit std_iteration 9 0 0 3].

Definition ex_w0 : world := run_calls ex_setup (open_mem None empty_world).2.
Definition ex_w1 : world := run_calls ex_later ex_w0.
Definition ex_view : tree := Leaf 1 [([x61], [x01]); ([x62], [x02])].
Definition ex_reader : Bucket := mkBucket 2 [x6e] None None DefaultFillPercent.

Lemma ex_reachable : reachable ex_w0.
Proof. exists None. apply run_calls_steps. repeat constructor; simpl; apply std_iteration_fair. Qed.
Lemma ex_steps : rtc step ex_w0 ex_w1.
Proof. apply run_calls_steps. repeat constructor; simpl; apply std_iteration_fair. Qed.

Lemma ex_reader_view : readable ex_w0 2 ex_reader ex_view.
Proof.
  split.
  - vm_compute. reflexivity.
  - assert (is_Some (t_db <$> w_txs ex_w0 !! 2%positive)) as H%fmap_is_Some by (vm_compute; eauto). exact H.
  - vm_compute. reflexivity.
  - eexists. split; [vm_compute; reflexivity|]. split; reflexivity.
  - vm_compute. repeat constructor; (discriminate || (intros H; discriminate H)).
Qed.

Lemma snapshot_isolation_witness :
  readable ex_w1 2 ex_reader ex_view ∧ (Get 9 2 [x61] ex_w1).1 = Ret (Some [x01]).
Proof.
  destruct (snapshot_isolation ex_w0 ex_w1 2 ex_reader ex_view 9 [x61] ex_reachable ex_steps ex_reader_view eq_refl)
    as [H1 H2].
  - intros tx Htx. assert (t_db <$> w_txs ex_w1 !! 2%positive = Some true) as H by (vm_compute; reflexivity).
    change (w_txs ex_w1 !! 2%positive = Some tx) in Htx. rewrite Htx in H. by injection H.
  - simpl. lia.
  - split; [exact H1|]. rewrite H2. vm_compute. reflexivity.
Defined.

Lemma published_immutable_witness : rep (w_nodes ex_w1) ex_view.
Proof.
  eapply (published_immutable ex_w0 ex_w1 _ [x6e] (mkBucketState (Some 1%positive)) ex_view ex_reachable ex_steps).
  - left. vm_compute. reflexivity.
  - vm_compute. reflexivity.
  - reflexivity.
  - apply ex_reader_view.
Defined.

Definition ex_last : call := CCommit std_iteration 9 0 0 3.
Definition ex_before : world := run_calls (take 4 ex_later) ex_w0.

Lemma only_commit_publishes_witness : (Commit std_iteration 9 0 0 3 ex_before).1 = Ret None.
Proof.
  destruct (only_commit_publishes ex_before ex_last) as [(it & fuel & rt & sp & t & Hc & Hr)|H].
  - destruct ex_reachable as [o Ho]. exists o. eapply (transitivity Ho). apply run_calls_steps.
    repeat constructor.
  - apply std_iteration_fair.
  - intros H. apply (f_equal (λ o, o ≫= λ st, mjoin (ds_buckets st !! [x6e]) ≫= bs_root)) in H.
    vm_compute in H. discriminate.
  - injection Hc as <- <- <- <- <-. exact Hr.
  - discriminate H.
Defined.
