(* ===== verification/TxSpec.v ===== *)
(** * The bucket directory of a transaction

    Which names a transaction sees, and what opening, creating, deleting and
    listing do to that set.  Opening or creating a bucket in a write transaction
    gives a handle with the contract of [BucketSpec]. *)
From S2P Require Import Prelude GoSort Stats World Node KV Tree TreePath Cursor CursorSpec Cow Bucket Spill Tx DB.
From S2P Require Import CowSpec BucketSpec Frame FrameSpill Publish Isolation.
Local Open Scope st_scope.

(** The names a transaction sees. *)
Definition visible (tx : Tx) : gset bytes :=
  match t_base tx with Some st => dir_names tx (ds_buckets st) | None => ∅ end.

(** Created and deleted names are disjoint, cached handles are of visible
    buckets, and published buckets are not nil. *)
Record dir_ok (tx : Tx) : Prop := mkDirOk {
  do_disj : t_created tx ## t_deleted tx;
  do_bctx : ∀ name b, t_bctx tx !! name = Some b → name ∈ visible tx;
  do_created : ∀ name, name ∈ t_created tx → is_Some (t_bctx tx !! name);
  do_base : ∀ st name bs, t_base tx = Some st → ds_buckets st !! name = Some bs → is_Some bs
}.

(** Transaction [t] is open, with directory [tx] over the state [st]. *)
Record open_tx (w : world) (t : tid) (tx : Tx) (st : dbState) : Prop := mkOpenTx {
  ot_tx : w_txs w !! t = Some tx;
  ot_db : t_db tx = true;
  ot_base : t_base tx = Some st;
  ot_dir : dir_ok tx
}.

Lemma elem_of_visible tx st name :
  t_base tx = Some st →
  name ∈ visible tx ↔ (is_Some (ds_buckets st !! name) ∨ name ∈ t_created tx) ∧ name ∉ t_deleted tx.
Proof. intros Hb. unfold visible, dir_names. rewrite Hb. by rewrite elem_of_difference, elem_of_union, elem_of_dom. Qed.

(** A handle with a dirty set owns it. *)
Lemma owner_core w b x D : core w → w_bkts w !! b = Some x → b_dirty x = Some D → owner b w x D.
Proof.
  intros Hc Hx HD. assert (Hd : ∀ l, l ∈ D → dirty_of w b l) by (intros l Hl; by exists x, D).
  split; auto.
  - apply (s_fresh_n _ Hc).
  - intros l (n & Hn & _)%Hd%(s_dirty _ Hc). by eapply s_fresh_n.
  - intros l n (n' & Hn' & Hb)%Hd%(s_dirty _ Hc) Hn. by simplify_eq.
Qed.

(** ** Running the pieces *)

Lemma newBucket_run t name w tx :
  w_txs w !! t = Some tx →
  newBucket t name w = new_bkt (mkBucket t name None (if t_writable tx then Some ∅ else None) DefaultFillPercent) w.
Proof. intros Ht. unfold newBucket. by rewrite (bind_Ret _ _ _ _ _ (get_tx_run _ _ _ Ht)). Qed.

(** The world after [CreateBucket] made the bucket [name]. *)
Definition created_world (t : tid) (name : bytes) (tx : Tx) (w : world) : world :=
  let b := w_nextb w in
  let r := w_nextn w in
  mkWorld (<[r := mkNode (Some b) true false false [] None []]> (w_nodes w)) (Pos.succ r)
    (<[b := mkBucket t name (Some r) (Some ({[r]} ∪ ∅)) DefaultFillPercent]> (w_bkts w)) (Pos.succ b)
    (<[t := set_t_bctx (<[name := b]> (t_bctx tx))
              (set_t_deleted (t_deleted tx ∖ {[name]}) (set_t_created ({[name]} ∪ t_created tx) tx))]> (w_txs w))
    (w_nextt w) (w_db w) (w_fired w).

(** The test of [CreateBucket]. *)
Lemma exists_run tx st name w :
  t_base tx = Some st → dir_ok tx →
  (if bool_decide (name ∈ t_deleted tx) then st_ret false
   else if bool_decide (name ∈ t_created tx) then st_ret true
   else bucketExistsCommitted tx name) w = (Ret (bool_decide (name ∈ visible tx)), w).
Proof.
  intros Hb Hd. rewrite (bool_decide_ext _ _ (elem_of_visible tx st name Hb)).
  destruct (decide (name ∈ t_deleted tx)) as [Hdel|Hdel].
  { rewrite bool_decide_eq_true_2 by done. rewrite bool_decide_eq_false_2 by tauto. done. }
  rewrite bool_decide_eq_false_2 by done. destruct (decide (name ∈ t_created tx)) as [Hcr|Hcr].
  { rewrite !bool_decide_eq_true_2 by tauto. done. }
  rewrite bool_decide_eq_false_2 by done. unfold bucketExistsCommitted, base_buckets. rewrite Hb.
  rewrite (bind_Ret _ _ w (ds_buckets st) w) by done. unfold st_ret. f_equal. f_equal.
  apply bool_decide_ext. tauto.
Qed.

Lemma CreateBucket_run w t tx st name :
  open_tx w t tx st → t_writable tx = true → name ≠ [] →
  CreateBucket t name w =
    if decide (name ∈ visible tx) then (Ret (inl ErrBucketExists), w)
    else (Ret (inr (w_nextb w)), created_world t name tx w).
Proof.
  intros [Ht Hdb Hba Hdir] Hw Hne. unfold CreateBucket.
  rewrite (bind_Ret _ _ _ _ _ (get_tx_run _ _ _ Ht)), Hdb, Hw. change (negb true) with false. cbv iota.
  destruct (Nat.eqb_spec (length name) 0) as [E|_]; [by apply nil_length_inv in E|].
  rewrite (bind_Ret _ _ _ _ _ (exists_run tx st name w Hba Hdir)).
  case_decide as Hv; [by rewrite bool_decide_eq_true_2|rewrite bool_decide_eq_false_2 by done].
  rewrite (bind_Ret _ _ w (w_nextb w) _ (newBucket_run t name w tx Ht)), Hw.
  erewrite bind_Ret by reflexivity.
  erewrite bind_Ret by (apply upd_bkt_run; simpl; apply lookup_insert_eq).
  erewrite bind_Ret by (eapply mark_dirty_run; [simpl; apply lookup_insert_eq|reflexivity]).
  erewrite bind_Ret by (apply upd_tx_run; simpl; exact Ht).
  erewrite bind_Ret by (apply upd_tx_run; simpl; apply lookup_insert_eq).
  erewrite bind_Ret by (apply upd_tx_run; simpl; apply lookup_insert_eq).
  unfold st_ret, created_world, set_txs, set_bkts, set_nodes. simpl. by rewrite !insert_insert_eq.
Qed.

(** ** Creating *)

Lemma created_visible t name tx w tx' st :
  open_tx w t tx st → w_txs (created_world t name tx w) !! t = Some tx' →
  open_tx (created_world t name tx w) t tx' st ∧ visible tx' = {[name]} ∪ visible tx ∧
  t_bctx tx' !! name = Some (w_nextb w).
Proof.
  intros [Ht Hdb Hba [Hdis Hbc Hcr Hbs]] Ht'. simpl in Ht'. rewrite lookup_insert_eq in Ht'. injection Ht' as <-.
  assert (Hvis : ∀ n, n ∈ visible (set_t_bctx (<[name := w_nextb w]> (t_bctx tx))
      (set_t_deleted (t_deleted tx ∖ {[name]}) (set_t_created ({[name]} ∪ t_created tx) tx)))
    ↔ n = name ∨ n ∈ visible tx).
  { intros n. rewrite (elem_of_visible _ st) by done. rewrite (elem_of_visible tx st) by done. simpl.
    destruct (decide (n = name)) as [->|]; set_solver. }
  split_and!; [split; [simpl; by rewrite lookup_insert_eq|done|done|]| |simpl; apply lookup_insert_eq].
  - split; simpl; [set_solver| | |done].
    + intros n b. rewrite lookup_insert. intros Hn. apply Hvis. case_decide; [by left|right; by eapply Hbc].
    + intros n [->%elem_of_singleton|Hn]%elem_of_union; [rewrite lookup_insert_eq; eauto|].
      rewrite lookup_insert. case_decide; eauto.
  - apply set_eq. intros n. rewrite Hvis. set_solver.
Qed.

Lemma created_bview t name tx w :
  sane (created_world t name tx w) → t_db tx = true → t_writable tx = true →
  ∃ x D T, bview (created_world t name tx w) (w_nextb w) x D T ∧ contents T = [].
Proof.
  intros Hs Hdb Hw. set (w' := created_world t name tx w) in *.
  eexists (mkBucket t name (Some (w_nextn w)) (Some ({[w_nextn w]} ∪ ∅)) DefaultFillPercent), _, (Leaf (w_nextn w) []).
  assert (Hb : w_bkts w' !! w_nextb w = Some (mkBucket t name (Some (w_nextn w)) (Some ({[w_nextn w]} ∪ ∅)) DefaultFillPercent)).
  { simpl. apply lookup_insert_eq. }
  split; [|done]. split; [split|eapply owner_core; [apply Hs|exact Hb|done]|..]; simpl.
  - apply lookup_insert_eq.
  - rewrite lookup_insert_eq. eauto.
  - done.
  - eexists. rewrite lookup_insert_eq. split; [done|split; done].
  - split; constructor.
  - intros tx'. rewrite lookup_insert_eq. by intros [= <-].
  - intros r [= <-]. set_solver.
  - apply NoDup_singleton.
Qed.

(** C30. [Tx.CreateBucket] in an open write transaction: if the name is visible it
    reports ErrBucketExists and changes nothing; otherwise the name becomes
    visible, no other name changes, and the returned handle is an empty writable
    bucket. *)
Theorem CreateBucket_correct w t tx st name :
  sane w → open_tx w t tx st → t_writable tx = true → name ≠ [] →
  if decide (name ∈ visible tx) then CreateBucket t name w = (Ret (inl ErrBucketExists), w)
  else ∃ b w' tx', CreateBucket t name w = (Ret (inr b), w') ∧ open_tx w' t tx' st ∧
    visible tx' = {[name]} ∪ visible tx ∧ t_bctx tx' !! name = Some b ∧
    ∃ x D T, bview w' b x D T ∧ contents T = [].
Proof.
  intros Hs Ho Hw Hne. pose proof (CreateBucket_run w t tx st name Ho Hw Hne) as Hrun.
  case_decide as Hv; [done|]. pose proof (q_sane _ _ (proj1 (CreateBucket_q t name w Hs))) as Hs'.
  rewrite Hrun in Hs'. simpl in Hs'.
  destruct (created_visible t name tx w _ st Ho (lookup_insert_eq _ _ _)) as (H1 & H2 & H3).
  eexists _, _, _. split; [exact Hrun|]. split_and!; [exact H1|exact H2|exact H3|].
  apply created_bview; [done|apply Ho|done].
Qed.

(** ** Deleting *)

(** The transaction after [DeleteBucket] removed a name it had created, or marked
    a committed one. *)
Definition uncreate (name : bytes) (tx : Tx) : Tx :=
  set_t_bctx (delete name (t_bctx tx)) (set_t_created (t_created tx ∖ {[name]}) tx).
Definition mark_deleted (name : bytes) (tx : Tx) : Tx :=
  set_t_bctx (delete name (t_bctx tx)) (set_t_deleted ({[name]} ∪ t_deleted tx) tx).

Lemma DeleteBucket_run w t tx st name :
  open_tx w t tx st → t_writable tx = true →
  DeleteBucket t name w =
    if decide (name ∈ t_created tx) then (Ret None, set_txs (<[t := uncreate name tx]> (w_txs w)) w)
    else if decide (is_Some (ds_buckets st !! name))
    then (Ret None, set_txs (<[t := mark_deleted name tx]> (w_txs w)) w)
    else (Ret (Some ErrBucketNotFound), w).
Proof.
  intros [Ht Hdb Hba _] Hw. unfold DeleteBucket.
  rewrite (bind_Ret _ _ _ _ _ (get_tx_run _ _ _ Ht)), Hdb, Hw. change (negb true) with false. cbv iota.
  case_decide as Hcr; [rewrite bool_decide_eq_true_2 by done|rewrite bool_decide_eq_false_2 by done].
  - erewrite bind_Ret by (apply upd_tx_run; exact Ht).
    erewrite bind_Ret by (apply upd_tx_run; simpl; apply lookup_insert_eq).
    unfold st_ret, set_txs. simpl. by rewrite insert_insert_eq.
  - unfold bucketExistsCommitted, base_buckets. rewrite Hba.
    rewrite (bind_Ret _ _ w (bool_decide (is_Some (ds_buckets st !! name))) w) by done.
    case_decide as He; [rewrite bool_decide_eq_true_2 by done|by rewrite bool_decide_eq_false_2 by done].
    change (negb true) with false. cbv iota. erewrite bind_Ret by (apply upd_tx_run; exact Ht).
    erewrite bind_Ret by (apply upd_tx_run; simpl; apply lookup_insert_eq).
    unfold st_ret, set_txs. simpl. by rewrite insert_insert_eq.
Qed.

Lemma mark_deleted_visible name tx st :
  t_base tx = Some st → dir_ok tx → name ∉ t_created tx →
  dir_ok (mark_deleted name tx) ∧ visible (mark_deleted name tx) = visible tx ∖ {[name]}.
Proof.
  intros Hb [Hdis Hbc Hcr Hbs] Hn.
  assert (Hvis : ∀ n, n ∈ visible (mark_deleted name tx) ↔ n ∈ visible tx ∧ n ≠ name).
  { intros n. rewrite (elem_of_visible _ st) by done. rewrite (elem_of_visible tx st) by done. simpl. set_solver. }
  split; [split; simpl|apply set_eq; intros n; rewrite Hvis; set_solver].
  - set_solver.
  - intros n b [Hne Hb']%lookup_delete_Some. apply Hvis. split; [by eapply Hbc|done].
  - intros n Hin. rewrite lookup_delete_ne; [by apply Hcr|]. set_solver.
  - done.
Qed.

Lemma uncreate_visible name tx st :
  t_base tx = Some st → dir_ok tx → name ∈ t_created tx →
  dir_ok (uncreate name tx) ∧
  visible (uncreate name tx) = if decide (is_Some (ds_buckets st !! name)) then visible tx else visible tx ∖ {[name]}.
Proof.
  intros Hb [Hdis Hbc Hcr Hbs] Hn.
  assert (Hvis : ∀ n, n ∈ visible (uncreate name tx) ↔
    n ∈ visible tx ∧ (n ≠ name ∨ is_Some (ds_buckets st !! name))).
  { intros n. rewrite (elem_of_visible _ st) by done. rewrite (elem_of_visible tx st) by done. simpl.
    destruct (decide (n = name)) as [->|]; set_solver. }
  split; [split; simpl|].
  - set_solver.
  - intros n b [Hne Hb']%lookup_delete_Some. apply Hvis. split; [by eapply Hbc|by left].
  - intros n [Hin Hne]%elem_of_difference. rewrite lookup_delete_ne; [by apply Hcr|]. set_solver.
  - done.
  - apply set_eq. intros n. rewrite Hvis. case_decide; set_solver.
Qed.

(** C31. [Tx.DeleteBucket] in an open write transaction, for a bucket that is not
    both committed and re-created in the same transaction: it fails with
    ErrBucketNotFound, changing nothing, exactly when the name is neither
    committed nor created here; otherwise it succeeds, and exactly that name
    stops being visible. *)
Theorem DeleteBucket_correct w t tx st name :
  open_tx w t tx st → t_writable tx = true →
  ¬ (name ∈ t_created tx ∧ is_Some (ds_buckets st !! name)) →
  if decide (name ∈ t_created tx ∨ is_Some (ds_buckets st !! name))
  then ∃ w' tx', DeleteBucket t name w = (Ret None, w') ∧ open_tx w' t tx' st ∧
    visible tx' = visible tx ∖ {[name]}
  else DeleteBucket t name w = (Ret (Some ErrBucketNotFound), w).
Proof.
  intros Ho Hw Hnot. rewrite (DeleteBucket_run w t tx st name Ho Hw). destruct Ho as [Ht Hdb Hba Hdir].
  destruct (decide (name ∈ t_created tx)) as [Hcr|Hcr].
  - rewrite decide_True by tauto. destruct (uncreate_visible name tx st Hba Hdir Hcr) as [Hd Hv].
    rewrite decide_False in Hv by tauto. eexists _, (uncreate name tx). split; [done|].
    split; [split; [apply lookup_insert_eq|done..]|done].
  - destruct (decide (is_Some (ds_buckets st !! name))) as [Hex|Hex]; [rewrite decide_True by tauto|rewrite decide_False by tauto; done].
    destruct (mark_deleted_visible name tx st Hba Hdir Hcr) as [Hd Hv].
    eexists _, (mark_deleted name tx). split; [done|]. split; [split; [apply lookup_insert_eq|done..]|done].
Qed.

(** C35. The case left out above is a defect: deleting a bucket that was committed,
    deleted and created again in this transaction returns nil, yet the name stays
    visible, and the handle it then opens is the old committed bucket. *)
Theorem DeleteBucket_resurrects w t tx st name :
  open_tx w t tx st → t_writable tx = true →
  name ∈ t_created tx → is_Some (ds_buckets st !! name) →
  ∃ w' tx', DeleteBucket t name w = (Ret None, w') ∧ open_tx w' t tx' st ∧
    visible tx' = visible tx ∧ name ∈ visible tx' ∧ t_bctx tx' !! name = None.
Proof.
  intros Ho Hw Hcr Hex. rewrite (DeleteBucket_run w t tx st name Ho Hw). destruct Ho as [Ht Hdb Hba Hdir].
  rewrite decide_True by done. destruct (uncreate_visible name tx st Hba Hdir Hcr) as [Hd Hv].
  rewrite decide_True in Hv by done. eexists _, (uncreate name tx). split; [done|].
  assert (name ∈ visible tx).
  { rewrite (elem_of_visible tx st) by done. pose proof (do_disj _ Hdir). set_solver. }
  split_and!; [split; [apply lookup_insert_eq|done..]|done|by rewrite Hv|simpl; apply lookup_delete_eq].
Qed.

(** ** Opening *)

(** The world after [Tx.Bucket] made a handle for a committed bucket. *)
Definition opened_world (t : tid) (name : bytes) (tx : Tx) (w : world) : world :=
  let b := w_nextb w in
  mkWorld (w_nodes w) (w_nextn w)
    (<[b := mkBucket t name None (if t_writable tx then Some ∅ else None) DefaultFillPercent]> (w_bkts w)) (Pos.succ b)
    (<[t := set_t_bctx (<[name := b]> (t_bctx tx)) tx]> (w_txs w)) (w_nextt w) (w_db w) (w_fired w).

Lemma Tx_Bucket_run w t tx st name :
  open_tx w t tx st →
  Tx_Bucket t name w =
    if decide (name ∈ visible tx) then
      match t_bctx tx !! name with
      | Some b => (Ret (Some b), w)
      | None => (Ret (Some (w_nextb w)), opened_world t name tx w)
      end
    else (Ret None, w).
Proof.
  intros [Ht Hdb Hba [Hdis Hbc Hcr Hbs]]. unfold Tx_Bucket.
  rewrite (bind_Ret _ _ _ _ _ (get_tx_run _ _ _ Ht)), Hdb. change (negb true) with false. cbv iota.
  destruct (t_bctx tx !! name) as [b|] eqn:Hc; [rewrite decide_True by (by eapply Hbc); done|].
  assert (Hncr : name ∉ t_created tx) by (intros [? ?]%Hcr; congruence).
  case_decide as Hv; rewrite (elem_of_visible tx st name Hba) in Hv.
  - destruct Hv as [[Hex|?] Hdel]; [|done]. rewrite bool_decide_eq_false_2 by done.
  unfold base_buckets. rewrite Hba. rewrite (bind_Ret _ _ w (ds_buckets st) w) by done.
    destruct Hex as [o Ho]. destruct (Hbs _ _ _ Hba Ho) as [bs ->]. rewrite Ho. cbn [mjoin option_join].
    rewrite (bind_Ret _ _ w (w_nextb w) _ (newBucket_run t name w tx Ht)).
    unfold putBctx. erewrite bind_Ret by (apply upd_tx_run; simpl; exact Ht). done.
  - destruct (decide (name ∈ t_deleted tx)) as [?|Hdel]; [by rewrite bool_decide_eq_true_2|].
    rewrite bool_decide_eq_false_2 by done. unfold base_buckets. rewrite Hba.
    rewrite (bind_Ret _ _ w (ds_buckets st) w) by done.
    destruct (ds_buckets st !! name) eqn:E; [|done]. destruct Hv. split; [left; eauto|done].
Qed.

Lemma opened_dir w t name tx st :
  open_tx w t tx st → name ∈ visible tx →
  let tx' := set_t_bctx (<[name := w_nextb w]> (t_bctx tx)) tx in
  open_tx (opened_world t name tx w) t tx' st ∧ visible tx' = visible tx.
Proof.
  intros [Ht Hdb Hba [Hdis Hbc Hcr Hbs]] Hv tx'. split; [|done].
  split; [simpl; apply lookup_insert_eq|done|done|]. split; simpl; [done| | |done].
  - intros n b. rewrite lookup_insert. case_decide; [by intros [= <-]; subst|by apply Hbc].
  - intros n Hn. rewrite lookup_insert. case_decide; eauto.
Qed.

(** [Tx.Bucket] returns a handle exactly for the visible names, without
    changing which names are visible; the first time it opens a committed bucket
    the handle shows the committed tree, and in a write transaction it is
    writable. *)
Theorem Bucket_correct w t tx st name :
  sane w → open_tx w t tx st →
  ∃ ob w' tx', Tx_Bucket t name w = (Ret ob, w') ∧ open_tx w' t tx' st ∧ visible tx' = visible tx ∧
    (is_Some ob ↔ name ∈ visible tx) ∧ (∀ b, ob = Some b → t_bctx tx' !! name = Some b) ∧
    (∀ b bs T, ob = Some b → t_bctx tx !! name = None →
       ds_buckets st !! name = Some (Some bs) → bs_root bs = Some (tloc T) →
       rep (w_nodes w) T → wf T → NoDup (tlocs T) →
       ∃ x, readable w' b x T ∧ (t_writable tx = true → ∃ D, bview w' b x D T)).
Proof.
  intros Hs Ho. rewrite (Tx_Bucket_run w t tx st name Ho). pose proof Ho as [Ht Hdb Hba Hdir].
  pose proof (q_sane _ _ (proj1 (Tx_Bucket_q t name w Hs))) as Hs'. rewrite (Tx_Bucket_run w t tx st name Ho) in Hs'.
  case_decide as Hv; [destruct (t_bctx tx !! name) as [b|] eqn:Hc|].
  - exists (Some b), w, tx. split_and!; auto; [split; eauto|naive_solver|naive_solver].
  - destruct (opened_dir w t name tx st Ho Hv) as [Ho' Hvis]. eexists _, _, _. split; [done|].
    split; [exact Ho'|]. split; [done|]. split; [split; eauto|]. split.
    { intros b [= <-]. simpl. apply lookup_insert_eq. }
    intros b bs T [= <-] _ Hbs Hroot Hrep Hwf Hnd. eexists.
    assert (Hr : readable (opened_world t name tx w) (w_nextb w)
      (mkBucket t name None (if t_writable tx then Some ∅ else None) DefaultFillPercent) T).
    { split; simpl; [apply lookup_insert_eq|rewrite lookup_insert_eq; eauto| |done|done].
      unfold rootView, baseState. simpl. rewrite lookup_insert_eq. simpl. by rewrite Hba, Hbs. }
    split; [exact Hr|]. intros Hw. exists ∅. rewrite Hw in *. split; [done| | | |done].
    + eapply owner_core; [apply Hs'|simpl; rewrite Hw; apply lookup_insert_eq|done].
    + simpl. intros tx'. rewrite lookup_insert_eq. by intros [= <-].
    + done.
  - exists None, w, tx. split_and!; auto; [split; [intros [? ?]; done|tauto]|done|done].
Qed.

(** ** Listing *)

(** [Tx.ForEach] without its [seen] map. *)
Fixpoint visit {A} (t : tid) (fn : A → bytes → option bid → M (A * option err)) (names : list bytes) (acc : A)
    : M (A * option err) :=
  match names with
  | [] => st_ret (acc, None)
  | n :: names' =>
      let! b := Tx_Bucket t n in
      let! (acc, e) := fn acc n b in
      match e with Some _ => st_ret (acc, e) | None => visit t fn names' acc end
  end.

Lemma Tx_each_firsts {A} t (fn : A → bytes → option bid → M (A * option err)) names : ∀ seen acc w,
  Tx_each t fn names seen acc w = visit t fn (firsts names seen) acc w.
Proof.
  induction names as [|n names IH]; intros seen acc w; simpl; [done|]. case_bool_decide; [apply IH|]. simpl.
  unfold st_bind. destruct (Tx_Bucket t n w) as [[b| | |] w1]; [|done..]. destruct (fn acc n b w1) as [[[acc' [e|]]| | |] w2]; try done.
Qed.

(** The sorted directory. *)
Definition listing (tx : Tx) : list bytes := sort_Strings (elements (visible tx)).

Lemma listing_spec tx : ssorted (listing tx) ∧ ∀ n, n ∈ listing tx ↔ n ∈ visible tx.
Proof.
  split; [apply sort_Strings_sorted, NoDup_elements|]. intros n. unfold listing.
  by rewrite sort_Strings_perm, elem_of_elements.
Qed.

Lemma ForEach_visit {A} w t tx st (fn : A → bytes → option bid → M (A * option err)) acc :
  open_tx w t tx st → Tx_ForEach t fn acc w = visit t fn (listing tx) acc w.
Proof.
  intros [Ht Hdb Hba Hdir].
  unfold Tx_ForEach. rewrite (bind_Ret _ _ _ _ _ (get_tx_run _ _ _ Ht)), Hdb. change (negb true) with false. cbv iota.
  unfold base_buckets. rewrite Hba. rewrite (bind_Ret _ _ w (ds_buckets st) w) by done.
    rewrite Tx_each_firsts. f_equal. apply ssorted_unique; [apply firsts_sorted, sort_Strings_weak|apply listing_spec|].
    intros n. rewrite elem_of_firsts, sort_Strings_perm, (proj2 (listing_spec tx)), (elem_of_visible tx st) by done.
    rewrite elem_of_app, list_elem_of_filter, !elem_of_elements, elem_of_dom.
    pose proof (do_disj _ Hdir). set_solver.
Qed.

(** C32. [Tx.Cursor] and [Tx.ForEach] list the same directory: every visible name
    once, in strictly ascending order.  [ForEach] hands each name with what
    [Tx.Bucket] returns for it to the callback, and stops at its first error. *)
Theorem listing_correct {A} w t tx st (fn : A → bytes → option bid → M (A * option err)) acc :
  open_tx w t tx st →
  Tx_Cursor t w = (Ret (mkCursor None [] (listing tx) (-1)), w) ∧
  Tx_ForEach t fn acc w = visit t fn (listing tx) acc w ∧
  ssorted (listing tx) ∧ ∀ n, n ∈ listing tx ↔ n ∈ visible tx.
Proof.
  intros [Ht Hdb Hba Hdir]. split_and!; try apply listing_spec.
  - unfold Tx_Cursor. rewrite (bind_Ret _ _ _ _ _ (get_tx_run _ _ _ Ht)), Hdb. change (negb true) with false. cbv iota.
  unfold base_buckets. rewrite Hba. rewrite (bind_Ret _ _ w (ds_buckets st) w) by done.
    unfold listing, visible. by rewrite Hba.
  - by apply (ForEach_visit w t tx st).
Qed.
