(* ===== verification/Directory.v ===== *)
(** * The directory invariant

    In every reachable state the directory of each open transaction is
    consistent, its cached handles are the right ones, and no published bucket
    is nil; a commit publishes exactly the names its transaction sees. *)
From S2P Require Import Prelude GoSort Stats World Node KV Tree TreePath Cursor CursorSpec Cow Bucket Spill Tx DB.
From S2P Require Import CowSpec BucketSpec Frame FrameSpill Publish Isolation System TxSpec.
Local Open Scope st_scope.

(** The cached handles of a transaction: of this transaction and name; the one of
    a created bucket has its own root. *)
Definition handles_ok (w : world) (t : tid) (tx : Tx) : Prop :=
  ∀ name b, t_bctx tx !! name = Some b →
    ∃ x, w_bkts w !! b = Some x ∧ b_tx x = t ∧ b_name x = name ∧
      (b_rootNode x = None → name ∉ t_created tx).

Definition no_nil (st : dbState) : Prop := ∀ name bs, ds_buckets st !! name = Some bs → is_Some bs.

Definition tx_dir (w : world) (t : tid) (tx : Tx) : Prop :=
  ∃ st, t_base tx = Some st ∧ dir_ok tx ∧ handles_ok w t tx.

Record dirs (w : world) : Prop := mkDirs {
  dv_tx : ∀ t tx, w_txs w !! t = Some tx → t_db tx = true → tx_dir w t tx;
  dv_db : ∀ st, db_state (w_db w) = Some st → no_nil st
}.

Lemma dirs_open w t tx : dirs w → w_txs w !! t = Some tx → t_db tx = true → ∃ st, open_tx w t tx st.
Proof. intros Hd Ht Hdb. destruct (dv_tx _ Hd _ _ Ht Hdb) as (st & ? & ? & _). by exists st. Qed.

(** ** Preservation *)

(** The directory part of a transaction. *)
Definition same_dir (tx tx' : Tx) : Prop :=
  t_db tx' = t_db tx ∧ t_base tx' = t_base tx ∧ t_created tx' = t_created tx ∧ t_deleted tx' = t_deleted tx ∧
  t_bctx tx' = t_bctx tx.

Lemma same_dir_ok tx tx' : same_dir tx tx' → dir_ok tx → dir_ok tx' ∧ visible tx' = visible tx.
Proof.
  intros (_ & Hb & Hc & Hd & Hx) [H1 H2 H3 H4].
  assert (Hv : visible tx' = visible tx) by (unfold visible, dir_names; by rewrite Hb, Hc, Hd).
  split; [|done]. split; rewrite ?Hc, ?Hd, ?Hx, ?Hb; auto. intros name b Hn. rewrite Hv. by eapply H2.
Qed.

Lemma strip_same tx tx' : strip tx' = strip tx → same_dir tx tx'.
Proof. destruct tx, tx'. unfold strip, same_dir. simpl. intros. by simplify_eq. Qed.

Lemma strip_handlers tx tx' : strip tx' = strip tx → t_commitHandlers tx' = t_commitHandlers tx.
Proof. destruct tx, tx'. unfold strip. simpl. intros. by simplify_eq. Qed.

(** Handles that only gain a root stay in order. *)
Lemma handles_ok_mono w w' t tx tx' :
  (∀ b x, w_bkts w !! b = Some x → ∃ x', w_bkts w' !! b = Some x' ∧ b_tx x' = b_tx x ∧ b_name x' = b_name x ∧
     (is_Some (b_rootNode x) → is_Some (b_rootNode x'))) →
  same_dir tx tx' → handles_ok w t tx → handles_ok w' t tx'.
Proof.
  intros Hb (_ & _ & Hc & _ & Hx) Hh name b. rewrite Hx, Hc. intros (x & Hbx & Ht & Hn & Hr)%Hh.
  destruct (Hb _ _ Hbx) as (x' & Hx' & Ht' & Hn' & Hr'). exists x'. split_and!; [done|congruence|congruence|].
  intros Hx'n. apply Hr. destruct (b_rootNode x); [|done]. rewrite Hx'n in Hr'. by destruct Hr' as [? ?]; [eauto|].
Qed.

Lemma dirs_evo w w' : evo w w' → dirs w → dirs w'.
Proof.
  intros He [H1 H2]. split; [|by rewrite (e_db _ _ He)]. intros t tx' Ht' Hd'.
  destruct (strip_lookup _ _ _ _ (eq_sym (e_txs _ _ He)) Ht') as (tx & Ht & Hs).
  pose proof (strip_same _ _ (eq_sym Hs)) as Hsd. pose proof Hsd as (Hdb & Hba & _).
  destruct (H1 _ _ Ht) as (st & Hst & Hok & Hh); [congruence|]. exists st.
  split_and!; [congruence|by eapply same_dir_ok|].
  eapply handles_ok_mono; [|done|done]. intros b x Hx. destruct (e_bkts _ _ He _ _ Hx) as (x' & ? & ? & ? & _ & _ & ?).
  eauto 10.
Qed.

(** A step that changes the directory of one transaction. *)
Lemma dirs_tx w w' t tx' :
  dirs w → (∀ b x, w_bkts w !! b = Some x → w_bkts w' !! b = Some x) →
  w_txs w' = <[t := tx']> (w_txs w) → db_state (w_db w') = db_state (w_db w) →
  (t_db tx' = true → tx_dir w' t tx') → dirs w'.
Proof.
  intros [H1 H2] Hb Ht Hd Htx. split; [|by rewrite Hd]. intros u y. rewrite Ht, lookup_insert. case_decide.
  - subst u. by intros [= <-].
  - intros Hy Hdb. destruct (H1 _ _ Hy Hdb) as (st & Hst & Hok & Hh). exists st. split_and!; [done|done|].
    eapply handles_ok_mono; [|done|done]. intros b x Hx. exists x. by split_and!; auto.
Qed.

(** A call on a transaction that is missing, closed or read-only returns at once. *)
Definition can_write (w : world) (t : tid) : bool :=
  match w_txs w !! t with Some tx => t_db tx && t_writable tx | None => false end.

Lemma can_write_true w t :
  can_write w t = true → ∃ tx, w_txs w !! t = Some tx ∧ t_db tx = true ∧ t_writable tx = true.
Proof.
  unfold can_write. destruct (w_txs w !! t) as [tx|]; [|done]. intros [? ?]%andb_true_iff. eauto.
Qed.

Lemma guarded_same {A} (t : tid) w (e1 e2 : A) (k : Tx → M A) :
  can_write w t = false →
  ((let! tx := get_tx t in
    if negb (t_db tx) then st_ret e1 else if negb (t_writable tx) then st_ret e2 else k tx) w).2 = w.
Proof.
  unfold can_write. intros Hc. destruct (w_txs w !! t) as [tx|] eqn:Ht.
  - rewrite (bind_Ret _ _ _ _ _ (get_tx_run _ _ _ Ht)). by destruct (t_db tx), (t_writable tx).
  - unfold get_tx, st_bind, st_get, st_deref. by rewrite Ht.
Qed.

Lemma CreateBucket_dirs t name w : sane w → dirs w → dirs (CreateBucket t name w).2.
Proof.
  intros Hs Hd. destruct (can_write w t) eqn:Hcw; [|unfold CreateBucket; by rewrite guarded_same].
  destruct (can_write_true _ _ Hcw) as (tx & Ht & Hdb & Hw).
  destruct (decide (name = [])) as [->|Hne].
  { unfold CreateBucket. by rewrite (bind_Ret _ _ _ _ _ (get_tx_run _ _ _ Ht)), Hdb, Hw. }
  destruct (dirs_open _ _ _ Hd Ht Hdb) as [st Ho]. rewrite (CreateBucket_run w t tx st name Ho Hw Hne).
  case_decide as Hv; [done|]. simpl.
  destruct (created_visible t name tx w _ st Ho (lookup_insert_eq _ _ _)) as (H1 & H2 & H3).
  pose proof (sn_core _ Hs) as Hc.
  assert (Hold : ∀ b x, w_bkts w !! b = Some x → w_bkts (created_world t name tx w) !! b = Some x).
  { intros b x Hx. simpl. rewrite lookup_insert_ne; [done|]. apply (s_fresh_b _ Hc) in Hx. lia. }
  eapply (dirs_tx w); [done|done|done|done|]. intros _. exists st. split_and!; [apply Ho|apply H1|].
  destruct (dv_tx _ Hd _ _ Ht Hdb) as (_ & _ & _ & Hh). intros n b. simpl. rewrite lookup_insert. case_decide.
  - subst n. intros [= <-]. eexists. rewrite lookup_insert_eq. split_and!; done.
  - intros (x & Hx & Hxt & Hxn & Hr)%Hh. exists x. split_and!; [by apply Hold|done|done|]. set_solver.
Qed.

Lemma Tx_Bucket_dirs t name w : sane w → dirs w → dirs (Tx_Bucket t name w).2.
Proof.
  intros Hs Hd. destruct (w_txs w !! t) as [tx|] eqn:Ht.
  2:{ unfold Tx_Bucket, get_tx, st_bind, st_get, st_deref. by rewrite Ht. }
  destruct (t_db tx) eqn:Hdb.
  2:{ unfold Tx_Bucket. by rewrite (bind_Ret _ _ _ _ _ (get_tx_run _ _ _ Ht)), Hdb. }
  destruct (dirs_open _ _ _ Hd Ht Hdb) as [st Ho]. rewrite (Tx_Bucket_run w t tx st name Ho).
  case_decide as Hv; [|done]. destruct (t_bctx tx !! name) as [b0|] eqn:Hb0; [done|]. simpl.
  destruct (opened_dir w t name tx st Ho Hv) as [Ho' _]. pose proof (sn_core _ Hs) as Hc.
  assert (Hold : ∀ b x, w_bkts w !! b = Some x → w_bkts (opened_world t name tx w) !! b = Some x).
  { intros b x Hx. simpl. rewrite lookup_insert_ne; [done|]. apply (s_fresh_b _ Hc) in Hx. lia. }
  eapply (dirs_tx w); [done|done|done|done|]. intros _. exists st. split_and!; [apply Ho|apply Ho'|].
  destruct (dv_tx _ Hd _ _ Ht Hdb) as (_ & _ & Hok & Hh). intros n b. simpl. rewrite lookup_insert. case_decide.
  - subst n. intros [= <-]. eexists. rewrite lookup_insert_eq. split_and!; try done. intros _ Hcr.
    destruct (do_created _ Hok _ Hcr) as [? ?]. congruence.
  - intros (x & Hx & Hxt & Hxn & Hr)%Hh. exists x. split_and!; [by apply Hold|done|done|done].
Qed.

Lemma DeleteBucket_dirs t name w : dirs w → dirs (DeleteBucket t name w).2.
Proof.
  intros Hd. destruct (can_write w t) eqn:Hcw; [|unfold DeleteBucket; by rewrite guarded_same].
  destruct (can_write_true _ _ Hcw) as (tx & Ht & Hdb & Hw).
  destruct (dirs_open _ _ _ Hd Ht Hdb) as [st Ho]. rewrite (DeleteBucket_run w t tx st name Ho Hw).
  pose proof Ho as [_ _ Hba Hok]. destruct (dv_tx _ Hd _ _ Ht Hdb) as (_ & _ & _ & Hh).
  case_decide as Hcr; [|case_decide as Hex; [|done]]; simpl; eapply (dirs_tx w); try done; intros _; exists st.
  - split_and!; [done|by eapply uncreate_visible|]. intros n b. simpl. intros [Hne Hb]%lookup_delete_Some.
    destruct (Hh _ _ Hb) as (x & Hx & Hxt & Hxn & Hr). exists x. split_and!; [done|done|done|]. set_solver.
  - split_and!; [done|by eapply mark_deleted_visible|]. intros n b. simpl. intros [Hne Hb]%lookup_delete_Some.
    by apply Hh.
Qed.

(** ** What a commit publishes *)

(** The state [publishRoot] returns for a handle. *)
Definition publish_st (w : world) (b : bid) : option bucketState :=
  match w_bkts w !! b with
  | Some x => match b_rootNode x with Some r => Some (mkBucketState (Some r)) | None => baseState w x end
  | None => None
  end.

Lemma publishRoot_st w b st w' : core w → publishRoot b w = (Ret st, w') → st = publish_st w b.
Proof.
  intros Hc. unfold publishRoot, publish_st. destruct (w_bkts w !! b) as [x|] eqn:Hx.
  2:{ unfold get_bkt, st_bind, st_get, st_deref. by rewrite Hx. }
  rewrite (bind_Ret _ _ _ _ _ (get_bkt_run _ _ _ Hx)). destruct (b_rootNode x) as [r|] eqn:Hr.
  - intros (u & w1 & _ & [= <- _])%bind_Ret_inv. done.
  - rewrite (bind_Ret st_get _ w w w eq_refl). by intros [= <- _].
Qed.

Lemma publish_all_map del bs : ∀ w acc m w',
  core w → (∀ p, p ∈ bs → is_Some (w_bkts w !! p.2)) → NoDup bs.*1 → NoDup bs.*2 →
  st_frozen w (mkDbState acc) → publish_all del bs acc w = (Ret m, w') →
  (∀ n b, (n, b) ∈ bs → n ∉ del → m !! n = Some (publish_st w b)) ∧
  (∀ n, n ∉ bs.*1 ∨ n ∈ del → m !! n = acc !! n).
Proof.
  induction bs as [|[nm b] bs IH]; intros w acc m w' Hc Hex Hn1 Hn2 Hacc Hrun; simpl in *.
  { injection Hrun as <- <-. split; [set_solver|done]. }
  apply NoDup_cons in Hn1 as [Hnm Hn1]. apply NoDup_cons in Hn2 as [Hb Hn2].
  case_bool_decide as Hdel.
  { destruct (IH w acc m w') as [H1 H2]; auto; [set_solver|]. split.
    - intros n b' [[= -> ->]|Hin]%elem_of_cons Hnd; [done|]. by apply H1.
    - intros n Hor. apply H2. set_solver. }
  destruct (Hex (nm, b)) as [x Hx]; [set_solver|]. simpl in Hx.
  destruct (publishRoot_run w b x Hc Hx) as (st & w1 & Hrun1 & Hi1 & Hst & Ht1 & Hd1 & _ & Hb1).
  rewrite (bind_Ret _ _ _ _ _ Hrun1) in Hrun. pose proof (publishRoot_st _ _ _ _ Hc Hrun1) as ->.
  destruct (IH w1 (<[nm := publish_st w b]> acc) m w' (i_core _ _ Hi1)) as [H1 H2]; auto.
  - intros p Hp. destruct (Hex p) as [y Hy]; [set_solver|]. destruct (i_bkts _ _ Hi1 _ _ Hy) as (? & ? & _). eauto.
  - intros n bs' r. simpl. rewrite lookup_insert. case_decide; [intros [= E]; by apply Hst|].
    intros Hl Hr. eapply frozen_iso; [done|]. by eapply Hacc.
  - split.
    + intros n b' [[= -> ->]|Hin]%elem_of_cons Hnd.
      * rewrite H2 by (left; set_solver). by rewrite lookup_insert_eq.
      * rewrite (H1 n b' Hin Hnd). f_equal. unfold publish_st. rewrite Hb1.
        2:{ intros ->. apply Hb. apply list_elem_of_fmap. by exists (n, b). }
        destruct (w_bkts w !! b') as [y|]; [|done]. destruct (b_rootNode y); [done|].
        unfold baseState. by rewrite Ht1.
    + intros n Hor. rewrite H2 by set_solver. rewrite lookup_insert_ne; [done|].
      intros <-. destruct Hor as [Hor|?]; [|done]. set_solver.
Qed.

Lemma lookup_set_fold_delete {A} (m : gmap bytes A) (X : gset bytes) n :
  set_fold delete m X !! n = if decide (n ∈ X) then None else m !! n.
Proof.
  assert ((n ∈ X → set_fold delete m X !! n = None) ∧ (n ∉ X → set_fold delete m X !! n = m !! n)) as [H1 H2].
  { apply (set_fold_ind_L (λ (r : gmap bytes A) Y, (n ∈ Y → r !! n = None) ∧ (n ∉ Y → r !! n = m !! n)));
      [set_solver|]. intros x Y r Hx [H1 H2]. rewrite lookup_delete. case_decide; set_solver. }
  case_decide; auto.
Qed.

(** The published state after [commit_tail]: every visible name, the opened ones
    with the state of their handle, the others with their old state. *)
Record published_dir (w : world) (tx : Tx) (st st' : dbState) : Prop := mkPublishedDir {
  pd_dom : dom (ds_buckets st') = visible tx;
  pd_opened : ∀ n b, t_bctx tx !! n = Some b → ds_buckets st' !! n = Some (publish_st w b);
  pd_other : ∀ n, n ∈ visible tx → t_bctx tx !! n = None → ds_buckets st' !! n = ds_buckets st !! n;
  pd_no_nil : no_nil st'
}.

Lemma handles_injective w t tx : handles_ok w t tx →
  ∀ bs : list (bytes * bid), bs ≡ₚ map_to_list (t_bctx tx) → NoDup bs.*1 ∧ NoDup bs.*2.
Proof.
  intros Hh bs Hbs. assert (Hnd : NoDup bs.*1) by (rewrite Hbs; apply NoDup_fst_map_to_list). split; [done|].
  assert (Hin : ∀ p, p ∈ bs → t_bctx tx !! p.1 = Some p.2).
  { intros [n b] Hp. rewrite Hbs in Hp. by apply elem_of_map_to_list in Hp. }
  clear Hbs. induction bs as [|[n b] bs IH]; [constructor|]. simpl in *. apply NoDup_cons in Hnd as [Hn Hnd].
  apply NoDup_cons. split; [|apply IH; [done|set_solver]].
  intros ([n' b'] & -> & Hp)%list_elem_of_fmap. simpl in *.
  destruct (Hh _ _ (Hin (n, b') ltac:(set_solver))) as (x & Hx & _ & Hxn & _).
  destruct (Hh _ _ (Hin (n', b') ltac:(set_solver))) as (x' & Hx' & _ & Hxn' & _).
  simpl in *. assert (n' = n) as -> by congruence. apply Hn, list_elem_of_fmap. by exists (n, b').
Qed.

Lemma commit_tail_dir it t tx w r w' :
  fair it → sane w → dirs w → (∃ tx', w_txs w !! t = Some tx' ∧ strip tx' = strip tx) → t_db tx = true →
  commit_tail it t tx w = (r, w') →
  ∃ st st', t_base tx = Some st ∧ r = Ret None ∧ db_state (w_db w') = Some st' ∧ published_dir w tx st st' ∧
    (∀ u y, w_txs w' !! u = Some y → t_db y = true → u ≠ t ∧ w_txs w !! u = Some y) ∧
    (∀ b x, w_bkts w !! b = Some x → b_tx x ≠ t → w_bkts w' !! b = Some x) ∧
    w_fired w' = w_fired w ++ t_commitHandlers tx.
Proof.
  intros Hf Hs Hd (tx' & Ht' & Hst') Hdb Hrun. pose proof (sn_core _ Hs) as Hc.
  pose proof (strip_same _ _ (eq_sym Hst')) as Hsame. pose proof Hsame as (Hdb' & Hba' & Hcr' & Hdl' & Hbc').
  destruct (dv_tx _ Hd _ _ Ht' ltac:(congruence)) as (st & Hbase & Hok' & Hh').
  rewrite <- Hba' in Hbase. destruct (same_dir_ok tx' tx) as [Hok Hvis]; [by split_and!|done|].
  assert (Hh : handles_ok w t tx).
  { eapply handles_ok_mono; [|split_and!; [exact Hdb'|done..]|exact Hh']. intros b x Hx. by exists x. }
  set (bs := it_bkts it 2 (t_bctx tx)). pose proof (proj2 Hf 2 (t_bctx tx)) as Hperm. fold bs in Hperm.
  assert (Hin : ∀ n b, (n, b) ∈ bs ↔ t_bctx tx !! n = Some b) by (intros n b; by rewrite Hperm, elem_of_map_to_list).
  assert (Hex : ∀ p, p ∈ bs → is_Some (w_bkts w !! p.2)).
  { intros [n b] (x & Hx & _)%Hin%Hh. eauto. }
  set (live := set_fold delete (ds_buckets st) (t_deleted tx)).
  assert (Hlive : st_frozen w (mkDbState live)).
  { intros n b0 r0 Hn. eapply (s_base _ Hc _ tx' st); [done|congruence|]. simpl in Hn. unfold live in Hn.
    rewrite lookup_set_fold_delete in Hn. case_decide; done. }
  destruct (publish_all_run (t_deleted tx) bs w live Hc Hex Hlive) as (m & w3 & Hr3 & Hi3 & Hm3 & Ht3 & Hd3 & Hf3 & Hb3).
  destruct (handles_injective w t tx Hh bs Hperm) as [Hn1 Hn2].
  destruct (publish_all_map _ _ _ _ _ _ Hc Hex Hn1 Hn2 Hlive Hr3) as [Hm1 Hm2].
  set (w4 := set_db (set_db_state (Some (mkDbState m)) (w_db w3)) w3).
  destruct (Tx_close_run w4 t tx') as (d & Hclose & Hdst & _); [simpl; by rewrite Ht3|congruence|].
  unfold commit_tail in Hrun. rewrite (bind_Ret _ _ w (ds_buckets st) w) in Hrun by (unfold base_buckets; by rewrite Hbase).
  cbv zeta in Hrun. fold bs live in Hrun. rewrite (bind_Ret _ _ _ _ _ Hr3) in Hrun.
  erewrite (bind_Ret (upd_db _) _ w3) in Hrun by reflexivity. fold w4 in Hrun.
  rewrite (bind_Ret _ _ _ _ _ Hclose) in Hrun.
  erewrite bind_Ret in Hrun by (apply get_tx_run; simpl; apply lookup_insert_eq).
  injection Hrun as <- <-. exists st, (mkDbState m).
  assert (Hbs1 : ∀ n, n ∈ bs.*1 ↔ is_Some (t_bctx tx !! n)).
  { intros n. rewrite list_elem_of_fmap. split.
    - intros ([n' b] & -> & Hb%Hin). eauto.
    - intros [b Hb%Hin]. by exists (n, b). }
  assert (Hndel : ∀ n b, t_bctx tx !! n = Some b → n ∉ t_deleted tx).
  { intros n b Hb. apply (do_bctx _ Hok), (elem_of_visible tx st) in Hb; [tauto|done]. }
  assert (Hopened : ∀ n b, t_bctx tx !! n = Some b → m !! n = Some (publish_st w b)).
  { intros n b Hb. apply Hm1; [by apply Hin|by eapply Hndel]. }
  assert (Hother : ∀ n, t_bctx tx !! n = None → m !! n = if decide (n ∈ t_deleted tx) then None else ds_buckets st !! n).
  { intros n Hn. rewrite Hm2; [apply lookup_set_fold_delete|]. left. rewrite Hbs1, Hn. by intros [? ?]. }
  split_and!; [done|done|done| | | |simpl; rewrite Hf3; f_equal; exact (strip_handlers _ _ Hst')].
  - split; simpl; [|done| |].
    + apply set_eq. intros n. rewrite elem_of_dom. destruct (t_bctx tx !! n) as [b|] eqn:Hb.
      * rewrite (Hopened _ _ Hb). split; [intros _; by eapply do_bctx|eauto].
      * rewrite (Hother _ Hb), (elem_of_visible tx st) by done.
        assert (n ∉ t_created tx) by (intros [? ?]%(do_created _ Hok); congruence).
        case_decide; [|tauto]. split; [by intros [? ?]|tauto].
    + intros n Hv Hb. rewrite (Hother _ Hb). apply (elem_of_visible tx st) in Hv as [_ Hv]; [|done].
      by rewrite decide_False.
    + intros n bs0. simpl. destruct (t_bctx tx !! n) as [b|] eqn:Hb.
      * rewrite (Hopened _ _ Hb). intros [= <-]. destruct (Hh _ _ Hb) as (x & Hx & Hxt & Hxn & Hr).
        unfold publish_st. rewrite Hx. destruct (b_rootNode x); [eauto|]. specialize (Hr eq_refl).
        pose proof (do_bctx _ Hok _ _ Hb) as Hv. apply (elem_of_visible tx st) in Hv as [[[o Ho]|?] _]; [|done|done].
        unfold baseState. rewrite Hxt, Ht', <- Hba', Hbase, Hxn, Ho. by apply (do_base _ Hok st n).
      * rewrite (Hother _ Hb). case_decide; [done|]. by apply (do_base _ Hok st).
  - intros u y. simpl. rewrite Ht3, lookup_insert. case_decide; [by intros [= <-]|]. intros Hy _. split; [congruence|done].
  - intros b x Hx Hne. simpl. rewrite Hb3; [done|]. intros ([n b'] & -> & Hb%Hin)%list_elem_of_fmap. simpl in *.
    destruct (Hh _ _ Hb) as (x0 & Hx0 & ? & _). simplify_eq.
Qed.

(** ** Every step keeps the directories in order *)

Lemma dirs_quiet_db w w' :
  dirs w → w_bkts w' = w_bkts w → w_txs w' = w_txs w →
  (db_state (w_db w') = db_state (w_db w) ∨ db_state (w_db w') = None) → dirs w'.
Proof.
  intros [H1 H2] Hb Ht Hd. split.
  - rewrite Ht. intros t tx Htx Hdb. destruct (H1 _ _ Htx Hdb) as (st & ? & ? & Hh). exists st. split_and!; [done|done|].
    unfold handles_ok. by rewrite Hb.
  - intros st Hst. destruct Hd as [Hd|Hd]; rewrite Hd in Hst; [by apply H2|done].
Qed.

Lemma upd_tx_dirs t f w : dirs w → (∀ tx, same_dir tx (f tx)) → dirs (upd_tx t f w).2.
Proof.
  intros Hd Hf. destruct (w_txs w !! t) as [tx|] eqn:Ht.
  2:{ unfold upd_tx, get_tx, st_bind, st_get, st_deref. by rewrite Ht. }
  rewrite (upd_tx_run _ _ _ _ Ht). eapply (dirs_tx w); [done|done|done|done|]. intros Hdb.
  pose proof (Hf tx) as Hs. pose proof Hs as (Hdb' & Hba' & _).
  destruct (dv_tx _ Hd _ _ Ht ltac:(congruence)) as (st & Hst & Hok & Hh). exists st.
  split_and!; [congruence|by eapply same_dir_ok|]. eapply handles_ok_mono; [|done|done]. intros b x Hx. by exists x.
Qed.

Lemma rollback_dirs t w : dirs w → dirs (rollback t w).2.
Proof.
  intros Hd. unfold rollback. destruct (w_txs w !! t) as [tx|] eqn:Ht.
  2:{ unfold get_tx, st_bind, st_get, st_deref. by rewrite Ht. }
  rewrite (bind_Ret _ _ _ _ _ (get_tx_run _ _ _ Ht)). destruct (t_db tx) eqn:Hdb; [|done].
  destruct (Tx_close_run w t tx Ht Hdb) as (d & Hrun & Hst & _). simpl. rewrite Hrun. simpl.
  by eapply (dirs_tx w).
Qed.

Lemma new_tx_dirs d wr st w :
  dirs w → db_state (w_db w) = Some st → db_state d = Some st →
  dirs (new_tx (mkTx wr false true (Some st) ∅ ∅ ∅ TxStats_zero []) (set_db d w)).2.
Proof.
  intros Hd Hst Hdst. eapply (dirs_tx w); [done|done|done|simpl; congruence|]. intros _. exists st.
  split_and!; [done| |].
  - split; simpl; [set_solver|intros ? ?; by rewrite lookup_empty|set_solver|].
    intros st0 n bs [= <-]. by apply (dv_db _ Hd).
  - intros n b. simpl. by rewrite lookup_empty.
Qed.

Lemma Begin_dirs wr w : dirs w → dirs (Begin wr w).2.
Proof.
  intros Hd. destruct wr.
  - unfold Begin, beginRWTx, lock, unlock, st_bind, get_db, st_gets, upd_db, st_modify. simpl.
    destruct (db_readOnly (w_db w)); [done|]. simpl. destruct (db_rwlock (w_db w)); [done|]. simpl.
    destruct (db_opened (w_db w)); simpl; [|by apply (dirs_quiet_db w); auto].
    destruct (db_state (w_db w)) as [st|] eqn:Hst; simpl; [|by apply (dirs_quiet_db w); auto].
    by apply (new_tx_dirs (set_db_rwlock true (w_db w)) true st w).
  - unfold Begin, beginTx, st_bind, get_db, st_gets, upd_db, st_modify. simpl.
    destruct (db_opened (w_db w)); [|done]. simpl. destruct (db_state (w_db w)) as [st|] eqn:Hst; [|done].
    pose proof (new_tx_dirs (w_db w) false st w Hd Hst Hst) as Hn. simpl.
    eapply (dirs_quiet_db _ _ Hn); [done|done|]. left. simpl. by destruct (db_stats (w_db w)).
Qed.

Lemma Commit_dirs it fuel rt sp t w : fair it → sane w → dirs w → dirs (Commit it fuel rt sp t w).2.
Proof.
  intros Hf Hs Hd. destruct (Commit_split it fuel rt sp t w Hf Hs) as [[He _]|(tx & w1 & Htx & Hdb & He & Hrun)].
  { by eapply dirs_evo. }
  rewrite Hrun. pose proof (sane_evo _ _ Hs He) as Hs1. pose proof (dirs_evo _ _ He Hd) as Hd1.
  destruct (commit_tail it t tx w1) as [r w2] eqn:Hr.
  destruct (commit_tail_dir it t tx w1 r w2 Hf Hs1 Hd1) as (st & st' & _ & _ & Hst & Hpd & Htxs & Hb & _); [|done|done|].
  { eapply strip_lookup; [|exact Htx]. apply (e_txs _ _ He). }
  split; simpl.
  - intros u y Hy Hyd. destruct (Htxs _ _ Hy Hyd) as [Hne Hy1]. destruct (dv_tx _ Hd1 _ _ Hy1 Hyd) as (st0 & ? & ? & Hh).
    exists st0. split_and!; [done|done|]. intros n b (x & Hx & Hxt & Hxn & Hxr)%Hh. exists x.
    split_and!; [apply Hb; [done|congruence]|done..].
  - intros st0 Hst0. rewrite Hst in Hst0. injection Hst0 as <-. apply Hpd.
Qed.

Lemma step_dirs w w' : sane w → dirs w → step w w' → dirs w'.
Proof.
  intros Hs Hd [c Hf]. destruct (data_call c) eqn:Hc; [by eapply dirs_evo; [apply data_call_evo|]|].
  destruct c; try done; simpl; rewrite ?ignore_state.
  - by apply Begin_dirs.
  - by apply Tx_Bucket_dirs.
  - by apply CreateBucket_dirs.
  - destruct (can_write w t) eqn:Hcw; [|unfold CreateBucketIfNotExists; by rewrite guarded_same].
    destruct (can_write_true _ _ Hcw) as (tx & Ht & Hdb & Hw). unfold CreateBucketIfNotExists.
    rewrite (bind_Ret _ _ _ _ _ (get_tx_run _ _ _ Ht)), Hdb, Hw. simpl. destruct (length name =? 0); [done|].
    pose proof (Tx_Bucket_dirs t name w Hs Hd) as Hd1. pose proof (q_sane _ _ (proj1 (Tx_Bucket_q t name w Hs))) as Hs1.
    unfold st_bind. destruct (Tx_Bucket t name w) as [[[b|]| | |] w1]; try done. by apply CreateBucket_dirs.
  - by apply DeleteBucket_dirs.
  - by apply upd_tx_dirs.
  - by apply upd_tx_dirs.
  - by apply Commit_dirs.
  - unfold Rollback. destruct (w_txs w !! t) as [tx|] eqn:Ht.
    2:{ unfold get_tx, st_bind, st_get, st_deref. by rewrite Ht. }
    rewrite (bind_Ret _ _ _ _ _ (get_tx_run _ _ _ Ht)). destruct (negb (t_managed tx)); [|done].
    rewrite (bind_Ret (Assert true) _ w tt w eq_refl). destruct (t_db tx); [|done]. simpl.
    pose proof (rollback_dirs t w Hd). unfold st_bind. by destruct (rollback t w) as [[]].
  - by apply rollback_dirs.
  - unfold DB_Close, DB_close, lock, unlock, st_bind, get_db, st_gets, upd_db, st_modify. simpl.
    destruct (db_rwlock (w_db w)); [done|]. simpl.
    destruct (db_opened (w_db w)); simpl; apply (dirs_quiet_db w); simpl; auto.
Qed.

Lemma open_dirs o : dirs (open_mem o empty_world).2.
Proof.
  split.
  - intros t tx. by destruct o as [[[] []]|].
  - intros st. assert (db_state (w_db (open_mem o empty_world).2) = Some (mkDbState ∅)) as ->
      by (by destruct o as [[[] []]|]).
    intros [= <-] n bs. simpl. by rewrite lookup_empty.
Qed.

Lemma reachable_inv w : reachable w → sane w ∧ dirs w.
Proof.
  intros (o & Hr). cut (∀ w0, rtc step w0 w → sane w0 → dirs w0 → sane w ∧ dirs w).
  { intros H. apply (H _ Hr); [apply open_sane|apply open_dirs]. }
  clear o Hr. intros w0 Hr. induction Hr as [w|w w1 w2 H1 _ IH]; intros Hs Hd; [done|].
  apply IH; [by eapply step_keeps|by eapply step_dirs].
Qed.

(** C14. In every reachable state, the directory of each open transaction is
    consistent: created and deleted names are disjoint, every cached handle
    belongs to this transaction and to a visible bucket of that name, created
    buckets have their own root, and no committed bucket is nil. *)
Theorem reachable_directories w : reachable w →
  (∀ t tx, w_txs w !! t = Some tx → t_db tx = true → tx_dir w t tx) ∧
  (∀ st, db_state (w_db w) = Some st → no_nil st).
Proof. intros [_ [H1 H2]]%reachable_inv. by split. Qed.

Lemma reachable_directories_witness : no_nil (mkDbState {[ [x6e] := Some (mkBucketState (Some 1%positive)) ]}).
Proof.
  destruct (reachable_directories ex_w0 ex_reachable) as [_ H]. apply H. vm_compute. reflexivity.
Defined.

(** What a commit that returns nil leaves. *)
Lemma Commit_dir it fuel rt sp t w w' :
  sane w → dirs w → fair it → Commit it fuel rt sp t w = (Ret None, w') →
  ∃ tx st st', w_txs w !! t = Some tx ∧ t_base tx = Some st ∧
    db_state (w_db w') = Some st' ∧ dom (ds_buckets st') = visible tx ∧
    (∀ n, n ∈ visible tx → t_bctx tx !! n = None → ds_buckets st' !! n = ds_buckets st !! n) ∧
    (∀ tx', w_txs w' !! t = Some tx' → t_db tx' = false) ∧
    (t_writable tx = true → db_rwlock (w_db w') = false) ∧
    w_fired w' = w_fired w ++ t_commitHandlers tx.
Proof.
  intros Hs Hd Hf Hrun.
  destruct (Commit_split it fuel rt sp t w Hf Hs) as [[_ Hne]|(tx & w1 & Htx & Hdb & He & Hr)].
  { rewrite Hrun in Hne. by destruct Hne. }
  rewrite Hrun in Hr. pose proof (sane_evo _ _ Hs He) as Hs1. pose proof (dirs_evo _ _ He Hd) as Hd1.
  destruct (strip_lookup _ _ _ _ (e_txs _ _ He) Htx) as (tx1 & Htx1 & Hst1).
  destruct (commit_tail_dir it t tx w1 (Ret None) w' Hf Hs1 Hd1) as (st & st' & Hba & _ & Hst' & Hpd & Htxs & _ & Hfd); [by eauto|done|done|].
  exists tx, st, st'. split_and!; [done|done|done|apply Hpd|apply Hpd| | |].
  - intros tx' Htx'. destruct (t_db tx') eqn:E; [|done]. by destruct (Htxs _ _ Htx' E).
  - intros Hw. destruct (db_rwlock (w_db w')) eqn:Hl; [|done].
    destruct (commit_finish it t tx w1 Hf Hs1) as [Hs2 _ _ _ _]; [by eauto|done|]. rewrite <- Hr in Hs2. simpl in Hs2.
    destruct (proj1 (lk_held _ _ (sn_lock _ Hs2)) Hl) as (u & y & Hy & Hyw).
    apply andb_true_iff in Hyw as [Hyw Hyd]. destruct (Htxs _ _ Hy Hyd) as [Hut Hy1]. destruct Hut.
    apply (lk_one _ _ (sn_lock _ Hs1)); [by exists y; rewrite Hyw, Hyd|].
    destruct (strip_fields _ _ Hst1) as (Hw1 & Hdb1 & _). exists tx1. split; [done|]. by rewrite Hw1, Hdb1, Hw, Hdb.
  - rewrite Hfd. f_equal. apply (e_rest _ _ He).
Qed.

(** A bucket that has been written gets a state of its own: the root of its handle,
    which is no node of an earlier state. *)
Lemma Commit_renews it fuel rt sp t w w' tx st n b x :
  sane w → dirs w → fair it → Commit it fuel rt sp t w = (Ret None, w') → w_txs w !! t = Some tx → st_frozen w st →
  t_bctx tx !! n = Some b → w_bkts w !! b = Some x → is_Some (b_rootNode x) →
  ∃ st' r, db_state (w_db w') = Some st' ∧ ds_buckets st' !! n = Some (Some (mkBucketState (Some r))) ∧
    ∀ m bs, ds_buckets st !! m = Some (Some bs) → bs_root bs ≠ Some r.
Proof.
  intros Hs Hd Hf Hrun Htx Hfr Hb Hx Hroot. destruct (Commit_split it fuel rt sp t w Hf Hs) as [[_ Hne]|(tx0 & w1 & Htx0 & Hdb & He & Hr)].
  { rewrite Hrun in Hne. by destruct Hne. }
  simplify_eq. rewrite Hrun in Hr. pose proof (sane_evo _ _ Hs He) as Hs1. pose proof (strip_lookup _ _ _ _ (e_txs _ _ He) Htx) as Htx1.
  destruct (commit_tail_dir it t tx w1 (Ret None) w' Hf Hs1 (dirs_evo _ _ He Hd) Htx1 Hdb) as (st0 & st' & _ & _ & Hst' & Hpd & _); [done|].
  destruct (e_bkts _ _ He _ _ Hx) as (x' & Hx' & _ & _ & _ & _ & Hroot'). destruct (Hroot' Hroot) as [r Hrx].
  exists st', r. split_and!; [done| |].
  - rewrite (pd_opened _ _ _ _ Hpd _ _ Hb). unfold publish_st. by rewrite Hx', Hrx.
  - intros m bs Hm Hbr. destruct (Hfr _ _ _ Hm Hbr) as (nd & Hn & Hnb). apply (e_frozen _ _ He) in Hn; [|done].
    destruct (s_dirty _ (sn_core _ Hs1) _ _ (s_root _ (sn_core _ Hs1) _ _ _ Hx' Hrx)) as (nd' & ? & ?). congruence.
Qed.

(** C11. A commit that returns nil publishes exactly the names its transaction
    sees; a bucket the transaction did not open keeps its committed state; the
    transaction is closed, the writer lock is free, and the commit handlers have
    run once each, in the order they were registered. *)
Theorem Commit_publishes it fuel rt sp t w w' :
  reachable w → fair it → Commit it fuel rt sp t w = (Ret None, w') →
  ∃ tx st st', w_txs w !! t = Some tx ∧ t_base tx = Some st ∧
    db_state (w_db w') = Some st' ∧ dom (ds_buckets st') = visible tx ∧
    (∀ n, n ∈ visible tx → t_bctx tx !! n = None → ds_buckets st' !! n = ds_buckets st !! n) ∧
    (∀ tx', w_txs w' !! t = Some tx' → t_db tx' = false) ∧
    (t_writable tx = true → db_rwlock (w_db w') = false) ∧
    w_fired w' = w_fired w ++ t_commitHandlers tx.
Proof. intros [Hs Hd]%reachable_inv. by apply Commit_dir. Qed.

Lemma Commit_publishes_witness :
  ∃ w' st', Commit std_iteration 9 0 0 3 ex_before = (Ret None, w') ∧ db_state (w_db w') = Some st' ∧
    dom (ds_buckets st') = {[ [x6e] ]} ∧ db_rwlock (w_db w') = false.
Proof.
  assert (Hr : (Commit std_iteration 9 0 0 3 ex_before).1 = Ret None) by (vm_compute; reflexivity).
  set (w' := (Commit std_iteration 9 0 0 3 ex_before).2).
  assert (E : Commit std_iteration 9 0 0 3 ex_before = (Ret None, w')) by (rewrite <- Hr; apply surjective_pairing).
  clearbody w'. assert (Hreach : reachable ex_before).
  { destruct ex_reachable as [o Ho]. exists o. eapply (transitivity Ho), run_calls_steps. repeat constructor. }
  destruct (Commit_publishes std_iteration 9 0 0 3 ex_before w' Hreach std_iteration_fair E)
    as (tx & st & st' & Htx & Hba & Hst' & Hdom & _ & _ & Hl & _).
  exists w', st'. split; [exact E|]. split; [exact Hst'|].
  assert (Hv : visible <$> w_txs ex_before !! 3%positive = Some {[ [x6e] ]}) by (vm_compute; reflexivity).
  assert (Hw : t_writable <$> w_txs ex_before !! 3%positive = Some true) by (vm_compute; reflexivity).
  rewrite Htx in Hv, Hw. split; [rewrite Hdom; by injection Hv|apply Hl; by injection Hw].
Defined.

(** ** Instances of the directory theorems on the example *)

Definition ex_st : dbState := mkDbState {[ [x6e] := Some (mkBucketState (Some 1%positive)) ]}.
Definition ex_tx3 : Tx := mkTx true false true (Some ex_st) ∅ ∅ ∅ TxStats_zero [].
Definition ex_wr : world := run_calls [CBegin true] ex_w0.

Lemma ex_wr_inv : sane ex_wr ∧ dirs ex_wr.
Proof.
  apply reachable_inv. destruct ex_reachable as [o Ho]. exists o. eapply (transitivity Ho), run_calls_steps.
  repeat constructor.
Qed.

Lemma ex_wr_open : open_tx ex_wr 3 ex_tx3 ex_st.
Proof.
  assert (Ht : w_txs ex_wr !! 3%positive = Some ex_tx3) by (vm_compute; reflexivity).
  destruct (dv_tx _ (proj2 ex_wr_inv) _ _ Ht eq_refl) as (st & [= <-] & Hok & _). by split.
Qed.

Lemma ex_vis : [x6e] ∈ visible ex_tx3.
Proof. apply (bool_decide_unpack _). vm_compute. exact I. Qed.
Lemma ex_invis : [x6f] ∉ visible ex_tx3.
Proof. apply (bool_decide_unpack _). vm_compute. exact I. Qed.

Lemma CreateBucket_correct_witness :
  CreateBucket 3 [x6e] ex_wr = (Ret (inl ErrBucketExists), ex_wr) ∧
  ∃ b w', CreateBucket 3 [x6f] ex_wr = (Ret (inr b), w') ∧ ∃ x D T, bview w' b x D T ∧ contents T = [].
Proof.
  split.
  - pose proof (CreateBucket_correct ex_wr 3 ex_tx3 ex_st [x6e] (proj1 ex_wr_inv) ex_wr_open eq_refl ltac:(discriminate)) as H.
    rewrite decide_True in H by apply ex_vis. exact H.
  - pose proof (CreateBucket_correct ex_wr 3 ex_tx3 ex_st [x6f] (proj1 ex_wr_inv) ex_wr_open eq_refl ltac:(discriminate)) as H.
    rewrite decide_False in H by apply ex_invis. destruct H as (b & w' & tx' & H1 & _ & _ & _ & H2). eauto.
Defined.

Lemma DeleteBucket_correct_witness :
  DeleteBucket 3 [x6f] ex_wr = (Ret (Some ErrBucketNotFound), ex_wr) ∧
  ∃ w' tx', DeleteBucket 3 [x6e] ex_wr = (Ret None, w') ∧ open_tx w' 3 tx' ex_st ∧ visible tx' = ∅.
Proof.
  split.
  - pose proof (DeleteBucket_correct ex_wr 3 ex_tx3 ex_st [x6f] ex_wr_open eq_refl) as H.
    rewrite decide_False in H; [apply H; intros [H0 _]; exact (not_elem_of_empty _ H0)|]. apply (bool_decide_unpack _). vm_compute. exact I.
  - pose proof (DeleteBucket_correct ex_wr 3 ex_tx3 ex_st [x6e] ex_wr_open eq_refl
      ltac:(intros [H0 _]; exact (not_elem_of_empty _ H0))) as H.
    rewrite decide_True in H by (right; vm_compute; eauto). destruct H as (w' & tx' & H1 & H2 & H3).
    exists w', tx'. split; [exact H1|]. split; [exact H2|]. rewrite H3. vm_compute. reflexivity.
Defined.

Lemma Bucket_correct_witness :
  ∃ b w' x D, Tx_Bucket 3 [x6e] ex_wr = (Ret (Some b), w') ∧ bview w' b x D ex_view.
Proof.
  destruct (Bucket_correct ex_wr 3 ex_tx3 ex_st [x6e] (proj1 ex_wr_inv) ex_wr_open)
    as (ob & w' & tx' & Hrun & _ & _ & Hiff & _ & Hview).
  destruct (proj2 Hiff ex_vis) as [b ->].
  destruct (Hview b (mkBucketState (Some 1%positive)) ex_view) as (x & _ & HD); try reflexivity.
  - eexists. split; [vm_compute; reflexivity|]. split; reflexivity.
  - apply (rd_wf _ _ _ _ ex_reader_view).
  - apply NoDup_singleton.
  - destruct (HD eq_refl) as [D HD']. exists b, w', x, D. split; [exact Hrun|exact HD'].
Defined.

Lemma listing_correct_witness : Tx_Cursor 3 ex_wr = (Ret (mkCursor None [] [[x6e]] (-1)), ex_wr).
Proof.
  destruct (listing_correct ex_wr 3 ex_tx3 ex_st (λ _ _ _, st_ret (tt, None)) tt ex_wr_open) as (H & _). exact H.
Defined.

(** The defect of [DeleteBucket], reached by API calls: delete, create, delete. *)
Definition ex_wd : world := run_calls [CBegin true; CDeleteBucket 3 [x6e]; CCreateBucket 3 [x6e]] ex_w0.

Lemma DeleteBucket_resurrects_witness :
  ∃ w' tx', DeleteBucket 3 [x6e] ex_wd = (Ret None, w') ∧ open_tx w' 3 tx' ex_st ∧ [x6e] ∈ visible tx'.
Proof.
  assert (Hinv : sane ex_wd ∧ dirs ex_wd).
  { apply reachable_inv. destruct ex_reachable as [o Ho]. exists o. eapply (transitivity Ho), run_calls_steps.
    repeat constructor. }
  assert (Hopen : (λ y, (t_db y, t_writable y, bool_decide ([x6e] ∈ t_created y), t_base y)) <$> w_txs ex_wd !! 3%positive
    = Some (true, true, true, Some ex_st)) by (vm_compute; reflexivity).
  destruct (w_txs ex_wd !! 3%positive) as [tx|] eqn:Htx; [|discriminate Hopen].
  injection Hopen as Hdb Hw Hcr%bool_decide_eq_true Hba.
  destruct (dv_tx _ (proj2 Hinv) _ _ Htx Hdb) as (st & Hst & Hok & _). rewrite Hba in Hst. injection Hst as <-.
  destruct (DeleteBucket_resurrects ex_wd 3 tx ex_st [x6e]) as (w' & tx' & H1 & H2 & _ & H3 & _).
  - by split.
  - exact Hw.
  - exact Hcr.
  - eexists. reflexivity.
  - exists w', tx'. split; [exact H1|]. split; [exact H2|exact H3].
Defined.
