(* ===== verification/LeafBucket.v ===== *)
(** * Buckets whose tree is a single leaf

    A bucket that was created in this transaction, or whose committed tree is one
    leaf, keeps a single-leaf tree until the commit splits it, however much is
    put into it.  [acts] says that a call touched one handle only. *)
From S2P Require Import Prelude GoSort Stats World Node KV Tree TreePath Cursor CursorSpec Cow Bucket Spill Tx DB.
From S2P Require Import CowSpec BucketSpec Frame FrameSpill Publish Isolation TxSpec.
Local Open Scope st_scope.

(** ** Calls on one handle *)

Record acts (b : bid) (w w' : world) : Prop := mkActs {
  a_evo : evo w w';
  a_nodes : ∀ l n, w_nodes w !! l = Some n → n_bucket n ≠ Some b → w_nodes w' !! l = Some n;
  a_bkts : ∀ b', b' ≠ b → w_bkts w' !! b' = w_bkts w !! b'
}.

Lemma acts_refl b w : core w → acts b w w.
Proof. intros Hc. split; auto using evo_refl. Qed.

Lemma acts_trans b w1 w2 w3 : acts b w1 w2 → acts b w2 w3 → acts b w1 w3.
Proof.
  intros [He1 Hn1 Hb1] [He2 Hn2 Hb2]. split; [by eapply evo_trans|auto|]. intros b' Hne. by rewrite Hb2, Hb1.
Qed.

Lemma cow_acts b L w w' x D D' :
  core w → w_bkts w !! b = Some x → b_dirty x = Some D → evo w w' → cow b L w w' D D' → acts b w w'.
Proof.
  intros Hc Hx HD He Hcow. split; [done| |apply (cow_bkts _ _ _ _ _ _ Hcow)]. intros l n Hl Hb.
  rewrite (cow_frame _ _ _ _ _ _ Hcow); [done|by eapply s_fresh_n|]. left. intros HlD.
  destruct (s_dirty _ Hc b l) as (n' & Hn' & ?); [by exists x, D|]. congruence.
Qed.

(** The nodes of a handle's tree are frozen or its own. *)
Lemma tree_ptrs w b T : core w → rep (w_nodes w) T → ptr_ok w b (tloc T) → ∀ l, l ∈ tlocs T → ptr_ok w b l.
Proof.
  intros Hc. induction T as [l kvs|l cs IH] using tree_nested_ind; intros Hrep Hroot l' Hl'.
  { apply list_elem_of_singleton in Hl' as ->. done. }
  rewrite tlocs_Branch in Hl'. apply elem_of_cons in Hl' as [->|Hl']; [done|].
  apply elem_of_clocs in Hl' as (k & c & Hkc & Hl'). apply rep_Branch in Hrep as [(n & Hn & _ & Hi) Hall].
  rewrite Forall_forall in IH. rewrite Forall_forall in Hall. apply (IH (k, c) Hkc (Hall _ Hkc)); [|done].
  assert (Hin : branch_inode (k, c) ∈ n_inodes n) by (rewrite Hi; by apply list_elem_of_fmap_2).
  simpl. destruct Hroot as [(m & Hm & Hb)|(m & Hm & Hb)%(s_dirty _ Hc)]; simpl in Hm; simplify_eq.
  - left. by eapply s_closed.
  - by eapply (s_child _ Hc).
Qed.

(** The tree below a frozen root is frozen. *)
Lemma frozen_tree w T : core w → rep (w_nodes w) T → frozen w (tloc T) → ∀ l, l ∈ tlocs T → frozen w l.
Proof.
  intros Hc. induction T as [l kvs|l cs IH] using tree_nested_ind; intros Hrep Hroot l' Hl'.
  { apply list_elem_of_singleton in Hl' as ->. done. }
  rewrite tlocs_Branch in Hl'. apply elem_of_cons in Hl' as [->|Hl']; [done|].
  apply elem_of_clocs in Hl' as (k & c & Hkc & Hl'). apply rep_Branch in Hrep as [(n & Hn & _ & Hi) Hall].
  rewrite Forall_forall in IH. rewrite Forall_forall in Hall. apply (IH (k, c) Hkc (Hall _ Hkc)); [|done].
  destruct Hroot as (m & Hm & Hb). simpl in Hm. simplify_eq. eapply (s_closed _ Hc l n (branch_inode (k, c))); [exact Hn|done| |done].
  rewrite Hi. by apply (list_elem_of_fmap_2 branch_inode) in Hkc.
Qed.

Lemma readable_ptr w b x T : core w → readable w b x T → ptr_ok w b (tloc T).
Proof.
  intros Hc [Hx [tx Htx] Hr _ _]. unfold rootView in Hr. destruct (b_rootNode x) as [r|] eqn:Hbr.
  - injection Hr as ->. right. by eapply s_root.
  - destruct (baseState w x) as [bs|] eqn:Hbs; [|done]. left. by eapply baseState_frozen.
Qed.

Lemma acts_node b b' w w' l : core w → acts b' w w' → b ≠ b' → ptr_ok w b l → w_nodes w' !! l = w_nodes w !! l.
Proof.
  intros Hc Ha Hne [(n & Hn & Hb)|(n & Hn & Hb)%(s_dirty _ Hc)]; rewrite Hn; apply (a_nodes _ _ _ Ha _ _ Hn); congruence.
Qed.

Lemma readable_acts b b' w w' x T : core w → acts b' w w' → b ≠ b' → readable w b x T → readable w' b x T.
Proof.
  intros Hc Ha Hne Hr. pose proof (readable_ptr _ _ _ _ Hc Hr) as Hp. destruct Hr as [Hx [tx Htx] Hroot Hrep Hwf].
  pose proof (e_txs _ _ (a_evo _ _ _ Ha)) as Ht. split; [by rewrite (a_bkts _ _ _ Ha)| | | |done].
  - destruct (strip_lookup _ _ _ _ Ht Htx) as (? & ? & _). eauto.
  - by rewrite (rootView_strip _ _ _ Ht).
  - eapply rep_frame; [|exact Hrep]. intros l Hl. eapply (acts_node b b'); [done|done|done|]. by eapply tree_ptrs.
Qed.

(** The transaction of a handle stays open and writable. *)
Definition writing (w : world) (x : Bucket) : Prop :=
  ∀ tx, w_txs w !! b_tx x = Some tx → t_db tx = true ∧ t_writable tx = true.

Lemma writing_strip w w' x : strip <$> w_txs w' = strip <$> w_txs w → writing w x → writing w' x.
Proof.
  intros Ht Hw tx' Htx'. destruct (strip_lookup _ _ _ _ (eq_sym Ht) Htx') as (tx & Htx & Hs).
  destruct (Hw tx Htx). destruct (strip_fields _ _ Hs) as (<- & <- & _). done.
Qed.

(** ** Single-leaf buckets *)

(** The handle [b] shows the leaf [l] with the pairs [kvs]: the committed leaf, or
    the transaction's own copy, which has not been finalized. *)
Record leafy (w : world) (b : bid) (x : Bucket) (l : loc) (kvs : list kv) : Prop := mkLeafy {
  ly_read : readable w b x (Leaf l kvs);
  ly_open : writing w x;
  ly_root : match b_rootNode x with
            | None => b_dirty x = Some ∅
            | Some _ => b_dirty x = Some {[l]} ∧
                ∃ n, w_nodes w !! l = Some n ∧ n_parent n = None ∧ n_spilled n = false
            end
}.

Lemma leafy_dirty w b x l kvs : leafy w b x l kvs → is_Some (b_dirty x).
Proof. intros [_ _ H]. destruct (b_rootNode x); [destruct H as [-> _]|rewrite H]; eauto. Qed.

Lemma leafy_acts b b' w w' x l kvs : core w → acts b' w w' → b ≠ b' → leafy w b x l kvs → leafy w' b x l kvs.
Proof.
  intros Hc Ha Hne [Hr Ho Hroot]. split; [by eapply readable_acts|eapply writing_strip; [apply Ha|done]|].
  destruct (b_rootNode x); [|done]. destruct Hroot as [HD Hn]. split; [done|].
  rewrite (acts_node b b' w w' l Hc Ha Hne); [done|]. exact (readable_ptr _ _ _ _ Hc Hr).
Qed.

Lemma leafy_bview w b x l kvs : core w → leafy w b x l kvs → ∃ D, bview w b x D (Leaf l kvs) ∧ b_dirty x = Some D.
Proof.
  intros Hc Hl. destruct (leafy_dirty _ _ _ _ _ Hl) as [D HD]. destruct Hl as [Hr Ho Hroot]. exists D. split; [|done].
  split; [done|eapply owner_core; [done|apply Hr|done]|done| |apply NoDup_singleton].
  intros r Hbr. rewrite Hbr in Hroot. destruct Hroot as [HD' _]. simplify_eq.
  pose proof (rd_root _ _ _ _ Hr) as Hrv. unfold rootView in Hrv. rewrite Hbr in Hrv. simplify_eq/=. set_solver.
Qed.

(** Editing the leaf through [Cursor.node]. *)
Lemma leafy_edit w b x l kvs i (op : loc → M unit) (f : node → node) (g : list kv → list kv) :
  core w → leafy w b x l kvs →
  (∀ l n w, w_nodes w !! l = Some n → op l w = (Ret tt, set_nodes (<[l := f n]> (w_nodes w)) w)) →
  (∀ n, n_parent (f n) = n_parent n ∧ n_spilled (f n) = n_spilled n) →
  (∀ n, leaf_node kvs n → leaf_node (g kvs) (f n)) → wf (Leaf l (g kvs)) →
  ∃ w' x' l', (let! n := Cursor_node b [mkRef (Some l) i] in op n) w = (Ret tt, w') ∧ leafy w' b x' l' (g kvs) ∧
    b_tx x' = b_tx x ∧ b_name x' = b_name x.
Proof.
  intros Hc Hl Hop Hf Hg Hwf. pose proof Hl as [Hr Ho Hroot]. pose proof Hr as [Hx [tx Htx] Hrv (n & Hn & Hleaf) _].
  rewrite (bind_Ret _ _ w (match b_rootNode x with Some _ => l | None => w_nextn w end)
    (match b_rootNode x with Some _ => w | None => set_bkts (<[b := set_b_rootNode (Some (w_nextn w)) (set_b_dirty (Some {[w_nextn w]}) x)]> (w_bkts w))
       (new_node (mkNode (Some b) (n_isLeaf n) false false (n_key n) None (n_inodes n)) w).2 end)).
  - destruct (b_rootNode x) as [r|] eqn:Hbr.
    + assert (r = l) as -> by (unfold rootView in Hrv; rewrite Hbr in Hrv; by simplify_eq/=).
      destruct Hroot as (HD & n' & Hn' & Hpar & Hsp). assert (n' = n) as -> by congruence. eexists _, x, l. split; [by apply Hop|]. split; [|done].
      split; [split| |]; auto.
      * simpl. eexists. rewrite lookup_insert_eq. split; [done|by apply Hg].
      * rewrite Hbr. split; [done|]. eexists. simpl. rewrite lookup_insert_eq. split; [done|].
        by destruct (Hf n) as [-> ->].
    + eexists _, (set_b_rootNode (Some (w_nextn w)) (set_b_dirty (Some {[w_nextn w]}) x)), (w_nextn w). split; [by apply Hop; simpl; apply lookup_insert_eq|]. split; [|done].
      split; [split| |]; simpl; eauto.
      * apply lookup_insert_eq.
      * eexists. rewrite lookup_insert_eq. split; [done|]. apply Hg. done.
      * split; [done|]. eexists. rewrite lookup_insert_eq. split; [done|]. by match goal with |- context [f ?m] => destruct (Hf m) as [-> ->] end.
  - unfold Cursor_node. rewrite (bind_Ret (Assert (0 <? length [mkRef (Some l) i])) _ w tt w eq_refl).
    match goal with |- _ = (Ret ?a, ?w1) => cut (writableRoot b w = (Ret a, w1) ∧ ∃ m, w_nodes w1 !! a = Some m ∧ n_isLeaf m = true) end.
    { intros (Hrun & m & Hm & Hml). rewrite (bind_Ret _ _ _ _ _ Hrun). cbn [tail]. change (reverse []) with (@nil elemRef).
      cbn [cow_path]. erewrite (bind_Ret (st_ret _)) by reflexivity. rewrite (bind_Ret _ _ _ _ _ (get_node_run _ _ _ Hm)), Hml.
      done. }
    unfold writableRoot. rewrite (bind_Ret _ _ _ _ _ (get_bkt_run _ _ _ Hx)). unfold rootView in Hrv.
    destruct (b_rootNode x) as [r|] eqn:Hbr.
    + injection Hrv as ->. split; [done|]. exists n. split; [done|apply Hleaf].
    + rewrite (bind_Ret st_get _ w w w eq_refl). destruct (baseState w x) as [[[r|]]|]; try done. simpl in Hrv. injection Hrv as ->.
      split; [|eexists; simpl; rewrite lookup_insert_eq; split; [done|apply Hleaf]].
      rewrite (bind_Ret (copyNode b l) _ w (w_nextn w) (new_node (mkNode (Some b) (n_isLeaf n) false false (n_key n) None (n_inodes n)) w).2).
      2:{ unfold copyNode. by rewrite (bind_Ret _ _ _ _ _ (get_node_run _ _ _ Hn)). }
      simpl. erewrite bind_Ret by (eapply mark_dirty_run; [simpl; exact Hx|exact Hroot]).
      erewrite bind_Ret by (apply upd_bkt_run; simpl; apply lookup_insert_eq). unfold st_ret, set_bkts. simpl.
      rewrite insert_insert_eq. by rewrite union_empty_r_L.
Qed.

Lemma leafy_strip w w' b x l kvs :
  w_nodes w' = w_nodes w → w_bkts w' = w_bkts w → strip <$> w_txs w' = strip <$> w_txs w →
  leafy w b x l kvs → leafy w' b x l kvs.
Proof.
  intros Hn Hb Ht [[Hx [tx Htx] Hrv Hrep Hwf] Ho Hroot]. split; [split|by eapply writing_strip|by rewrite Hn].
  - by rewrite Hb.
  - destruct (strip_lookup _ _ _ _ Ht Htx) as (? & ? & _). eauto.
  - by rewrite (rootView_strip _ _ _ Ht).
  - by rewrite Hn.
  - done.
Qed.

Lemma found_leaf l kvs key s r : found (Leaf l kvs) key s r → ∃ i, s = [mkRef (Some l) i].
Proof.
  intros (l' & kvs' & _ & (i & s' & -> & _ & Hat & _) & _). destruct s' as [|e s'].
  - simpl in Hat. simplify_eq. eauto.
  - exfalso. assert (path_of (e :: s') ≠ []) as Hne.
    { intros Hp%(f_equal length). unfold path_of in Hp. rewrite length_reverse, length_fmap in Hp. done. }
    by destruct (path_of (e :: s')).
Qed.

Lemma Put_acts fuel w b x D T key value w' :
  sane w → bview w b x D T → b_dirty x = Some D → tsize T ≤ fuel →
  (0 < blen key ≤ MaxKeySize)%Z → (blen value ≤ MaxValueSize)%Z → Put fuel b key value w = (Ret None, w') → acts b w w'.
Proof.
  intros Hs Hv HD Hf Hk Hval Hrun. destruct (Put_run fuel b key value w x D T Hv Hf Hk Hval) as (w1 & T' & Hrun1 & [(x' & D' & _ & Hcow & _) _ _] & _).
  assert (w1 = w') as -> by congruence. pose proof (proj1 (Put_safe fuel b key value w Hs)) as He. rewrite Hrun in He.
  eapply cow_acts; [apply Hs|apply Hv|exact HD|exact He|exact Hcow].
Qed.

Lemma Put_leafy fuel w b x l kvs key value :
  sane w → leafy w b x l kvs → 1 ≤ fuel → (0 < blen key ≤ MaxKeySize)%Z → (blen value ≤ MaxValueSize)%Z →
  ∃ w' x' l', Put fuel b key value w = (Ret None, w') ∧ leafy w' b x' l' (kv_insert key value kvs) ∧ acts b w w' ∧
    b_tx x' = b_tx x ∧ b_name x' = b_name x.
Proof.
  intros Hs Hl Hf Hk Hval. pose proof (sn_core _ Hs) as Hc. destruct (leafy_bview _ _ _ _ _ Hc Hl) as (D & Hv & HD).
  pose proof Hl as [[Hx [tx Htx] _ _ [Hsort Hne]] Hopen _]. destruct (Hopen tx Htx) as [Hdb Hwr].
  pose proof (count_cursor_cow b _ _ _ ∅ Htx) as Hcc. set (w1 := count_cursor (b_tx x) tx w) in *.
  assert (Hl1 : leafy w1 b x l kvs) by (eapply leafy_strip; [..|exact Hl]; [done|done|apply Hcc]).
  pose proof (write_seek fuel b key w x D _ tx Hv Htx Hf) as (r & s & Hw & Hfd). destruct (found_leaf _ _ _ _ _ Hfd) as [i ->].
  assert (Hk0 : key ≠ []) by (apply blen_pos; lia).
  assert (Hc1 : core w1).
  { apply (safe_tx_stat w (b_tx x) (IncCursorCount 1)) in Hc as [He _]. unfold tx_stat in He. rewrite (upd_tx_run _ _ _ _ Htx) in He. apply He. }
  destruct (leafy_edit w1 b x l kvs i (λ n, put_at n key key (Some value) None 0)
    (λ n, set_n_inodes (inodes_put key key (Some value) None 0 (n_inodes n)) n) (kv_insert key value) Hc1 Hl1)
    as (w' & x' & l' & Hrun & Hl' & Htx' & Hnm').
  { intros. by apply put_at_run. } { done. }
  { intros n [Hlf Hi]. split; [done|]. simpl. by rewrite Hi, inodes_put_leaf. }
  { split; [by apply kv_insert_sorted|]. rewrite Forall_forall in Hne. rewrite Forall_forall. intros y [->|?]%elem_of_keys_insert; auto. }
  assert (HP : Put fuel b key value w = (Ret None, w')).
  { unfold Put. rewrite (bind_Ret _ _ _ _ _ (get_bkt_run _ _ _ Hx)), (bind_Ret _ _ _ _ _ (get_tx_run _ _ _ Htx)), Hdb, Hwr.
    change (negb true) with false. cbv iota. destruct (Z.eqb_spec (blen key) 0); [lia|].
    destruct (Z.ltb_spec MaxKeySize (blen key)); [lia|]. destruct (Z.ltb_spec MaxValueSize (blen value)); [lia|].
    rewrite (bind_Ret _ _ _ _ _ (Bucket_Cursor_run _ _ _ _ Hx Htx)), (bind_Ret _ _ _ _ _ Hw). by rewrite (bind_then _ _ _ _ _ _ Hrun). }
  exists w', x', l'. split_and!; auto. by eapply Put_acts.
Qed.

Lemma Delete_leafy fuel w b x l kvs key :
  sane w → leafy w b x l kvs → 1 ≤ fuel →
  ∃ w' x' l', Delete fuel b key w = (Ret None, w') ∧ leafy w' b x' l' (kv_delete key kvs) ∧ acts b w w' ∧
    b_tx x' = b_tx x ∧ b_name x' = b_name x.
Proof.
  intros Hs Hl Hf. pose proof (sn_core _ Hs) as Hc. destruct (leafy_bview _ _ _ _ _ Hc Hl) as (D & Hv & HD).
  pose proof Hl as [[Hx [tx Htx] _ _ [Hsort Hne]] Hopen _]. destruct (Hopen tx Htx) as [Hdb Hwr].
  pose proof (count_cursor_cow b _ _ _ ∅ Htx) as Hcc. set (w1 := count_cursor (b_tx x) tx w) in *.
  assert (Hl1 : leafy w1 b x l kvs) by (eapply leafy_strip; [..|exact Hl]; [done|done|apply Hcc]).
  pose proof (write_seek fuel b key w x D _ tx Hv Htx Hf) as (r & s & Hw & Hfd). destruct (found_leaf _ _ _ _ _ Hfd) as [i ->].
  assert (Hc1 : core w1).
  { apply (safe_tx_stat w (b_tx x) (IncCursorCount 1)) in Hc as [He _]. unfold tx_stat in He. rewrite (upd_tx_run _ _ _ _ Htx) in He. apply He. }
  destruct (Delete_run fuel b key w x D _ Hv Hf) as (w2 & T2 & Hrun2 & [(x2 & D2 & _ & Hcow & _) _ _] & _).
  pose proof (proj1 (Delete_safe fuel b key w Hs)) as He. rewrite Hrun2 in He.
  assert (Hacts : acts b w w2) by (eapply cow_acts; [done|done|done|exact He|exact Hcow]).
  assert (HDel : Delete fuel b key w = (let k := match r with Some (k, _, _) => k | None => [] end in
    if negb (Equal key k) then st_ret None else let! n := Cursor_node b [mkRef (Some l) i] in del_at n key ;! st_ret None) w1).
  { unfold Delete. rewrite (bind_Ret _ _ _ _ _ (get_bkt_run _ _ _ Hx)), (bind_Ret _ _ _ _ _ (get_tx_run _ _ _ Htx)), Hdb, Hwr.
    change (negb true) with false. cbv iota. by rewrite (bind_Ret _ _ _ _ _ (Bucket_Cursor_run _ _ _ _ Hx Htx)), (bind_Ret _ _ _ _ _ Hw). }
  cbv zeta in HDel. destruct (Equal key (match r with Some (k, _, _) => k | None => [] end)) eqn:Heq.
  - destruct (leafy_edit w1 b x l kvs i (λ n, del_at n key) (λ n, node_del n key) (kv_delete key) Hc1 Hl1)
      as (w' & x' & l' & Hrun & Hl' & Htx' & Hnm').
    { intros l0 n w0 Hn. exact (upd_node_run w0 l0 (λ nd, node_del nd key) n Hn). }
    { intros n. unfold node_del. by destruct (inodes_del key (n_inodes n)). }
    { intros n [Hlf Hi]. unfold node_del. rewrite Hi, inodes_del_leaf by done.
      case_decide; [by split|]. split; [done|]. by rewrite Hi, kv_delete_notin. }
    { split; [by apply kv_delete_sorted|]. rewrite Forall_forall in Hne. rewrite Forall_forall. intros y ?%elem_of_keys_delete. auto. }
    change (negb true) with false in HDel. cbv iota in HDel. rewrite (bind_then _ _ _ _ _ _ Hrun) in HDel.
    assert (w2 = w') as -> by (rewrite Hrun2 in HDel; by injection HDel). exists w', x', l'. by split_and!.
  - assert (w2 = w1) as -> by (rewrite Hrun2 in HDel; by injection HDel). exists w1, x, l. split_and!; auto.
    assert (kv_delete key kvs = kvs) as ->; [|done]. apply kv_delete_notin, kv_lookup_None.
    change kvs with (contents (Leaf l kvs)). rewrite (found_lookup _ _ _ _ Hfd). destruct r as [[[k v] f]|]; [|done]. by rewrite Heq.
Qed.

(** ** Opening and creating *)

(** A step that only adds nodes and handles, and leaves the state of the
    transaction alone. *)
Lemma leafy_extend w w' b x l kvs :
  (∀ l n, w_nodes w !! l = Some n → w_nodes w' !! l = Some n) → w_bkts w' !! b = Some x →
  (∀ tx, w_txs w !! b_tx x = Some tx → ∃ tx', w_txs w' !! b_tx x = Some tx' ∧ t_db tx' = t_db tx ∧
     t_writable tx' = t_writable tx ∧ t_base tx' = t_base tx) →
  leafy w b x l kvs → leafy w' b x l kvs.
Proof.
  intros Hn Hx Ht [[_ [tx Htx] Hrv (n & Hl & Hleaf) Hwf] Ho Hroot]. destruct (Ht tx Htx) as (tx' & Htx' & Hdb & Hwr & Hba).
  destruct (Ho tx Htx) as [Ho1 Ho2]. split; [split|..].
  - done.
  - eauto.
  - rewrite <- Hrv. unfold rootView, baseState. by rewrite Htx, Htx', Hba.
  - exists n. split; [by apply Hn|done].
  - done.
  - intros y Hy. simplify_eq. by rewrite Hdb, Hwr.
  - destruct (b_rootNode x); [|done]. destruct Hroot as (HD & m & Hm & ?). split; [done|]. exists m. split; [by apply Hn|done].
Qed.

Lemma created_leafy t name tx w :
  t_db tx = true → t_writable tx = true →
  ∃ x, leafy (created_world t name tx w) (w_nextb w) x (w_nextn w) [] ∧ b_tx x = t ∧ b_name x = name.
Proof.
  intros Hdb Hw. eexists. split; [split; [split|..]|]; simpl.
  - apply lookup_insert_eq.
  - simpl. rewrite lookup_insert_eq. eauto.
  - done.
  - eexists. rewrite lookup_insert_eq. done.
  - split; constructor.
  - intros tx'. simpl. rewrite lookup_insert_eq. by intros [= <-].
  - simpl. rewrite union_empty_r_L. split; [done|]. eexists. rewrite lookup_insert_eq. done.
  - done.
Qed.

Lemma created_keeps t name tx w b x l kvs :
  core w → w_txs w !! t = Some tx → leafy w b x l kvs → leafy (created_world t name tx w) b x l kvs.
Proof.
  intros Hc Ht Hl. eapply leafy_extend; [| | |exact Hl]; simpl.
  - intros l' n Hn. rewrite lookup_insert_ne; [done|]. apply (s_fresh_n _ Hc) in Hn. lia.
  - pose proof (rd_bkt _ _ _ _ (ly_read _ _ _ _ _ Hl)) as Hx. rewrite lookup_insert_ne; [done|]. apply (s_fresh_b _ Hc) in Hx. lia.
  - intros tx0 Htx0. rewrite lookup_insert. case_decide; [|eauto]. subst. simplify_eq. eauto.
Qed.

Lemma opened_leafy t name tx w st bs l kvs :
  w_txs w !! t = Some tx → t_db tx = true → t_writable tx = true → t_base tx = Some st →
  ds_buckets st !! name = Some (Some bs) → bs_root bs = Some l → rep (w_nodes w) (Leaf l kvs) → wf (Leaf l kvs) →
  ∃ x, leafy (opened_world t name tx w) (w_nextb w) x l kvs ∧ b_tx x = t ∧ b_name x = name.
Proof.
  intros Ht Hdb Hw Hba Hbs Hroot Hrep Hwf. eexists. split; [split; [split|..]|]; simpl.
  - apply lookup_insert_eq.
  - simpl. rewrite lookup_insert_eq. eauto.
  - unfold rootView, baseState. simpl. rewrite lookup_insert_eq. simpl. by rewrite Hba, Hbs.
  - done.
  - done.
  - intros tx'. simpl. rewrite lookup_insert_eq. by intros [= <-].
  - simpl. by rewrite Hw.
  - done.
Qed.

Lemma opened_keeps t name tx w b x l kvs :
  core w → w_txs w !! t = Some tx → leafy w b x l kvs → leafy (opened_world t name tx w) b x l kvs.
Proof.
  intros Hc Ht Hl. eapply leafy_extend; [| | |exact Hl]; simpl.
  - done.
  - pose proof (rd_bkt _ _ _ _ (ly_read _ _ _ _ _ Hl)) as Hx. rewrite lookup_insert_ne; [done|]. apply (s_fresh_b _ Hc) in Hx. lia.
  - intros tx0 Htx0. rewrite lookup_insert. case_decide; [|eauto]. subst. simplify_eq. eauto.
Qed.
