(* ===== verification/Ripe.v ===== *)
(** * Buckets that a commit can finish

    [ripe] collects the states of an open bucket from which [Bucket.rebalance] and
    [Bucket.spill] do their work: nothing written yet, a single leaf of any size,
    or a tree of several levels of which some nodes have been copied, where no
    node is to be merged ([calm]) and no branch outgrows its node.  Both calls
    return, and what [Bucket.spill] leaves is [settled]: ready to be published,
    with the same pairs. *)
From S2P Require Import Prelude GoSort Stats World Node KV Tree TreePath Cursor CursorSpec Cow Bucket Spill Tx DB.
From S2P Require Import CowSpec BucketSpec Regroup Frame FrameSpill SpillSpec Marked SpillTree FinalizeTree Publish Isolation System TxSpec Directory LeafBucket.
Local Open Scope st_scope.

Lemma leafy_own w b x l kvs D : core w → leafy w b x l kvs → b_dirty x = Some D → own w b x D.
Proof. intros Hc [[Hx Htx _ _ _] _ _] HD. by split. Qed.

Lemma leafy_root w b x l kvs r : leafy w b x l kvs → b_rootNode x = Some r → r = l.
Proof. intros [[_ _ Hrv _ _] _ _] Hr. unfold rootView in Hrv. rewrite Hr in Hrv. by simplify_eq/=. Qed.

(** ** Spilling a single leaf *)

(** The handle [b] shows the tree [T], which is ready to be published. *)
Record settled (w : world) (b : bid) (T : tree) : Prop := mkSettled {
  se_read : ∃ x, readable w b x T;
  se_nodup : NoDup (tlocs T);
  se_keyed : keyed (w_nodes w) T
}.

Lemma settled_acts b b' w w' T : core w → acts b' w w' → b ≠ b' → settled w b T → settled w' b T.
Proof.
  intros Hc Ha Hne [[x Hr] Hnd Hk]. split; [exists x; by eapply readable_acts|done|]. eapply keyed_frame; [apply Hr| |done].
  intros l Hl. eapply (acts_node b b'); [done|done|done|]. eapply tree_ptrs; [done|apply Hr|by eapply readable_ptr|done].
Qed.

Lemma leaf_keyed h l kvs : rep h (Leaf l kvs) → keyed h (Leaf l kvs).
Proof.
  intros (n & Hn & _ & Hi) l' n' Hl Hn' i c Hin Hc. apply list_elem_of_singleton in Hl as ->. simplify_eq. rewrite Hi in Hin.
  apply list_elem_of_fmap in Hin as ([k v] & -> & _). done.
Qed.

(** A leaf with these pairs is not split. *)
Definition fits_leaf (kvs : list kv) : bool := noSplit (mkNode None true false false [] None (leaf_inode <$> kvs)).

(** What spilling makes of a tree: the pairs are the same, and a single leaf that
    fits stays one. *)
Definition spilt (T T' : tree) : Prop :=
  contents T' = contents T ∧ (tleaf T = true → fits_leaf (contents T) = true → tleaf T' = true).

Lemma spilt_refl T : spilt T T.
Proof. by split. Qed.

Lemma Bucket_spill_leafy fuel w b x l kvs :
  core w → leafy w b x l kvs → length kvs + 2 ≤ fuel →
  ∃ w' T, Bucket_spill fuel b w = (Ret None, w') ∧ settled w' b T ∧ spilt (Leaf l kvs) T ∧ acts b w w'.
Proof.
  intros Hc Hl Hf. pose proof (proj1 (Bucket_spill_safe fuel w b Hc)) as He. unfold Bucket_spill in *.
  pose proof Hl as [Hr Ho Hroot]. pose proof Hr as [Hx [tx Htx] Hrv Hrep Hwf].
  rewrite (bind_Ret _ _ _ _ _ (get_bkt_run _ _ _ Hx)) in He |- *. destruct (b_rootNode x) as [r|] eqn:Hbr.
  2:{ exists w, (Leaf l kvs). split; [done|]. split; [split; [by exists x|apply NoDup_singleton|by apply leaf_keyed]|]. split; [apply spilt_refl|by apply acts_refl]. }
  pose proof (leafy_root _ _ _ _ _ _ Hl Hbr) as ->. destruct Hroot as (HD & n & Hn & Hpar & Hsp).
  assert (Hready : ready w b x {[l]} (Leaf l kvs)).
  { split; [by eapply leafy_own|simpl; set_solver|done|done|apply NoDup_singleton| |].
    - simpl. intros nd Hnd. by simplify_eq.
    - intros q m Hq. by apply elem_of_nil in Hq. }
  destruct (finalize_root b (length kvs) fuel w x {[l]} _ Hready) as (w1 & D1 & T & Hrun & Hfin).
  { simpl. by rewrite length_fmap. } { lia. }
  simpl in Hrun. rewrite (bind_Ret _ _ _ _ _ Hrun) in He |- *. pose proof Hfin as [Hg Hk Hrep1 Hwf1 Hnd1 Hc1 Hl1 HD1 HK1 Hroot1 Hfit].
  assert (Hsp1 : spilt (Leaf l kvs) T).
  { split; [done|]. intros _ Hfl. destruct Hrep as (n' & Hn' & Hlf & Hi). simplify_eq. rewrite (Hfit n Hn); [done|].
    rewrite <- Hfl. by apply noSplit_ext. }
  assert (Hrt : root fuel l w1 = (Ret (tloc T), w1)) by (apply Hroot1; lia). rewrite (bind_Ret _ _ _ _ _ Hrt) in He |- *. pose proof (g_bkts _ _ _ _ _ _ Hg) as Hb1.
  set (x1 := set_b_dirty (Some D1) x) in *. assert (Hx1 : w_bkts w1 !! b = Some x1) by (rewrite Hb1; apply lookup_insert_eq).
  rewrite (bind_Ret _ _ _ _ _ (upd_bkt_run _ _ _ _ Hx1)) in He |- *. eexists _, T. split; [done|].
  pose proof (g_evo _ _ _ _ _ _ Hg) as Hev. split; [split; [eexists; split; simpl|done|by apply HK1, leaf_keyed]|split; [done|split]].
  - apply lookup_insert_eq.
  - simpl. destruct (strip_lookup _ _ _ _ (e_txs _ _ Hev) Htx) as (? & ? & _). eauto.
  - done.
  - done.
  - done.
  - exact He.
  - simpl. intros l' n' Hl' Hne. rewrite Hk; [done|by eapply s_fresh_n|]. intros ->%list_elem_of_singleton. simpl in Hl'. simplify_eq.
    destruct (s_dirty _ Hc b l) as (n0 & ? & ?); [exists x, {[l]}; set_solver|]. congruence.
  - intros b' Hne. simpl. by rewrite lookup_insert_ne, Hb1, lookup_insert_ne.
Qed.

(** ** Steps that keep the shape of every node *)

Definition reshaped (w w' : world) : Prop :=
  ∀ l n, w_nodes w !! l = Some n → ∃ n', w_nodes w' !! l = Some n' ∧ n_isLeaf n' = n_isLeaf n ∧ n_inodes n' = n_inodes n ∧ n_key n' = n_key n.

Lemma reshaped_refl w : reshaped w w.
Proof. intros l n Hl. eauto. Qed.
Lemma reshaped_trans w1 w2 w3 : reshaped w1 w2 → reshaped w2 w3 → reshaped w1 w3.
Proof. intros H1 H2 l n (n2 & Hl2 & ? & ? & ?)%H1. destruct (H2 _ _ Hl2) as (n3 & ? & ? & ? & ?). exists n3. split_and!; congruence. Qed.

Lemma reshaped_rep w w' T : reshaped w w' → rep (w_nodes w) T → rep (w_nodes w') T.
Proof.
  intros Hr. induction T as [l kvs|l cs IH] using tree_nested_ind.
  - intros (n & Hn & Hl & Hi). destruct (Hr _ _ Hn) as (n' & Hn' & Hl' & Hi' & _). exists n'. split; [done|]. split; congruence.
  - rewrite !rep_Branch. intros [(n & Hn & Hl & Hi) Hall]. destruct (Hr _ _ Hn) as (n' & Hn' & Hl' & Hi' & _). split.
    + exists n'. split; [done|]. split; congruence.
    + rewrite Forall_forall in IH. rewrite Forall_forall in Hall. apply Forall_forall. auto.
Qed.

Lemma reshaped_keyed w w' T : reshaped w w' → rep (w_nodes w) T → keyed (w_nodes w) T → keyed (w_nodes w') T.
Proof.
  intros Hr Hrep HK l n Hl Hn i c Hi Hc.
  destruct (rep_some _ _ _ Hrep Hl) as [n0 Hn0].
  destruct (Hr _ _ Hn0) as (n' & Hn' & _ & Hi' & _). simplify_eq. rewrite Hi' in Hi. destruct (HK _ _ Hl Hn0 _ _ Hi Hc) as (m & Hm & Hmk & Hmf).
  destruct (Hr _ _ Hm) as (m' & Hm' & _ & Hmi' & Hmk'). exists m'. by rewrite Hmk', Hmi'.
Qed.

(** ** Rebalancing a tree in which nothing is to be merged *)

(** [rebalance] of the node [n] does no more than clear its mark. *)
Definition calm_node (n : node) : bool :=
  negb (n_unbalanced n) ||
  ((defaultMinNodeMergeBytes <? node_size n)%Z && (minKeys n <? length (n_inodes n))) ||
  (bool_decide (n_parent n = None) && negb (negb (n_isLeaf n) && (length (n_inodes n) =? 1))).
Definition calm (w : world) (D : gset loc) : Prop := ∀ l n, l ∈ D → w_nodes w !! l = Some n → calm_node n = true.

(** A change that only clears marks. *)
Record soothed (b : bid) (D : gset loc) (w w' : world) : Prop := mkSoothed {
  so_evo : evo w w';
  so_bkts : w_bkts w' = w_bkts w;
  so_nextn : w_nextn w' = w_nextn w;
  so_nodes : ∀ l, w_nodes w' !! l = w_nodes w !! l ∨
    (l ∈ D ∧ ∃ n, w_nodes w !! l = Some n ∧ w_nodes w' !! l = Some (set_n_unbalanced false n))
}.

Lemma soothed_refl b D w : core w → soothed b D w w.
Proof. intros Hc. split; auto using evo_refl. Qed.

Lemma soothed_trans b D w1 w2 w3 : soothed b D w1 w2 → soothed b D w2 w3 → soothed b D w1 w3.
Proof.
  intros [He1 Hb1 Hn1 Hl1] [He2 Hb2 Hn2 Hl2]. split; [by eapply evo_trans|congruence|congruence|]. intros l.
  destruct (Hl2 l) as [->|(HD & n & Hn & ->)]; [apply Hl1|]. right. split; [done|].
  destruct (Hl1 l) as [<-|(_ & n0 & Hn0 & Hn')]; [eauto|]. exists n0. split; [done|]. by simplify_eq.
Qed.

Lemma soothed_node b D w w' l n' : soothed b D w w' → w_nodes w' !! l = Some n' →
  ∃ n, w_nodes w !! l = Some n ∧ n_isLeaf n = n_isLeaf n' ∧ n_inodes n = n_inodes n' ∧ n_parent n = n_parent n' ∧
    n_spilled n = n_spilled n' ∧ n_key n = n_key n' ∧ (n_unbalanced n' = true → n = n').
Proof.
  intros Hs Hl. destruct (so_nodes _ _ _ _ Hs l) as [Heq|(_ & n & Hn & Hn')]; [exists n'; by rewrite <- Heq|].
  rewrite Hn' in Hl. injection Hl as <-. by exists n.
Qed.

Lemma calm_soothed b D w w' : soothed b D w w' → calm w D → calm w' D.
Proof.
  intros Hs Hc l n' Hl Hn'. destruct (soothed_node _ _ _ _ _ _ Hs Hn') as (n & Hn & _ & _ & _ & _ & _ & Heq).
  destruct (n_unbalanced n') eqn:Hu; [rewrite <- Heq by done; by eapply Hc|]. unfold calm_node. by rewrite Hu.
Qed.

Lemma soothed_mrep b D w w' M : soothed b D w w' → ∀ par key, mrep (w_nodes w) D par key M → mrep (w_nodes w') D par key M.
Proof.
  intros Hs. assert (Hl : ∀ l n, w_nodes w !! l = Some n → ∃ n', w_nodes w' !! l = Some n' ∧ n_isLeaf n' = n_isLeaf n ∧
    n_inodes n' = n_inodes n ∧ n_parent n' = n_parent n ∧ n_spilled n' = n_spilled n ∧ n_key n' = n_key n).
  { intros l n Hn. destruct (so_nodes _ _ _ _ Hs l) as [Heq|(_ & n0 & Hn0 & Hn')]; [exists n; by rewrite Heq|].
    simplify_eq. by exists (set_n_unbalanced false n). }
  assert (Hmk : ∀ par key l m n n', n_parent n' = n_parent n → n_spilled n' = n_spilled n → n_key n' = n_key n →
    marked_node D par key l m n → marked_node D par key l m n').
  { intros par key l m n n' Hp Hsp Hk [H1 H2]. unfold marked_node. rewrite Hk, Hp, Hsp. by split. }
  induction M as [l m kvs|l m cs IH] using mtree_nested_ind; intros par key.
  - intros (n & Hn & [H1 H2] & Hm). destruct (Hl _ _ Hn) as (n' & Hn' & ? & ? & ? & ? & ?). exists n'. split; [done|].
    split; [split; congruence|]. by eapply Hmk.
  - rewrite !mrep_Branch. intros [(n & Hn & [H1 H2] & Hm) Hall]. destruct (Hl _ _ Hn) as (n' & Hn' & ? & ? & ? & ? & ?). split.
    + exists n'. split; [done|]. split; [split; congruence|]. by eapply Hmk.
    + rewrite Forall_forall in IH, Hall |- *. intros p Hp. by apply IH, Hall.
Qed.

Lemma rebalance_calm fuel w b x D l :
  own w b x D → calm w D → l ∈ D → ∃ w', rebalance (S fuel) l w = (Ret tt, w') ∧ soothed b D w w'.
Proof.
  intros Ho Hcalm HlD. destruct (own_node _ _ _ _ _ Ho HlD) as (n & Hn & Hb). pose proof (Hcalm _ _ HlD Hn) as Hc.
  pose proof Ho as [Hco Hx HD [tx Htx]]. pose proof (proj1 (rebalance_safe b (S fuel) w l Hco (own_dirty _ _ _ _ _ Ho HlD))) as He.
  destruct (n_unbalanced n) eqn:Hu.
  2:{ exists w. split; [|by apply soothed_refl]. cbn [rebalance]. by rewrite (bind_Ret _ _ _ _ _ (get_node_run _ _ _ Hn)), Hu. }
  assert (Hrun : ∃ w', rebalance (S fuel) l w = (Ret tt, w') ∧ w_bkts w' = w_bkts w ∧ w_nextn w' = w_nextn w ∧
    w_nodes w' = <[l := set_n_unbalanced false n]> (w_nodes w)).
  { cbn [rebalance]. rewrite (bind_Ret _ _ _ _ _ (get_node_run _ _ _ Hn)), Hu. simpl.
    rewrite (bind_Ret _ _ _ _ _ (upd_node_run _ _ _ _ Hn)), Hb, (bind_Ret (st_deref (Some b)) _ _ b _ eq_refl).
    rewrite (bind_Ret (get_bkt b) _ _ _ _ (get_bkt_run (set_nodes _ w) b x Hx)). unfold tx_stat.
    rewrite (bind_Ret _ _ _ _ _ (upd_tx_run (set_nodes _ w) _ _ tx Htx)).
    unfold calm_node in Hc. rewrite Hu in Hc. simpl in Hc. destruct ((_ <? _)%Z && _); simpl in Hc; [by eexists|].
    apply andb_prop in Hc as [Hp%bool_decide_eq_true Hc%negb_true_iff]. rewrite Hp, Hc. by eexists. }
  destruct Hrun as (w' & Hrun & Hbk & Hnx & Hnodes). rewrite Hrun in He. exists w'. split; [done|]. split; [done|done|done|].
  intros l'. rewrite Hnodes. destruct (decide (l' = l)) as [->|Hne]; [right; rewrite lookup_insert_eq; eauto|left; by rewrite lookup_insert_ne].
Qed.

Lemma soothed_own b D w w' x : own w b x D → soothed b D w w' → own w' b x D.
Proof.
  intros [Hc Hx HD [tx Htx]] [He Hb _ _]. split; [apply He|by rewrite Hb|done|].
  destruct (strip_lookup _ _ _ _ (e_txs _ _ He) Htx) as (? & ? & _). eauto.
Qed.

Lemma Bucket_rebalance_calm it fuel w b x D :
  fair it → own w b x D → calm w D → 0 < fuel ∨ D = ∅ →
  ∃ w', Bucket_rebalance it fuel b w = (Ret tt, w') ∧ soothed b D w w'.
Proof.
  intros Hf Ho Hcalm Hfu. unfold Bucket_rebalance. rewrite (bind_Ret _ _ _ _ _ (get_bkt_run _ _ _ (o_bkt _ _ _ _ Ho))), (o_dirty _ _ _ _ Ho).
  assert (Hin : ∀ l, l ∈ it_nodes it D → l ∈ D) by (intros l; rewrite (proj1 Hf); apply elem_of_elements).
  assert (Hfu' : 0 < fuel ∨ it_nodes it D = []).
  { destruct Hfu as [?|HD]; [by left|right]. apply Permutation_nil_r. rewrite (proj1 Hf), HD. by rewrite elements_empty. }
  clear Hfu. revert Hin Hfu'. generalize (it_nodes it D) as ls. intros ls Hin [Hfu| ->]; [|exists w; split; [done|apply soothed_refl, Ho]].
  destruct fuel as [|fuel]; [lia|]. clear Hfu. revert w Ho Hcalm. induction ls as [|l ls IH]; intros w Ho Hcalm.
  { exists w. split; [done|apply soothed_refl, Ho]. }
  destruct (rebalance_calm fuel w b x D l Ho Hcalm ltac:(apply Hin; by left)) as (w1 & Hrun & Hs1). cbn [st_iter].
  rewrite (bind_Ret _ _ _ _ _ Hrun). destruct (IH ltac:(intros l' Hl'; apply Hin; by right) w1) as (w2 & Hrun2 & Hs2).
  - by eapply soothed_own.
  - by eapply calm_soothed.
  - exists w2. split; [done|]. by eapply soothed_trans.
Qed.

Lemma soothed_acts b D w w' x : own w b x D → soothed b D w w' → acts b w w'.
Proof.
  intros Ho [He Hb _ Hl]. split; [done| |by intros b' _; rewrite Hb]. intros l n Hn Hne.
  destruct (Hl l) as [->|(HD & n0 & Hn0 & _)]; [done|]. destruct (own_node _ _ _ _ _ Ho HD) as (n1 & Hn1 & Hb1). congruence.
Qed.

Lemma soothed_reshaped b D w w' : soothed b D w w' → reshaped w w'.
Proof.
  intros Hs l n Hn. destruct (so_nodes _ _ _ _ Hs l) as [Heq|(_ & n0 & Hn0 & Hn')]; [exists n; by rewrite Heq|].
  simplify_eq. by exists (set_n_unbalanced false n).
Qed.

Lemma soothed_readable b D w w' x T : soothed b D w w' → readable w b x T → readable w' b x T.
Proof.
  intros Hs [Hx [tx Htx] Hr Hrep Hwf]. pose proof (e_txs _ _ (so_evo _ _ _ _ Hs)) as Ht. split; [by rewrite (so_bkts _ _ _ _ Hs)| | | |done].
  - destruct (strip_lookup _ _ _ _ Ht Htx) as (? & ? & _). eauto.
  - by rewrite (rootView_strip _ _ _ Ht).
  - by eapply reshaped_rep, Hrep; eapply soothed_reshaped.
Qed.

(** The tree a handle shows is determined. *)
Lemma rep_inj h T : ∀ T', rep h T → rep h T' → tloc T = tloc T' → T = T'.
Proof.
  induction T as [l kvs|l cs IH] using tree_nested_ind; intros [l' kvs'|l' cs'] Hrep Hrep' Heq; simpl in Heq; subst.
  - destruct Hrep as (n & Hn & _ & Hi), Hrep' as (n' & Hn' & _ & Hi'). simplify_eq. f_equal.
    rewrite Hi in Hi'. apply (list_fmap_eq_inj leaf_inode) in Hi'; [done|]. intros [k v] [k' v']. unfold leaf_inode. naive_solver.
  - destruct Hrep as (n & Hn & Hl & _). apply rep_Branch in Hrep' as [(n' & Hn' & Hl' & _) _]. simplify_eq. congruence.
  - apply rep_Branch in Hrep as [(n & Hn & Hl & _) _]. destruct Hrep' as (n' & Hn' & Hl' & _). simplify_eq. congruence.
  - apply rep_Branch in Hrep as [(n & Hn & _ & Hi) Hall]. apply rep_Branch in Hrep' as [(n' & Hn' & _ & Hi') Hall']. simplify_eq.
    f_equal. rewrite Hi in Hi'. clear Hn Hi. revert cs' Hi' Hall'. induction cs as [|[k c] cs IHcs]; intros [|[k' c'] cs'] Hi' Hall'; try done.
    apply Forall_cons in IH as [IHc IH], Hall as [Hc Hall], Hall' as [Hc' Hall']. rewrite !fmap_cons in Hi'. injection Hi' as Hk Hloc Hi'.
    f_equal; [|by apply IHcs]. simpl in *. rewrite Hk. f_equal. by apply IHc.
Qed.

Lemma readable_tree w b x x' T T' : readable w b x T → readable w b x' T' → T = T'.
Proof. intros [Hx _ Hr Hrep _] [Hx' _ Hr' Hrep' _]. simplify_eq. eapply rep_inj; [done|done|congruence]. Qed.

(** ** The three kinds of buckets *)

(** The handle [b] shows the tree of the marked tree [M], whose root is a branch:
    the committed tree, or a copy of the nodes marked [Pending] in it. *)
Record branchy (w : world) (b : bid) (x : Bucket) (D : gset loc) (M : mtree) : Prop := mkBranchy {
  br_own : own w b x D;
  br_view : rootView w x = Some (mloc M);
  br_rep : mrep (w_nodes w) D None None M;
  br_shape : shape None None M;
  br_unspilled : unspilled M;
  br_nodup : NoDup (mlocs M);
  br_branch : tleaf (plain M) = false;
  br_root : match b_rootNode x with None => mmark M = Clean ∧ D = ∅ | Some _ => mmark M = Pending end
}.

Lemma branchy_readable w b x D M : branchy w b x D M → readable w b x (plain M).
Proof. intros [[_ Hx _ Htx] Hr Hrep Hs _ _ _ _]. split; [done|done|by rewrite tloc_plain|by eapply mrep_rep|by eapply shape_wf]. Qed.

Lemma branchy_tended w b x D M r :
  branchy w b x D M → b_rootNode x = Some r → roomy (splitThreshold (b_FillPercent x)) M = true → tended w b x D M.
Proof.
  intros [Ho _ Hrep Hs _ Hnd Hbr Hroot] Hr Hroom. rewrite Hr in Hroot. split; [done|done|by apply shape_good|done|]. by rewrite Hroot.
Qed.

(** [Bucket.rebalance] and [Bucket.spill] can finish the bucket, which shows [T]. *)
Definition ripe (fuel : nat) (w : world) (b : bid) (x : Bucket) (T : tree) : Prop :=
  (∃ l kvs, T = Leaf l kvs ∧ leafy w b x l kvs ∧ length kvs + 2 ≤ fuel) ∨
  (∃ D M, T = plain M ∧ branchy w b x D M ∧ calm w D ∧ roomy (splitThreshold (b_FillPercent x)) M = true ∧ rounds_left M M < fuel).

Lemma ripe_readable fuel w b x T : ripe fuel w b x T → readable w b x T.
Proof. intros [(l & kvs & -> & [? _ _] & _)|(D & M & -> & ? & _)]; [done|by eapply branchy_readable]. Qed.

Lemma acts_own b b' w w' x D : core w → acts b' w w' → b ≠ b' → own w b x D → own w' b x D.
Proof.
  intros _ Ha Hne [Hc Hx HD [tx Htx]]. split; [apply Ha|by rewrite (a_bkts _ _ _ Ha)|done|].
  destruct (strip_lookup _ _ _ _ (e_txs _ _ (a_evo _ _ _ Ha)) Htx) as (? & ? & _). eauto.
Qed.

Lemma acts_dirty b b' w w' x D l : acts b' w w' → b ≠ b' → own w b x D → l ∈ D → w_nodes w' !! l = w_nodes w !! l.
Proof.
  intros Ha Hne Ho Hl. destruct (own_node _ _ _ _ _ Ho Hl) as (n & Hn & Hb). rewrite Hn. apply (a_nodes _ _ _ Ha); [done|congruence].
Qed.

Lemma branchy_acts b b' w w' x D M : core w → acts b' w w' → b ≠ b' → branchy w b x D M → branchy w' b x D M.
Proof.
  intros Hc Ha Hne Hb. pose proof (branchy_readable _ _ _ _ _ Hb) as Hr. pose proof (readable_ptr _ _ _ _ Hc Hr) as Hp.
  destruct Hb as [Ho Hv Hrep Hs Hwf Hnd Hbr Hroot]. pose proof (acts_own _ _ _ _ _ _ Hc Ha Hne Ho) as Ho'. split; auto.
  - by rewrite (rootView_strip _ _ _ (e_txs _ _ (a_evo _ _ _ Ha))).
  - eapply mrep_frame; [|exact Hrep]. intros l Hl. split; [|done]. eapply (acts_node b b'); [done|done|done|]. eapply tree_ptrs; [done| |exact Hp|exact Hl].
    by eapply mrep_rep.
Qed.

Lemma ripe_acts fuel b b' w w' x T : core w → acts b' w w' → b ≠ b' → ripe fuel w b x T → ripe fuel w' b x T.
Proof.
  intros Hc Ha Hne [(l & kvs & -> & Hl & Hf)|(D & M & -> & Hb & Hcalm & Hroom & Hf)].
  - left. exists l, kvs. split_and!; [done|by eapply leafy_acts|done].
  - right. exists D, M. split_and!; [done|by eapply branchy_acts| |done|done].
    intros l n Hl Hn. rewrite (acts_dirty b b' w w' x D l Ha Hne (br_own _ _ _ _ _ Hb) Hl) in Hn. by eapply Hcalm.
Qed.

(** A step that only the statistics see. *)
Lemma branchy_strip w w' b x D M :
  core w' → w_nodes w' = w_nodes w → w_bkts w' = w_bkts w → strip <$> w_txs w' = strip <$> w_txs w → branchy w b x D M → branchy w' b x D M.
Proof.
  intros Hc Hn Hb Ht [[_ Hx HD [tx Htx]] Hv Hrep Hs Hu Hnd Hbr Hroot]. split; auto; [|by rewrite (rootView_strip _ _ _ Ht)|by rewrite Hn].
  split; [done|by rewrite Hb|done|]. destruct (strip_lookup _ _ _ _ Ht Htx) as (? & ? & _). eauto.
Qed.

Lemma ripe_strip fuel w w' b x T :
  core w' → w_nodes w' = w_nodes w → w_bkts w' = w_bkts w → strip <$> w_txs w' = strip <$> w_txs w → ripe fuel w b x T → ripe fuel w' b x T.
Proof.
  intros Hc Hn Hb Ht [(l & kvs & -> & Hl & Hf)|(D & M & -> & Hbr & Hcalm & Hroom & Hf)].
  - left. exists l, kvs. split_and!; [done|by eapply leafy_strip|done].
  - right. exists D, M. split_and!; [done|by eapply branchy_strip| |done|done]. intros l n. rewrite Hn. apply Hcalm.
Qed.

(** ** Rebalancing *)

Lemma leafy_calm w b x l kvs : core w → leafy w b x l kvs → ∃ D, own w b x D ∧ calm w D.
Proof.
  intros Hc Hl. destruct (leafy_dirty _ _ _ _ _ Hl) as [D HD]. exists D. split; [by eapply leafy_own|].
  destruct Hl as [[_ _ _ (n & Hn & Hlf & _) _] _ Hroot]. intros l' n' Hl' Hn'. destruct (b_rootNode x).
  - destruct Hroot as (HD' & n0 & Hn0 & Hp & _). simplify_eq. assert (l' = l) as -> by set_solver. simplify_eq.
    unfold calm_node. rewrite Hp, Hlf. by rewrite orb_true_r.
  - simplify_eq. set_solver.
Qed.

Lemma leafy_soothed b D w w' x l kvs : soothed b D w w' → leafy w b x l kvs → leafy w' b x l kvs.
Proof.
  intros Hs [Hr Ho Hroot]. split; [by eapply soothed_readable|eapply writing_strip; [apply (so_evo _ _ _ _ Hs)|done]|].
  destruct (b_rootNode x); [|done]. destruct Hroot as (HD & n & Hn & Hp & Hsp). split; [done|].
  destruct (so_nodes _ _ _ _ Hs l) as [->|(_ & n0 & Hn0 & ->)]; [by exists n|]. simplify_eq. by exists (set_n_unbalanced false n).
Qed.

Lemma branchy_soothed b D w w' x M : soothed b D w w' → branchy w b x D M → branchy w' b x D M.
Proof.
  intros Hs [Ho Hv Hrep Hsh Hwf Hnd Hbr Hroot]. split; auto.
  - by eapply soothed_own.
  - by rewrite (rootView_strip _ _ _ (e_txs _ _ (so_evo _ _ _ _ Hs))).
  - by eapply soothed_mrep.
Qed.

Lemma Bucket_rebalance_ripe it fuel w b x T :
  fair it → core w → ripe fuel w b x T → ∃ w', Bucket_rebalance it fuel b w = (Ret tt, w') ∧ ripe fuel w' b x T ∧ acts b w w'.
Proof.
  intros Hf Hc [(l & kvs & -> & Hl & Hfu)|(D & M & -> & Hb & Hcalm & Hroom & Hfu)].
  - destruct (leafy_calm _ _ _ _ _ Hc Hl) as (D & Ho & Hcalm).
    destruct (Bucket_rebalance_calm it fuel w b x D Hf Ho Hcalm) as (w' & Hrun & Hs); [left; lia|]. exists w'. split_and!; [done| |by eapply soothed_acts].
    left. exists l, kvs. split_and!; [done|by eapply leafy_soothed|done].
  - destruct (Bucket_rebalance_calm it fuel w b x D Hf (br_own _ _ _ _ _ Hb) Hcalm) as (w' & Hrun & Hs); [left; lia|].
    exists w'. split_and!; [done| |eapply soothed_acts; [apply Hb|done]].
    right. exists D, M. split_and!; [done|by eapply branchy_soothed|by eapply calm_soothed|done|done].
Qed.

(** ** Spilling *)

(** [finalize] of the written root of a tree whose nodes are written at any level. *)
Lemma finalize_branchy fuel w b x D M r :
  branchy w b x D M → b_rootNode x = Some r → roomy (splitThreshold (b_FillPercent x)) M = true → rounds_left M M < fuel →
  r = mloc M ∧ ∃ w1 D1 T1, finalize fuel r w = (Ret None, w1) ∧ root fuel r w1 = (Ret r, w1) ∧ moved b x D w M w1 D1 T1 ∧ pend T1 = 0.
Proof.
  intros Hb Hbr Hroom Hf. pose proof (branchy_tended _ _ _ _ _ _ Hb Hbr Hroom) as Ht.
  pose proof (br_view _ _ _ _ _ Hb) as Hv. unfold rootView in Hv. rewrite Hbr in Hv. injection Hv as ->.
  pose proof (br_root _ _ _ _ _ Hb) as Hm. rewrite Hbr in Hm. split; [done|].
  destruct (finalize_pending b fuel w x D [] M Ht Hm Hf) as (w1 & D1 & T1 & Hrun & Hmv & Hp). cbn [fill] in *.
  exists w1, D1, T1. split_and!; [done| |done|done]. pose proof (mv_tended _ _ _ _ _ _ _ _ Hmv) as Ht1.
  destruct (tended_node w1 b _ D1 [] T1 Ht1 (proj1 (td_root _ _ _ _ _ Ht1))) as (nd & Hn & _ & _ & _ & _ & Hpar & _). cbn [parent_of] in Hpar.
  destruct fuel; [lia|]. cbn [root]. rewrite <- (mv_root _ _ _ _ _ _ _ _ Hmv). by rewrite (bind_Ret _ _ _ _ _ (get_node_run _ _ _ Hn)), Hpar.
Qed.

Lemma Bucket_spill_branchy fuel w b x D M :
  branchy w b x D M → roomy (splitThreshold (b_FillPercent x)) M = true → rounds_left M M < fuel →
  ∃ w' T, Bucket_spill fuel b w = (Ret None, w') ∧ settled w' b T ∧ contents T = contents (plain M) ∧ acts b w w'.
Proof.
  intros Hb Hroom Hf. pose proof (branchy_readable _ _ _ _ _ Hb) as Hr. pose proof (br_own _ _ _ _ _ Hb) as Ho.
  pose proof Ho as [Hc Hx HD [tx Htx]]. pose proof (proj1 (Bucket_spill_safe fuel w b Hc)) as He. unfold Bucket_spill in *.
  rewrite (bind_Ret _ _ _ _ _ (get_bkt_run _ _ _ Hx)) in He |- *. destruct (b_rootNode x) as [r|] eqn:Hbr.
  2:{ exists w, (plain M). split; [done|]. split; [split; [by exists x|apply Hb|]|split; [done|by apply acts_refl]].
      eapply mrep_keyed; [apply Hb|apply Hb|]. eapply shape_done; [apply Hb|]. pose proof (br_root _ _ _ _ _ Hb) as Hm. rewrite Hbr in Hm. by destruct Hm as [-> _]. }
  destruct (finalize_branchy fuel w b x D M r Hb Hbr Hroom Hf) as (-> & w1 & D1 & T1 & Hrun & Hrt & Hmv & Hp).
  rewrite (bind_Ret _ _ _ _ _ Hrun) in He |- *. pose proof Hmv as [Hg Hw Hfr Ht1 Hc1 _ _ Hroot]. set (x1 := set_b_dirty (Some D1) x) in *.
  rewrite (bind_Ret _ _ _ _ _ Hrt) in He |- *. pose proof (o_bkt _ _ _ _ (td_own _ _ _ _ _ Ht1)) as Hx1.
  rewrite (bind_Ret _ _ _ _ _ (upd_bkt_run _ _ _ _ Hx1)) in He |- *. eexists _, (plain T1). split; [done|].
  split; [split; [eexists; split; simpl|apply Ht1|eapply mrep_keyed; [apply Ht1|eapply good_shape, Ht1|done]]|split; [done|split]].
  - apply lookup_insert_eq.
  - simpl. destruct (strip_lookup _ _ _ _ (e_txs _ _ (g_evo _ _ _ _ _ _ Hg)) Htx) as (? & ? & _). eauto.
  - unfold rootView. simpl. by rewrite tloc_plain, Hroot.
  - by eapply mrep_rep, Ht1.
  - by eapply good_wf, Ht1.
  - exact He.
  - simpl. intros l' n' Hl' Hne. rewrite Hw; [done|by eapply s_fresh_n|]. intros HlD. destruct (own_node _ _ _ _ _ Ho HlD) as (n0 & ? & ?). congruence.
  - intros b' Hne. simpl. by rewrite lookup_insert_ne, (g_bkts _ _ _ _ _ _ Hg), lookup_insert_ne.
Qed.

Lemma Bucket_spill_ripe fuel w b x T :
  core w → ripe fuel w b x T →
  ∃ w' T', Bucket_spill fuel b w = (Ret None, w') ∧ settled w' b T' ∧ spilt T T' ∧ acts b w w'.
Proof.
  intros Hc [(l & kvs & -> & Hl & Hf)|(D & M & -> & Hb & _ & Hroom & Hf)].
  - destruct (Bucket_spill_leafy fuel w b x l kvs Hc Hl Hf) as (w' & T' & ? & ? & ? & ?). exists w', T'. by split_and!.
  - destruct (Bucket_spill_branchy fuel w b x D M Hb Hroom Hf) as (w' & T' & ? & ? & ? & ?). exists w', T'. split_and!; [done|done| |done].
    split; [done|]. by rewrite (br_branch _ _ _ _ _ Hb).
Qed.
