(* ===== verification/TreeBucket.v ===== *)
(** * Writing to buckets of several levels

    [Put] on a bucket whose tree has several levels copies the nodes from the
    root to the leaf, each with its separator and its new parent, so the bucket
    stays in the state a commit starts from ([Ripe.branchy]). *)
From S2P Require Import Prelude GoSort Stats World Node KV Tree TreePath Cursor CursorSpec Cow Bucket Spill Tx DB.
From S2P Require Import CowSpec BucketSpec Regroup Frame FrameSpill SpillSpec Marked MarkedPath SpillTree FinalizeTree Publish Isolation System TxSpec Directory LeafBucket Ripe.
Local Open Scope st_scope.

(** ** Copying one node *)

(** The transaction's own copy of a node. *)
Definition claim (l : loc) (t : mtree) : mtree :=
  match t with MLeaf _ _ kvs => MLeaf l Pending kvs | MBranch _ _ cs => MBranch l Pending cs end.

Lemma mloc_claim l t : mloc (claim l t) = l.
Proof. by destruct t. Qed.
Lemma mmark_claim l t : mmark (claim l t) = Pending.
Proof. by destruct t. Qed.
Lemma mhead_claim l t : mhead (claim l t) = mhead t.
Proof. by destruct t. Qed.
Lemma plain_claim l t : plain (claim l t) = set_tloc l (plain t).
Proof. by destruct t. Qed.
Lemma mlocs_claim l t : mlocs (claim l t) = l :: cslocs (mchildren t).
Proof. by destruct t. Qed.
Lemma mlocs_children t : mlocs t = mloc t :: cslocs (mchildren t).
Proof. by destruct t. Qed.

Lemma shape_claim lo hi l t : shape lo hi t → shape lo hi (claim l t).
Proof.
  destruct t as [l0 m kvs|l0 m cs]; [done|]. cbn [claim]. rewrite !shape_Branch. intros (H1 & H2 & H3 & H4 & H5). split_and!; auto.
  eapply Forall_impl; [exact H4|]. intros p (_ & _ & ?). by split_and!.
Qed.

Lemma unspilled_claim l t : unspilled t → unspilled (claim l t).
Proof. destruct t as [l0 m kvs|l0 m cs]; [done|]. cbn [claim]. rewrite !unspilled_Branch. by intros [_ ?]. Qed.

Lemma clean_children lo hi t : shape lo hi t → mmark t = Clean → Forall (λ p, mmark p.2 = Clean) (mchildren t).
Proof.
  intros Hs Hm. destruct t as [l m kvs|l m cs]; simpl in Hm |- *; [constructor|]. apply shape_Branch in Hs as (_ & _ & _ & Hmk & _).
  eapply Forall_impl; [exact Hmk|]. intros p (Hp & _). by apply Hp.
Qed.

(** The parent of a shared node is not looked at. *)
Lemma mrep_shared h D par par' key t : mmark t = Clean → mrep h D par key t → mrep h D par' key t.
Proof.
  destruct t as [l m kvs|l m cs]; intros Hm; simpl in Hm; subst m; [|rewrite !mrep_Branch]; [intros (n & Hn & Hl & Hk & HD)|intros [(n & Hn & Hl & Hk & HD) Hall]].
  - by exists n.
  - split; [|done]. by exists n.
Qed.

Lemma mrep_claim h h' D D' par par' key l' lo hi t o n' :
  mrep h D par key t → shape lo hi t → mmark t = Clean → h !! mloc t = Some o → h' !! l' = Some n' →
  n_isLeaf n' = n_isLeaf o → n_inodes n' = n_inodes o → n_key n' = n_key o → n_parent n' = par' → n_spilled n' = false → l' ∈ D' →
  (∀ l, l ∈ cslocs (mchildren t) → h' !! l = h !! l ∧ (l ∈ D' ↔ l ∈ D)) → mrep h' D' par' key (claim l' t).
Proof.
  intros Hrep Hsh Hm Ho Hn' H1 H2 H3 H4 H5 HD' Hfr. pose proof (clean_children _ _ _ Hsh Hm) as Hcl.
  destruct t as [l m kvs|l m cs]; simpl in Ho; cbn [claim].
  - destruct Hrep as (n & Hn & [Hl Hi] & Hk & _). simplify_eq. exists n'. split; [done|]. split; [split; congruence|]. split; [|done].
    intros k Hk'. rewrite H3. auto.
  - apply mrep_Branch in Hrep as [(n & Hn & [Hl Hi] & Hk & _) Hall]. simplify_eq. apply mrep_Branch. split.
    + exists n'. split; [done|]. split; [split; congruence|]. split; [|done]. intros k Hk'. rewrite H3. auto.
    + cbn [mchildren] in *. eapply mrep_list_frame; [exact Hfr|]. rewrite Forall_forall in Hall, Hcl |- *. intros p Hp.
      eapply mrep_shared; [by apply Hcl|by apply Hall].
Qed.

(** The whole tree after a node has been copied. *)
Lemma claim_hole h h' D C t l' o n' :
  mrep h D None None (fill C t) → shape None None (fill C t) → unspilled (fill C t) → NoDup (mlocs (fill C t)) →
  mmark t = Clean → match C with [] => True | f :: _ => fr_mark f = Pending end →
  (∀ l, l ∈ mlocs (fill C t) → l ≠ l') → l' ∉ D → h !! mloc t = Some o → h' !! l' = Some n' →
  n_isLeaf n' = n_isLeaf o → n_inodes n' = n_inodes o → n_key n' = n_key o → n_parent n' = parent_of C → n_spilled n' = false →
  (∀ l, l ∈ cslocs (mchildren t) → h' !! l = h !! l) → crep h' ({[l']} ∪ D) C l' →
  mrep h' ({[l']} ∪ D) None None (fill C (claim l' t)) ∧ shape None None (fill C (claim l' t)) ∧
  unspilled (fill C (claim l' t)) ∧ NoDup (mlocs (fill C (claim l' t))).
Proof.
  intros Hrep Hsh Hun Hnd Hm Hf Hfresh HlD Ho Hn' H1 H2 H3 H4 H5 Hfr Hc. pose proof (shape_fill _ _ Hsh) as Hst.
  apply mrep_fill in Hrep as [_ Hmr]. assert (Hloc : ∀ l, l ∈ cslocs (mchildren t) → l ≠ l').
  { intros l Hl. apply Hfresh. rewrite mlocs_fill, mlocs_children. apply elem_of_app. right. by right. }
  split_and!.
  - apply mrep_fill. rewrite mloc_claim. split; [done|]. eapply mrep_claim; eauto; [set_solver|].
    intros l Hl. split; [by apply Hfr|]. specialize (Hloc l Hl). set_solver.
  - eapply shape_refill; [exact Hsh|by apply shape_claim|]. destruct C as [|f C]; [done|]. unfold admits. rewrite Hf.
    constructor; [|constructor]. cbn [snd]. by rewrite mmark_claim.
  - eapply unspilled_refill; [exact Hun|by apply unspilled_claim, (unspilled_fill C)|]. destruct C as [|f C]; [done|].
    unfold at_head. cbn [fst snd]. rewrite mhead_claim, plain_claim. intros Hl. cbn [fill] in Hun.
    apply unspilled_fill, unspilled_Branch in Hun as [_ Hun]. apply Forall_app in Hun as [_ Hun]. apply Forall_cons in Hun as [[Hh _] _].
    apply Hh. cbn [snd]. by destruct (plain t).
  - rewrite mlocs_fill, mlocs_claim. rewrite mlocs_fill, mlocs_children in Hnd. setoid_rewrite mlocs_fill in Hfresh. rewrite mlocs_children in Hfresh.
    apply NoDup_app in Hnd as (Hnd1 & Hnd2 & Hnd3). apply NoDup_cons in Hnd3 as [_ Hnd3]. apply NoDup_app. split_and!; [done| |].
    + intros l Hl [->|Hl']%elem_of_cons; [|apply (Hnd2 l Hl); by right]. apply (Hfresh l'); [|done]. apply elem_of_app. by left.
    + apply NoDup_cons. split; [|done]. intros Hl. by apply (Hloc l').
Qed.

(** ** The descent *)

(** No node of the transaction waits to be rebalanced. *)
Definition balanced (w : world) (D : gset loc) : Prop := ∀ l n, l ∈ D → w_nodes w !! l = Some n → n_unbalanced n = false.

Lemma balanced_calm w D : balanced w D → calm w D.
Proof. intros Hb l n Hl Hn. unfold calm_node. by rewrite (Hb l n Hl Hn). Qed.

(** The copy [copyNode] makes of [o], with its parent. *)
Definition copy_of (b : bid) (par : option loc) (o : node) : node := mkNode (Some b) (n_isLeaf o) false false (n_key o) par (n_inodes o).

Lemma childAt_copies w b x D l n i ind c o :
  own w b x D → l ∈ D → w_nodes w !! l = Some n → n_isLeaf n = false → n_inodes n !! i = Some ind → i_child ind = Some c → c ∉ D →
  w_nodes w !! c = Some o →
  ∃ w', childAt l (Z.of_nat i) w = (Ret (w_nextn w), w') ∧ grown b x D w w' ({[w_nextn w]} ∪ D) ∧
    w_nodes w' = <[l := set_child (Z.of_nat i) (w_nextn w) n]> (<[w_nextn w := copy_of b (Some l) o]> (w_nodes w)).
Proof.
  intros Ho HlD Hn Hlf Hi Hc HcD Hco. pose proof Ho as [Hcr Hx HD _]. destruct (own_node _ _ _ _ _ Ho HlD) as (n0 & Hn0 & Hb).
  assert (n0 = n) as -> by congruence. pose proof (s_fresh_n _ Hcr _ _ Hn) as Hl. set (l' := w_nextn w) in *. assert (Hne : l' ≠ l) by lia.
  pose proof (proj1 (childAt_safe w b l (Z.of_nat i) Hcr (own_dirty _ _ _ _ _ Ho HlD))) as He.
  assert (Hrun : ∃ w', childAt l (Z.of_nat i) w = (Ret l', w') ∧ w_bkts w' = <[b := set_b_dirty (Some ({[l']} ∪ D)) x]> (w_bkts w) ∧
    w_nextn w' = Pos.succ l' ∧
    w_nodes w' = <[l := set_child (Z.of_nat i) l' n]> (<[l' := copy_of b (Some l) o]> (w_nodes w))).
  { unfold childAt. rewrite (bind_Ret _ _ _ _ _ (get_node_run _ _ _ Hn)), Hlf, Hb, (bind_Ret (st_deref (Some b)) _ w b w eq_refl).
    unfold childForWrite. rewrite (bind_Ret _ _ _ _ _ (get_node_run _ _ _ Hn)), (bind_Ret _ _ _ _ _ (st_index_nat _ _ _ w Hi)).
    rewrite (bind_Ret _ _ _ _ _ (get_bkt_run _ _ _ Hx)), Hc. unfold isDirty. rewrite HD, bool_decide_eq_false_2 by done.
    rewrite (bind_Ret (copyNode b c) _ w l' (new_node (copy_of b None o) w).2).
    2:{ unfold copyNode. by rewrite (bind_Ret _ _ _ _ _ (get_node_run _ _ _ Hco)). }
    simpl. erewrite bind_Ret by (apply upd_node_run; simpl; apply lookup_insert_eq).
    erewrite bind_Ret by (eapply mark_dirty_run; [simpl; exact Hx|exact HD]).
    erewrite bind_Ret by (apply upd_node_run; simpl; rewrite !lookup_insert_ne by done; exact Hn).
    eexists. split; [done|]. simpl. split_and!; [done|done|]. by rewrite insert_insert_eq. }
  destruct Hrun as (w' & Hrun & Hbk & Hnx & Hnodes). rewrite Hrun in He. exists w'. split; [done|]. split; [|done].
  split; [done|done|set_solver|lia].
Qed.

Lemma childAt_own w b x D l n i ind c :
  own w b x D → l ∈ D → w_nodes w !! l = Some n → n_isLeaf n = false → n_inodes n !! i = Some ind → i_child ind = Some c → c ∈ D →
  childAt l (Z.of_nat i) w = (Ret c, w).
Proof.
  intros Ho HlD Hn Hlf Hi Hc HcD. pose proof Ho as [Hcr Hx HD _]. destruct (own_node _ _ _ _ _ Ho HlD) as (n0 & Hn0 & Hb).
  assert (n0 = n) as -> by congruence.
  unfold childAt. rewrite (bind_Ret _ _ _ _ _ (get_node_run _ _ _ Hn)), Hlf, Hb, (bind_Ret (st_deref (Some b)) _ w b w eq_refl).
  unfold childForWrite. rewrite (bind_Ret _ _ _ _ _ (get_node_run _ _ _ Hn)), (bind_Ret _ _ _ _ _ (st_index_nat _ _ _ w Hi)).
  rewrite (bind_Ret _ _ _ _ _ (get_bkt_run _ _ _ Hx)), Hc. unfold isDirty. by rewrite HD, bool_decide_eq_true_2 by done.
Qed.

(** The bucket while it is being written: its root has been copied. *)
Record tilled (w : world) (b : bid) (x : Bucket) (D : gset loc) (M : mtree) : Prop := mkTilled {
  ti_branchy : branchy w b x D M;
  ti_root : is_Some (b_rootNode x);
  ti_balanced : balanced w D
}.

Lemma tilled_pending w b x D M : tilled w b x D M → mmark M = Pending ∧ b_rootNode x = Some (mloc M).
Proof.
  intros [[_ Hv _ _ _ _ _ Hroot] [r Hr] _]. rewrite Hr in Hroot. unfold rootView in Hv. rewrite Hr in Hv. by rewrite Hr, Hv.
Qed.

Lemma frame_node w b x D f C t :
  branchy w b x D (fill (f :: C) t) → fr_mark f = Pending →
  ∃ n, w_nodes w !! fr_loc f = Some n ∧ n_isLeaf n = false ∧ n_inodes n = frame_inodes f (mloc t) ∧ fr_loc f ∈ D ∧ n_parent n = parent_of C ∧
    n_inodes n !! length (fr_pre f) = Some (mkInode 0 (fr_key f) None (Some (mloc t))).
Proof.
  intros Hb Hm. pose proof (br_rep _ _ _ _ _ Hb) as [[(n & Hn & Hlf & Hi & Hmk) _] _]%mrep_fill. rewrite Hm in Hmk.
  destruct Hmk as (_ & HD & Hp & _). exists n. split_and!; auto. rewrite Hi. unfold frame_inodes.
  apply list_lookup_middle. by rewrite length_fmap; unfold plains; rewrite length_map.
Qed.

Lemma set_child_frame f c l' n :
  n_inodes n = frame_inodes f c → n_inodes (set_child (Z.of_nat (length (fr_pre f))) l' n) = frame_inodes f l'.
Proof.
  intros Hi. unfold set_child. simpl. rewrite Nat2Z.id, Hi. unfold frame_inodes.
  assert (Hlen : length (branch_inode <$> plains (fr_pre f)) = length (fr_pre f)) by (rewrite length_fmap; unfold plains; by rewrite length_map).
  rewrite (alter_lookup_insert _ _ _ (mkInode 0 (fr_key f) None (Some c))) by (apply list_lookup_middle; by rewrite Hlen).
  rewrite insert_app_r_alt by lia. by rewrite Hlen, Nat.sub_diag.
Qed.

(** A change of the tree below the root. *)
Lemma branchy_hole w w' b x D D' f C t t' :
  branchy w b x D (fill (f :: C) t) → is_Some (b_rootNode x) → grown b x D w w' D' →
  mrep (w_nodes w') D' None None (fill (f :: C) t') → shape None None (fill (f :: C) t') → unspilled (fill (f :: C) t') →
  NoDup (mlocs (fill (f :: C) t')) → branchy w' b (set_b_dirty (Some D') x) D' (fill (f :: C) t').
Proof.
  intros [Ho Hv Hrep Hs Hu Hnd Hbr Hroot] [r Hr] Hg H1 H2 H3 H4. rewrite Hr in Hroot.
  assert (Htop : mloc (fill (f :: C) t') = mloc (fill (f :: C) t)) by (cbn [fill]; by apply mloc_fill).
  assert (Hmark : ∀ C u u', mmark u = mmark u' → tleaf (plain u) = tleaf (plain u') →
    mmark (fill C u) = mmark (fill C u') ∧ tleaf (plain (fill C u)) = tleaf (plain (fill C u'))).
  { clear. intros C. induction C as [|g C IH]; intros u u' ? ?; [done|]. by apply IH. }
  destruct (Hmark C (wrap f t') (wrap f t) eq_refl eq_refl) as [Hm' Hl'].
  split; auto.
  - by eapply grown_own.
  - rewrite Htop. unfold rootView in *. simpl. by rewrite Hr in Hv |- *.
  - simpl. by rewrite Hl'.
  - simpl. rewrite Hr. by rewrite Hm'.
Qed.

Lemma tilled_child w b x D C f c :
  tilled w b x D (fill (f :: C) c) → fr_mark f = Pending →
  ∃ w' D' c', childAt (fr_loc f) (Z.of_nat (length (fr_pre f))) w = (Ret (mloc c'), w') ∧
    tilled w' b (set_b_dirty (Some D') x) D' (fill (f :: C) c') ∧ mmark c' = Pending ∧ (c' = c ∨ ∃ l', c' = claim l' c).
Proof.
  intros [Hb Hr Hbal] Hf. pose proof (br_own _ _ _ _ _ Hb) as Ho. destruct (frame_node _ _ _ _ _ _ _ Hb Hf) as (n & Hn & Hlf & Hi & HlD & Hpar & Hind).
  pose proof Hb as [_ Hv Hrep Hs Hu Hnd Hbr Hroot]. pose proof Hrep as [Hcr Hmr]%mrep_fill.
  destruct (mrep_node _ _ _ _ _ Hmr) as (o & Hco & _ & _ & _ & Hmk). destruct (decide (mmark c = Pending)) as [Hp|Hp].
  { rewrite Hp in Hmk. destruct Hmk as (HcD & _). exists w, D, c.
    rewrite set_b_dirty_id by apply Ho. split_and!; [|done|done|by left]. by eapply childAt_own. }
  assert (Hcl : mmark c = Clean).
  { apply unspilled_fill in Hu. destruct c as [l m kvs|l m cs]; [|apply unspilled_Branch in Hu as [Hu _]]; simpl in *; by destruct m. }
  rewrite Hcl in Hmk. destruct (childAt_copies w b x D (fr_loc f) n (length (fr_pre f)) _ (mloc c) o Ho HlD Hn Hlf Hind eq_refl Hmk Hco)
    as (w' & Hrun & Hg & Hnodes). set (l' := w_nextn w) in *. exists w', ({[l']} ∪ D), (claim l' c). rewrite mloc_claim, mmark_claim.
  pose proof (o_core _ _ _ _ Ho) as Hcore.
  assert (Hlt : ∀ l, l ∈ mlocs (fill (f :: C) c) → (l < l')%positive) by (intros l Hl; eapply (tlocs_fresh w b x D (plain (fill (f :: C) c))); [exact Ho|by eapply mrep_rep|exact Hl]).
  assert (HDlt : ∀ l, l ∈ D → (l < l')%positive).
  { intros l Hl. destruct (own_node _ _ _ _ _ Ho Hl) as (m & Hm & _). by eapply s_fresh_n. }
  assert (Hlf_lt : (fr_loc f < l')%positive) by (by apply HDlt).
  assert (Hkeep : ∀ l, l ∈ mlocs (fill (f :: C) c) → l ≠ fr_loc f → w_nodes w' !! l = w_nodes w !! l ∧ (l ∈ {[l']} ∪ D ↔ l ∈ D)).
  { intros l Hl Hne. specialize (Hlt l Hl). rewrite Hnodes, lookup_insert_ne, lookup_insert_ne by (done || lia). split; [done|].
    rewrite elem_of_union, elem_of_singleton. split; [|tauto]. intros [->|?]; [lia|done]. }
  pose proof Hnd as Hnd'. cbn [fill] in Hnd'. rewrite mlocs_fill, mlocs_wrap in Hnd'. apply NoDup_app in Hnd' as (_ & HndC & Hnd').
  apply NoDup_cons in Hnd' as [Hndf Hnd'].
  assert (Hin : ∀ l, l ∈ flocs C ∨ l ∈ cslocs (fr_pre f ++ fr_post f) ∨ l ∈ mlocs c → l ∈ mlocs (fill (f :: C) c) ∧ l ≠ fr_loc f).
  { intros l Hl. cbn [fill]. rewrite mlocs_fill, mlocs_wrap. split; [set_solver|]. intros ->. destruct Hl as [Hl|Hl]; [apply (HndC _ Hl); by left|].
    apply Hndf. set_solver. }
  destruct (claim_hole (w_nodes w) (w_nodes w') D (f :: C) c l' o (copy_of b (Some (fr_loc f)) o)) as (H1 & H2 & H3 & H4); auto.
  - intros l Hl. specialize (Hlt l Hl). lia.
  - intros HlD'. specialize (HDlt _ HlD'). lia.
  - rewrite Hnodes, lookup_insert_ne, lookup_insert_eq; [done|lia].
  - intros l Hl. destruct (Hin l) as [Hl1 Hl2]; [right; right; rewrite mlocs_children; by right|]. by apply Hkeep.
  - destruct Hcr as [(n0 & Hn0 & _ & _ & Hfm) [Hsib Hcr]]. assert (n0 = n) as -> by congruence. split_and!.
    + eexists. rewrite Hnodes, lookup_insert_eq. split; [done|]. split; [done|]. split; [by eapply set_child_frame|].
      rewrite Hf in Hfm |- *. destruct Hfm as (Hk & HD & ? & ?). split; [done|]. split; [set_solver|done].
    + eapply mrep_list_frame; [|exact Hsib]. intros l Hl. destruct (Hin l) as [Hl1 Hl2]; [by right; left|]. by apply Hkeep.
    + eapply crep_frame; [|exact Hcr]. intros l Hl. destruct (Hin l) as [Hl1 Hl2]; [by left|]. by apply Hkeep.
  - split_and!; [done| |done|by right; exists l']. split; [by eapply branchy_hole|done|].
    intros l m. rewrite Hnodes. intros [->%elem_of_singleton|Hl]%elem_of_union.
    + rewrite lookup_insert_ne, lookup_insert_eq by lia. by intros [= <-].
    + rewrite lookup_insert. case_decide; [intros [= <-]; subst; exact (Hbal _ _ HlD Hn)|]. rewrite lookup_insert_ne; [by apply Hbal|].
      specialize (HDlt l Hl). lia.
Qed.

Lemma erase_fill C : ∀ t t', erase (plain t) = erase (plain t') → erase (plain (fill C t)) = erase (plain (fill C t')).
Proof.
  induction C as [|[l m pre k post] C IH]; intros t t' H; simpl; [done|]. apply IH. unfold wrap. simpl. f_equal.
  rewrite !map_app. simpl. by rewrite H.
Qed.

Lemma erase_claim l t : erase (plain (claim l t)) = erase (plain t).
Proof. rewrite plain_claim. apply erase_set_tloc. Qed.

(** [Cursor.node] goes down the path, copying. *)
Lemma tilled_descend b p : ∀ refs w x D C t lf kvs,
  e_index <$> refs = Z.of_nat <$> p → tilled w b x D (fill C t) → mmark t = Pending → at_path (plain t) p = Some (Leaf lf kvs) →
  ∃ w' D' C' lf', cow_path (mloc t) refs w = (Ret lf', w') ∧
    tilled w' b (set_b_dirty (Some D') x) D' (fill (C' ++ C) (MLeaf lf' Pending kvs)) ∧
    cpath (C' ++ C) = cpath C ++ p ∧ erase (plain (fill (C' ++ C) (MLeaf lf' Pending kvs))) = erase (plain (fill C t)).
Proof.
  induction p as [|i p IH]; intros refs w x D C t lf kvs Href Ht Hm Hat.
  { destruct refs; [|done]. destruct t as [l m kvs'|]; simpl in Hat; [|done]. simplify_eq/=. exists w, D, [], lf.
    rewrite set_b_dirty_id by apply (br_own _ _ _ _ _ (ti_branchy _ _ _ _ _ Ht)). by rewrite app_nil_r. }
  destruct refs as [|ref refs]; [done|]. injection Href as Hidx Href. destruct t as [|l m cs]; [done|]. simpl in Hm. subst m.
  cbn [plain at_path] in Hat. change (map ?f cs) with (f <$> cs) in Hat. rewrite list_lookup_fmap in Hat.
  destruct (cs !! i) as [[k c]|] eqn:Hi; [|done]. simpl in Hat. set (f := mkFrame l Pending (take i cs) k (drop (S i) cs)).
  assert (Hfill : fill C (MBranch l Pending cs) = fill (f :: C) c) by (simpl; unfold wrap; simpl; by rewrite (take_drop_middle _ _ _ Hi)).
  assert (Hlen : length (fr_pre f) = i) by (simpl; apply length_take_le; apply lookup_lt_Some in Hi; lia).
  rewrite Hfill in Ht. destruct (tilled_child _ _ _ _ _ _ _ Ht eq_refl) as (w1 & D1 & c1 & Hrun & Ht1 & Hm1 & Hcase). rewrite Hlen in Hrun.
  assert (∃ lf1, at_path (plain c1) p = Some (Leaf lf1 kvs)) as [lf1 Hat1].
  { destruct Hcase as [->|(l' & ->)]; [eauto|]. rewrite plain_claim. by eapply at_path_set_tloc. }
  destruct (IH refs w1 _ D1 (f :: C) c1 lf1 kvs Href Ht1 Hm1 Hat1) as (w2 & D2 & C2 & lf2 & Hrun2 & Ht2 & Hp2 & He2).
  exists w2, D2, (C2 ++ [f]), lf2. rewrite <- app_assoc. cbn [app]. split_and!; [|exact Ht2| |].
  - cbn [cow_path mloc]. destruct (frame_node _ _ _ _ _ _ _ (ti_branchy _ _ _ _ _ Ht) eq_refl) as (n & Hn & Hlf & _). simpl in Hn.
    rewrite (bind_Ret _ _ _ _ _ (get_node_run _ _ _ Hn)), Hlf. change (Assert (negb false)) with (st_ret (S:=world) tt).
    rewrite (bind_Ret (st_ret tt) _ w tt w eq_refl), Hidx. by rewrite (bind_Ret _ _ _ _ _ Hrun).
  - by rewrite Hp2, cpath_cons, <- app_assoc, Hlen.
  - rewrite He2, Hfill. apply erase_fill. destruct Hcase as [->|(l' & ->)]; [done|apply erase_claim].
Qed.

(** [writableRoot] copies the root of a bucket that has not been written yet. *)
Lemma tilled_root w b x D M :
  branchy w b x D M → balanced w D →
  ∃ w' D' M', writableRoot b w = (Ret (mloc M'), w') ∧
    tilled w' b (set_b_rootNode (Some (mloc M')) (set_b_dirty (Some D') x)) D' M' ∧ (M' = M ∨ ∃ l', M' = claim l' M).
Proof.
  intros Hb Hbal. pose proof Hb as [Ho Hv Hrep Hs Hu Hnd Hbr Hroot]. pose proof Ho as [Hc Hx HD [tx Htx]].
  destruct (b_rootNode x) as [r|] eqn:Hr.
  { exists w, D, M. unfold rootView in Hv. rewrite Hr in Hv. injection Hv as ->.
    assert (set_b_rootNode (Some (mloc M)) (set_b_dirty (Some D) x) = x) as -> by (destruct x; simpl in *; by simplify_eq).
    split_and!; [|split; [done|by rewrite Hr|done]|by left]. unfold writableRoot. by rewrite (bind_Ret _ _ _ _ _ (get_bkt_run _ _ _ Hx)), Hr. }
  destruct Hroot as [Hm ->]. destruct (mrep_node _ _ _ _ _ Hrep) as (o & Hco & _). set (l' := w_nextn w).
  assert (Hlt : ∀ l, l ∈ mlocs M → (l < l')%positive) by (intros l Hl; eapply tlocs_fresh; [exact Ho|by eapply mrep_rep|exact Hl]).
  pose proof (proj1 (writableRoot_safe w b Hc ltac:(intros x' Hx'; simplify_eq; eauto))) as He.
  assert (Hrun : writableRoot b w = (Ret l', set_bkts (<[b := set_b_rootNode (Some l') (set_b_dirty (Some ({[l']} ∪ ∅)) x)]> (w_bkts w))
    (new_node (copy_of b None o) w).2)).
  { unfold writableRoot. rewrite (bind_Ret _ _ _ _ _ (get_bkt_run _ _ _ Hx)), Hr, (bind_Ret st_get _ w w w eq_refl).
    unfold rootView in Hv. rewrite Hr in Hv. destruct (baseState w x) as [[[r|]]|]; try done. simpl in Hv. injection Hv as ->.
    rewrite (bind_Ret (copyNode b (mloc M)) _ w l' (new_node (copy_of b None o) w).2).
    2:{ unfold copyNode. by rewrite (bind_Ret _ _ _ _ _ (get_node_run _ _ _ Hco)). }
    simpl. erewrite bind_Ret by (eapply mark_dirty_run; [simpl; exact Hx|exact HD]).
    erewrite bind_Ret by (apply upd_bkt_run; simpl; apply lookup_insert_eq). unfold st_ret, set_bkts. simpl. by rewrite insert_insert_eq. }
  rewrite Hrun in He. simpl in He. eexists _, ({[l']} ∪ ∅), (claim l' M). rewrite mloc_claim.
  split_and!; [exact Hrun| |right; by exists l'].
  destruct (claim_hole (w_nodes w) (<[l' := copy_of b None o]> (w_nodes w)) ∅ [] M l' o (copy_of b None o)) as (H1 & H2 & H3 & H4); auto.
  { intros l Hl. specialize (Hlt l Hl). lia. } { set_solver. } { apply lookup_insert_eq. }
  { intros l Hl. rewrite lookup_insert_ne; [done|]. specialize (Hlt l). rewrite mlocs_children in Hlt. intros <-. specialize (Hlt ltac:(by right)). lia. }
  { done. }
  split; [split; simpl; auto|by eexists|].
  - split; simpl; [apply He|apply lookup_insert_eq|done|eauto].
  - unfold rootView. simpl. by rewrite mloc_claim.
  - rewrite plain_claim. by destruct (plain M).
  - by rewrite mmark_claim.
  - intros l n Hl. assert (l = l') as -> by set_solver. simpl. rewrite lookup_insert_eq. by intros [= <-].
Qed.

(** [Cursor.node] at the place a search for [key] has found. *)
Lemma tilled_node w b x D M key s r :
  branchy w b x D M → balanced w D → found (plain M) key s r →
  ∃ w' x' D' C lf kvs, Cursor_node b s w = (Ret lf, w') ∧ tilled w' b x' D' (fill C (MLeaf lf Pending kvs)) ∧ Forall (leads key) C ∧
    b_tx x' = b_tx x ∧ b_name x' = b_name x ∧ b_FillPercent x' = b_FillPercent x.
Proof.
  intros Hb Hbal (l & kvs & _ & (i & s' & -> & Hidx & Hat & Hpo) & _). unfold Cursor_node.
  change (Assert (0 <? length (mkRef (Some l) i :: s'))) with (st_ret (S:=world) tt). rewrite (bind_Ret (st_ret tt) _ w tt w eq_refl).
  destruct (tilled_root w b x D M Hb Hbal) as (w1 & D1 & M1 & Hrun1 & Ht1 & Hcase). rewrite (bind_Ret _ _ _ _ _ Hrun1). cbn [tail].
  assert (∃ lf1, at_path (plain M1) (path_of s') = Some (Leaf lf1 kvs)) as [lf1 Hat1].
  { destruct Hcase as [->|(l' & ->)]; [eauto|]. rewrite plain_claim. by eapply at_path_set_tloc. }
  assert (He1 : erase (plain M1) = erase (plain M)) by (destruct Hcase as [->|(l' & ->)]; [done|apply erase_claim]).
  destruct (tilled_descend b (path_of s') (reverse s') w1 _ D1 [] M1 lf1 kvs Hidx Ht1 (proj1 (tilled_pending _ _ _ _ _ Ht1)) Hat1)
    as (w2 & D2 & C & lf & Hrun2 & Ht2 & Hp & He2). rewrite app_nil_r in *. rewrite (bind_Ret _ _ _ _ _ Hrun2).
  pose proof (br_rep _ _ _ _ _ (ti_branchy _ _ _ _ _ Ht2)) as [_ (n & Hn & [Hlf _] & _)]%mrep_fill.
  rewrite (bind_Ret _ _ _ _ _ (get_node_run _ _ _ Hn)), Hlf. change (Assert true) with (st_ret (S:=world) tt).
  rewrite (bind_Ret (st_ret tt) _ w2 tt w2 eq_refl). eexists w2, _, D2, C, lf, kvs. split_and!; [done|exact Ht2| |done|done|done].
  apply (leads_fill key C (MLeaf lf Pending kvs)). rewrite Hp. change (cpath []) with (@nil nat). cbn [app].
  eapply path_ok_erase_eq; [|exact Hpo]. by rewrite He2.
Qed.

(** Writing the leaf that has been copied. *)
Lemma tilled_write w w' b x D C lf kvs kvs' n n' :
  tilled w b x D (fill C (MLeaf lf Pending kvs)) → w_nodes w !! lf = Some n → leaf_node kvs' n' →
  n_parent n' = n_parent n → n_spilled n' = n_spilled n → n_key n' = n_key n → n_unbalanced n' = n_unbalanced n →
  shape (bounds C).1 (bounds C).2 (MLeaf lf Pending kvs') →
  grown b x D w w' D → w_nodes w' = <[lf := n']> (w_nodes w) → tilled w' b x D (fill C (MLeaf lf Pending kvs')).
Proof.
  intros [Hb Hr Hbal] Hn Hln H1 H2 H3 H4 Hs' Hg Hnodes. pose proof Hb as [Ho Hv Hrep Hs Hu Hnd Hbr Hroot].
  destruct C as [|f C]; [done|]. assert (Hx : set_b_dirty (Some D) x = x) by apply set_b_dirty_id, Ho.
  assert (Hne : ∀ l, l ∈ flocs (f :: C) → l ≠ lf).
  { intros l Hl ->. rewrite mlocs_fill in Hnd. apply NoDup_app in Hnd as (_ & Hnd & _). apply (Hnd _ Hl). by left. }
  assert (Hlocs : mlocs (fill (f :: C) (MLeaf lf Pending kvs')) ≡ₚ mlocs (fill (f :: C) (MLeaf lf Pending kvs))) by (by rewrite !mlocs_fill).
  apply mrep_fill in Hrep as [Hcr (n0 & Hn0 & _ & Hk & HD & Hp & Hsp)]. assert (n0 = n) as -> by congruence.
  pose proof (shape_fill _ _ Hs) as Hs0. split; [|done|].
  - rewrite <- Hx. eapply branchy_hole; [exact Hb|done|done| | | |].
    + apply mrep_fill. split.
      * eapply crep_frame; [|exact Hcr]. intros l Hl. split; [|done]. rewrite Hnodes, lookup_insert_ne; [done|]. intros <-. by apply (Hne _ Hl).
      * exists n'. rewrite Hnodes, lookup_insert_eq. split; [done|]. split; [done|]. split; [intros k Hk'; rewrite H3; auto|]. split_and!; congruence.
    + eapply shape_refill; [exact Hs|exact Hs'|]. unfold admits. constructor; [|constructor]. cbn [snd mmark].
      cbn [fill] in Hs. apply shape_fill, shape_Branch in Hs as (_ & _ & _ & Hmk & _). apply Forall_app in Hmk as [_ Hmk].
      apply Forall_cons in Hmk as [(Hm1 & Hm2 & _) _]. by split_and!.
    + eapply unspilled_refill; [exact Hu|done|]. by intros ?.
    + by rewrite Hlocs.
  - intros l m Hl. rewrite Hnodes, lookup_insert. case_decide; [intros [= <-]; subst; rewrite H4; by eapply Hbal|by apply Hbal].
Qed.

(** ** Put *)

Lemma branchy_bview w b x D M : branchy w b x D M → writing w x → bview w b x D (plain M) ∧ b_dirty x = Some D.
Proof.
  intros Hb Hw. pose proof (branchy_readable _ _ _ _ _ Hb) as Hr. destruct Hb as [Ho Hv Hrep Hs Hu Hnd Hbr Hroot].
  pose proof Ho as [Hc Hx HD _]. split; [|done]. split; [done|eapply owner_core; done|done| |done]. intros r Hr'.
  rewrite Hr' in Hroot. unfold rootView in Hv. rewrite Hr' in Hv. injection Hv as ->.
  destruct (mrep_node _ _ _ _ _ Hrep) as (n & _ & _ & _ & _ & Hmk). rewrite Hroot in Hmk. by destruct Hmk.
Qed.

Lemma insert_shape lo hi l key value kvs :
  within lo hi key → shape lo hi (MLeaf l Pending kvs) → shape lo hi (MLeaf l Pending (kv_insert key value kvs)).
Proof.
  intros Hk (Hne & Hs & Hw). split_and!; [|by apply kv_insert_sorted|].
  - destruct kvs as [|[k v] kvs]; simpl; repeat case_match; done.
  - rewrite Forall_forall in Hw |- *. intros y [->|Hy]%elem_of_keys_insert; auto.
Qed.

Lemma Put_branchy fuel w b x D M key value :
  sane w → branchy w b x D M → balanced w D → writing w x → tsize (plain M) ≤ fuel →
  (0 < blen key ≤ MaxKeySize)%Z → (blen value ≤ MaxValueSize)%Z →
  ∃ w' x' D' M', Put fuel b key value w = (Ret None, w') ∧ branchy w' b x' D' M' ∧ balanced w' D' ∧ writing w' x' ∧ is_Some (b_rootNode x') ∧
    contents (plain M') = kv_insert key value (contents (plain M)) ∧ tsize (plain M') = tsize (plain M) ∧ acts b w w' ∧
    b_tx x' = b_tx x ∧ b_name x' = b_name x ∧ b_FillPercent x' = b_FillPercent x.
Proof.
  intros Hs Hb Hbal Hopen Hf Hk Hval. destruct (branchy_bview _ _ _ _ _ Hb Hopen) as [Hv HD]. pose proof (o_core _ _ _ _ (br_own _ _ _ _ _ Hb)) as Hc.
  pose proof (bv_read _ _ _ _ _ Hv) as [Hx [tx Htx] _ _ _]. destruct (Hopen tx Htx) as [Hdb Hwr].
  destruct (Put_run fuel b key value w x D _ Hv Hf Hk Hval) as (w' & T' & HP & [(x2 & D2 & Hv2 & Hcow & Htx2 & Hnm2) Hsz _] & Hcont).
  pose proof (Put_acts fuel w b x D _ key value w' Hs Hv HD Hf Hk Hval HP) as Ha.
  pose proof (count_cursor_cow b _ _ _ ∅ Htx) as Hcc. set (w1 := count_cursor (b_tx x) tx w) in *.
  assert (Hc1 : core w1).
  { apply (safe_tx_stat w (b_tx x) (IncCursorCount 1)) in Hc as [He _]. unfold tx_stat in He. rewrite (upd_tx_run _ _ _ _ Htx) in He. apply He. }
  assert (Hb1 : branchy w1 b x D M) by (eapply (branchy_strip w w1); [exact Hc1|done|done|apply Hcc|exact Hb]).
  destruct (write_seek fuel b key w x D _ tx Hv Htx Hf) as (r & s & Hw & Hfd). assert (Hk0 : key ≠ []) by (apply blen_pos; lia).
  destruct (tilled_node w1 b x D M key s r Hb1 Hbal Hfd) as (w2 & x3 & D3 & C & lf & kvs & Hrun & Ht & Hleads & Hx3t & Hx3n & Hx3f).
  pose proof (ti_branchy _ _ _ _ _ Ht) as Hb3. pose proof (br_own _ _ _ _ _ Hb3) as Ho3.
  pose proof (br_rep _ _ _ _ _ Hb3) as [_ (n & Hn & Hln & _ & HlD & _)]%mrep_fill. simpl in Hn, HlD.
  pose proof (proj1 (put_at_safe w2 b lf key key (Some value) None 0 (o_core _ _ _ _ Ho3) (own_dirty _ _ _ _ _ Ho3 HlD) ltac:(done))) as He.
  rewrite (put_at_run key value lf n w2 Hk0 Hn) in He. simpl in He.
  set (w3 := set_nodes (<[lf := set_n_inodes (inodes_put key key (Some value) None 0 (n_inodes n)) n]> (w_nodes w2)) w2) in *.
  assert (Hg : grown b x3 D3 w2 w3 D3).
  { split; [exact He| |done|done]. by rewrite set_b_dirty_id, insert_id by apply Ho3. }
  pose proof (br_shape _ _ _ _ _ Hb3) as Hsh. pose proof (shape_fill _ _ Hsh) as Hsl.
  assert (Ht3 : tilled w3 b x3 D3 (fill C (MLeaf lf Pending (kv_insert key value kvs)))).
  { eapply (tilled_write w2 w3 b x3 D3 C lf kvs _ n (set_n_inodes (inodes_put key key (Some value) None 0 (n_inodes n)) n)); [exact Ht|exact Hn| |done|done|done|done| |exact Hg|done].
    - destruct Hln as [Hl Hi]. split; [done|]. simpl. rewrite Hi, inodes_put_leaf; [done|]. by destruct Hsl as (_ & ? & _).
    - apply insert_shape; [|exact Hsl]. eapply within_bounds; [exact Hsh|apply Hb3|done|done]. }
  assert (w' = w3) as ->.
  { revert HP. unfold Put. rewrite (bind_Ret _ _ _ _ _ (get_bkt_run _ _ _ Hx)), (bind_Ret _ _ _ _ _ (get_tx_run _ _ _ Htx)), Hdb, Hwr.
    change (negb true) with false. cbv iota. destruct (Z.eqb_spec (blen key) 0); [lia|].
    destruct (Z.ltb_spec MaxKeySize (blen key)); [lia|]. destruct (Z.ltb_spec MaxValueSize (blen value)); [lia|].
    rewrite (bind_Ret _ _ _ _ _ (Bucket_Cursor_run _ _ _ _ Hx Htx)), (bind_Ret _ _ _ _ _ Hw), (bind_Ret _ _ _ _ _ Hrun).
    rewrite (bind_Ret _ _ _ _ _ (put_at_run key value lf n w2 Hk0 Hn)). by intros [= <-]. }
  destruct Ht3 as [Hb4 Hr4 Hbal4]. pose proof (branchy_readable _ _ _ _ _ Hb4) as Hr4'.
  pose proof (readable_tree _ _ _ _ _ _ Hr4' (bv_read _ _ _ _ _ Hv2)) as Hceq.
  eexists w3, x3, D3, _. split_and!; [done|exact Hb4|exact Hbal4| |exact Hr4|by rewrite Hceq|by rewrite Hceq|exact Ha|done|done|done].
  unfold writing. rewrite Hx3t. exact (writing_strip _ _ _ (e_txs _ _ (a_evo _ _ _ Ha)) Hopen).
Qed.
