(* ===== verification/CommitSpec.v ===== *)
(** * Commit publishes what the transaction saw

    A commit of a transaction whose opened buckets are [ripe]: it returns nil, and
    the state it publishes stores, for every bucket the transaction saw, exactly
    the pairs it saw there.  Leaves that have grown are split on the way, at any
    level of the tree. *)
From S2P Require Import Prelude GoSort Stats World Node KV Tree TreePath Cursor CursorSpec Cow Bucket Spill Tx DB.
From S2P Require Import CowSpec BucketSpec Regroup Frame FrameSpill SpillSpec Marked SpillTree FinalizeTree Publish Isolation System TxSpec Directory LeafBucket Ripe.
Local Open Scope st_scope.

(** ** The loops of Commit *)

(** Every handle of [bs] can be finished, and shows a tree that [K] knows. *)
Definition all_ripe (fuel : nat) (K : bid → tree → Prop) (w : world) (bs : list bid) : Prop :=
  ∀ b, b ∈ bs → ∃ x T, ripe fuel w b x T ∧ K b T.

Lemma all_ripe_acts fuel K w w' bs b :
  core w → acts b w w' → (∃ x T, ripe fuel w' b x T ∧ K b T) → all_ripe fuel K w bs → all_ripe fuel K w' bs.
Proof.
  intros Hc Ha Hb Hall b' Hb'. destruct (decide (b' = b)) as [->|Hne]; [done|].
  destruct (Hall b' Hb') as (x & T & Hr & HK). exists x, T. split; [by eapply ripe_acts|done].
Qed.

Lemma rebalance_all_ripe it fuel K all bs : ∀ w,
  fair it → core w → all_ripe fuel K w all → (∀ p : bytes * bid, p ∈ bs → p.2 ∈ all) →
  ∃ w', st_iter (λ p, Bucket_rebalance it fuel p.2) bs w = (Ret tt, w') ∧ evo w w' ∧ all_ripe fuel K w' all.
Proof.
  induction bs as [|[n b] bs IH]; intros w Hf Hc Hall Hin; simpl.
  { exists w. split; [done|]. split; [by apply evo_refl|done]. }
  destruct (Hall b) as (x & T & Hr & HK); [apply (Hin (n, b)); by left|].
  destruct (Bucket_rebalance_ripe it fuel w b x T Hf Hc Hr) as (w1 & Hrun & Hr1 & Ha).
  rewrite (bind_Ret _ _ _ _ _ Hrun). destruct (IH w1 Hf) as (w' & Hrun' & He & Hall').
  - apply Ha.
  - eapply all_ripe_acts; [exact Hc|exact Ha|eauto|exact Hall].
  - intros p Hp. apply Hin. by right.
  - exists w'. split; [done|]. split; [eapply evo_trans; [apply Ha|done]|done].
Qed.

Lemma spill_all_ripe fuel t K bs : ∀ w,
  core w → all_ripe fuel K w bs.*2 → NoDup bs.*2 →
  ∃ w', spill_all fuel t bs w = (Ret None, w') ∧ evo w w' ∧
    (∀ b, b ∈ bs.*2 → ∃ T0 T, settled w' b T ∧ spilt T0 T ∧ K b T0) ∧
    (∀ b T, b ∉ bs.*2 → settled w b T → settled w' b T).
Proof.
  induction bs as [|[n b] bs IH]; intros w Hc Hall Hnd; simpl.
  { exists w. split; [done|]. split; [by apply evo_refl|]. split; [by intros b ?%elem_of_nil|done]. }
  simpl in *. apply NoDup_cons in Hnd as [Hb Hnd]. destruct (Hall b) as (x & T0 & Hr & HK); [by left|].
  destruct (Bucket_spill_ripe fuel w b x T0 Hc Hr) as (w1 & T & Hrun & Hse & Hcont & Ha).
  rewrite (bind_Ret _ _ _ _ _ Hrun).
  destruct (IH w1) as (w' & Hrun' & He & Hdone & Hkeep); auto.
  - apply Ha.
  - intros b' Hb'. destruct (Hall b') as (x' & T' & Hr' & HK'); [by right|]. exists x', T'. split; [|done].
    eapply ripe_acts; [exact Hc|exact Ha| |done]. intros ->. done.
  - exists w'. split; [done|]. split; [eapply evo_trans; [apply Ha|done]|]. split.
    + intros b' [->|Hb']%elem_of_cons; [|by apply Hdone]. exists T0, T. split; [by apply Hkeep|done].
    + intros b' T' Hb' Hs'. apply Hkeep; [set_solver|]. eapply settled_acts; [exact Hc|exact Ha|set_solver|done].
Qed.

(** ** Publishing keeps the shape of every node *)

Lemma publishRoot_reshaped w b : core w → reshaped w (publishRoot b w).2.
Proof.
  intros Hc. unfold publishRoot. destruct (w_bkts w !! b) as [x|] eqn:Hx.
  2:{ unfold get_bkt, st_bind, st_get, st_deref. rewrite Hx. apply reshaped_refl. }
  rewrite (bind_Ret _ _ _ _ _ (get_bkt_run _ _ _ Hx)). destruct (b_rootNode x) as [r|] eqn:Hr; [|apply reshaped_refl].
  destruct (s_root _ Hc _ _ _ Hx Hr) as (y & D & Hy & HD & _). assert (y = x) as -> by congruence.
  destruct (detach_run w b x D Hc Hx HD) as (w' & Hrun & [Hn _ _]). rewrite (bind_Ret _ _ _ _ _ Hrun). simpl.
  intros l n Hl. rewrite Hn, Hl. case_decide; simpl; eauto.
Qed.

Lemma publish_all_reshaped del bs : ∀ w acc, core w → (∀ p : bytes * bid, p ∈ bs → is_Some (w_bkts w !! p.2)) →
  reshaped w (publish_all del bs acc w).2.
Proof.
  induction bs as [|[nm b] bs IH]; intros w acc Hc Hex; simpl; [apply reshaped_refl|].
  case_bool_decide; [apply IH; [done|set_solver]|]. destruct (Hex (nm, b)) as [x Hx]; [by left|]. simpl in Hx.
  destruct (publishRoot_run w b x Hc Hx) as (st & w1 & Hrun1 & Hi1 & _). pose proof (publishRoot_reshaped w b Hc) as Hr.
  rewrite Hrun1 in Hr. rewrite (bind_Ret _ _ _ _ _ Hrun1). eapply reshaped_trans; [exact Hr|]. apply IH; [apply Hi1|].
  intros p Hp. destruct (Hex p) as [y Hy]; [by right|]. destruct (i_bkts _ _ Hi1 _ _ Hy) as (? & ? & _). eauto.
Qed.

Lemma commit_tail_reshaped it t tx w :
  fair it → sane w → (∃ tx', w_txs w !! t = Some tx' ∧ strip tx' = strip tx) → t_db tx = true →
  reshaped w (commit_tail it t tx w).2.
Proof.
  intros [_ Hfb] Hs (tx' & Htx' & Hst) Hdb. destruct (strip_fields _ _ Hst) as (_ & Hdb' & Hba & Hbc). unfold commit_tail, base_buckets.
  destruct (t_base tx) as [st|]; [|apply reshaped_refl]. pose proof (sn_core _ Hs) as Hc.
  rewrite (bind_Ret _ _ w (ds_buckets st) w) by done. cbv zeta. set (bs := it_bkts it 2 (t_bctx tx)).
  assert (Hex : ∀ p, p ∈ bs → is_Some (w_bkts w !! p.2)).
  { intros [nm b] Hp. unfold bs in Hp. rewrite Hfb in Hp. apply elem_of_map_to_list in Hp.
    destruct (sn_bctx _ Hs _ tx' nm b Htx') as (x & Hx & _); [by rewrite Hbc|]. eauto. }
  destruct (publish_all_run (t_deleted tx) bs w (set_fold delete (ds_buckets st) (t_deleted tx)) Hc Hex)
    as (m & w3 & Hrun & _ & _ & Ht3 & _).
  { intros nm bs' r Hn. eapply (s_base _ Hc _ tx'); [done|exact Hba|]. eapply lookup_weaken; [exact Hn|]. apply set_fold_delete_sub. }
  pose proof (publish_all_reshaped (t_deleted tx) bs w (set_fold delete (ds_buckets st) (t_deleted tx)) Hc Hex) as Hr. rewrite Hrun in Hr.
  rewrite (bind_Ret _ _ _ _ _ Hrun). erewrite (bind_Ret (upd_db _) _ w3) by reflexivity.
  destruct (Tx_close_run (set_db (set_db_state (Some (mkDbState m)) (w_db w3)) w3) t tx') as (d & Hclose & _); [simpl; by rewrite Ht3|congruence|].
  rewrite (bind_Ret _ _ _ _ _ Hclose). erewrite bind_Ret by (apply get_tx_run; simpl; apply lookup_insert_eq). exact Hr.
Qed.

(** A commit releases the lock of the writer and leaves the mode of the database. *)
Lemma Tx_close_mode t w : db_readOnly (w_db (Tx_close t w).2) = db_readOnly (w_db w).
Proof.
  unfold Tx_close. destruct (w_txs w !! t) as [tx|] eqn:Ht; [|unfold get_tx, st_bind, st_get, st_deref; by rewrite Ht].
  rewrite (bind_Ret _ _ _ _ _ (get_tx_run _ _ _ Ht)). destruct (t_db tx); [|done]. simpl. destruct (t_writable tx).
  - erewrite bind_Ret by reflexivity. rewrite (upd_tx_run _ t _ tx) by exact Ht. simpl. by destruct (db_stats (w_db w)).
  - erewrite bind_Ret by reflexivity. rewrite (upd_tx_run _ t _ tx) by exact Ht. simpl. by destruct (db_stats (w_db w)).
Qed.

Lemma commit_tail_mode it t tx w :
  fair it → sane w → (∃ tx', w_txs w !! t = Some tx' ∧ strip tx' = strip tx) → t_db tx = true → t_writable tx = true → is_Some (t_base tx) →
  db_rwlock (w_db (commit_tail it t tx w).2) = false ∧ db_readOnly (w_db (commit_tail it t tx w).2) = db_readOnly (w_db w).
Proof.
  intros [_ Hfb] Hs (tx' & Htx' & Hst) Hdb Hw [st Hbase]. destruct (strip_fields _ _ Hst) as (Hw' & Hdb' & Hba & Hbc). unfold commit_tail, base_buckets.
  rewrite Hbase. pose proof (sn_core _ Hs) as Hc. rewrite (bind_Ret _ _ w (ds_buckets st) w) by done. cbv zeta. set (bs := it_bkts it 2 (t_bctx tx)).
  assert (Hex : ∀ p, p ∈ bs → is_Some (w_bkts w !! p.2)).
  { intros [nm b] Hp. unfold bs in Hp. rewrite Hfb in Hp. apply elem_of_map_to_list in Hp.
    destruct (sn_bctx _ Hs _ tx' nm b Htx') as (x & Hx & _); [by rewrite Hbc|]. eauto. }
  destruct (publish_all_run (t_deleted tx) bs w (set_fold delete (ds_buckets st) (t_deleted tx)) Hc Hex) as (m & w3 & Hrun & _ & _ & Ht3 & Hd3 & _).
  { intros nm bs' r Hn. eapply (s_base _ Hc _ tx'); [done|by rewrite Hba|]. eapply lookup_weaken; [exact Hn|]. apply set_fold_delete_sub. }
  rewrite (bind_Ret _ _ _ _ _ Hrun). erewrite (bind_Ret (upd_db _) _ w3) by reflexivity.
  destruct (Tx_close_run (set_db (set_db_state (Some (mkDbState m)) (w_db w3)) w3) t tx') as (d & Hclose & _ & _ & Hlk); [simpl; by rewrite Ht3|congruence|].
  pose proof (Tx_close_mode t (set_db (set_db_state (Some (mkDbState m)) (w_db w3)) w3)) as Hmode. rewrite Hclose in Hmode.
  rewrite (bind_Ret _ _ _ _ _ Hclose). erewrite bind_Ret by (apply get_tx_run; simpl; apply lookup_insert_eq). simpl in *.
  rewrite Hw', Hw in Hlk. by rewrite Hd3 in Hmode.
Qed.

(** ** What a state stores and what a transaction sees *)

(** The state [st] stores the pairs [kvs] under the bucket name [name], in a
    well-formed tree whose nodes know their separators. *)
Definition stored (w : world) (st : dbState) (name : bytes) (kvs : list kv) : Prop :=
  ∃ bs T, ds_buckets st !! name = Some (Some bs) ∧ bs_root bs = Some (tloc T) ∧
    rep (w_nodes w) T ∧ wf T ∧ NoDup (tlocs T) ∧ keyed (w_nodes w) T ∧ contents T = kvs.

(** The tree [T] is stored under [name]. *)
Definition stored_as (w : world) (st : dbState) (name : bytes) (T : tree) : Prop :=
  ∃ bs, ds_buckets st !! name = Some (Some bs) ∧ bs_root bs = Some (tloc T) ∧
    rep (w_nodes w) T ∧ wf T ∧ NoDup (tlocs T) ∧ keyed (w_nodes w) T.

Lemma stored_stored_as w st name kvs : stored w st name kvs ↔ ∃ T, stored_as w st name T ∧ contents T = kvs.
Proof.
  split.
  - intros (bs & T & H1 & H2 & H3 & H4 & H5 & H6 & H7). exists T. split; [|done]. exists bs. by split_and!.
  - intros (T & (bs & H1 & H2 & H3 & H4 & H5 & H6) & H7). exists bs, T. by split_and!.
Qed.

Lemma stored_as_same w w' st name T :
  (∀ l n, w_nodes w !! l = Some n → l ∈ tlocs T → w_nodes w' !! l = Some n) → stored_as w st name T → stored_as w' st name T.
Proof.
  intros Hn (bs & H1 & H2 & Hrep & H4 & H5 & H6). exists bs.
  assert (Hsame : ∀ l, l ∈ tlocs T → w_nodes w' !! l = w_nodes w !! l).
  { intros l Hl. destruct (rep_some _ _ _ Hrep Hl) as [n Hl'].
    by rewrite Hl', (Hn _ _ Hl' Hl). }
  split_and!; auto; [by eapply rep_frame|by eapply keyed_frame].
Qed.

(** A transaction sees the pairs [kvs] in bucket [name]: in its own handle if it
    has opened the bucket, else in the state it pinned. *)
Definition sees (w : world) (tx : Tx) (st : dbState) (name : bytes) (kvs : list kv) : Prop :=
  match t_bctx tx !! name with
  | Some b => ∃ x T, readable w b x T ∧ contents T = kvs
  | None => stored w st name kvs
  end.

(** A commit can finish the buckets the transaction has opened; [fuel] bounds the
    work on each. *)
Definition ripe_tx (fuel : nat) (w : world) (tx : Tx) : Prop :=
  ∀ name b, t_bctx tx !! name = Some b → ∃ x T, ripe fuel w b x T.

(** In particular when they are single leaves. *)
Lemma leafy_ripe fuel w b x l kvs : leafy w b x l kvs → length kvs + 2 ≤ fuel → ripe fuel w b x (Leaf l kvs).
Proof. left. eauto. Qed.

(** ** The statistics of a commit *)

Lemma stat_run w t f tx : core w → w_txs w !! t = Some tx →
  ∃ w', tx_stat t f w = (Ret tt, w') ∧ evo w w' ∧ w_nodes w' = w_nodes w ∧ w_bkts w' = w_bkts w.
Proof.
  intros Hc Ht. pose proof (proj1 (safe_tx_stat w t f Hc)) as He. unfold tx_stat in *. rewrite (upd_tx_run _ _ _ _ Ht) in He |- *.
  eexists. split; [done|]. by split_and!.
Qed.

Lemma settled_strip w w' b T :
  w_nodes w' = w_nodes w → w_bkts w' = w_bkts w → strip <$> w_txs w' = strip <$> w_txs w → settled w b T → settled w' b T.
Proof.
  intros Hn Hb Ht [[x [Hx [tx Htx] Hr Hrep Hwf]] Hnd Hk]. split; [|done|by rewrite Hn]. exists x. split.
  - by rewrite Hb.
  - destruct (strip_lookup _ _ _ _ Ht Htx) as (? & ? & _). eauto.
  - by rewrite (rootView_strip _ _ _ Ht).
  - by rewrite Hn.
  - done.
Qed.

Lemma settled_publish w b T : settled w b T → ∃ bs, publish_st w b = Some bs ∧ bs_root bs = Some (tloc T).
Proof.
  intros [[x [Hx _ Hr _ _]] _ _]. unfold publish_st. rewrite Hx. unfold rootView in Hr. destruct (b_rootNode x) as [r|].
  - injection Hr as ->. by eexists.
  - destruct (baseState w x) as [bs|]; [|done]. by exists bs.
Qed.

(** The tree the handle [b] shows. *)
Definition shows (w : world) (b : bid) (T : tree) : Prop := ∃ x, readable w b x T.

(** The loops of a commit, up to the point where it publishes. *)
Lemma Commit_loops it fuel rt sp t w tx :
  fair it → sane w → w_txs w !! t = Some tx → t_db tx = true → t_writable tx = true → t_managed tx = false →
  handles_ok w t tx → ripe_tx fuel w tx →
  ∃ w4, Commit it fuel rt sp t w = commit_tail it t tx w4 ∧ evo w w4 ∧
    (∀ name b, t_bctx tx !! name = Some b → ∃ T0 T, settled w4 b T ∧ spilt T0 T ∧ shows w b T0).
Proof.
  intros Hf Hs Ht Hdb Hw Hm Hh Hl. pose proof (sn_core _ Hs) as Hc.
  assert (Hin : ∀ k n b, (n, b) ∈ it_bkts it k (t_bctx tx) ↔ t_bctx tx !! n = Some b).
  { intros k n b. by rewrite (proj2 Hf k), elem_of_map_to_list. }
  set (all := (map_to_list (t_bctx tx)).*2).
  assert (Hfst : ∀ k b, b ∈ (it_bkts it k (t_bctx tx)).*2 ↔ b ∈ all).
  { intros k b. unfold all. by rewrite (proj2 Hf k). }
  assert (Hall : all_ripe fuel (shows w) w all).
  { intros b ([n b'] & -> & Hb)%list_elem_of_fmap. apply elem_of_map_to_list in Hb. destruct (Hl n b' Hb) as (x & T & Hr).
    exists x, T. split; [done|]. exists x. by eapply ripe_readable. }
  destruct (rebalance_all_ripe it fuel (shows w) all (it_bkts it 0 (t_bctx tx)) w Hf Hc Hall) as (w1 & Hrun1 & He1 & Hall1).
  { intros q Hq. apply (Hfst 0). by apply list_elem_of_fmap_2. }
  destruct (strip_lookup _ _ _ _ (e_txs _ _ He1) Ht) as (tx1 & Ht1 & Hst1).
  destruct (stat_run w1 t (IncRebalanceTime rt) tx1 (e_core _ _ He1) Ht1) as (w2' & Hrun2' & He2' & Hn2' & Hb2').
  assert (∃ w2, (let! tx := get_tx t in if (0 <? Rebalance (t_stats tx))%Z then tx_stat t (IncRebalanceTime rt) else st_ret tt) w1 = (Ret tt, w2) ∧
    evo w1 w2 ∧ w_nodes w2 = w_nodes w1 ∧ w_bkts w2 = w_bkts w1) as (w2 & Hrun2 & He2 & Hn2 & Hb2).
  { rewrite (bind_Ret _ _ _ _ _ (get_tx_run _ _ _ Ht1)). destruct (0 <? _)%Z; [by exists w2'|]. exists w1.
    split; [done|]. split; [apply evo_refl, He1|done]. }
  destruct (spill_all_ripe fuel t (shows w) (it_bkts it 1 (t_bctx tx)) w2 (e_core _ _ He2)) as (w3 & Hrun3 & He3 & Hdone & _).
  { intros b Hb. destruct (Hall1 b) as (x & T & Hr & HK); [by apply (Hfst 1)|]. exists x, T. split; [|done].
    eapply ripe_strip; [apply He2|exact Hn2|exact Hb2|apply He2|exact Hr]. }
  { apply (handles_injective w t tx Hh). apply (proj2 Hf). }
  assert (He13 : evo w w3) by (eapply evo_trans; [exact He1|]; eapply evo_trans; [exact He2|done]).
  destruct (strip_lookup _ _ _ _ (e_txs _ _ He13) Ht) as (tx3 & Ht3 & _).
  destruct (stat_run w3 t (IncSpillTime sp) tx3 (e_core _ _ He3) Ht3) as (w4 & Hrun4 & He4 & Hn4 & Hb4).
  exists w4. split; [|split; [by eapply evo_trans|]].
  - unfold Commit. rewrite (bind_Ret _ _ _ _ _ (get_tx_run _ _ _ Ht)), Hm. rewrite (bind_Ret (Assert (negb false)) _ w tt w eq_refl).
    rewrite Hdb, Hw. change (negb true) with false. cbv iota.
    rewrite (bind_Ret _ _ _ _ _ Hrun1), (bind_Ret _ _ _ _ _ Hrun2), (bind_Ret _ _ _ _ _ Hrun3), (bind_Ret _ _ _ _ _ Hrun4). done.
  - intros name b Hb. destruct (Hdone b) as (T0 & T & Hse & Hsp & Hsh).
    { apply list_elem_of_fmap. exists (name, b). split; [done|]. by apply Hin. }
    exists T0, T. split; [|done]. eapply settled_strip; [exact Hn4|exact Hb4|apply He4|exact Hse].
Qed.

(** The trees of a successful commit: an opened bucket is spilt, any other visible
    one is the one of the pinned state, and every frozen state keeps its trees. *)
Lemma Commit_trees it fuel rt sp t w tx st :
  fair it → sane w → dirs w → open_tx w t tx st → t_writable tx = true → t_managed tx = false → ripe_tx fuel w tx →
  ∃ w' st', Commit it fuel rt sp t w = (Ret None, w') ∧ db_state (w_db w') = Some st' ∧
    dom (ds_buckets st') = visible tx ∧
    (∀ name T, name ∈ visible tx →
       match t_bctx tx !! name with
       | Some b => shows w b T → ∃ T', spilt T T' ∧ stored_as w' st' name T'
       | None => stored_as w st name T → stored_as w' st' name T
       end) ∧
    (∀ st0 name T, st_frozen w st0 → stored_as w st0 name T → stored_as w' st0 name T) ∧
    (∃ tx', w_txs w' !! t = Some tx' ∧ t_db tx' = false) ∧
    db_rwlock (w_db w') = false ∧ db_readOnly (w_db w') = db_readOnly (w_db w).
Proof.
  intros Hf Hs Hd [Ht Hdb Hba Hok] Hw Hm Hl. pose proof (sn_core _ Hs) as Hc.
  destruct (dv_tx _ Hd _ _ Ht Hdb) as (st0 & Hst0 & _ & Hh). simplify_eq.
  destruct (Commit_loops it fuel rt sp t w tx Hf Hs Ht Hdb Hw Hm Hh Hl) as (w4 & Hrun & He & Hset).
  pose proof (sane_evo _ _ Hs He) as Hs4. pose proof (dirs_evo _ _ He Hd) as Hd4.
  pose proof (strip_lookup _ _ _ _ (e_txs _ _ He) Ht) as Htx4.
  pose proof (commit_tail_reshaped it t tx w4 Hf Hs4 Htx4 Hdb) as Hre.
  pose proof (commit_tail_mode it t tx w4 Hf Hs4 Htx4 Hdb Hw ltac:(eauto)) as [Hlock Hmode]. rewrite (e_db _ _ He) in Hmode.
  destruct (commit_tail it t tx w4) as [r w'] eqn:Htail. simpl in Hre, Hlock, Hmode.
  destruct (commit_tail_dir it t tx w4 r w' Hf Hs4 Hd4 Htx4 Hdb Htail) as (st1 & st' & Hst1 & -> & Hst' & [Hdom Hopened Hother _] & Hcl & _).
  simplify_eq. exists w', st'. split; [done|]. split; [done|]. split; [done|].
  assert (Hkeep : ∀ st1 name T, st_frozen w st1 → stored_as w st1 name T → stored_as w' st1 name T).
  { intros st2 name T Hfr (bs & Hbs & Hroot & Hrep & Hwf & Hnd & HK). exists bs.
    assert (Hsame : ∀ l, l ∈ tlocs T → w_nodes w4 !! l = w_nodes w !! l).
    { intros l Hlt. destruct (frozen_tree w T Hc Hrep (Hfr _ _ _ Hbs Hroot) l Hlt) as (n & Hn & Hnb). by rewrite (e_frozen _ _ He _ _ Hn Hnb), Hn. }
    pose proof (rep_frame _ _ _ Hsame Hrep) as Hrep4. split_and!; try done; [by eapply reshaped_rep|].
    eapply reshaped_keyed; [exact Hre|exact Hrep4|]. by eapply (keyed_frame (w_nodes w)). }
  split; [|split; [done|split; [|done]]].
  2:{ pose proof (c_iso _ _ (Commit_commits it fuel rt sp t w Hf Hs)) as Hi. rewrite Hrun in Hi. simpl in Hi.
      destruct (i_txs _ _ Hi _ _ Ht) as (tx' & Htx' & _). exists tx'. split; [done|]. destruct (t_db tx') eqn:E; [|done].
      by destruct (Hcl _ _ Htx' E) as [? _]. }
  intros name T Hv. destruct (t_bctx tx !! name) as [b|] eqn:Hb.
  - intros [x Hr]. destruct (Hset name b Hb) as (T0 & T' & Hse & Hsp & [x0 Hr0]). rewrite (readable_tree _ _ _ _ _ _ Hr0 Hr) in Hsp.
    destruct (settled_publish _ _ _ Hse) as (bs & Hbs & Hroot). destruct Hse as [[x4 [_ _ _ Hrep Hwf]] Hnd HK].
    exists T'. split; [done|]. exists bs. rewrite (Hopened _ _ Hb), Hbs. split_and!; try done; [by eapply reshaped_rep|by eapply reshaped_keyed].
  - intros Hst. destruct (Hkeep _ _ _ (s_base _ Hc _ _ _ Ht Hba) Hst) as (bs & Hbs & Hrest). exists bs. by rewrite (Hother _ Hv Hb).
Qed.

(** The pairs. *)
Lemma Commit_run it fuel rt sp t w tx st :
  fair it → sane w → dirs w → open_tx w t tx st → t_writable tx = true → t_managed tx = false → ripe_tx fuel w tx →
  ∃ w' st', Commit it fuel rt sp t w = (Ret None, w') ∧ db_state (w_db w') = Some st' ∧
    dom (ds_buckets st') = visible tx ∧
    (∀ name kvs, name ∈ visible tx → sees w tx st name kvs → stored w' st' name kvs) ∧
    (∀ st0 name kvs, st_frozen w st0 → stored w st0 name kvs → stored w' st0 name kvs) ∧
    (∃ tx', w_txs w' !! t = Some tx' ∧ t_db tx' = false).
Proof.
  intros H1 H2 H3 H4 H5 H6 H7. destruct (Commit_trees it fuel rt sp t w tx st H1 H2 H3 H4 H5 H6 H7) as (w' & st' & Hrun & Hst & Hdom & Hsee & Hkeep & Hcl & _).
  exists w', st'. split_and!; [done|done|done| | |done].
  - intros name kvs Hv. specialize (Hsee name). unfold sees. destruct (t_bctx tx !! name) as [b|].
    + intros (x & T & Hr & Hc). destruct (Hsee T Hv) as (T' & [Hc' _] & Hst'); [by exists x|]. apply stored_stored_as. exists T'. split; [done|congruence].
    + rewrite !stored_stored_as. intros (T & HT & Hc). exists T. split; [by apply Hsee|done].
  - intros st0 name kvs Hf. rewrite !stored_stored_as. intros (T & HT & Hc). exists T. split; [by apply Hkeep|done].
Qed.

(** C5. A commit publishes exactly what its transaction saw.  For a write
    transaction whose opened buckets are single leaves of any size, or trees of
    any height in which no node is to be merged and no branch outgrows its node,
    [Commit] returns nil, the buckets of the new state are the names the
    transaction sees, and each of them stores the pairs the transaction saw in
    it, in a well-formed tree; every earlier state still stores what it stored. *)
Theorem Commit_correct it fuel rt sp t w tx st :
  fair it → sane w → dirs w → open_tx w t tx st → t_writable tx = true → t_managed tx = false → ripe_tx fuel w tx →
  ∃ w' st', Commit it fuel rt sp t w = (Ret None, w') ∧ db_state (w_db w') = Some st' ∧
    dom (ds_buckets st') = visible tx ∧
    (∀ name kvs, name ∈ visible tx → sees w tx st name kvs → stored w' st' name kvs) ∧
    (∀ st0 name kvs, st_frozen w st0 → stored w st0 name kvs → stored w' st0 name kvs).
Proof.
  intros H1 H2 H3 H4 H5 H6 H7. destruct (Commit_run it fuel rt sp t w tx st H1 H2 H3 H4 H5 H6 H7) as (w' & st' & ? & ? & ? & ? & ? & _).
  exists w', st'. by split_and!.
Qed.

(** The keys "0", "1", ..., with 13,200 bytes each. *)
Definition ex_pair (i : nat) : kv := (match Byte.of_nat (48 + i) with Some c => [c] | None => [] end, replicate 13200 x00).
Definition ex_pairs (i n : nat) : list kv := ex_pair <$> seq i n.
Definition ex_put (b : bid) (i : nat) : call := CPut 99 b (ex_pair i).1 (ex_pair i).2.

(** A bucket is committed with ten of them, which makes it a tree of two levels; a
    second transaction opens it, puts six more, which fill its last leaf, and
    creates another bucket. *)
Definition ex_writing : world :=
  run_calls ([CBegin true; CCreateBucket 1 [x6e]] ++ (ex_put 1 <$> seq 0 10) ++
    [CCommit std_iteration 99 0 0 1; CBegin true; CBucket 2 [x6e]] ++ (ex_put 2 <$> seq 10 6) ++
    [CCreateBucket 2 [x6d]; CPut 99 3 [x7a] [x0a]]) (open_mem None empty_world).2.
Definition ex_tree : mtree :=
  MBranch 4 Pending [([x30], MLeaf 1 Clean (ex_pairs 0 4)); ([x34], MLeaf 5 Pending (ex_pairs 4 12))].
Definition ex_dirty : gset loc := {[4%positive; 5%positive]}.

Lemma ex_writing_reachable : reachable ex_writing.
Proof.
  exists None. apply run_calls_steps. repeat (apply Forall_app; split); try (apply Forall_fmap, Forall_forall; done);
    repeat constructor; apply std_iteration_fair.
Qed.

Lemma ex_writing_tx : ∃ tx, w_txs ex_writing !! 2%positive = Some tx ∧ t_db tx = true ∧ t_writable tx = true ∧ t_managed tx = false ∧
  map_to_list (t_bctx tx) ≡ₚ [([x6e], 2%positive); ([x6d], 3%positive)].
Proof.
  assert ((λ tx, (t_db tx, t_writable tx, t_managed tx, map_to_list (t_bctx tx))) <$> w_txs ex_writing !! 2%positive =
    Some (true, true, false, [([x6e], 2%positive); ([x6d], 3%positive)])) as H by (vm_compute; reflexivity).
  destruct (w_txs ex_writing !! 2%positive) as [tx|]; [|done]. exists tx. simpl in H. injection H as ? ? ? Hb. by rewrite Hb.
Qed.

Lemma ex_keys : keys (ex_pairs 0 4) = [[x30]; [x31]; [x32]; [x33]] ∧
  keys (ex_pairs 4 12) = [[x34]; [x35]; [x36]; [x37]; [x38]; [x39]; [x3a]; [x3b]; [x3c]; [x3d]; [x3e]; [x3f]].
Proof. split; vm_compute; reflexivity. Qed.

Lemma ex_tree_good : good (splitThreshold DefaultFillPercent) None None ex_tree.
Proof.
  destruct ex_keys as [H1 H2]. apply shape_good; [|vm_compute; reflexivity]. cbn [shape ex_tree]. rewrite H1, H2.
  repeat (split || constructor); try discriminate; intros H; discriminate H.
Qed.

Lemma elem_of_ex_dirty l : l ∈ ex_dirty ↔ l = 4%positive ∨ l = 5%positive.
Proof. unfold ex_dirty. set_solver. Qed.

Definition ex_root : node := mkNode (Some 2%positive) false false false [] None
  [mkInode 0 [x30] None (Some 1%positive); mkInode 0 [x34] None (Some 5%positive)].
Definition ex_first : node := mkNode None true false true [x30] None (leaf_inode <$> ex_pairs 0 4).
Definition ex_last : node := mkNode (Some 2%positive) true false false [x34] (Some 4%positive) (leaf_inode <$> ex_pairs 4 12).
Definition ex_handle : Bucket := mkBucket 2 [x6e] (Some 4%positive) (Some ex_dirty) DefaultFillPercent.

Lemma ex_nodes : w_nodes ex_writing !! 4%positive = Some ex_root ∧ w_nodes ex_writing !! 1%positive = Some ex_first ∧
  w_nodes ex_writing !! 5%positive = Some ex_last ∧ w_bkts ex_writing !! 2%positive = Some ex_handle.
Proof. split_and!; vm_compute; reflexivity. Qed.

Lemma ex_tree_rep : mrep (w_nodes ex_writing) ex_dirty None None ex_tree.
Proof.
  destruct ex_nodes as (H4 & H1 & H5 & _). cbn [mrep ex_tree foldr fst snd]. split; [|split; [|split; [|exact I]]].
  - exists ex_root. split; [exact H4|]. split; [by split|]. split; [done|]. split_and!; [apply elem_of_ex_dirty; by left|done|done].
  - exists ex_first. split; [exact H1|]. split; [by split|]. split; [by intros k [= <-]|]. by intros [?|?]%elem_of_ex_dirty.
  - exists ex_last. split; [exact H5|]. split; [by split|]. split; [by intros k [= <-]|]. split_and!; [apply elem_of_ex_dirty; by right|done|done].
Qed.

Lemma ex_calm : calm ex_writing ex_dirty.
Proof.
  destruct ex_nodes as (H4 & _ & H5 & _). intros l n Hl Hn. apply elem_of_ex_dirty in Hl as [-> | ->].
  - rewrite H4 in Hn. injection Hn as <-. reflexivity.
  - rewrite H5 in Hn. injection Hn as <-. reflexivity.
Qed.

Lemma ex_tree_nodup : NoDup (mlocs ex_tree).
Proof. change (mlocs ex_tree) with [4%positive; 1%positive; 5%positive]. repeat constructor; set_solver. Qed.

Lemma ex_tree_branchy : branchy ex_writing 2 ex_handle ex_dirty ex_tree.
Proof.
  pose proof (sn_core _ (proj1 (reachable_inv _ ex_writing_reachable))) as Hc.
  destruct ex_writing_tx as (tx & Htx & _). destruct ex_nodes as (_ & _ & _ & Hx). split.
  - split; [exact Hc|exact Hx|reflexivity|exists tx; exact Htx].
  - reflexivity.
  - exact ex_tree_rep.
  - apply (good_shape _ _ _ _ ex_tree_good).
  - by repeat constructor.
  - exact ex_tree_nodup.
  - reflexivity.
  - reflexivity.
Qed.

Lemma ex_tree_ripe : ∃ x, ripe 99 ex_writing 2 x (plain ex_tree).
Proof.
  exists ex_handle. right. exists ex_dirty, ex_tree. split; [reflexivity|]. split; [exact ex_tree_branchy|].
  split; [exact ex_calm|split; vm_compute; [reflexivity|lia]].
Qed.

Lemma ex_new_leafy : leafy ex_writing 3 (mkBucket 2 [x6d] (Some 6%positive) (Some {[6%positive]}) DefaultFillPercent) 6 [([x7a], [x0a])].
Proof.
  destruct ex_writing_tx as (tx & Htx & Hdb & Hw & _). split; [split|..].
  - vm_compute. reflexivity.
  - exists tx. exact Htx.
  - reflexivity.
  - eexists. split; [vm_compute; reflexivity|]. split; reflexivity.
  - split; repeat constructor; discriminate.
  - intros tx' Htx'. change (w_txs ex_writing !! 2%positive = Some tx') in Htx'. rewrite Htx in Htx'. injection Htx' as <-. by split.
  - split; [reflexivity|]. eexists. split; [vm_compute; reflexivity|]. by split.
Qed.

Lemma Commit_correct_witness :
  ∃ w' st', Commit std_iteration 99 0 0 2 ex_writing = (Ret None, w') ∧ db_state (w_db w') = Some st' ∧
    stored w' st' [x6e] (ex_pairs 0 16) ∧ stored w' st' [x6d] [([x7a], [x0a])].
Proof.
  destruct (reachable_inv _ ex_writing_reachable) as [Hs Hd]. destruct ex_writing_tx as (tx & Htx & Hdb & Hw & Hm & Hb).
  destruct (dirs_open _ _ _ Hd Htx Hdb) as [st Ho]. destruct ex_tree_ripe as [x2 Hr2]. pose proof (leafy_ripe 99 _ _ _ _ _ ex_new_leafy ltac:(simpl; lia)) as Hr3.
  assert (Hbc : ∀ name b, t_bctx tx !! name = Some b ↔ (name, b) ∈ [([x6e], 2%positive); ([x6d], 3%positive)]).
  { intros name b. by rewrite <- elem_of_map_to_list, Hb. }
  destruct (Commit_correct std_iteration 99 0 0 2 ex_writing tx st std_iteration_fair Hs Hd Ho Hw Hm) as (w' & st' & H1 & H2 & _ & H4 & _).
  - intros name b Hnb. apply Hbc in Hnb. apply elem_of_cons in Hnb as [[= -> ->]|Hnb]; [by eexists _, _|].
    apply list_elem_of_singleton in Hnb as [= -> ->]. by eexists _, _.
  - assert (Hb2 : t_bctx tx !! [x6e] = Some 2%positive) by (apply Hbc; by left).
    assert (Hb3 : t_bctx tx !! [x6d] = Some 3%positive) by (apply Hbc; right; by left).
    exists w', st'. split; [exact H1|]. split; [exact H2|]. split; apply H4.
    + by eapply do_bctx; [apply Ho|].
    + unfold sees. rewrite Hb2. eexists _, _. split; [exact (ripe_readable _ _ _ _ _ Hr2)|vm_compute; reflexivity].
    + by eapply do_bctx; [apply Ho|].
    + unfold sees. rewrite Hb3. eexists _, _. split; [exact (ripe_readable _ _ _ _ _ Hr3)|reflexivity].
Defined.
