(* ===== verification/Orderly.v ===== *)
(** * From an open to a commit

    A bucket that a state stores is opened in one of the forms a commit can
    finish, and [Put] keeps it so, whatever the height of its tree; if its keys fit
    one node, it is [ripe]. *)
From S2P Require Import Prelude GoSort Stats World Node KV Tree TreePath Cursor CursorSpec Cow Bucket Spill Tx DB.
From S2P Require Import CowSpec BucketSpec Regroup Frame FrameSpill SpillSpec Marked MarkedPath SpillTree FinalizeTree KeysFit Publish Isolation System TxSpec Directory LeafBucket Ripe TreeBucket CommitSpec.
Local Open Scope bytes_scope.
Local Open Scope st_scope.

(** ** A stored tree, seen as a marked one *)

Fixpoint clean (T : tree) : mtree :=
  match T with
  | Leaf l kvs => MLeaf l Clean kvs
  | Branch l cs => MBranch l Clean (map (λ p, (p.1, clean p.2)) cs)
  end.

Lemma plain_clean T : plain (clean T) = T.
Proof.
  induction T as [l kvs|l cs IH] using tree_nested_ind; [done|]. simpl. f_equal. rewrite map_map. simpl.
  induction IH as [|[k c] cs Hc _ IHcs]; [done|]. simpl in *. by rewrite Hc, IHcs.
Qed.
Lemma mmark_clean T : mmark (clean T) = Clean.
Proof. by destruct T. Qed.
Lemma mloc_clean T : mloc (clean T) = tloc T.
Proof. by destruct T. Qed.
Lemma mhead_clean T : mhead (clean T) = first_key (tree_inodes T).
Proof. by rewrite <- first_key_mhead, plain_clean. Qed.

(** Every child is at its first key; no leaf is empty. *)
Fixpoint exact (T : tree) : Prop :=
  match T with
  | Leaf _ kvs => kvs ≠ []
  | Branch _ cs => foldr (λ p Q, (p.1 = first_key (tree_inodes p.2) ∧ exact p.2) ∧ Q) True cs
  end.
Lemma exact_Branch l cs : exact (Branch l cs) ↔ Forall (λ p, p.1 = first_key (tree_inodes p.2) ∧ exact p.2) cs.
Proof. cbn [exact]. induction cs as [|p cs IH]; simpl; [done|]. by rewrite Forall_cons, IH. Qed.

Lemma keyed_child h l cs k c : keyed h (Branch l cs) → (k, c) ∈ cs → keyed h c.
Proof. intros HK Hin l' n Hl'. apply HK. rewrite tlocs_Branch. right. apply elem_of_clocs. eauto. Qed.

Lemma keyed_sep h l cs k c : rep h (Branch l cs) → keyed h (Branch l cs) → (k, c) ∈ cs →
  ∃ m, h !! tloc c = Some m ∧ n_key m = k ∧ first_key (tree_inodes c) = k.
Proof.
  intros Hrep HK Hin. pose proof Hrep as [(n & Hn & _ & Hi) Hall]%rep_Branch. rewrite Forall_forall in Hall.
  destruct (HK l n ltac:(by left) Hn (branch_inode (k, c)) (tloc c)) as (m & Hm & Hk & Hf); [rewrite Hi; by apply (list_elem_of_fmap_2 branch_inode)|done|].
  destruct (rep_node _ _ (Hall _ Hin)) as (m' & Hm' & _ & Hi'). simpl in *. simplify_eq. exists m. by rewrite <- Hi'.
Qed.

Lemma keyed_exact h T : rep h T → wf T → keyed h T → first_key (tree_inodes T) ≠ [] → exact T.
Proof.
  induction T as [l kvs|l cs IH] using tree_nested_ind; intros Hrep Hwf HK Hne.
  - simpl in *. by intros ->.
  - apply exact_Branch. apply Forall_forall. intros [k c] Hin. destruct (keyed_sep _ _ _ _ _ Hrep HK Hin) as (_ & _ & _ & Hk).
    simpl. split; [done|]. pose proof Hrep as [_ Hall]%rep_Branch. apply wf_Branch in Hwf as (_ & _ & Hkne & _ & Hwf).
    rewrite Forall_forall in IH, Hall, Hwf. rewrite Forall_forall in Hkne. apply (IH (k, c) Hin).
    + by apply (Hall (k, c)).
    + by apply (Hwf (k, c)).
    + by eapply keyed_child.
    + simpl. rewrite Hk. apply Hkne. by apply (list_elem_of_fmap_2 fst cs (k, c)).
Qed.

(** The first key of an exact tree is its first key. *)
Lemma exact_first T : wf T → exact T → ∃ v rest, contents T = (first_key (tree_inodes T), v) :: rest.
Proof.
  induction T as [l kvs|l cs IH] using tree_nested_ind; intros Hwf Hex.
  - simpl in *. destruct kvs as [|[k v] kvs]; [done|]. by exists v, kvs.
  - destruct cs as [|[k c] cs]; [by apply wf_Branch in Hwf as (? & _)|]. apply wf_Branch in Hwf as (_ & _ & _ & _ & Hwf).
    apply exact_Branch in Hex. apply Forall_cons in IH as [IH _], Hex as [[Hk Hex] _], Hwf as [Hwf _]. simpl in Hk.
    destruct (IH Hwf Hex) as (v & rest & Hc). rewrite contents_Branch, flat_cons. simpl in Hc. rewrite Hc. simpl. rewrite <- Hk. eauto.
Qed.

Lemma exact_least T y : wf T → exact T → y ∈ keys (contents T) → first_key (tree_inodes T) ≼ y.
Proof.
  intros Hwf Hex Hy. destruct (exact_first T Hwf Hex) as (v & rest & Hc). pose proof (wf_sorted _ Hwf) as Hs. rewrite Hc in Hs, Hy. simpl in Hs, Hy.
  apply StronglySorted_inv in Hs as [_ Hs]. apply elem_of_cons in Hy as [->|Hy]; [apply ble_refl|]. rewrite Forall_forall in Hs. by apply blt_ble, Hs.
Qed.

(** The separators of an exact branch are keys of it. *)
Lemma exact_seps l cs k : wf (Branch l cs) → exact (Branch l cs) → k ∈ cs.*1 → k ∈ keys (flat cs).
Proof.
  intros Hwf Hex ([k' c] & -> & Hin)%list_elem_of_fmap. simpl. apply wf_Branch in Hwf as (_ & _ & _ & _ & Hwf). apply exact_Branch in Hex.
  rewrite Forall_forall in Hwf, Hex. destruct (Hex _ Hin) as [Hk Hx]. destruct (exact_first c (Hwf _ Hin) Hx) as (v & rest & Hc). simpl in Hk. subst k'.
  apply list_elem_of_split in Hin as (c1 & c2 & ->). rewrite flat_app, flat_cons, Hc, !keys_app, !elem_of_app. right. left. by left.
Qed.

Lemma shape_clean T : ∀ lo hi, wf T → exact T → Forall (within lo hi) (keys (contents T)) → shape lo hi (clean T).
Proof.
  induction T as [l kvs|l cs IH] using tree_nested_ind; intros lo hi Hwf Hex Hw.
  - destruct Hwf as [Hs _]. by split_and!.
  - pose proof (exact_seps l cs) as Hseps. pose proof Hwf as (Hne & Hs & Hkne & Hso & Hwfc)%wf_Branch. pose proof Hex as Hexc%exact_Branch.
    rewrite contents_Branch in Hw. cbn [clean]. apply shape_Branch.
    assert (Hfst : (map (λ p : bytes * tree, (p.1, clean p.2)) cs).*1 = cs.*1) by (rewrite <- list_fmap_compose; by apply list_fmap_ext).
    rewrite Hfst. split_and!; [by destruct cs|done| | |].
    + apply Forall_forall. intros k Hk. rewrite Forall_forall in Hw. by apply Hw, Hseps.
    + apply Forall_map, Forall_forall. intros [k c] Hin. cbn [fst snd]. rewrite mmark_clean, mhead_clean. split_and!; [done|done|].
      intros _. rewrite Forall_forall in Hexc. by destruct (Hexc _ Hin).
    + clear Hne Hs Hkne Hwf Hex Hseps Hfst. generalize (edge_of lo) as e. induction cs as [|[k c] cs IHcs]; intros e; [done|].
      apply Forall_cons in IH as [IHc IH], Hwfc as [Hwc Hwfc], Hexc as [[Hk Hxc] Hexc]. rewrite flat_cons, keys_app in Hw. apply Forall_app in Hw as [Hw1 Hw2].
      destruct Hso as (Hso1 & _ & Hso). simpl. split; [|by apply IHcs]. apply IHc; [done|done|]. rewrite Forall_forall in Hw1, Hso1 |- *.
      intros y Hy. destruct (Hw1 y Hy) as (Hy1 & _ & Hy3). split; [done|]. split.
      * destruct e; [done|]. simpl in Hk |- *. subst k. by apply exact_least.
      * destruct cs as [|[k' c'] cs]; [done|]. simpl. specialize (Hso1 y Hy). by apply Forall_cons in Hso1 as [? _].
Qed.

Lemma unspilled_clean T : exact T → unspilled (clean T).
Proof.
  induction T as [l kvs|l cs IH] using tree_nested_ind; intros Hex; [done|]. cbn [clean]. apply unspilled_Branch. split; [done|].
  apply exact_Branch in Hex. apply Forall_map. rewrite Forall_forall in IH, Hex |- *. intros [k c] Hin. destruct (Hex _ Hin) as [Hk Hx].
  split; [|by apply (IH (k, c))]. intros _. cbn [fst snd]. by rewrite mhead_clean.
Qed.

Lemma mrep_clean h T : rep h T → keyed h T → ∀ par key, (∀ k n, key = Some k → h !! tloc T = Some n → n_key n = k) → mrep h ∅ par key (clean T).
Proof.
  induction T as [l kvs|l cs IH] using tree_nested_ind; intros Hrep HK par key Hkey.
  - destruct Hrep as (n & Hn & Hl). exists n. split; [done|]. split; [done|]. split; [intros k Hk; by eapply Hkey|set_solver].
  - pose proof Hrep as [(n & Hn & Hb) Hall]%rep_Branch. cbn [clean]. apply mrep_Branch. split.
    + exists n. split; [done|]. split.
      * unfold plains. rewrite map_map. simpl. assert (map (λ x : bytes * tree, (x.1, plain (clean x.2))) cs = cs) as ->; [|done].
        clear. induction cs as [|[k c] cs IH]; [done|]. simpl. by rewrite plain_clean, IH.
      * split; [intros k Hk; by eapply Hkey|set_solver].
    + apply Forall_map. simpl. rewrite Forall_forall in IH, Hall |- *. intros [k c] Hin. apply (IH (k, c) Hin); [by apply (Hall (k, c))|by eapply keyed_child|].
      intros k' n' [= <-] Hn'. destruct (keyed_sep _ _ _ _ _ Hrep HK Hin) as (m & Hm & Hk & _). simpl in *. congruence.
Qed.

Lemma wf_nonempty T : wf T → Forall (λ k, k ≠ []) (keys (contents T)).
Proof.
  induction T as [l kvs|l cs IH] using tree_nested_ind; [by intros [_ ?]|]. intros (_ & _ & _ & _ & Hwf)%wf_Branch. rewrite contents_Branch.
  induction cs as [|[k c] cs IHcs]; [constructor|]. apply Forall_cons in IH as [IHc IH], Hwf as [Hc Hwf]. rewrite flat_cons, keys_app. apply Forall_app. auto.
Qed.

(** ** Handles in order *)

(** The handle [b] of an open write transaction shows [T], and a commit can finish
    it if there is room: a single leaf, or a tree of several levels in which
    nothing has been deleted. *)
Definition orderly (w : world) (b : bid) (x : Bucket) (T : tree) : Prop :=
  (∃ l kvs, T = Leaf l kvs ∧ leafy w b x l kvs) ∨
  (∃ D M, T = plain M ∧ branchy w b x D M ∧ balanced w D ∧ writing w x).

Lemma orderly_readable w b x T : orderly w b x T → readable w b x T.
Proof. intros [(l & kvs & -> & [? _ _])|(D & M & -> & ? & _)]; [done|by eapply branchy_readable]. Qed.

Lemma orderly_acts b b' w w' x T : core w → acts b' w w' → b ≠ b' → orderly w b x T → orderly w' b x T.
Proof.
  intros Hc Ha Hne [(l & kvs & -> & Hl)|(D & M & -> & Hb & Hbal & Hw)]; [left|right].
  - exists l, kvs. split; [done|]. by eapply leafy_acts.
  - exists D, M. split_and!; [done|by eapply branchy_acts| |eapply writing_strip; [apply Ha|done]].
    intros l n Hl Hn. rewrite (acts_dirty b b' w w' x D l Ha Hne (br_own _ _ _ _ _ Hb) Hl) in Hn. by eapply Hbal.
Qed.

(** A step that only adds nodes and handles, and leaves the transaction open over
    the same state. *)
Lemma orderly_extend w w' b x T :
  core w' → (∀ l n, w_nodes w !! l = Some n → w_nodes w' !! l = Some n) → w_bkts w' !! b = Some x →
  (∀ tx, w_txs w !! b_tx x = Some tx → ∃ tx', w_txs w' !! b_tx x = Some tx' ∧ t_db tx' = t_db tx ∧
     t_writable tx' = t_writable tx ∧ t_base tx' = t_base tx) →
  orderly w b x T → orderly w' b x T.
Proof.
  intros Hc Hn Hx Ht [(l & kvs & -> & Hl)|(D & M & -> & Hb & Hbal & Hw)]; [left|right].
  - exists l, kvs. split; [done|]. by eapply leafy_extend.
  - destruct Hb as [Ho Hv Hrep Hs Hu Hnd Hbr Hroot]. pose proof (o_tx _ _ _ _ Ho) as [tx Htx]. destruct (Ht tx Htx) as (tx' & Htx' & Hdb & Hwr & Hba).
    assert (Hsame : ∀ l, is_Some (w_nodes w !! l) → w_nodes w' !! l = w_nodes w !! l) by (intros l [n Hl]; by rewrite Hl, (Hn _ _ Hl)).
    exists D, M. split_and!; [done| | |].
    + split; auto.
      * split; [done|done|apply Ho|eauto].
      * rewrite <- Hv. unfold rootView, baseState. by rewrite Htx, Htx', Hba.
      * eapply mrep_frame; [|exact Hrep]. intros l Hl. split; [|done]. apply Hsame.
        eapply rep_some; [by eapply mrep_rep|exact Hl].
    + intros l n Hl Hl'. destruct (own_node _ _ _ _ _ Ho Hl) as (m & Hm & _). rewrite (Hn _ _ Hm) in Hl'. simplify_eq. by eapply Hbal.
    + intros tx0 Htx0. simplify_eq. destruct (Hw tx Htx). by rewrite Hdb, Hwr.
Qed.

(** Opening a stored bucket. *)
Lemma opened_orderly t name tx w st T :
  core (opened_world t name tx w) → w_txs w !! t = Some tx → t_db tx = true → t_writable tx = true → t_base tx = Some st →
  stored_as w st name T → ∃ x, orderly (opened_world t name tx w) (w_nextb w) x T ∧ b_tx x = t ∧ b_name x = name.
Proof.
  intros Hc Ht Hdb Hw Hba (bs & Hbs & Hroot & Hrep & Hwf & Hnd & HK). destruct T as [l kvs|l cs].
  { destruct (opened_leafy t name tx w st bs l kvs Ht Hdb Hw Hba Hbs Hroot Hrep Hwf) as (x & Hl & ? & ?). exists x. split; [|done].
    left. eauto. }
  eexists (mkBucket t name None (Some ∅) DefaultFillPercent). split; [|done]. right. exists ∅, (clean (Branch l cs)).
  assert (Hex : exact (Branch l cs)).
  { eapply keyed_exact; [done|done|done|]. apply wf_Branch in Hwf as (Hne & _ & Hkne & _). destruct cs as [|[k c] cs]; [done|]. by apply Forall_cons in Hkne as [? _]. }
  assert (Hbk : w_bkts (opened_world t name tx w) !! w_nextb w = Some (mkBucket t name None (Some ∅) DefaultFillPercent)) by (simpl; rewrite lookup_insert_eq; by rewrite Hw).
  split_and!; [by rewrite plain_clean| | |].
  - split.
    + split; [done|done|done|]. simpl. rewrite lookup_insert_eq. eauto.
    + rewrite mloc_clean. unfold rootView, baseState. simpl. rewrite lookup_insert_eq. simpl. by rewrite Hba, Hbs.
    + by apply mrep_clean.
    + apply shape_clean; [done|done|]. pose proof (wf_nonempty _ Hwf) as Hk. eapply Forall_impl; [exact Hk|]. done.
    + by apply unspilled_clean.
    + unfold mlocs. by rewrite plain_clean.
    + done.
    + done.
  - intros l' n Hl'. set_solver.
  - intros tx'. simpl. rewrite lookup_insert_eq. by intros [= <-].
Qed.

(** [Put] keeps a handle in order. *)
Lemma Put_orderly fuel w b x T key value :
  sane w → orderly w b x T → tsize T ≤ fuel → (0 < blen key ≤ MaxKeySize)%Z → (blen value ≤ MaxValueSize)%Z →
  ∃ w' x' T', Put fuel b key value w = (Ret None, w') ∧ orderly w' b x' T' ∧ contents T' = kv_insert key value (contents T) ∧
    tleaf T' = tleaf T ∧ tsize T' = tsize T ∧ acts b w w' ∧ b_tx x' = b_tx x ∧ b_name x' = b_name x.
Proof.
  intros Hs [(l & kvs & -> & Hl)|(D & M & -> & Hb & Hbal & Hw)] Hf Hk Hv.
  - destruct (Put_leafy fuel w b x l kvs key value Hs Hl) as (w' & x' & l' & Hrun & Hl' & Ha & Ht & Hn); [simpl in Hf; lia|done|done|].
    exists w', x', (Leaf l' (kv_insert key value kvs)). split_and!; try done. left. eauto.
  - destruct (Put_branchy fuel w b x D M key value Hs Hb Hbal Hw Hf Hk Hv)
      as (w' & x' & D' & M' & Hrun & Hb' & Hbal' & Hw' & _ & Hc & Hsz & Ha & Ht & Hn & _).
    exists w', x', (plain M'). split_and!; try done; [right; by exists D', M'|]. by rewrite (br_branch _ _ _ _ _ Hb), (br_branch _ _ _ _ _ Hb').
Qed.

(** The work left never exceeds the square of the tree. *)
Lemma size_bounds M : pend M ≤ tsize (plain M) ∧ mheight M ≤ tsize (plain M).
Proof.
  induction M as [l m kvs|l m cs IH] using mtree_nested_ind; simpl.
  - destruct (decide _); lia.
  - rewrite map_map. simpl.
    assert (list_sum (map (λ p, pend p.2) cs) ≤ list_sum (map (λ p, tsize (plain p.2)) cs) ∧
      list_max (map (λ p, mheight p.2) cs) ≤ list_sum (map (λ p, tsize (plain p.2)) cs)) as [H1 H2].
    { induction IH as [|p cs [Hp Hh] _ IHcs]; simpl; [lia|]. destruct IHcs. lia. }
    destruct (decide _); lia.
Qed.

Lemma orderly_ripe fuel w b x T :
  orderly w b x T → small_keys (keys (contents T)) → S (tsize T) * S (tsize T) + length (contents T) + 2 ≤ fuel → ripe fuel w b x T.
Proof.
  intros [(l & kvs & -> & Hl)|(D & M & -> & Hb & Hbal & Hw)] Hsm Hf.
  - left. exists l, kvs. split_and!; [done|done|]. simpl in Hf. lia.
  - right. exists D, M. split_and!; [done|done|by apply balanced_calm| |].
    + eapply small_roomy; [apply Hb|apply Hb|done].
    + unfold rounds_left. destruct (size_bounds M) as [H1 H2]. nia.
Qed.

(** [Delete] in a single leaf. *)
Lemma Delete_orderly fuel w b x T key :
  sane w → orderly w b x T → tleaf T = true → 1 ≤ fuel →
  ∃ w' x' T', Delete fuel b key w = (Ret None, w') ∧ orderly w' b x' T' ∧ contents T' = kv_delete key (contents T) ∧
    tleaf T' = true ∧ tsize T' = tsize T ∧ acts b w w' ∧ b_tx x' = b_tx x ∧ b_name x' = b_name x.
Proof.
  intros Hs [(l & kvs & -> & Hl)|(D & M & -> & Hb & _)] Hlf Hf; [|by rewrite (br_branch _ _ _ _ _ Hb) in Hlf].
  destruct (Delete_leafy fuel w b x l kvs key Hs Hl Hf) as (w' & x' & l' & Hrun & Hl' & Ha & Ht & Hn).
  exists w', x', (Leaf l' (kv_delete key kvs)). split_and!; try done. left. eauto.
Qed.
