(* ===== verification/SpillThm.v ===== *)
(** * Splitting and finalizing: the contracts

    What [node.split] and [node.finalize] promise to a commit, stated for the root
    of a bucket that the transaction has written. *)
From S2P Require Import Prelude GoSort Stats World Node KV Tree TreePath Cursor CursorSpec Cow Bucket Spill Tx DB.
From S2P Require Import CowSpec BucketSpec Regroup Frame FrameSpill SpillSpec Marked MarkedPath SpillTree FinalizeTree KeysFit Publish Isolation System TxSpec Directory LeafBucket Ripe CommitSpec.
Local Open Scope st_scope.

(** C27. [node.split] of an oversize root cuts its inodes, in order, into nodes of
    the same kind under one new parent: no inode is lost or repeated, every piece
    has at least the minimum number of keys, every piece but the last is within the
    fill threshold or has exactly the minimum, and the last one needs no further
    split: it is below the maximal node size or has at most twice the minimum of
    keys.  Only the node itself and fresh nodes are written. *)
Theorem split_correct w b x D n nd :
  own w b x D → n ∈ D → w_nodes w !! n = Some nd → n_parent nd = None → noSplit nd = false →
  ∃ p ls w' ps lst, split (S (length (n_inodes nd))) n w = (Ret (n :: ls), w') ∧
    concat (ps ++ [lst]) = n_inodes nd ∧
    Forall (λ pc, minKeys nd ≤ length pc) (ps ++ [lst]) ∧
    Forall (λ pc, (inodes_size pc ≤ splitThreshold (b_FillPercent x))%Z ∨ length pc = minKeys nd) ps ∧
    ((inodes_size lst < defaultMaxNodeSizeBytes)%Z ∨ length lst ≤ 2 * minKeys nd) ∧
    Forall2 (λ l pc, ∃ m, w_nodes w' !! l = Some m ∧ n_inodes m = pc ∧ n_isLeaf m = n_isLeaf nd ∧ n_parent m = Some p) (n :: ls) (ps ++ [lst]) ∧
    w_nodes w' !! p = Some (fresh_root b []) ∧ keeps [n] w w'.
Proof.
  intros Ho HnD Hn Hp Hs.
  destruct (split_root_run b (S (length (n_inodes nd))) w x D n nd Ho HnD Hn Hp Hs ltac:(lia))
    as (p & ls & w' & D' & pc & pcs & Hrun & Hpcs & _ & Hk & _ & _ & _ & Hpn & Hn' & Hls & _).
  assert (Hmin : minKeys nd ≤ length (n_inodes nd)).
  { unfold noSplit in Hs. apply orb_false_iff in Hs as [Hlt%Nat.leb_gt _]. lia. }
  destruct (split_inodes_spec (S (length (n_inodes nd))) nd (splitThreshold (b_FillPercent x)) ltac:(lia) Hmin) as (Hcat & Hf & ps & lst & Heq & Hps & Hlst).
  fold (pieces (S (length (n_inodes nd))) x nd) in Hcat, Hf, Heq. rewrite Heq in Hcat, Hf. rewrite Hpcs in Heq.
  exists p, ls, w', ps, lst. split_and!; try done.
  { unfold noSplit in Hlst. apply orb_true_iff in Hlst as [Hl%Nat.leb_le|Hl]; [right; simpl in Hl; change (minKeys (set_n_inodes lst nd)) with (minKeys nd) in Hl; lia|].
    left. rewrite sizeLessThan_spec in Hl; [by apply Z.ltb_lt in Hl|]. simpl. intros ->.
    apply Forall_app in Hf as [_ Hf]. inversion_clear Hf as [|? ? Hm _]. pose proof (minKeys_pos nd). cbn [length] in Hm. lia. }
  rewrite <- Heq. constructor; [eexists; split; [exact Hn'|done]|].
  eapply Forall2_impl; [exact Hls|]. intros l pc' Hl. eexists. split; [exact Hl|done].
Qed.



(** A bucket with ten pairs of 13,200 bytes, not yet committed. *)
Definition ex_big : world :=
  run_calls ([CBegin true; CCreateBucket 1 [x6e]] ++
    ((λ i, CPut 9 1 (match Byte.of_nat (48 + i) with Some c => [c] | None => [] end) (replicate 13200 x00)) <$> seq 0 10))
    (open_mem None empty_world).2.
Definition ex_big_handle : Bucket := mkBucket 1 [x6e] (Some 1%positive) (Some {[1%positive]}) DefaultFillPercent.
Definition ex_big_pairs : list kv :=
  (λ i, (match Byte.of_nat (48 + i) with Some c => [c] | None => [] end, replicate 13200 x00)) <$> seq 0 10.
Definition ex_big_node : node := mkNode (Some 1%positive) true false false [] None (leaf_inode <$> ex_big_pairs).

Lemma ex_big_own : own ex_big 1 ex_big_handle {[1%positive]} ∧ w_nodes ex_big !! 1%positive = Some ex_big_node.
Proof.
  assert (Hreach : reachable ex_big).
  { exists None. apply run_calls_steps. apply Forall_app. split; [repeat constructor|]. apply Forall_fmap, Forall_forall. done. }
  split; [|vm_compute; reflexivity]. split.
  - exact (sn_core _ (proj1 (reachable_inv _ Hreach))).
  - vm_compute. reflexivity.
  - reflexivity.
  - assert (is_Some (t_db <$> w_txs ex_big !! 1%positive)) as H%fmap_is_Some by (vm_compute; eauto). exact H.
Qed.

Lemma split_correct_witness :
  ∃ ls w' ps lst, split 11 1 ex_big = (Ret (1%positive :: ls), w') ∧ concat (ps ++ [lst]) = n_inodes ex_big_node.
Proof.
  destruct ex_big_own as [Ho Hn].
  destruct (split_correct ex_big 1 ex_big_handle {[1%positive]} 1 ex_big_node Ho) as (p & ls & w' & ps & lst & H1 & H2 & _).
  - set_solver.
  - exact Hn.
  - reflexivity.
  - vm_compute. reflexivity.
  - exists ls, w', ps, lst. split; [exact H1|exact H2].
Defined.

