(* ===== verification/DBSpec.v ===== *)
(** * The database contract: begin, single writer, managed transactions

    [Begin] pins the current state; at most one write transaction is open and the
    lock is held exactly while it is; [Update] publishes only if it returns nil,
    and gives the lock back however the user's function ends. *)
From S2P Require Import Prelude GoSort Stats World Node KV Tree TreePath Cursor CursorSpec Cow Bucket Spill Tx DB.
From S2P Require Import CowSpec BucketSpec Frame FrameSpill Publish Isolation System TxSpec Directory.
Local Open Scope st_scope.

(** ** Beginning *)

(** A transaction that has just begun on the state [st]. *)
Definition begun (writable : bool) (st : dbState) : Tx :=
  mkTx writable false true (Some st) ∅ ∅ ∅ TxStats_zero [].

Lemma begun_open w t wr st : w_txs w !! t = Some (begun wr st) → no_nil st →
  open_tx w t (begun wr st) st ∧ visible (begun wr st) = dom (ds_buckets st).
Proof.
  intros Ht Hn. split.
  - split; [done|done|done|]. split; simpl; [set_solver|intros ? ?; by rewrite lookup_empty|set_solver|].
    intros st0 n bs [= <-]. apply Hn.
  - unfold visible, dir_names. simpl. set_solver.
Qed.

Lemma beginRWTx_run w st :
  db_readOnly (w_db w) = false → db_rwlock (w_db w) = false → db_opened (w_db w) = true →
  db_state (w_db w) = Some st →
  beginRWTx w = (Ret (inr (w_nextt w)), (new_tx (begun true st) (set_db (set_db_rwlock true (w_db w)) w)).2).
Proof.
  intros H1 H2 H3 H4. unfold beginRWTx, lock, st_bind, get_db, st_gets, upd_db, st_modify. simpl.
  rewrite H1. simpl. rewrite H2. simpl. rewrite H3. simpl. by rewrite H4.
Qed.

Lemma beginRWTx_blocked w :
  db_readOnly (w_db w) = false → db_rwlock (w_db w) = true → beginRWTx w = (Blocked, w).
Proof.
  intros H1 H2. unfold beginRWTx, lock, st_bind, get_db, st_gets. simpl. rewrite H1. simpl. by rewrite H2.
Qed.

(** C12. A single writer: in every reachable state the writer lock is held exactly
    while a write transaction is open, and at most one is.  On an open writable
    database [Begin(true)] waits exactly while there is one; otherwise it
    returns a transaction that is now the only writer, pins the current state
    and sees all its buckets. *)
Theorem single_writer w st :
  reachable w → db_readOnly (w_db w) = false → db_opened (w_db w) = true → db_state (w_db w) = Some st →
  (∀ t t', writer (w_txs w) t → writer (w_txs w) t' → t = t') ∧
  ((∃ t, writer (w_txs w) t) → Begin true w = (Blocked, w)) ∧
  ((∀ t, ¬ writer (w_txs w) t) →
     ∃ t w' tx, Begin true w = (Ret (inr t), w') ∧ open_tx w' t tx st ∧
       visible tx = dom (ds_buckets st) ∧ ∀ u, writer (w_txs w') u ↔ u = t).
Proof.
  intros [Hs Hd]%reachable_inv Hro Hop Hst. destruct (sn_lock _ Hs) as [Hl1 Hl2]. split_and!; [done| |].
  - intros Hex. by apply beginRWTx_blocked, Hl1.
  - intros Hno. assert (Hl : db_rwlock (w_db w) = false).
    { destruct (db_rwlock (w_db w)); [|done]. destruct (proj1 Hl1 eq_refl) as [t Ht]. by destruct (Hno t). }
    pose proof (beginRWTx_run w st Hro Hl Hop Hst) as Hrun.
    destruct (begun_open (new_tx (begun true st) (set_db (set_db_rwlock true (w_db w)) w)).2 (w_nextt w) true st)
      as [Ho Hv]; [simpl; apply lookup_insert_eq|by apply (dv_db _ Hd)|].
    eexists _, _, _. split; [exact Hrun|]. split; [exact Ho|]. split; [exact Hv|].
    intros u. simpl. rewrite writer_new by apply fresh_tx, Hs. simpl. specialize (Hno u). naive_solver.
Qed.

Lemma single_writer_witness :
  Begin true ex_before = (Blocked, ex_before) ∧ ∃ t w', Begin true ex_w0 = (Ret (inr t), w').
Proof.
  assert (Hreach : reachable ex_before).
  { destruct ex_reachable as [o Ho]. exists o. eapply (transitivity Ho), run_calls_steps. repeat constructor. }
  split.
  - destruct (single_writer ex_before ex_st Hreach) as (_ & H & _); [vm_compute; reflexivity..|].
    apply H. exists 3%positive. eexists. split; [vm_compute; reflexivity|reflexivity].
  - destruct (single_writer ex_w0 ex_st ex_reachable) as (_ & _ & H); [vm_compute; reflexivity..|].
    destruct H as (t & w' & _ & H & _); [|by exists t, w'].
    intros t Ht. pose proof (proj2 (lk_held _ _ (sn_lock _ (proj1 (reachable_inv _ ex_reachable)))) (ex_intro _ t Ht)) as Hl.
    vm_compute in Hl. discriminate.
Defined.

(** [Begin(false)] never waits: on an open database it returns at once a
    read-only transaction that pins the current state and sees exactly its
    buckets, whatever writer is active. *)
Theorem Begin_read w st :
  reachable w → db_opened (w_db w) = true → db_state (w_db w) = Some st →
  ∃ t w' tx, Begin false w = (Ret (inr t), w') ∧ open_tx w' t tx st ∧ t_writable tx = false ∧
    visible tx = dom (ds_buckets st) ∧ w_nodes w' = w_nodes w.
Proof.
  intros [Hs Hd]%reachable_inv Hop Hst. unfold Begin, beginTx, st_bind, get_db, st_gets, upd_db, st_modify. simpl.
  rewrite Hop. simpl. rewrite Hst. simpl. eexists _, _, (begun false st). split; [reflexivity|]. simpl.
  match goal with |- open_tx ?w' _ _ _ ∧ _ =>
    destruct (begun_open w' (w_nextt w) false st) as [Ho Hv]; [simpl; apply lookup_insert_eq|by apply (dv_db _ Hd)|] end.
  by split_and!.
Qed.

Lemma Begin_read_witness : ∃ t w' tx, Begin false ex_before = (Ret (inr t), w') ∧ open_tx w' t tx ex_st.
Proof.
  assert (Hreach : reachable ex_before).
  { destruct ex_reachable as [o Ho]. exists o. eapply (transitivity Ho), run_calls_steps. repeat constructor. }
  destruct (Begin_read ex_before ex_st Hreach) as (t & w' & tx & H1 & H2 & _); [vm_compute; reflexivity..|].
  exists t, w', tx. split; [exact H1|exact H2].
Defined.
