(* ===== verification/Session.v ===== *)
(** * Write transactions refine a map of maps

    The specification of a database is a finite map from bucket names to sorted
    association lists.  A client is a [script] of operations that branches on their
    replies.  Inside an open write transaction, every operation through the code
    replies as on the map, and the transaction then sees the new map ([session]);
    [Refine] adds the begin and the end.  The specification also tells which buckets
    are one node: the operations are right in all trees, but a commit is only where
    no delete leads to a merge. *)
From S2P Require Import Prelude GoSort Stats World Node KV Tree TreePath Cursor CursorSpec Cow Bucket Spill Tx DB.
From S2P Require Import CowSpec BucketSpec Regroup Frame FrameSpill SpillSpec Marked MarkedPath SpillTree FinalizeTree KeysFit Publish Isolation System TxSpec Directory DBSpec LeafBucket Ripe TreeBucket CommitSpec Orderly.
Local Open Scope st_scope.

(** ** The specification *)

Inductive txop :=
| TPut (name key value : bytes)
| TGet (name key : bytes)
| TDelete (name key : bytes)
| TScan (name : bytes)
| TNames
| TCreate (name : bytes)
| TDrop (name : bytes).

Inductive reply :=
| RErr (e : option err)
| RVal (v : option bytes)
| RPairs (l : list kv)
| RNames (l : list bytes).

(** What [Put] says of a key and a value. *)
Definition put_check (key value : bytes) : option err :=
  if (blen key =? 0)%Z then Some ErrKeyRequired
  else if (MaxKeySize <? blen key)%Z then Some ErrKeyTooLarge
  else if (MaxValueSize <? blen value)%Z then Some ErrValueTooLarge
  else None.

Abbreviation model := (gmap bytes (list kv)).

(** The names of the buckets, in order. *)
Definition names_of (A : model) : list bytes := sort_Strings (elements (dom A)).

Definition apply_op (A : model) (o : txop) : reply * model :=
  match o with
  | TPut name key value =>
      match A !! name with
      | None => (RErr (Some ErrBucketNotFound), A)
      | Some kvs =>
          match put_check key value with
          | Some er => (RErr (Some er), A)
          | None => (RErr None, <[name := kv_insert key value kvs]> A)
          end
      end
  | TGet name key => (RVal (match A !! name with Some kvs => kv_lookup key kvs | None => None end), A)
  | TDelete name key =>
      match A !! name with
      | None => (RErr (Some ErrBucketNotFound), A)
      | Some kvs => (RErr None, <[name := kv_delete key kvs]> A)
      end
  | TScan name => (match A !! name with Some kvs => RPairs kvs | None => RErr (Some ErrBucketNotFound) end, A)
  | TNames => (RNames (names_of A), A)
  | TCreate name =>
      if decide (name = []) then (RErr (Some ErrBucketNameRequired), A)
      else match A !! name with
           | Some _ => (RErr (Some ErrBucketExists), A)
           | None => (RErr None, <[name := []]> A)
           end
  | TDrop name =>
      match A !! name with
      | Some _ => (RErr None, delete name A)
      | None => (RErr (Some ErrBucketNotFound), A)
      end
  end.

(** A caller's function: operations on the transaction, chosen by what the
    earlier ones returned, and the error it returns itself. *)
Inductive script :=
| Return (e : option err)
| Do (o : txop) (k : reply → script).

(** The map with what a caller has to know of it to stay clear of the defects of the
    code: the buckets that are still one node, in which keys may be deleted, and
    the names deleted in this transaction, which may not be deleted again. *)
Record abs := mkAbs { a_map : model; a_one : gset bytes; a_gone : gset bytes }.

Definition abs_step (σ : abs) (o : txop) : reply * abs :=
  let '(r, A) := apply_op (a_map σ) o in
  (r, match o with
      | TCreate name => mkAbs A (match r with RErr None => {[name]} ∪ a_one σ | _ => a_one σ end) (a_gone σ)
      | TDrop name => mkAbs A (a_one σ ∖ {[name]}) ({[name]} ∪ a_gone σ)
      | _ => mkAbs A (a_one σ) (a_gone σ)
      end).

Definition careful (σ : abs) (o : txop) : bool :=
  match o with
  | TDelete name _ => bool_decide (name ∈ a_one σ) || bool_decide (a_map σ !! name = None)
  | TDrop name => bool_decide (name ∉ a_gone σ)
  | _ => true
  end.

(** What the function should return and make of the map, and whether all it does is
    careful. *)
Fixpoint outcome (σ : abs) (s : script) : option err * abs :=
  match s with
  | Return e => (e, σ)
  | Do o k => let '(r, σ') := abs_step σ o in outcome σ' (k r)
  end.
Fixpoint all_careful (σ : abs) (s : script) : bool :=
  match s with
  | Return _ => true
  | Do o k => careful σ o && let '(r, σ') := abs_step σ o in all_careful σ' (k r)
  end.

(** The pairs the longest scan of the function visits. *)
Definition scan_size (σ : abs) (o : txop) : nat :=
  match o with TScan name => S (length (default [] (a_map σ !! name))) | _ => 0 end.
Fixpoint longest (σ : abs) (s : script) : nat :=
  match s with
  | Return _ => 0
  | Do o k => scan_size σ o `max` let '(r, σ') := abs_step σ o in longest σ' (k r)
  end.

(** ** The client of the transaction [t] *)

(** The function a scan gives to [ForEach]. *)
Definition collect (l : list kv) (k : bytes) (v : option bytes) : list kv * option err := (l ++ [(k, default [] v)], None).

(** The function a listing gives to [Tx.ForEach]. *)
Definition collect_name (l : list bytes) (name : bytes) (_ : option bid) : M (list bytes * option err) := st_ret (l ++ [name], None).

Lemma kv_fold_collect l : ∀ acc, kv_fold collect acc l = (acc ++ l, None).
Proof. induction l as [|[k v] l IH]; intros acc; simpl; [by rewrite app_nil_r|]. by rewrite IH, <- app_assoc. Qed.

Definition op_run (fuel : nat) (t : tid) (o : txop) : M reply :=
  match o with
  | TPut name key value =>
      let! ob := Tx_Bucket t name in
      match ob with
      | None => st_ret (RErr (Some ErrBucketNotFound))
      | Some b => let! r := Put fuel b key value in st_ret (RErr r)
      end
  | TGet name key =>
      let! ob := Tx_Bucket t name in
      match ob with
      | None => st_ret (RVal None)
      | Some b => let! r := Get fuel b key in st_ret (RVal r)
      end
  | TDelete name key =>
      let! ob := Tx_Bucket t name in
      match ob with
      | None => st_ret (RErr (Some ErrBucketNotFound))
      | Some b => let! r := Delete fuel b key in st_ret (RErr r)
      end
  | TScan name =>
      let! ob := Tx_Bucket t name in
      match ob with
      | None => st_ret (RErr (Some ErrBucketNotFound))
      | Some b => let! r := Bucket_ForEach fuel b collect [] in st_ret (match r.2 with Some er => RErr (Some er) | None => RPairs r.1 end)
      end
  | TNames => let! r := Tx_ForEach t collect_name [] in st_ret (match r.2 with Some er => RErr (Some er) | None => RNames r.1 end)
  | TCreate name => let! r := CreateBucket t name in st_ret (RErr (match r with inl er => Some er | inr _ => None end))
  | TDrop name => let! r := DeleteBucket t name in st_ret (RErr r)
  end.

Fixpoint script_run (fuel : nat) (s : script) (t : tid) : M (option err) :=
  match s with
  | Return e => st_ret e
  | Do o k => let! r := op_run fuel t o in script_run fuel (k r) t
  end.

(** ** The simulation *)

(** The tree [T] of the bucket [name] holds [kvs] and has at most [N] nodes; it is a
    single leaf if [name] is in [S]. *)
Definition known (S : gset bytes) (N : nat) (name : bytes) (kvs : list kv) (T : tree) : Prop :=
  contents T = kvs ∧ tsize T ≤ N ∧ (name ∈ S → tleaf T = true).

Definition seen (w : world) (t : tid) (tx : Tx) (st : dbState) (S : gset bytes) (N : nat) (name : bytes) (kvs : list kv) : Prop :=
  match t_bctx tx !! name with
  | Some b => ∃ x T, orderly w b x T ∧ b_tx x = t ∧ b_name x = name ∧ known S N name kvs T
  | None => ∃ T, stored_as w st name T ∧ known S N name kvs T
  end.

(** The open write transaction [t] sees [σ]; [N] bounds the size of the trees. *)
Record session (w : world) (t : tid) (tx : Tx) (st : dbState) (σ : abs) (N : nat) : Prop := mkSession {
  ss_sane : sane w;
  ss_dirs : dirs w;
  ss_open : open_tx w t tx st;
  ss_writable : t_writable tx = true;
  ss_names : visible tx = dom (a_map σ);
  ss_seen : ∀ name kvs, a_map σ !! name = Some kvs → seen w t tx st (a_one σ) N name kvs;
  ss_dropped : ∀ name, name ∈ t_created tx → is_Some (ds_buckets st !! name) → name ∈ a_gone σ;
  ss_gone : t_deleted tx ⊆ a_gone σ;
  ss_size : 1 ≤ N;
  ss_db : db_readOnly (w_db w) = false ∧ db_opened (w_db w) = true
}.

Definition set_map (A : model) (σ : abs) : abs := mkAbs A (a_one σ) (a_gone σ).

Lemma session_visible w t tx st σ N name : session w t tx st σ N → name ∈ visible tx ↔ is_Some (a_map σ !! name).
Proof. intros Hs. rewrite (ss_names _ _ _ _ _ _ Hs). apply elem_of_dom. Qed.

(** Work on the handle of one bucket. *)
Lemma session_acts w w' t tx st σ N name b x T kvs :
  session w t tx st σ N → t_bctx tx !! name = Some b → acts b w w' → is_Some (a_map σ !! name) →
  orderly w' b x T → b_tx x = t → b_name x = name → known (a_one σ) N name kvs T →
  ∃ tx', session w' t tx' st (set_map (<[name := kvs]> (a_map σ)) σ) N ∧ t_bctx tx' = t_bctx tx.
Proof.
  intros [Hs Hd Ho Hw Hn Hl Hdr Hgo Hsz Hdb0] Hb Ha HA Hox Hxt Hxn Hkn. pose proof (a_evo _ _ _ Ha) as He. pose proof Ho as [Ht Hdb Hba Hok].
  destruct (strip_lookup _ _ _ _ (e_txs _ _ He) Ht) as (tx' & Ht' & Hst). pose proof (strip_same _ _ Hst) as Hsame.
  destruct (same_dir_ok _ _ Hsame Hok) as [Hok' Hvis]. pose proof Hsame as (Hdb' & Hba' & Hcr' & Hdl' & Hbc').
  destruct (strip_fields _ _ Hst) as (Hw' & _). exists tx'. split; [|done]. split; simpl; auto.
  - by eapply sane_evo.
  - by eapply dirs_evo.
  - split; [done|congruence|congruence|done].
  - congruence.
  - rewrite Hvis, Hn, dom_insert_L. apply elem_of_dom in HA. clear -HA. set_solver.
  - intros name' kvs'. unfold seen. rewrite Hbc', lookup_insert. case_decide as E.
    + subst name'. rewrite Hb. intros [= <-]. eauto 10.
    + intros Hk. specialize (Hl _ _ Hk). unfold seen in Hl. destruct (t_bctx tx !! name') as [b'|] eqn:Hb'.
      * destruct Hl as (x' & T' & Ho' & ? & ? & ?). exists x', T'. split_and!; try done.
        eapply orderly_acts; [apply Hs|exact Ha| |done]. intros ->.
        destruct (dv_tx _ Hd _ _ Ht Hdb) as (_ & _ & _ & Hh). destruct (Hh _ _ Hb) as (y & Hy & _ & Hyn & _).
        destruct (Hh _ _ Hb') as (y' & Hy' & _ & Hyn' & _). congruence.
      * destruct Hl as (T' & Hst' & ?). exists T'. split; [|done]. eapply stored_as_same; [|exact Hst'].
        intros l n Hln Hlt. pose proof Hst' as (bs & Hbs & Hroot & Hrep & _).
        destruct (frozen_tree w T' (sn_core _ Hs) Hrep (s_base _ (sn_core _ Hs) _ _ _ Ht Hba _ _ _ Hbs Hroot) l Hlt) as (n' & Hn' & Hnb).
        simplify_eq. by apply (e_frozen _ _ He).
  - rewrite Hcr'. done.
  - by rewrite Hdl'.
  - by rewrite (e_db _ _ He).
Qed.

Lemma known_sub S S' N name kvs T : (name ∈ S' → name ∈ S) → known S N name kvs T → known S' N name kvs T.
Proof. intros Hs (? & ? & ?). split_and!; auto. Qed.

(** A step that adds nodes and handles, and changes the directory elsewhere. *)
Lemma seen_extend w w' t tx tx' st S S' N name kvs :
  sane w → core w' → open_tx w t tx st → (∀ l n, w_nodes w !! l = Some n → w_nodes w' !! l = Some n) →
  (∀ b x, w_bkts w !! b = Some x → w_bkts w' !! b = Some x) → w_txs w' = <[t := tx']> (w_txs w) →
  t_db tx' = t_db tx → t_writable tx' = t_writable tx → t_base tx' = t_base tx → t_bctx tx' !! name = t_bctx tx !! name →
  (name ∈ S' → name ∈ S) → seen w t tx st S N name kvs → seen w' t tx' st S' N name kvs.
Proof.
  intros Hs Hc Ho Hn Hb Ht Hdb Hw Hba Hbc HS Hseen. unfold seen in *. rewrite Hbc. destruct (t_bctx tx !! name) as [b|].
  - destruct Hseen as (x & T & Hox & Hxt & Hxn & Hkn). exists x, T. split_and!; [|done|done|by eapply known_sub].
    eapply orderly_extend; [done|done|apply Hb, (rd_bkt _ _ _ _ (orderly_readable _ _ _ _ Hox))| |done].
    intros tx0 Htx0. rewrite Hxt in *. rewrite Ht, lookup_insert_eq. pose proof (ot_tx _ _ _ _ Ho). simplify_eq. eauto.
  - destruct Hseen as (T & Hst & ?). exists T. split; [|by eapply known_sub]. eapply stored_as_same; [|exact Hst]. eauto.
Qed.

(** [Tx.Bucket] opens a bucket that is there. *)
Lemma session_open w t tx st σ N name kvs :
  session w t tx st σ N → a_map σ !! name = Some kvs →
  ∃ b w' tx', Tx_Bucket t name w = (Ret (Some b), w') ∧ session w' t tx' st σ N ∧ t_bctx tx' !! name = Some b.
Proof.
  intros Hss HA. pose proof Hss as [Hs Hd Ho Hw Hn Hl Hdr Hgo Hsz Hdb0]. pose proof (proj2 (session_visible _ _ _ _ _ _ name Hss) (ex_intro _ _ HA)) as Hv.
  pose proof (Tx_Bucket_run w t tx st name Ho) as Hrun. rewrite decide_True in Hrun by done.
  destruct (t_bctx tx !! name) as [b|] eqn:Hb; [by exists b, w, tx|]. pose proof (q_sane _ _ (proj1 (Tx_Bucket_q t name w Hs))) as Hs'.
  pose proof (Tx_Bucket_dirs t name w Hs Hd) as Hd'. rewrite Hrun in Hs', Hd'. simpl in Hs', Hd'.
  destruct (opened_dir w t name tx st Ho Hv) as [Ho' Hvis]. pose proof Ho as [Ht Hdb Hba Hok]. pose proof (sn_core _ Hs) as Hc.
  eexists _, _, (set_t_bctx (<[name := w_nextb w]> (t_bctx tx)) tx). split; [exact Hrun|]. split; [|simpl; apply lookup_insert_eq]. split; simpl; auto.
  intros name' kvs' Hk. destruct (decide (name' = name)) as [->|E].
  - specialize (Hl _ _ Hk). unfold seen in *. simpl. rewrite Hb in Hl. rewrite lookup_insert_eq. destruct Hl as (T & Hst & Hkn).
    destruct (opened_orderly t name tx w st T (sn_core _ Hs') Ht Hdb Hw Hba Hst) as (x & Hox & Hxt & Hxn). by exists x, T.
  - eapply (seen_extend w _ t tx (set_t_bctx (<[name := w_nextb w]> (t_bctx tx)) tx)); [done|apply Hs'|done|done| |done|done|done|done| |done|by apply Hl].
    + intros b x Hx. simpl. rewrite lookup_insert_ne; [done|]. apply (s_fresh_b _ Hc) in Hx. lia.
    + simpl. by rewrite lookup_insert_ne.
Qed.

Lemma Put_refused fuel w b x T key value er :
  orderly w b x T → put_check key value = Some er → Put fuel b key value w = (Ret (Some er), w).
Proof.
  intros Hox He. pose proof (orderly_readable _ _ _ _ Hox) as [Hx [tx Htx] _ _ _].
  assert (writing w x) as Hw by (destruct Hox as [(l & kvs & _ & [_ ? _])|(D & M & _ & _ & _ & ?)]; done). destruct (Hw tx Htx) as [Hdb Hwr].
  unfold Put. rewrite (bind_Ret _ _ _ _ _ (get_bkt_run _ _ _ Hx)), (bind_Ret _ _ _ _ _ (get_tx_run _ _ _ Htx)), Hdb, Hwr. simpl.
  unfold put_check in He. destruct (_ =? _)%Z; [by simplify_eq|]. destruct (_ <? _)%Z; [by simplify_eq|]. destruct (_ <? _)%Z; by simplify_eq.
Qed.

Lemma put_check_None key value : put_check key value = None → (0 < blen key ≤ MaxKeySize)%Z ∧ (blen value ≤ MaxValueSize)%Z.
Proof.
  unfold put_check. destruct (Z.eqb_spec (blen key) 0); [done|]. destruct (Z.ltb_spec MaxKeySize (blen key)); [done|].
  destruct (Z.ltb_spec MaxValueSize (blen value)); [done|]. unfold blen in *. lia.
Qed.

(** [Tx.Bucket] on a name that is not there. *)
Lemma session_absent w t tx st σ N name :
  session w t tx st σ N → a_map σ !! name = None → Tx_Bucket t name w = (Ret None, w).
Proof.
  intros Hss HA. pose proof (Tx_Bucket_run w t tx st name (ss_open _ _ _ _ _ _ Hss)) as Hrun. rewrite decide_False in Hrun; [done|].
  rewrite (session_visible _ _ _ _ _ _ name Hss), HA. by intros [? ?].
Qed.

(** The tree behind the handle of a bucket. *)
Lemma session_handle w t tx st σ N name kvs b :
  session w t tx st σ N → a_map σ !! name = Some kvs → t_bctx tx !! name = Some b →
  ∃ x T, orderly w b x T ∧ b_tx x = t ∧ b_name x = name ∧ known (a_one σ) N name kvs T.
Proof. intros Hss HA Hb. pose proof (ss_seen _ _ _ _ _ _ Hss _ _ HA) as Hseen. unfold seen in Hseen. by rewrite Hb in Hseen. Qed.

(** [Put] on the handle of a bucket. *)
Lemma session_Put fuel w t tx st σ N name b kvs key value :
  session w t tx st σ N → N ≤ fuel → a_map σ !! name = Some kvs → t_bctx tx !! name = Some b →
  ∃ w' tx', Put fuel b key value w = (Ret (put_check key value), w') ∧ t_bctx tx' !! name = Some b ∧
    session w' t tx' st (match put_check key value with Some _ => σ | None => set_map (<[name := kv_insert key value kvs]> (a_map σ)) σ end) N.
Proof.
  intros Hss Hf HA Hb. destruct (session_handle _ _ _ _ _ _ _ _ _ Hss HA Hb) as (x & T & Hox & Hxt & Hxn & Hc & Hsz & Hone).
  destruct (put_check key value) as [er|] eqn:Hpe.
  { rewrite (Put_refused fuel _ _ _ _ _ _ _ Hox Hpe). by exists w, tx. }
  destruct (put_check_None _ _ Hpe) as [Hk Hv].
  destruct (Put_orderly fuel w b x T key value (ss_sane _ _ _ _ _ _ Hss) Hox ltac:(lia) Hk Hv) as (w2 & x2 & T2 & Hrun2 & Hox2 & Hc2 & Hlf2 & Hsz2 & Ha & Hxt2 & Hxn2).
  rewrite Hrun2. exists w2.
  destruct (session_acts w w2 t tx st σ N name b x2 T2 (kv_insert key value kvs) Hss Hb Ha) as (tx2 & Hss2 & Hbc); [eauto|done|congruence|congruence| |].
  { split_and!; [congruence|lia|]. rewrite Hlf2. done. }
  exists tx2. by rewrite Hbc.
Qed.

Lemma session_put fuel w t tx st σ N name key value :
  session w t tx st σ N → N ≤ fuel →
  ∃ w' tx', op_run fuel t (TPut name key value) w = (Ret (abs_step σ (TPut name key value)).1, w') ∧
    session w' t tx' st (abs_step σ (TPut name key value)).2 N.
Proof.
  intros Hss Hf. unfold abs_step. cbn [op_run apply_op]. destruct (a_map σ !! name) as [kvs|] eqn:HA.
  2:{ rewrite (bind_Ret _ _ _ _ _ (session_absent _ _ _ _ _ _ _ Hss HA)). exists w, tx. by destruct σ. }
  destruct (session_open _ _ _ _ _ _ _ _ Hss HA) as (b & w1 & tx1 & Hrun & Hss1 & Hb). rewrite (bind_Ret _ _ _ _ _ Hrun).
  destruct (session_Put fuel w1 t tx1 st σ N name b kvs key value Hss1 Hf HA Hb) as (w2 & tx2 & Hput & _ & Hss2).
  rewrite (bind_Ret _ _ _ _ _ Hput). exists w2, tx2. destruct (put_check key value); [by destruct σ|done].
Qed.

(** Opening a cursor on the handle of a bucket counts it. *)
Lemma session_count w t tx st σ N name kvs b x T txb :
  session w t tx st σ N → a_map σ !! name = Some kvs → t_bctx tx !! name = Some b → orderly w b x T → b_tx x = t → b_name x = name →
  known (a_one σ) N name kvs T → w_txs w !! b_tx x = Some txb → ∃ tx', session (count_cursor (b_tx x) txb w) t tx' st σ N.
Proof.
  intros Hss HA Hb Hox Hxt Hxn Hkn Htxb. pose proof (orderly_readable _ _ _ _ Hox) as Hr.
  destruct (stat_run w (b_tx x) (IncCursorCount 1) txb (sn_core _ (ss_sane _ _ _ _ _ _ Hss)) Htxb) as (w' & Hst & He & _).
  unfold tx_stat in Hst. rewrite (upd_tx_run _ _ _ _ Htxb) in Hst. injection Hst as <-.
  destruct (session_acts w (count_cursor (b_tx x) txb w) t tx st σ N name b x T kvs Hss Hb) as (tx' & Hss' & _); try done.
  { eapply (orderly_extend w); [apply He|done|apply Hr| |exact Hox]. intros tx0 Htx0. simpl. rewrite lookup_insert_eq. simplify_eq. eauto. }
  exists tx'. rewrite insert_id in Hss' by done. by destruct σ.
Qed.

Lemma session_get fuel w t tx st σ N name key :
  session w t tx st σ N → N ≤ fuel →
  ∃ w' tx', op_run fuel t (TGet name key) w = (Ret (abs_step σ (TGet name key)).1, w') ∧ session w' t tx' st (abs_step σ (TGet name key)).2 N.
Proof.
  intros Hss Hf. assert ((abs_step σ (TGet name key)).2 = σ) as -> by (by destruct σ). cbn [op_run abs_step apply_op fst]. destruct (a_map σ !! name) as [kvs|] eqn:HA.
  2:{ rewrite (bind_Ret _ _ _ _ _ (session_absent _ _ _ _ _ _ _ Hss HA)). by exists w, tx. }
  destruct (session_open _ _ _ _ _ _ _ _ Hss HA) as (b & w1 & tx1 & Hrun & Hss1 & Hb). rewrite (bind_Ret _ _ _ _ _ Hrun).
  destruct (session_handle _ _ _ _ _ _ _ _ _ Hss1 HA Hb) as (x & T & Hox & Hxt & Hxn & Hkn). pose proof Hkn as (Hc & Hsz & _).
  pose proof (orderly_readable _ _ _ _ Hox) as Hr. destruct (rd_tx _ _ _ _ Hr) as [txb Htxb].
  rewrite (bind_Ret _ _ _ _ _ (Get_run fuel b key w1 x T txb Hr Htxb ltac:(lia))), Hc.
  destruct (session_count _ _ _ _ _ _ _ _ _ _ _ _ Hss1 HA Hb Hox Hxt Hxn Hkn Htxb) as [tx2 Hss2]. eauto.
Qed.

(** A scan of a whole bucket. *)
Lemma session_scan fuel w t tx st σ N name :
  session w t tx st σ N → N ≤ fuel → scan_size σ (TScan name) ≤ fuel →
  ∃ w' tx', op_run fuel t (TScan name) w = (Ret (abs_step σ (TScan name)).1, w') ∧ session w' t tx' st (abs_step σ (TScan name)).2 N.
Proof.
  intros Hss Hf Hlen. assert ((abs_step σ (TScan name)).2 = σ) as -> by (by destruct σ). cbn [op_run abs_step apply_op fst scan_size] in *. destruct (a_map σ !! name) as [kvs|] eqn:HA.
  2:{ rewrite (bind_Ret _ _ _ _ _ (session_absent _ _ _ _ _ _ _ Hss HA)). by exists w, tx. }
  destruct (session_open _ _ _ _ _ _ _ _ Hss HA) as (b & w1 & tx1 & Hrun & Hss1 & Hb). rewrite (bind_Ret _ _ _ _ _ Hrun).
  destruct (session_handle _ _ _ _ _ _ _ _ _ Hss1 HA Hb) as (x & T & Hox & Hxt & Hxn & Hkn). pose proof Hkn as (Hc & Hsz & _).
  pose proof (orderly_readable _ _ _ _ Hox) as Hr. destruct (rd_tx _ _ _ _ Hr) as [txb Htxb].
  assert (Hdb : t_db txb = true) by (pose proof (ss_open _ _ _ _ _ _ Hss1) as [Ht ? _ _]; rewrite Hxt in Htxb; congruence).
  rewrite (bind_Ret _ _ _ _ _ (ForEach_run collect fuel b [] w1 x T txb Hr Htxb Hdb ltac:(lia) ltac:(rewrite Hc; simpl in Hlen; lia))), kv_fold_collect, Hc.
  destruct (session_count _ _ _ _ _ _ _ _ _ _ _ _ Hss1 HA Hb Hox Hxt Hxn Hkn Htxb) as [tx2 Hss2]. eauto.
Qed.

(** A listing opens every bucket. *)
Lemma session_visit t st σ N names : ∀ w tx acc,
  session w t tx st σ N → (∀ name, name ∈ names → is_Some (a_map σ !! name)) →
  ∃ w' tx', visit t collect_name names acc w = (Ret (acc ++ names, None), w') ∧ session w' t tx' st σ N.
Proof.
  induction names as [|name names IH]; intros w tx acc Hss Hin; simpl; [exists w, tx; by rewrite app_nil_r|].
  destruct (Hin name ltac:(by left)) as [kvs HA]. destruct (session_open _ _ _ _ _ _ _ _ Hss HA) as (b & w1 & tx1 & Hrun & Hss1 & _).
  destruct (IH w1 tx1 (acc ++ [name]) Hss1) as (w2 & tx2 & Hrun2 & Hss2); [intros n Hn; apply Hin; by right|].
  exists w2, tx2. split; [|done]. rewrite (bind_Ret _ _ _ _ _ Hrun). unfold collect_name at 1. rewrite (bind_Ret (st_ret _) _ w1 _ w1 eq_refl), Hrun2.
  by rewrite <- app_assoc.
Qed.

Lemma session_names fuel w t tx st σ N :
  session w t tx st σ N →
  ∃ w' tx', op_run fuel t TNames w = (Ret (abs_step σ TNames).1, w') ∧ session w' t tx' st (abs_step σ TNames).2 N.
Proof.
  intros Hss. assert ((abs_step σ TNames).2 = σ) as -> by (by destruct σ). cbn [op_run abs_step apply_op fst].
  assert (Hnames : listing tx = names_of (a_map σ)) by (unfold listing, names_of; by rewrite (ss_names _ _ _ _ _ _ Hss)).
  destruct (session_visit t st σ N (listing tx) w tx [] Hss) as (w1 & tx1 & Hrun & Hss1).
  { intros name Hn. apply (session_visible _ _ _ _ _ _ name Hss). by apply listing_spec. }
  rewrite <- (ForEach_visit w t tx st collect_name [] (ss_open _ _ _ _ _ _ Hss)) in Hrun.
  exists w1, tx1. by rewrite (bind_Ret _ _ _ _ _ Hrun), Hnames.
Qed.

(** [Delete] in a bucket that is one leaf. *)
Lemma session_delete fuel w t tx st σ N name key :
  session w t tx st σ N → N ≤ fuel → careful σ (TDelete name key) = true →
  ∃ w' tx', op_run fuel t (TDelete name key) w = (Ret (abs_step σ (TDelete name key)).1, w') ∧
    session w' t tx' st (abs_step σ (TDelete name key)).2 N.
Proof.
  intros Hss Hf Hcare. unfold abs_step. cbn [op_run apply_op careful] in *. destruct (a_map σ !! name) as [kvs|] eqn:HA.
  2:{ rewrite (bind_Ret _ _ _ _ _ (session_absent _ _ _ _ _ _ _ Hss HA)). exists w, tx. by destruct σ. }
  assert (HS : name ∈ a_one σ) by (apply orb_true_iff in Hcare as [Hcare|Hcare]; by apply bool_decide_eq_true in Hcare).
  destruct (session_open _ _ _ _ _ _ _ _ Hss HA) as (b & w1 & tx1 & Hrun & Hss1 & Hb). rewrite (bind_Ret _ _ _ _ _ Hrun).
  destruct (session_handle _ _ _ _ _ _ _ _ _ Hss1 HA Hb) as (x & T & Hox & Hxt & Hxn & Hc & Hsz & Hone).
  pose proof (ss_size _ _ _ _ _ _ Hss1) as HN.
  destruct (Delete_orderly fuel w1 b x T key (ss_sane _ _ _ _ _ _ Hss1) Hox (Hone HS) ltac:(lia)) as (w2 & x2 & T2 & Hrun2 & Hox2 & Hc2 & Hlf2 & Hsz2 & Ha & Hxt2 & Hxn2).
  rewrite (bind_Ret _ _ _ _ _ Hrun2). exists w2.
  destruct (session_acts w1 w2 t tx1 st σ N name b x2 T2 (kv_delete key kvs) Hss1 Hb Ha) as (tx2 & Hss2 & _); [eauto|done|congruence|congruence| |by exists tx2].
  split_and!; [congruence|lia|done].
Qed.

(** [CreateBucket] of a name that is not there. *)
Lemma session_created w t tx st σ N name :
  session w t tx st σ N → name ≠ [] → a_map σ !! name = None →
  ∃ b w' tx', CreateBucket t name w = (Ret (inr b), w') ∧
    session w' t tx' st (mkAbs (<[name := []]> (a_map σ)) ({[name]} ∪ a_one σ) (a_gone σ)) N ∧ t_bctx tx' !! name = Some b.
Proof.
  intros Hss Hne HA. pose proof Hss as [Hs Hd Ho Hw Hn Hl Hdr Hgo Hsz Hdb0]. pose proof Ho as [Ht Hdb Hba Hok].
  pose proof (CreateBucket_run w t tx st name Ho Hw Hne) as Hrun. pose proof (session_visible _ _ _ _ _ _ name Hss) as Hvi. rewrite HA in Hvi.
  rewrite decide_False in Hrun by (rewrite Hvi; by intros [? ?]).
  pose proof (q_sane _ _ (proj1 (CreateBucket_q t name w Hs))) as Hs'. pose proof (CreateBucket_dirs t name w Hs Hd) as Hd'. rewrite Hrun in Hs', Hd'.
  simpl in Hs', Hd'. destruct (created_visible t name tx w _ st Ho (lookup_insert_eq _ _ _)) as (H1 & H2 & H3).
  destruct (created_leafy t name tx w Hdb Hw) as (x & Hlx & Hxt & Hxn). pose proof (sn_core _ Hs) as Hc.
  eexists _, _, _. split; [exact Hrun|]. split; [|exact H3]. split; [exact Hs'|exact Hd'|exact H1|..]; simpl; auto.
  - rewrite dom_insert_L, <- Hn. exact H2.
  - intros name' kvs' Hk. destruct (decide (name' = name)) as [->|E].
    + rewrite lookup_insert_eq in Hk. injection Hk as <-. unfold seen. rewrite H3. eexists x, (Leaf (w_nextn w) []). split_and!; try done. left. eauto.
    + rewrite lookup_insert_ne in Hk by done. eapply (seen_extend w (created_world t name tx w) t tx); [done|apply Hs'|done| | |done|done|done|done| | |by apply Hl].
      * intros l n Hln. simpl. rewrite lookup_insert_ne; [done|]. apply (s_fresh_n _ Hc) in Hln. lia.
      * intros b y Hy. simpl. rewrite lookup_insert_ne; [done|]. apply (s_fresh_b _ Hc) in Hy. lia.
      * simpl. by rewrite lookup_insert_ne.
      * by intros [?%elem_of_singleton|?]%elem_of_union.
  - intros n [->%elem_of_singleton|Hcr]%elem_of_union Hex; [|by apply Hdr]. apply Hgo. rewrite (elem_of_visible tx st _ Hba) in Hvi.
    destruct (decide (name ∈ t_deleted tx)); [done|]. exfalso. destruct (proj1 Hvi) as [? ?]; [|done]. split; [by left|done].
  - clear -Hgo. set_solver.
Qed.

Lemma session_create fuel w t tx st σ N name :
  session w t tx st σ N →
  ∃ w' tx', op_run fuel t (TCreate name) w = (Ret (abs_step σ (TCreate name)).1, w') ∧ session w' t tx' st (abs_step σ (TCreate name)).2 N.
Proof.
  intros Hss. pose proof Hss as [Hs Hd Ho Hw _ _ _ _ _ _]. pose proof Ho as [Ht Hdb Hba Hok]. unfold abs_step. cbn [op_run apply_op].
  destruct (decide (name = [])) as [->|Hne].
  { exists w, tx. split; [|by destruct σ]. assert (Hrun : CreateBucket t [] w = (Ret (inl ErrBucketNameRequired), w)).
    { unfold CreateBucket. by rewrite (bind_Ret _ _ _ _ _ (get_tx_run _ _ _ Ht)), Hdb, Hw. }
    by rewrite (bind_Ret _ _ _ _ _ Hrun). }
  destruct (a_map σ !! name) as [kvs|] eqn:HA.
  - pose proof (CreateBucket_run w t tx st name Ho Hw Hne) as Hrun.
    rewrite decide_True in Hrun by (apply (session_visible _ _ _ _ _ _ name Hss); eauto). rewrite (bind_Ret _ _ _ _ _ Hrun). exists w, tx. by destruct σ.
  - destruct (session_created _ _ _ _ _ _ _ Hss Hne HA) as (b & w1 & tx1 & Hrun & Hss1 & _). rewrite (bind_Ret _ _ _ _ _ Hrun). by exists w1, tx1.
Qed.

(** [CreateBucketIfNotExists] *)
Definition ensure (name : bytes) (σ : abs) : abs :=
  match a_map σ !! name with Some _ => σ | None => mkAbs (<[name := []]> (a_map σ)) ({[name]} ∪ a_one σ) (a_gone σ) end.

Lemma session_ensure w t tx st σ N name :
  session w t tx st σ N → name ≠ [] →
  ∃ b w' tx', CreateBucketIfNotExists t name w = (Ret (inr b), w') ∧ session w' t tx' st (ensure name σ) N ∧ t_bctx tx' !! name = Some b.
Proof.
  intros Hss Hne. pose proof (ss_open _ _ _ _ _ _ Hss) as [Ht Hdb _ _]. unfold CreateBucketIfNotExists, ensure.
  rewrite (bind_Ret _ _ _ _ _ (get_tx_run _ _ _ Ht)), Hdb, (ss_writable _ _ _ _ _ _ Hss). change (negb true) with false. cbv iota.
  destruct (Nat.eqb_spec (length name) 0) as [E|_]; [by apply nil_length_inv in E|]. destruct (a_map σ !! name) as [kvs|] eqn:HA.
  - destruct (session_open _ _ _ _ _ _ _ _ Hss HA) as (b & w1 & tx1 & Hrun & Hss1 & Hb). rewrite (bind_Ret _ _ _ _ _ Hrun). by exists b, w1, tx1.
  - rewrite (bind_Ret _ _ _ _ _ (session_absent _ _ _ _ _ _ _ Hss HA)). by eapply session_created.
Qed.

Lemma session_drop fuel w t tx st σ N name :
  session w t tx st σ N → careful σ (TDrop name) = true →
  ∃ w' tx', op_run fuel t (TDrop name) w = (Ret (abs_step σ (TDrop name)).1, w') ∧ session w' t tx' st (abs_step σ (TDrop name)).2 N.
Proof.
  intros Hss HX%bool_decide_eq_true. pose proof Hss as [Hs Hd Ho Hw Hn Hl Hdr Hgo Hsz Hdb0]. pose proof Ho as [Ht Hdb Hba Hok]. unfold abs_step. cbn [op_run apply_op].
  pose proof (session_visible _ _ _ _ _ _ name Hss) as Hvi. rewrite (elem_of_visible tx st _ Hba) in Hvi.
  pose proof (DeleteBucket_run w t tx st name Ho Hw) as Hrun. pose proof (q_sane _ _ (proj1 (DeleteBucket_q t name w Hs))) as Hs'.
  pose proof (DeleteBucket_dirs t name w Hd) as Hd'.
  assert (Hstep : ∀ tx', DeleteBucket t name w = (Ret None, set_txs (<[t := tx']> (w_txs w)) w) → dir_ok tx' →
    visible tx' = visible tx ∖ {[name]} → t_bctx tx' = delete name (t_bctx tx) → t_db tx' = true → t_writable tx' = true → t_base tx' = Some st →
    t_created tx' ⊆ t_created tx → t_deleted tx' ⊆ {[name]} ∪ t_deleted tx →
    session (set_txs (<[t := tx']> (w_txs w)) w) t tx' st (mkAbs (delete name (a_map σ)) (a_one σ ∖ {[name]}) ({[name]} ∪ a_gone σ)) N).
  { intros tx' Hrun' Hok' Hvis Hbc Hdb' Hw' Hba' Hcr' Hdl'. rewrite Hrun' in Hs', Hd'. simpl in Hs', Hd'. split; simpl; auto.
    - split; [simpl; apply lookup_insert_eq|done|done|done].
    - rewrite Hvis, Hn. clear. set_solver.
    - intros name' kvs'. intros [Hne Hk]%lookup_delete_Some.
      eapply (seen_extend w _ t tx tx'); [done|apply Hs'|done|done|done|done|congruence|congruence|congruence| | |by apply Hl].
      + by rewrite Hbc, lookup_delete_ne.
      + by intros [? _]%elem_of_difference.
    - intros n Hcr Hex. apply elem_of_union. right. apply Hdr; [by apply Hcr'|done].
    - clear -Hgo Hdl'. set_solver. }
  destruct (a_map σ !! name) as [kvs|] eqn:HA.
  - destruct (proj2 Hvi ltac:(eauto)) as [Hor Hdel]. destruct (decide (name ∈ t_created tx)) as [Hcr|Hcr].
    + rewrite (bind_Ret _ _ _ _ _ Hrun). eexists _, (uncreate name tx). split; [done|]. destruct (uncreate_visible name tx st Hba Hok Hcr) as [Hok' Hvis].
      rewrite decide_False in Hvis by (intros Hex; by apply HX, Hdr). apply Hstep; eauto; simpl; set_solver.
    + rewrite decide_True in Hrun by (destruct Hor; done). rewrite (bind_Ret _ _ _ _ _ Hrun). eexists _, (mark_deleted name tx). split; [done|].
      destruct (mark_deleted_visible name tx st Hba Hok Hcr) as [Hok' Hvis]. apply Hstep; eauto; simpl; set_solver.
  - assert (Hno : ¬ is_Some (@None (list kv))) by (by intros [? ?]). rewrite decide_False in Hrun.
    2:{ intros Hcr. apply Hno, Hvi. split; [by right|]. pose proof (do_disj _ Hok). set_solver. }
    rewrite decide_False in Hrun. 2:{ intros Hex. apply Hno, Hvi. split; [by left|]. set_solver. }
    rewrite (bind_Ret _ _ _ _ _ Hrun). exists w, tx. split; [done|]. split; simpl; auto; [|set_solver..].
    intros name' kvs' Hk. assert (name' ∈ a_one σ ∖ {[name]} → name' ∈ a_one σ) as HS by (by intros [? _]%elem_of_difference).
    specialize (Hl _ _ Hk). unfold seen in *. destruct (t_bctx tx !! name') as [b|].
    + destruct Hl as (x & T & ? & ? & ? & ?). exists x, T. split_and!; [done|done|done|by eapply known_sub].
    + destruct Hl as (T & ? & ?). exists T. split; [done|by eapply known_sub].
Qed.

(** ** Every operation, and every function *)

Lemma session_step fuel w t tx st σ N o :
  session w t tx st σ N → N ≤ fuel → scan_size σ o ≤ fuel → careful σ o = true →
  ∃ w' tx', op_run fuel t o w = (Ret (abs_step σ o).1, w') ∧ session w' t tx' st (abs_step σ o).2 N.
Proof.
  intros Hss Hf Hsc Hd. destruct o as [name key value|name key|name key|name| |name|name].
  - by eapply session_put.
  - by eapply session_get.
  - by eapply session_delete.
  - by eapply session_scan.
  - by eapply session_names.
  - by eapply session_create.
  - by eapply session_drop.
Qed.

Lemma session_script fuel s : ∀ w t tx st σ N,
  session w t tx st σ N → N ≤ fuel → longest σ s ≤ fuel → all_careful σ s = true →
  ∃ w' tx', script_run fuel s t w = (Ret (outcome σ s).1, w') ∧ session w' t tx' st (outcome σ s).2 N.
Proof.
  induction s as [e|o k IH]; intros w t tx st σ N Hss Hf Hlo Hc; simpl.
  - exists w, tx. by split.
  - cbn [all_careful longest] in Hc, Hlo. apply andb_true_iff in Hc as [Hco Hc]. destruct (session_step fuel w t tx st σ N o Hss Hf ltac:(lia) Hco) as (w1 & tx1 & Hrun & Hss1).
    destruct (abs_step σ o) as [r σ1]. cbn [fst snd] in *. rewrite (bind_Ret _ _ _ _ _ Hrun). apply (IH r _ _ tx1); [done|done|lia|done].
Qed.
