(* ===== verification/Managed.v ===== *)
(** * Managed transactions: [DB.Update] and [DB.View]

    The caller's function is any terminating program of API calls; it may look at
    everything a call returns, and may recover from a panic of a call.  While it
    runs, its transaction can be neither committed nor rolled back nor overtaken
    by another writer; whatever it does, [Update] publishes all or nothing and
    gives the writer lock back. *)
From S2P Require Import Prelude GoSort Stats World Node KV Tree TreePath Cursor CursorSpec Cow Bucket Spill Tx DB.
From S2P Require Import CowSpec BucketSpec Frame FrameSpill Publish Isolation System TxSpec Directory DBSpec LeafBucket Ripe CommitSpec.
Local Open Scope st_scope.

(** ** Callers' functions *)

Inductive prog :=
| PReturn (e : option err)
| PPanic (p : panic)
| PCall (c : call) (k : option panic → world → prog).

Fixpoint run_prog (p : prog) (w : world) : res (option err) * world :=
  match p with
  | PReturn e => (Ret e, w)
  | PPanic x => (Panic x, w)
  | PCall c k =>
      match run_call c w with
      | (Ret _, w') => run_prog (k None w') w'
      | (Panic x, w') => run_prog (k (Some x) w') w'
      | (Blocked, w') => (Blocked, w')
      | (NoFuel, w') => (NoFuel, w')
      end
  end.

(** The calls of the public API, with any iteration order Go may choose. *)
Definition api_call (c : call) : Prop :=
  match c with CManaged _ _ | CAbandon _ => False | _ => fair_call c end.

Fixpoint api_prog (p : prog) : Prop :=
  match p with PReturn _ | PPanic _ => True | PCall c k => api_call c ∧ ∀ o w, api_prog (k o w) end.

Lemma api_fair c : api_call c → fair_call c.
Proof. by destruct c. Qed.

Lemma prog_steps p : ∀ w, api_prog p → rtc step w (run_prog p w).2.
Proof.
  induction p as [e|x|c k IH]; intros w; simpl; [intros _; apply rtc_refl..|]. intros [Hc Hk].
  assert (Hstep : step w (run_call c w).2) by (by apply step_call, api_fair).
  destruct (run_call c w) as [[[]|x| |] w']; simpl in *; (eapply rtc_l; [exact Hstep|]); try apply rtc_refl; by apply IH.
Qed.

(** ** The transaction while its function runs *)

(** [t] is an open, managed transaction, writable or not. *)
Definition busy (wr : bool) (w : world) (t : tid) : Prop :=
  ∃ tx, w_txs w !! t = Some tx ∧ t_managed tx = true ∧ t_db tx = true ∧ t_writable tx = wr.

Lemma busy_writer w t : busy true w t → writer (w_txs w) t.
Proof. intros (tx & Ht & _ & Hd & Hw). exists tx. by rewrite Hd, Hw. Qed.

Lemma busy_locked w t : sane w → busy true w t → db_rwlock (w_db w) = true.
Proof. intros Hs Hb. apply (lk_held _ _ (sn_lock _ Hs)). exists t. by apply busy_writer. Qed.

Lemma busy_evo wr w w' t : evo w w' → busy wr w t → busy wr w' t.
Proof.
  intros He (tx & Ht & Hm & Hd & Hw). destruct (strip_lookup _ _ _ _ (e_txs _ _ He) Ht) as (tx' & Ht' & Hs).
  exists tx'. split; [done|]. destruct tx, tx'. unfold strip in Hs. simpl in *. by simplify_eq.
Qed.

Lemma busy_upd_tx wr w t u f :
  (∀ tx, t_managed (f tx) = t_managed tx ∧ t_db (f tx) = t_db tx ∧ t_writable (f tx) = t_writable tx) →
  busy wr w t → busy wr (upd_tx u f w).2 t.
Proof.
  intros Hf (tx & Ht & Hm & Hd & Hw). destruct (w_txs w !! u) as [ux|] eqn:Hu.
  2:{ unfold upd_tx, get_tx, st_bind, st_get, st_deref. rewrite Hu. by exists tx. }
  rewrite (upd_tx_run _ _ _ _ Hu). destruct (decide (u = t)) as [->|Hne].
  - simplify_eq. exists (f tx). destruct (Hf tx) as (-> & -> & ->). split; [apply lookup_insert_eq|done].
  - exists tx. split; [simpl; by rewrite lookup_insert_ne|done].
Qed.

(** The calls that touch transactions keep a managed one open. *)
Definition keeps_busy {A} (t : tid) (m : M A) : Prop := ∀ wr w, busy wr w t → busy wr (m w).2 t.

Lemma kb_ret {A} t (a : A) : keeps_busy t (st_ret a).
Proof. by intros wr w. Qed.
Lemma kb_bind {A B} t (m : M A) (f : A → M B) :
  keeps_busy t m → (∀ a, keeps_busy t (f a)) → keeps_busy t (st_bind m f).
Proof.
  intros Hm Hf wr w Hb. specialize (Hm wr w Hb). unfold st_bind. destruct (m w) as [[a| | |] w']; simpl in *; auto. by apply Hf.
Qed.
Lemma kb_read {A} t (m : M A) : (∀ w, (m w).2 = w) → keeps_busy t m.
Proof. intros Hm wr w. by rewrite Hm. Qed.
Lemma get_tx_same t w : (get_tx t w).2 = w.
Proof. unfold get_tx, st_bind, st_get, st_deref. by destruct (w_txs w !! t). Qed.
Lemma base_buckets_same tx w : (base_buckets tx w).2 = w.
Proof. unfold base_buckets, st_bind, st_deref. by destruct (t_base tx). Qed.
Lemma kb_txs {A} t (m : M A) : (∀ w, w_txs (m w).2 = w_txs w) → keeps_busy t m.
Proof. intros Hm wr w. unfold busy. by rewrite Hm. Qed.
Lemma kb_upd_tx t u f :
  (∀ tx, t_managed (f tx) = t_managed tx ∧ t_db (f tx) = t_db tx ∧ t_writable (f tx) = t_writable tx) →
  keeps_busy t (upd_tx u f).
Proof. intros Hf wr w. by apply busy_upd_tx. Qed.

Lemma newBucket_txs u name w : w_txs (newBucket u name w).2 = w_txs w.
Proof.
  unfold newBucket, get_tx, st_bind, st_get, st_deref. by destruct (w_txs w !! u).
Qed.
Lemma upd_bkt_txs b f w : w_txs (upd_bkt b f w).2 = w_txs w.
Proof. unfold upd_bkt, get_bkt, st_bind, st_get, st_deref. by destruct (w_bkts w !! b). Qed.
Lemma mark_dirty_txs b l w : w_txs (mark_dirty b l w).2 = w_txs w.
Proof.
  unfold mark_dirty, get_bkt, st_bind, st_get, st_deref. destruct (w_bkts w !! b) as [x|]; simpl; [|done].
  destruct (b_dirty x); [apply upd_bkt_txs|done].
Qed.

Create HintDb busy discriminated.
#[export] Hint Resolve kb_ret get_tx_same base_buckets_same newBucket_txs upd_bkt_txs mark_dirty_txs : busy.

Ltac kb :=
  repeat (intros; lazymatch goal with
  | |- keeps_busy _ (st_bind _ _) => apply kb_bind
  | |- keeps_busy _ (if ?c then _ else _) => destruct c
  | |- keeps_busy _ (match ?c with _ => _ end) => destruct c
  | |- keeps_busy _ (upd_tx _ _) => by apply kb_upd_tx
  | |- keeps_busy _ (putBctx _ _ _) => by apply kb_upd_tx
  | |- keeps_busy _ (st_ret _) => apply kb_ret
  | |- keeps_busy _ (get_tx _) => apply kb_read, get_tx_same
  | |- keeps_busy _ (base_buckets _) => apply kb_read; intros; apply base_buckets_same
  | |- keeps_busy _ _ => apply kb_txs; by eauto with busy
  end).

Lemma Tx_Bucket_busy t u name : keeps_busy t (Tx_Bucket u name).
Proof. unfold Tx_Bucket. kb. Qed.
Lemma CreateBucket_busy t u name : keeps_busy t (CreateBucket u name).
Proof. unfold CreateBucket, bucketExistsCommitted. kb. Qed.
Lemma CreateBucketIfNotExists_busy t u name : keeps_busy t (CreateBucketIfNotExists u name).
Proof.
  unfold CreateBucketIfNotExists. apply kb_bind; [apply kb_read, get_tx_same|]. intros tx.
  destruct (negb (t_db tx)); [apply kb_ret|]. destruct (negb (t_writable tx)); [apply kb_ret|].
  destruct (length name =? 0); [apply kb_ret|]. apply kb_bind; [apply Tx_Bucket_busy|].
  intros [b|]; [apply kb_ret|apply CreateBucket_busy].
Qed.
Lemma DeleteBucket_busy t u name : keeps_busy t (DeleteBucket u name).
Proof. unfold DeleteBucket, bucketExistsCommitted. kb. Qed.

Lemma kb_upd_other t u f : u ≠ t → keeps_busy t (upd_tx u f).
Proof.
  intros Hne wr w (tx & Ht & Hf). destruct (w_txs w !! u) as [ux|] eqn:Hu.
  2:{ unfold upd_tx, get_tx, st_bind, st_get, st_deref. rewrite Hu. by exists tx. }
  rewrite (upd_tx_run _ _ _ _ Hu). exists tx. split; [simpl; by rewrite lookup_insert_ne|done].
Qed.

Lemma iter_upd_node_txs f ls w : w_txs (st_iter (λ n, upd_node n f) ls w).2 = w_txs w.
Proof.
  revert w. induction ls as [|l ls IH]; intros w; [done|]. cbn [st_iter]. unfold st_bind at 1.
  unfold upd_node, get_node, st_bind, st_get, st_deref. destruct (w_nodes w !! l); [|done]. simpl. by rewrite IH.
Qed.

Lemma bind_txs {A B} (m : M A) (f : A → M B) :
  (∀ w, w_txs (m w).2 = w_txs w) → (∀ a w, w_txs (f a w).2 = w_txs w) → ∀ w, w_txs (st_bind m f w).2 = w_txs w.
Proof.
  intros Hm Hf w. specialize (Hm w). unfold st_bind. destruct (m w) as [[a| | |] w']; simpl in *; auto. by rewrite Hf.
Qed.

Lemma get_bkt_txs b w : w_txs (get_bkt b w).2 = w_txs w.
Proof. unfold get_bkt, st_bind, st_get, st_deref. by destruct (w_bkts w !! b). Qed.

Lemma publishRoot_txs b w : w_txs (publishRoot b w).2 = w_txs w.
Proof.
  revert w. unfold publishRoot, detachPublishedNodes. apply bind_txs; [apply get_bkt_txs|]. intros x.
  destruct (b_rootNode x); [|done]. apply bind_txs; [|done]. apply bind_txs; [apply get_bkt_txs|]. intros y.
  apply bind_txs; [apply iter_upd_node_txs|]. intros _. apply upd_bkt_txs.
Qed.

Lemma publish_all_busy t del bs : ∀ acc, keeps_busy t (publish_all del bs acc).
Proof.
  induction bs as [|[n b] bs IH]; intros acc; simpl; [apply kb_ret|]. destruct (bool_decide _); [apply IH|].
  apply kb_bind; [apply kb_txs, publishRoot_txs|]. intros st. apply IH.
Qed.

Lemma Tx_close_busy t u : u ≠ t → keeps_busy t (Tx_close u).
Proof.
  intros Hne. unfold Tx_close. apply kb_bind; [apply kb_read, get_tx_same|]. intros tx. destruct (negb (t_db tx)); [apply kb_ret|].
  apply kb_bind; [|intros _; by apply kb_upd_other]. destruct (t_writable tx); [apply kb_bind; [|intros _]|]; by apply kb_txs.
Qed.

Lemma Rollback_busy t u : keeps_busy t (Rollback u).
Proof.
  intros wr w Hb. destruct (decide (u = t)) as [->|Hne].
  - unfold Rollback. pose proof Hb as (tx & Ht & Hm & _). by rewrite (bind_Ret _ _ _ _ _ (get_tx_run _ _ _ Ht)), Hm.
  - revert wr w Hb. fold (keeps_busy t (Rollback u)). unfold Rollback, rollback.
    apply kb_bind; [apply kb_read, get_tx_same|]. intros tx. apply kb_bind; [apply kb_read; by destruct (t_managed tx)|].
    intros _. destruct (negb (t_db tx)); [apply kb_ret|]. apply kb_bind; [|intros _; apply kb_ret].
    apply kb_bind; [apply kb_read, get_tx_same|]. intros tx'. destruct (negb (t_db tx')); [apply kb_ret|by apply Tx_close_busy].
Qed.

(** A commit of one transaction leaves another one's flags alone; that of the
    managed transaction itself panics at once. *)
Lemma Commit_busy it fuel rt sp t u wr w :
  fair it → sane w → busy wr w t → busy wr (Commit it fuel rt sp u w).2 t.
Proof.
  intros Hf Hs Hb. destruct (decide (u = t)) as [->|Hne].
  { unfold Commit. pose proof Hb as (tx & Ht & Hm & _). by rewrite (bind_Ret _ _ _ _ _ (get_tx_run _ _ _ Ht)), Hm. }
  destruct (Commit_split it fuel rt sp u w Hf Hs) as [[He _]|(tx & w1 & Htx & Hdb & He & ->)]; [by eapply busy_evo|].
  apply (busy_evo _ _ _ _ He) in Hb. revert wr w1 Hb He. intros wr w1 Hb _. revert wr w1 Hb. fold (keeps_busy t (commit_tail it u tx)).
  unfold commit_tail. apply kb_bind; [apply kb_read; intros; apply base_buckets_same|]. intros base.
  apply kb_bind; [apply publish_all_busy|]. intros m. apply kb_bind; [by apply kb_txs|]. intros _.
  apply kb_bind; [by apply Tx_close_busy|]. intros _. apply kb_bind; [apply kb_read, get_tx_same|]. intros tx'.
  by apply kb_txs.
Qed.

Lemma Begin_busy t wr' wr w : sane w → busy wr w t → busy wr (Begin wr' w).2 t.
Proof.
  intros Hs (tx & Ht & Hfl). assert (Hne : w_nextt w ≠ t) by (apply (s_fresh_t _ (sn_core _ Hs)) in Ht; lia).
  exists tx. split; [|done]. destruct wr'; unfold Begin.
  - unfold beginRWTx, lock, unlock, st_bind, get_db, st_gets, upd_db, st_modify. simpl.
    destruct (db_readOnly (w_db w)); [done|]. simpl. destruct (db_rwlock (w_db w)); [done|]. simpl.
    destruct (db_opened (w_db w)); [|done]. simpl. destruct (db_state (w_db w)); [|done]. simpl. by rewrite lookup_insert_ne.
  - unfold beginTx, st_bind, get_db, st_gets, upd_db, st_modify. simpl.
    destruct (db_opened (w_db w)); [|done]. simpl. destruct (db_state (w_db w)); [|done]. simpl. by rewrite lookup_insert_ne.
Qed.

Lemma Close_txs w : w_txs (DB_Close w).2 = w_txs w.
Proof.
  unfold DB_Close, DB_close, lock, unlock, st_bind, get_db, st_gets, upd_db, st_modify. simpl.
  destruct (db_rwlock (w_db w)); [done|]. simpl. by destruct (db_opened (w_db w)).
Qed.

(** No API call ends a managed transaction. *)
Lemma call_busy t c wr w : sane w → api_call c → busy wr w t → busy wr (run_call c w).2 t.
Proof.
  intros Hs Hc Hb. destruct (data_call c) eqn:Hd; [by eapply busy_evo; [apply data_call_evo|]|].
  destruct c; try done; simpl; rewrite ?ignore_state.
  - by apply Begin_busy.
  - by apply Tx_Bucket_busy.
  - by apply CreateBucket_busy.
  - by apply CreateBucketIfNotExists_busy.
  - by apply DeleteBucket_busy.
  - by apply busy_upd_tx.
  - by apply Commit_busy.
  - by apply Rollback_busy.
  - unfold busy. by rewrite Close_txs.
Qed.

Lemma prog_busy t p : ∀ wr w, sane w → api_prog p → busy wr w t → busy wr (run_prog p w).2 t.
Proof.
  induction p as [e|x|c k IH]; intros wr w Hs; simpl; [done..|]. intros [Hc Hk] Hb.
  pose proof (call_busy t c wr w Hs Hc Hb) as Hb'. pose proof (step_keeps _ _ Hs (step_call w c (api_fair c Hc))) as [Hs' _].
  destruct (run_call c w) as [[[]|x| |] w']; simpl in *; auto.
Qed.

(** While a write transaction is managed, nothing is published. *)
Lemma call_write_quiet t c w : sane w → api_call c → busy true w t → quiet w (run_call c w).2.
Proof.
  intros Hs Hc Hb. pose proof (quiet_refl w Hs) as Hq. destruct c; try by apply call_quiet.
  - simpl. rewrite ignore_state. unfold Commit. destruct (w_txs w !! t0) as [ux|] eqn:Hu.
    2:{ unfold get_tx, st_bind, st_get, st_deref. by rewrite Hu. }
    rewrite (bind_Ret _ _ _ _ _ (get_tx_run _ _ _ Hu)). destruct (t_managed ux) eqn:Hum; [done|].
    rewrite (bind_Ret (Assert true) _ w tt w eq_refl). destruct (t_db ux) eqn:Hud; [|done].
    destruct (t_writable ux) eqn:Huw; [|done]. exfalso.
    assert (t = t0) as ->.
    { apply (lk_one _ _ (sn_lock _ Hs)); [by apply busy_writer|]. exists ux. by rewrite Hud, Huw. }
    destruct Hb as (tx & Ht & Hm & _). congruence.
  - simpl. unfold DB_Close, lock, st_bind, get_db, st_gets. simpl. by rewrite (busy_locked w t Hs Hb).
Qed.

Lemma prog_write_quiet t p : ∀ w, sane w → api_prog p → busy true w t → quiet w (run_prog p w).2.
Proof.
  induction p as [e|x|c k IH]; intros w Hs; simpl; [intros; by apply quiet_refl..|]. intros [Hc Hk] Hb.
  pose proof (call_write_quiet t c w Hs Hc Hb) as Hq. pose proof (call_busy t c true w Hs Hc Hb) as Hb'.
  pose proof (q_sane _ _ Hq). destruct (run_call c w) as [[[]|x| |] w']; simpl in *; auto;
    (eapply quiet_trans; [exact Hq|]); auto.
Qed.

(** ** The deferred rollback *)

Lemma rollback_run w t tx : w_txs w !! t = Some tx → ∃ w', rollback t w = (Ret tt, w').
Proof.
  intros Ht. unfold rollback. rewrite (bind_Ret _ _ _ _ _ (get_tx_run _ _ _ Ht)). destruct (t_db tx) eqn:Hd; [|by eexists].
  simpl. destruct (Tx_close_run w t tx Ht Hd) as (d & Hrun & _). by eexists.
Qed.

Lemma rollback_writers w t u : is_Some (w_txs w !! t) →
  writer (w_txs (rollback t w).2) u → writer (w_txs w) u ∧ u ≠ t.
Proof.
  intros [tx Ht]. unfold rollback. rewrite (bind_Ret _ _ _ _ _ (get_tx_run _ _ _ Ht)). destruct (t_db tx) eqn:Hd.
  - simpl. destruct (Tx_close_run w t tx Ht Hd) as (d & -> & _). simpl. by intros ?%(writer_close _ _ _ _ Ht).
  - simpl. intros Hw. split; [done|]. intros ->. destruct Hw as (y & Hy & Hyw). simplify_eq. rewrite Hd in Hyw.
    by rewrite andb_false_r in Hyw.
Qed.

(** The outcomes that run deferred calls. *)
Definition unwinds {A} (r : res A) : bool := match r with Ret _ | Panic _ => true | _ => false end.

Lemma with_rollback_run {A} t (body : M A) w r w1 :
  body w = (r, w1) → is_Some (w_txs w1 !! t) →
  with_rollback t body w = (r, if unwinds r then (rollback t w1).2 else w1).
Proof.
  intros Hb [tx Ht]. unfold with_rollback. rewrite Hb. destruct (rollback_run w1 t tx Ht) as [w2 Hr].
  destruct r; simpl; unfold st_bind; by rewrite ?Hr.
Qed.

Lemma steps_call c w : fair_call c → rtc step w (run_call c w).2.
Proof. intros Hf. by apply rtc_once, step_call. Qed.

Lemma abandon_steps {A} (r : res A) t w : rtc step w (if unwinds r then (rollback t w).2 else w).
Proof. destruct (unwinds r); [|apply rtc_refl]. by apply (steps_call (CAbandon t)). Qed.

Lemma abandon_state {A} (r : res A) t w : sane w →
  db_state (w_db (if unwinds r then (rollback t w).2 else w)) = db_state (w_db w).
Proof. intros Hs. destruct (unwinds r); [|done]. by destruct (rollback_q t w Hs) as [[] _]. Qed.

(** Ending the managed part of an open transaction, and rolling it back. *)
Lemma unmanage_run wr w t :
  sane w → busy wr w t →
  ∃ w2 tx, upd_tx t (set_t_managed false) w = (Ret tt, w2) ∧ quiet w w2 ∧ rtc step w w2 ∧
    w_txs w2 !! t = Some tx ∧ t_managed tx = false ∧ t_db tx = true ∧ t_writable tx = wr.
Proof.
  intros Hs (tx & Ht & _ & Hd & Hw). destruct (set_managed_q t false w Hs) as [Hq _].
  pose proof (steps_call (CManaged t false) w I) as Hst. simpl in Hst. rewrite (upd_tx_run _ _ _ _ Ht) in *.
  eexists _, (set_t_managed false tx). split_and!; try done. simpl. apply lookup_insert_eq.
Qed.

Lemma Rollback_run w t tx :
  sane w → w_txs w !! t = Some tx → t_managed tx = false → t_db tx = true →
  ∃ w', Rollback t w = (Ret None, w') ∧ quiet w w' ∧ rtc step w w' ∧ w_txs w' !! t = Some (closed_tx tx) ∧
    (∀ u, writer (w_txs w') u → writer (w_txs w) u).
Proof.
  intros Hs Ht Hm Hd. destruct (Tx_close_run w t tx Ht Hd) as (d & Hrun & _). set (w' := set_txs _ _) in Hrun.
  assert (HR : Rollback t w = (Ret None, w')).
  { unfold Rollback, rollback. rewrite (bind_Ret _ _ _ _ _ (get_tx_run _ _ _ Ht)), Hm.
    rewrite (bind_Ret (Assert (negb false)) _ w tt w eq_refl), Hd. change (negb true) with false. cbv iota.
    erewrite bind_Ret; [done|]. by rewrite (bind_Ret _ _ _ _ _ (get_tx_run _ _ _ Ht)), Hd. }
  pose proof (steps_call (CRollback t) w I) as Hst. simpl in Hst. rewrite ignore_state, HR in Hst.
  destruct (Rollback_q t w Hs) as [Hq _]. rewrite HR in Hq. exists w'. split_and!; try done.
  - simpl. apply lookup_insert_eq.
  - intros u. simpl. by intros [? _]%(writer_close _ _ _ _ Ht).
Qed.

(** The body of a managed transaction after its function returned. *)
Lemma managed_ends it fuel rt sp (t : tid) w1 e :
  sane w1 → fair it → busy true w1 t →
  ∃ w2 r w3, upd_tx t (set_t_managed false) w1 = (Ret tt, w2) ∧
    match e with
    | Some err => let! _ := Rollback t in st_ret (Some err)
    | None => Commit it fuel rt sp t
    end w2 = (r, w3) ∧
    r = match e with Some err => Ret (Some err) | None => (Commit it fuel rt sp t w2).1 end ∧
    rtc step w1 w3 ∧ (r ≠ Ret None → db_state (w_db w3) = db_state (w_db w1)) ∧
    is_Some (w_txs w3 !! t) ∧ ∀ u, writer (w_txs w3) u → u = t.
Proof.
  intros Hs Hf Hb. destruct (unmanage_run true w1 t Hs Hb) as (w2 & tx & Hu & Hq & Hst & Ht2 & Hm & Hd & Hw).
  pose proof (q_sane _ _ Hq) as Hs2.
  assert (Hu2 : ∀ u, writer (w_txs w2) u → u = t).
  { intros u Hu2. apply (lk_one _ _ (sn_lock _ Hs2)); [done|]. exists tx. by rewrite Hd, Hw. }
  exists w2. destruct e as [err|].
  - destruct (Rollback_run w2 t tx Hs2 Ht2 Hm Hd) as (w3 & HR & Hq2 & Hst2 & Ht3 & Hw3). eexists _, w3.
    split; [done|]. split; [by rewrite (bind_Ret _ _ _ _ _ HR)|].
    split_and!; [done|by eapply (transitivity Hst)| |by eauto|auto].
    intros _. rewrite (q_state _ _ Hq2). apply (q_state _ _ Hq).
  - pose proof (steps_call (CCommit it fuel rt sp t) w2 Hf) as Hst2. simpl in Hst2. rewrite ignore_state in Hst2.
    destruct (Commit_commits it fuel rt sp t w2 Hf Hs2) as [_ Hi3 Hw3 Ha3 _].
    destruct (Commit it fuel rt sp t w2) as [r w3] eqn:E. simpl in *. exists r, w3. split; [done|].
    split_and!; [done|done|by eapply (transitivity Hst)| | |auto].
    + intros Hr. destruct Ha3 as [?|Ha3]; [done|]. rewrite Ha3. apply (q_state _ _ Hq).
    + destruct (i_txs _ _ Hi3 _ _ Ht2) as (? & ? & _). eauto.
Qed.

(** ** [Update] *)

(** What [Update] does between [Begin] and the deferred rollback. *)
Definition update_body (it : iteration) (fuel : nat) (rt sp : Z) (t : tid) (fn : prog) : M (option err) :=
  upd_tx t (set_t_managed true) ;!
  let! e := run_prog fn in
  upd_tx t (set_t_managed false) ;!
  match e with
  | Some err => let! _ := Rollback t in st_ret (Some err)
  | None => Commit it fuel rt sp t
  end.

(** What a commit that returns nil makes visible, of the transaction [t] in [w] over
    the state [st]: the names it sees, each bucket it has written under a new root,
    the others as they were; and, for buckets a commit can finish, exactly the
    pairs it sees. *)
Definition published_all (fuel : nat) (w : world) (t : tid) (st : dbState) (w' : world) : Prop :=
  ∃ tx st', w_txs w !! t = Some tx ∧ db_state (w_db w') = Some st' ∧ dom (ds_buckets st') = visible tx ∧
    (∀ n, n ∈ visible tx → t_bctx tx !! n = None → ds_buckets st' !! n = ds_buckets st !! n) ∧
    (∀ n b x, t_bctx tx !! n = Some b → w_bkts w !! b = Some x → is_Some (b_rootNode x) →
       ∃ r, ds_buckets st' !! n = Some (Some (mkBucketState (Some r))) ∧ ∀ m bs, ds_buckets st !! m = Some (Some bs) → bs_root bs ≠ Some r) ∧
    (ripe_tx fuel w tx → ∀ n kvs, n ∈ visible tx → sees w tx st n kvs → stored w' st' n kvs).

Lemma Commit_all it fuel rt sp t w tx st w' :
  sane w → dirs w → fair it → w_txs w !! t = Some tx → t_db tx = true → t_writable tx = true → t_managed tx = false → t_base tx = Some st →
  Commit it fuel rt sp t w = (Ret None, w') → published_all fuel w t st w' ∧ ∀ tx', w_txs w' !! t = Some tx' → t_db tx' = false.
Proof.
  intros Hs Hd Hf Htx Hdb Hw Hm Hba Hrun. destruct (Commit_dir it fuel rt sp t w w' Hs Hd Hf Hrun) as (tx0 & st0 & st' & ? & ? & Hst' & Hdom & Hother & Hcl & _).
  simplify_eq. split; [|done]. exists tx, st'. split_and!; try done.
  - intros n b x Hb Hx Hroot.
    destruct (Commit_renews it fuel rt sp t w w' tx st n b x Hs Hd Hf Hrun Htx) as (st1 & r & Hst1 & Hn & Hnew); try done; [by eapply (s_base _ (sn_core _ Hs))|].
    simplify_eq. by exists r.
  - intros Hripe n kvs Hn Hsee. destruct (dv_tx _ Hd _ _ Htx Hdb) as (st1 & ? & Hok & _). simplify_eq.
    destruct (Commit_run it fuel rt sp t w tx st Hf Hs Hd) as (w2 & st2 & Hrun2 & Hst2 & _ & Hsto & _); [by split|done|done|done|].
    rewrite Hrun in Hrun2. injection Hrun2 as <-. simplify_eq. by apply Hsto.
Qed.

(** The result of [Update] from that of its function. *)
Definition update_result (it : iteration) (fuel : nat) (rt sp : Z) (t : tid)
    (r : res (option err)) (w : world) : res (option err) :=
  match r with
  | Ret None => ((upd_tx t (set_t_managed false) ;! Commit it fuel rt sp t) w).1
  | _ => r
  end.

Lemma update_body_run it fuel rt sp t fn w w0 r1 w1 :
  upd_tx t (set_t_managed true) w = (Ret tt, w0) → run_prog fn w0 = (r1, w1) →
  sane w1 → fair it → busy true w1 t →
  ∃ w3, update_body it fuel rt sp t fn w = (update_result it fuel rt sp t r1 w1, w3) ∧ rtc step w1 w3 ∧
    (update_result it fuel rt sp t r1 w1 ≠ Ret None → db_state (w_db w3) = db_state (w_db w1)) ∧
    is_Some (w_txs w3 !! t) ∧ (∀ u, writer (w_txs w3) u → u = t) ∧
    (update_result it fuel rt sp t r1 w1 = Ret None →
       ∃ w2, upd_tx t (set_t_managed false) w1 = (Ret tt, w2) ∧ Commit it fuel rt sp t w2 = (Ret None, w3)).
Proof.
  intros Hman Hrun Hs Hf Hb. unfold update_body. rewrite (bind_Ret _ _ _ _ _ Hman). unfold st_bind at 1. rewrite Hrun.
  assert (Hstop : ∀ r : res (option err), r ≠ Ret None → ∃ w3, (r, w1) = (r, w3) ∧ rtc step w1 w3 ∧ (r ≠ Ret None → db_state (w_db w3) = db_state (w_db w1)) ∧
    is_Some (w_txs w3 !! t) ∧ (∀ u, writer (w_txs w3) u → u = t) ∧
    (r = Ret None → ∃ w2, upd_tx t (set_t_managed false) w1 = (Ret tt, w2) ∧ Commit it fuel rt sp t w2 = (Ret None, w3))).
  { intros r Hr. exists w1. split_and!; [done|apply rtc_refl|done|destruct Hb as (tx & ? & _); eauto| |done].
    intros u Hu. apply (lk_one _ _ (sn_lock _ Hs)); [done|by apply busy_writer]. }
  destruct r1 as [e|x| |]; try (by apply Hstop).
  destruct (managed_ends it fuel rt sp t w1 e Hs Hf Hb) as (w2 & r & w3 & Hu & Hend & Hr & Hst & Hat & Ht3 & Hw3).
  assert (Hres : update_result it fuel rt sp t (Ret e) w1 = r).
  { rewrite Hr. destruct e; [done|]. simpl. by rewrite (bind_Ret _ _ _ _ _ Hu). }
  exists w3. rewrite Hres, (bind_Ret _ _ _ _ _ Hu). split_and!; try done. intros ->. exists w2. split; [done|]. by destruct e.
Qed.

(** C9. [DB.Update] is all or nothing.  On an open, writable database without a
    writer it runs the function in a transaction that pins the current state and
    sees its buckets.  An error or a panic of the function is what [Update]
    returns or raises; if the function returns nil, the result is that of the
    commit.  If [Update] does not return nil the published state is the old one.
    If it returns nil, the buckets of the published state are all those the
    transaction sees: those it has not opened as they were, each one it has written
    under a new root, and, where a commit can finish the buckets it has opened
    ([ripe_tx]: no merge, no branch that outgrows its node), with exactly the pairs
    it sees.  However it ends (unless the function never comes back) no write
    transaction is left open and the writer lock is free. *)
Theorem Update_atomic it fuel rt sp (fn : tid → prog) w st :
  reachable w → fair it → (∀ t, api_prog (fn t)) →
  db_readOnly (w_db w) = false → db_opened (w_db w) = true → db_state (w_db w) = Some st →
  (∀ t, ¬ writer (w_txs w) t) →
  ∃ t w0 tx r1 w1 r w',
    open_tx w0 t tx st ∧ visible tx = dom (ds_buckets st) ∧ busy true w0 t ∧ reachable w0 ∧
    run_prog (fn t) w0 = (r1, w1) ∧
    Update it fuel rt sp (λ t, run_prog (fn t)) w = (r, w') ∧ reachable w' ∧
    r = update_result it fuel rt sp t r1 w1 ∧
    (r ≠ Ret None → db_state (w_db w') = Some st) ∧
    (r = Ret None → ∃ w2, upd_tx t (set_t_managed false) w1 = (Ret tt, w2) ∧ published_all fuel w2 t st w') ∧
    (unwinds r = true → (∀ u, ¬ writer (w_txs w') u) ∧ db_rwlock (w_db w') = false).
Proof.
  intros Hreach Hf Hfn Hro Hop Hst Hno. pose proof Hreach as [o Hr0]. pose proof (reachable_inv _ Hreach) as [Hs Hd].
  assert (Hl : db_rwlock (w_db w) = false).
  { destruct (db_rwlock (w_db w)) eqn:E; [|done]. apply (lk_held _ _ (sn_lock _ Hs)) in E as [t Ht]. by destruct (Hno t). }
  pose proof (beginRWTx_run w st Hro Hl Hop Hst) as Hbegin. set (wb := (new_tx _ _).2) in Hbegin. set (t := w_nextt w) in *.
  assert (Htb : w_txs wb !! t = Some (begun true st)) by (simpl; apply lookup_insert_eq).
  pose proof (upd_tx_run _ _ (set_t_managed true) _ Htb) as Hman. set (w0 := set_txs _ wb) in Hman.
  assert (Hst0 : rtc step w w0).
  { pose proof (steps_call (CBegin true) w I) as H1. simpl in H1. rewrite ignore_state, Hbegin in H1.
    pose proof (steps_call (CManaged t true) wb I) as H2. simpl in H2. rewrite Hman in H2. by eapply (transitivity H1). }
  assert (Hreach0 : reachable w0) by (exists o; by eapply (transitivity Hr0)).
  pose proof (reachable_inv _ Hreach0) as [Hs0 Hd0].
  assert (Hb0 : busy true w0 t) by (eexists; split; [apply lookup_insert_eq|done]).
  destruct (begun_open wb t true st Htb) as [[_ _ _ Hok] Hvis]; [by apply (dv_db _ Hd)|].
  destruct (run_prog (fn t) w0) as [r1 w1] eqn:Hrun.
  pose proof (prog_write_quiet t (fn t) w0 Hs0 (Hfn t) Hb0) as Hq1. pose proof (prog_busy t (fn t) true w0 Hs0 (Hfn t) Hb0) as Hb1. pose proof (prog_steps (fn t) w0 (Hfn t)) as Hst3.
  rewrite Hrun in Hq1, Hb1, Hst3. simpl in Hq1, Hb1, Hst3.
  destruct (update_body_run it fuel rt sp t (fn t) wb w0 r1 w1 Hman Hrun (q_sane _ _ Hq1) Hf Hb1)
    as (w3 & Hbody & Hst4 & Hat & Ht3 & Hw3 & Hall). set (r := update_result it fuel rt sp t r1 w1) in *.
  assert (Hreach3 : reachable w3) by (exists o; eapply (transitivity Hr0), (transitivity Hst0), (transitivity Hst3), Hst4).
  pose proof (proj1 (reachable_inv _ Hreach3)) as Hs3. set (w' := if unwinds r then (rollback t w3).2 else w3).
  assert (Hreach' : reachable w').
  { destruct Hreach3 as [o3 H3]. exists o3. eapply (transitivity H3), abandon_steps. }
  exists t, w0, (set_t_managed true (begun true st)), r1, w1, r, w'.
  split; [split; [apply lookup_insert_eq|done|done|by eapply (same_dir_ok (begun true st))]|]. split_and!; try done.
  - unfold Update. rewrite (bind_Ret _ _ _ _ _ Hbegin). by apply with_rollback_run.
  - intros Hr. unfold w'. rewrite abandon_state by done. rewrite (Hat Hr), (q_state _ _ Hq1). done.
  - intros Hr. destruct (Hall Hr) as (w2 & Hun & Hcom). exists w2. split; [done|].
    destruct (unmanage_run true w1 t (q_sane _ _ Hq1) Hb1) as (w2' & tx2 & Hun' & Hq2 & Hst2 & Ht2 & Hm2 & Hd2 & Hwr2).
    rewrite Hun in Hun'. injection Hun' as <-.
    assert (Hdirs : dirs w2) by (apply reachable_inv; exists o; eapply (transitivity Hr0), (transitivity Hst0), (transitivity Hst3), Hst2).
    destruct (i_txs _ _ (q_iso _ _ (quiet_trans _ _ _ Hq1 Hq2)) t (set_t_managed true (begun true st))) as (tx2' & Ht2' & _ & Hbase); [apply lookup_insert_eq|].
    rewrite Ht2 in Ht2'. injection Ht2' as <-. destruct (Hbase Hd2) as [_ Hba].
    destruct (Commit_all it fuel rt sp t w2 tx2 st w3 (q_sane _ _ Hq2) Hdirs Hf Ht2 Hd2 Hwr2 Hm2 Hba Hcom) as [Hpub Hcl].
    assert (w' = w3) as ->; [|done]. unfold w'. rewrite Hr. simpl. destruct Ht3 as [tx3 Ht3]. unfold rollback.
    by rewrite (bind_Ret _ _ _ _ _ (get_tx_run _ _ _ Ht3)), (Hcl _ Ht3).
  - intros Hun. assert (Hnone : ∀ u, ¬ writer (w_txs w') u).
    { intros u. unfold w'. rewrite Hun. intros [Hu Hne]%rollback_writers; [|done]. by apply Hne, Hw3. }
    split; [done|]. destruct (db_rwlock (w_db w')) eqn:E; [|done].
    apply (lk_held _ _ (sn_lock _ (proj1 (reachable_inv _ Hreach')))) in E as [u Hu]. by destruct (Hnone u).
Qed.

(** [Update] is a sequence of calls if its function is. *)
Lemma steps_bind {A B} (m : M A) (f : A → M B) w :
  rtc step w (m w).2 → (∀ a w', m w = (Ret a, w') → rtc step w' (f a w').2) → rtc step w (st_bind m f w).2.
Proof. intros Hm Hf. unfold st_bind. destruct (m w) as [[a|x| |] w1]; simpl in *; [|done..]. eapply (transitivity Hm). by apply Hf. Qed.

Lemma Update_steps it fuel rt sp (fn : tid → M (option err)) w :
  fair it → (∀ t w, rtc step w (fn t w).2) → rtc step w (Update it fuel rt sp fn w).2.
Proof.
  intros Hf Hfn. assert (Hig : ∀ {A} (m : M A) c w, run_call c w = ignore m w → fair_call c → rtc step w (m w).2).
  { intros A m c w0 Hc Hfc. pose proof (steps_call c w0 Hfc) as Hst. by rewrite Hc, ignore_state in Hst. }
  unfold Update. apply steps_bind; [by apply (Hig _ _ (CBegin true))|]. intros [e|t] w1 _; [apply rtc_refl|].
  unfold with_rollback. set (body := st_bind _ _).
  assert (Hbody : rtc step w1 (body w1).2).
  { apply steps_bind; [by apply (steps_call (CManaged t true))|]. intros _ w2 _. apply steps_bind; [apply Hfn|]. intros e w3 _.
    apply steps_bind; [by apply (steps_call (CManaged t false))|]. intros _ w4 _. destruct e as [e|].
    - apply steps_bind; [by apply (Hig _ _ (CRollback t))|]. intros r w5 _. apply rtc_refl.
    - by apply (Hig _ _ (CCommit it fuel rt sp t)). }
  assert (Hend : ∀ {A} (m : M A) w2, (∀ w, (m w).2 = w) → rtc step w2 ((let! _ := rollback t in m) w2).2).
  { intros A m w2 Hm. apply steps_bind; [by apply (steps_call (CAbandon t))|]. intros _ w3 _. rewrite Hm. apply rtc_refl. }
  destruct (body w1) as [[a|x| |] w2]; simpl in Hbody; [| |done|done]; (eapply (transitivity Hbody)); by apply Hend.
Qed.

(** ** [View] *)

(** What [View] does between [Begin] and the deferred rollback. *)
Definition view_body (t : tid) (fn : prog) : M (option err) :=
  upd_tx t (set_t_managed true) ;!
  let! e := run_prog fn in
  upd_tx t (set_t_managed false) ;!
  match e with
  | Some err => let! _ := Rollback t in st_ret (Some err)
  | None => Rollback t
  end.

Lemma view_body_run t fn w w0 r w1 :
  upd_tx t (set_t_managed true) w = (Ret tt, w0) → run_prog fn w0 = (r, w1) → sane w1 → busy false w1 t →
  ∃ w3, view_body t fn w = (r, w3) ∧ rtc step w1 w3 ∧ db_state (w_db w3) = db_state (w_db w1) ∧ is_Some (w_txs w3 !! t).
Proof.
  intros Hman Hrun Hs Hb. unfold view_body. rewrite (bind_Ret _ _ _ _ _ Hman). unfold st_bind at 1. rewrite Hrun.
  assert (Hstop : ∀ r : res (option err), ∃ w3, (r, w1) = (r, w3) ∧ rtc step w1 w3 ∧
    db_state (w_db w3) = db_state (w_db w1) ∧ is_Some (w_txs w3 !! t)).
  { intros r'. exists w1. split_and!; [done|apply rtc_refl|done|destruct Hb as (tx & ? & _); eauto]. }
  destruct r as [e|x| |]; try apply Hstop.
  destruct (unmanage_run false w1 t Hs Hb) as (w2 & tx & Hu & Hq & Hst & Ht2 & Hm & Hd & _).
  destruct (Rollback_run w2 t tx (q_sane _ _ Hq) Ht2 Hm Hd) as (w3 & HR & Hq2 & Hst2 & Ht3 & _).
  exists w3. rewrite (bind_Ret _ _ _ _ _ Hu). split.
  - destruct e; [by rewrite (bind_Ret _ _ _ _ _ HR)|exact HR].
  - split_and!; [by eapply (transitivity Hst)| |by eauto]. rewrite (q_state _ _ Hq2). apply (q_state _ _ Hq).
Qed.

Lemma rollback_closed w t : is_Some (w_txs w !! t) →
  ∃ tx, w_txs (rollback t w).2 !! t = Some tx ∧ t_db tx = false.
Proof.
  intros [tx Ht]. unfold rollback. rewrite (bind_Ret _ _ _ _ _ (get_tx_run _ _ _ Ht)). destruct (t_db tx) eqn:Hd.
  - simpl. destruct (Tx_close_run w t tx Ht Hd) as (d & -> & _). exists (closed_tx tx). split; [simpl; apply lookup_insert_eq|done].
  - by exists tx.
Qed.

(** C33. [DB.View] never waits and publishes nothing of its own.  It runs the
    function in a read-only transaction that pins the current state and sees its
    buckets, returns or raises what the function does, and closes the transaction
    however the function ends; the state published at the end is the one the
    function left. *)
Theorem View_correct (fn : tid → prog) w st :
  reachable w → (∀ t, api_prog (fn t)) → db_opened (w_db w) = true → db_state (w_db w) = Some st →
  ∃ t w0 tx r w1 w',
    open_tx w0 t tx st ∧ visible tx = dom (ds_buckets st) ∧ busy false w0 t ∧ reachable w0 ∧
    run_prog (fn t) w0 = (r, w1) ∧ View (λ t, run_prog (fn t)) w = (r, w') ∧ reachable w' ∧
    db_state (w_db w') = db_state (w_db w1) ∧
    (unwinds r = true → ∃ tx', w_txs w' !! t = Some tx' ∧ t_db tx' = false).
Proof.
  intros Hreach Hfn Hop Hst. pose proof Hreach as [o Hr0]. pose proof (reachable_inv _ Hreach) as [Hs Hd].
  set (t := w_nextt w). pose proof (steps_call (CBegin false) w I) as Hst1. simpl in Hst1. rewrite ignore_state in Hst1.
  assert (∃ wb, Begin false w = (Ret (inr t), wb) ∧ w_txs wb !! t = Some (begun false st)) as (wb & Hbegin & Htb).
  { unfold Begin, beginTx, st_bind, get_db, st_gets, upd_db, st_modify. simpl. rewrite Hop. simpl. rewrite Hst.
    simpl. eexists. split; [reflexivity|]. simpl. apply lookup_insert_eq. }
  pose proof (upd_tx_run _ _ (set_t_managed true) _ Htb) as Hman. set (w0 := set_txs _ wb) in Hman.
  assert (Hreach0 : reachable w0).
  { change (Begin false w) with (beginTx w) in Hbegin. exists o. eapply (transitivity Hr0). rewrite Hbegin in Hst1.
    eapply (transitivity Hst1). pose proof (steps_call (CManaged t true) wb I) as H2. simpl in H2. by rewrite Hman in H2. }
  pose proof (reachable_inv _ Hreach0) as [Hs0 _].
  assert (Hb0 : busy false w0 t) by (eexists; split; [apply lookup_insert_eq|done]).
  destruct (begun_open wb t false st Htb) as [[_ _ _ Hok] Hvis]; [by apply (dv_db _ Hd)|].
  destruct (run_prog (fn t) w0) as [r w1] eqn:Hrun.
  pose proof (prog_busy t (fn t) false w0 Hs0 (Hfn t) Hb0) as Hb1. pose proof (prog_steps (fn t) w0 (Hfn t)) as Hst3.
  rewrite Hrun in Hb1, Hst3. simpl in Hb1, Hst3.
  assert (Hs1 : sane w1) by (by eapply steps_keep).
  destruct (view_body_run t (fn t) wb w0 r w1 Hman Hrun Hs1 Hb1) as (w3 & Hbody & Hst4 & Hdb & Ht3).
  set (w' := if unwinds r then (rollback t w3).2 else w3).
  exists t, w0, (set_t_managed true (begun false st)), r, w1, w'.
  split; [split; [apply lookup_insert_eq|done|done|by eapply (same_dir_ok (begun false st))]|]. split_and!; try done.
  - unfold View. rewrite (bind_Ret _ _ _ _ _ Hbegin). by apply with_rollback_run.
  - destruct Hreach0 as [o' H0]. exists o'. eapply (transitivity H0), (transitivity Hst3), (transitivity Hst4), abandon_steps.
  - unfold w'. rewrite abandon_state; [done|]. by eapply steps_keep.
  - intros Hun. unfold w'. rewrite Hun. by apply rollback_closed.
Qed.

(** ** Instances *)

(** A function that creates a bucket, writes to it and panics. *)
Definition ex_fn (t : tid) : prog :=
  PCall (CCreateBucket t [x6f]) (λ _ _, PCall (CPut 9 3 [x61] [x01]) (λ _ _, PPanic (PUser 7))).

Lemma ex_fn_api t : api_prog (ex_fn t).
Proof. by repeat split. Qed.

Lemma ex_no_writer t : ¬ writer (w_txs ex_w0) t.
Proof.
  intros Ht. pose proof (proj2 (lk_held _ _ (sn_lock _ (proj1 (reachable_inv _ ex_reachable)))) (ex_intro _ t Ht)) as Hl.
  vm_compute in Hl. discriminate.
Qed.

Lemma Update_atomic_witness :
  ∃ w', Update std_iteration 9 0 0 (λ t, run_prog (ex_fn t)) ex_w0 = (Panic (PUser 7), w') ∧
    db_state (w_db w') = Some ex_st ∧ db_rwlock (w_db w') = false.
Proof.
  destruct (Update_atomic std_iteration 9 0 0 ex_fn ex_w0 ex_st ex_reachable std_iteration_fair ex_fn_api)
    as (t & w0 & tx & r1 & w1 & r & w' & _ & _ & _ & _ & _ & Hrun & _ & _ & Hat & _ & Hfree);
    [vm_compute; reflexivity..|apply ex_no_writer|].
  assert (r = Panic (PUser 7)) as ->.
  { change r with (r, w').1. rewrite <- Hrun. vm_compute. reflexivity. }
  exists w'. split; [exact Hrun|]. split; [by apply Hat|by apply Hfree].
Defined.

(** A reader that tries to write and reports an error. *)
Definition ex_read (t : tid) : prog := PCall (CBucket t [x6e]) (λ _ _, PCall (CPut 9 3 [x61] [xff]) (λ _ _, PReturn (Some (ErrUser 5)))).

Lemma View_correct_witness :
  ∃ w', View (λ t, run_prog (ex_read t)) ex_w0 = (Ret (Some (ErrUser 5)), w') ∧ reachable w'.
Proof.
  destruct (View_correct ex_read ex_w0 ex_st ex_reachable) as (t & w0 & tx & r & w1 & w' & _ & _ & _ & _ & _ & Hrun & Hr & _ & _);
    [by repeat split|vm_compute; reflexivity..|].
  assert (r = Ret (Some (ErrUser 5))) as ->.
  { change r with (r, w').1. rewrite <- Hrun. vm_compute. reflexivity. }
  exists w'. split; [exact Hrun|exact Hr].
Defined.
