(* ===== verification/Refine.v ===== *)
(** * The database refines a map of maps

    The abstract database is a finite map from bucket names to sorted association
    lists; the functions callers give to [DB.Update] are scripts of operations on
    it ([Session.v]).  [Update] returns what the script returns on the map, and
    leaves a database that stores the map the script makes of it, or the old one
    when the script fails. *)
From S2P Require Import Prelude GoSort Stats World Node KV Tree TreePath Cursor CursorSpec Cow Bucket Spill Tx DB.
From S2P Require Import CowSpec BucketSpec Regroup Frame FrameSpill SpillSpec Marked MarkedPath SpillTree FinalizeTree KeysFit Publish Isolation System TxSpec Directory DBSpec LeafBucket Ripe TreeBucket CommitSpec Orderly Session Managed.
Local Open Scope st_scope.

(** ** The representation of the map *)

(** The state holds the buckets of [A], those in [S] as one node. *)
Definition state_stores (w : world) (st : dbState) (A : model) (S : gset bytes) : Prop :=
  dom (ds_buckets st) = dom A ∧
  ∀ name kvs, A !! name = Some kvs → ∃ T, stored_as w st name T ∧ contents T = kvs ∧ (name ∈ S → tleaf T = true).

(** An open, writable database without a writer, that stores [A], the buckets in [S]
    as one node. *)
Record idle (w : world) (A : model) (S : gset bytes) : Prop := mkIdle {
  id_sane : sane w;
  id_dirs : dirs w;
  id_mode : db_readOnly (w_db w) = false;
  id_opened : db_opened (w_db w) = true;
  id_lock : db_rwlock (w_db w) = false;
  id_state : ∃ st, db_state (w_db w) = Some st ∧ state_stores w st A S
}.

(** All the keys of a bucket fit one node. *)
Definition small_model (A : model) : Prop := ∀ name kvs, A !! name = Some kvs → small_keys (keys kvs).

Lemma map_bound {V} (m : gmap bytes V) (P : bytes → V → nat → Prop) :
  (∀ k v n n', P k v n → n ≤ n' → P k v n') → (∀ k v, m !! k = Some v → ∃ n, P k v n) →
  ∃ N, ∀ k v, m !! k = Some v → P k v N.
Proof.
  intros Hmono. induction m as [|k v m Hk IH] using map_ind; intros Hm; [exists 0; intros k v; by rewrite lookup_empty|].
  destruct IH as [N HN]; [intros k' v' Hk'; apply Hm; rewrite lookup_insert_ne by congruence; done|].
  destruct (Hm k v (lookup_insert_eq _ _ _)) as [n Hn]. exists (n `max` N). intros k' v'. rewrite lookup_insert. case_decide as E.
  - subst k'. intros [= <-]. eapply Hmono; [done|lia].
  - intros Hk'. eapply Hmono; [by apply HN|lia].
Qed.

Lemma stored_as_iso w w' st name T : core w → iso w w' → st_frozen w st → stored_as w st name T → stored_as w' st name T.
Proof.
  intros Hc Hi Hf Hst. eapply stored_as_same; [|exact Hst]. intros l n Hl Hlt. destruct Hst as (bs & Hbs & Hroot & Hrep & _).
  destruct (frozen_tree w T Hc Hrep (Hf _ _ _ Hbs Hroot) l Hlt) as (n' & Hn' & Hb). simplify_eq. by apply (i_frozen _ _ Hi).
Qed.

Lemma state_stores_iso w w' st A S : core w → iso w w' → st_frozen w st → state_stores w st A S → state_stores w' st A S.
Proof.
  intros Hc Hi Hf [Hd HA]. split; [done|]. intros name kvs (T & Hst & HT)%HA. exists T. split; [by eapply stored_as_iso|done].
Qed.

(** One bound for the sizes of all the trees. *)
Lemma state_stores_bound w st A S : state_stores w st A S →
  ∃ N, ∀ name kvs, A !! name = Some kvs → ∃ T, stored_as w st name T ∧ known S N name kvs T.
Proof.
  intros [_ HA]. apply (map_bound A (λ name kvs n, ∃ T, stored_as w st name T ∧ known S n name kvs T)).
  - intros k v n n' (T & ? & ? & ? & ?) ?. exists T. split; [done|]. split_and!; [done|lia|done].
  - intros k v (T & ? & ? & ?)%HA. exists (tsize T), T. by split_and!.
Qed.

(** ** Operations publish nothing *)

Lemma on_bucket_quiet {B} t name (f : bid → M B) (g : B → reply) (d : reply) w :
  sane w → (∀ b w1, sane w1 → safe anything (f b) w1) →
  qsafe anything (let! ob := Tx_Bucket t name in match ob with None => st_ret d | Some b => let! r := f b in st_ret (g r) end) w.
Proof.
  intros Hs Hf. eapply qsafe_bind; [by apply Tx_Bucket_q|]. intros [b|] w1 Hq1 _; [|apply qsafe_ret; [apply Hq1|done]].
  eapply qsafe_bind; [apply qsafe_safe; [apply Hq1|apply Hf, Hq1]|]. intros r w2 Hq2 _. apply qsafe_ret; [apply Hq2|done].
Qed.

Lemma names_quiet t w : sane w → qsafe anything (Tx_ForEach t collect_name []) w.
Proof.
  assert (Heach : ∀ names seen acc w, sane w → qsafe anything (Tx_each t collect_name names seen acc) w).
  { induction names as [|n names IH]; intros seen acc w0 Hs; simpl; [by apply qsafe_ret|]. case_bool_decide; [by apply IH|].
    eapply qsafe_bind; [by apply Tx_Bucket_q|]. intros ob w1 Hq1 _. unfold collect_name at 1.
    eapply qsafe_eq; [exact (bind_Ret (st_ret _) _ w1 _ w1 eq_refl)|]. apply IH, Hq1. }
  intros Hs. unfold Tx_ForEach, base_buckets. apply qsafe_get_tx; [done|]. intros tx _. destruct (negb (t_db tx)); [by apply qsafe_ret|].
  destruct (t_base tx) as [st|]; [|by eapply qsafe_stop].
  eapply qsafe_eq; [exact (bind_Ret (st_ret _) _ w _ w eq_refl)|]. by apply Heach.
Qed.

Lemma op_quiet fuel t o w : sane w → qsafe anything (op_run fuel t o) w.
Proof.
  intros Hs. destruct o as [name key value|name key|name key|name| |name|name]; cbn [op_run].
  - apply on_bucket_quiet; [done|]. intros b w1 Hs1. by apply Put_safe.
  - apply on_bucket_quiet; [done|]. intros b w1 Hs1. apply Get_safe, sn_core, Hs1.
  - apply on_bucket_quiet; [done|]. intros b w1 Hs1. by apply Delete_safe.
  - apply (on_bucket_quiet t name (λ b, Bucket_ForEach fuel b collect [])); [done|]. intros b w1 Hs1. apply ForEach_safe, sn_core, Hs1.
  - eapply qsafe_bind; [by apply names_quiet|]. intros r w1 Hq1 _. apply qsafe_ret; [apply Hq1|done].
  - eapply qsafe_bind; [by apply CreateBucket_q|]. intros r w1 Hq1 _. apply qsafe_ret; [apply Hq1|done].
  - eapply qsafe_bind; [by apply DeleteBucket_q|]. intros r w1 Hq1 _. apply qsafe_ret; [apply Hq1|done].
Qed.

Lemma script_quiet fuel t s : ∀ w, sane w → qsafe anything (script_run fuel s t) w.
Proof.
  induction s as [e|o k IH]; intros w Hs; simpl; [by apply qsafe_ret|]. eapply qsafe_bind; [by apply op_quiet|].
  intros r w1 Hq1 _. apply IH, Hq1.
Qed.

(** ** The two ends of [Update] *)

Lemma session_managed w t tx st σ N m :
  session w t tx st σ N →
  ∃ w', upd_tx t (set_t_managed m) w = (Ret tt, w') ∧ quiet w w' ∧ session w' t (set_t_managed m tx) st σ N.
Proof.
  intros [Hs Hd Ho Hw Hn Hl Hdr Hgo Hsz Hdb0]. pose proof Ho as [Ht Hdb Hba Hok]. pose proof (upd_tx_run _ _ (set_t_managed m) _ Ht) as Hrun.
  destruct (set_managed_q t m w Hs) as [Hq _]. pose proof (upd_tx_dirs t (set_t_managed m) w Hd) as Hd'. rewrite Hrun in Hq, Hd'. simpl in Hq, Hd'.
  eexists. split; [exact Hrun|]. split; [done|]. split; simpl; auto; [apply Hq|by apply Hd'| |].
  - split; [simpl; apply lookup_insert_eq|done|done|]. by eapply (same_dir_ok tx).
  - intros name kvs Hk. eapply (seen_extend w _ t tx (set_t_managed m tx)); [done|apply Hq|done|done|done|done|done|done|done|done|done|by apply Hl].
Qed.

(** The transaction [Begin] makes sees the map that is stored. *)
Lemma idle_begin w A S :
  idle w A S → ∃ t w' tx st N, Begin true w = (Ret (inr t), w') ∧ quiet w w' ∧ session w' t tx st (mkAbs A S ∅) N ∧
    db_state (w_db w) = Some st ∧ state_stores w st A S.
Proof.
  intros [Hs Hd Hm Ho Hl (st & Hst & HA)]. pose proof (beginRWTx_run w st Hm Hl Ho Hst) as Hrun.
  destruct (state_stores_bound _ _ _ _ HA) as [N HN].
  pose proof (proj1 (Begin_q true w Hs)) as Hq. pose proof (Begin_dirs true w Hd) as Hd'. simpl in Hq, Hd'. rewrite Hrun in Hq, Hd'.
  destruct (begun_open (new_tx (begun true st) (set_db (set_db_rwlock true (w_db w)) w)).2 (w_nextt w) true st)
    as [Hop Hv]; [simpl; apply lookup_insert_eq|by apply (dv_db _ Hd)|].
  eexists _, _, (begun true st), st, (1 + N). split; [exact Hrun|]. split; [done|]. split; [|done].
  split; try done; [apply Hq|rewrite Hv; apply HA| |].
  - intros name kvs Hk. unfold seen. simpl. rewrite lookup_empty. destruct (HN _ _ Hk) as (T & Hsa & ? & ? & ?). exists T.
    split; [by eapply stored_as_same; [|exact Hsa]|]. split_and!; [done|lia|done].
  - lia.
Qed.

Lemma session_ripe fuel w t tx st σ N L :
  session w t tx st σ N → small_model (a_map σ) → (∀ name kvs, a_map σ !! name = Some kvs → length kvs ≤ L) → S N * S N + L + 2 ≤ fuel →
  ripe_tx fuel w tx.
Proof.
  intros Hss Hsm HL Hf name b Hb. assert (is_Some (a_map σ !! name)) as [kvs HA].
  { apply (session_visible _ _ _ _ _ _ name Hss). by eapply do_bctx; [apply (ss_open _ _ _ _ _ _ Hss)|]. }
  destruct (session_handle _ _ _ _ _ _ _ _ _ Hss HA Hb) as (x & T & Hox & _ & _ & <- & Hsz & _). exists x, T.
  apply orderly_ripe; [done|by eapply Hsm|]. specialize (HL _ _ HA). nia.
Qed.

(** The buckets that a commit leaves as one node: those that were, and fit. *)
Definition still_one (σ : abs) : gset bytes := filter (λ name, fits_leaf (default [] (a_map σ !! name)) = true) (a_one σ).

(** A commit stores the map its transaction saw. *)
Lemma session_commit it fuel rt sp w t tx st σ N L :
  fair it → session w t tx st σ N → t_managed tx = false → small_model (a_map σ) →
  (∀ name kvs, a_map σ !! name = Some kvs → length kvs ≤ L) → S N * S N + L + 2 ≤ fuel →
  ∃ w' tx', Commit it fuel rt sp t w = (Ret None, w') ∧ idle w' (a_map σ) (still_one σ) ∧ w_txs w' !! t = Some tx' ∧ t_db tx' = false.
Proof.
  intros Hf Hss Hm Hsm HL Hfu. pose proof Hss as [Hs Hd Ho Hw Hn Hl Hdr Hgo Hsz [Hro Hop]].
  destruct (Commit_trees it fuel rt sp t w tx st Hf Hs Hd Ho Hw Hm) as (w' & st' & Hrun & Hst' & Hdom & Hsee & _ & (tx' & Htx' & Hdb') & Hlk & Hmo); [by eapply session_ripe|].
  destruct (Commit_commits it fuel rt sp t w Hf Hs) as [Hs' _ _ _ Hop']. pose proof (Commit_dirs it fuel rt sp t w Hf Hs Hd) as Hd'.
  rewrite Hrun in Hs', Hop', Hd'. simpl in Hs', Hop', Hd'. exists w', tx'. split; [done|]. split; [|done].
  split; [done|done|congruence|congruence|done|]. exists st'. split; [done|]. split; [congruence|]. intros name kvs HA.
  assert (Hv : name ∈ visible tx) by (rewrite Hn; by apply elem_of_dom_2 in HA). specialize (Hl _ _ HA). unfold seen in Hl.
  assert (Hone : name ∈ still_one σ → name ∈ a_one σ ∧ fits_leaf kvs = true).
  { unfold still_one. rewrite elem_of_filter, HA. simpl. tauto. }
  pose proof (λ T, Hsee name T Hv) as Hname. destruct (t_bctx tx !! name) as [b|].
  - destruct Hl as (x & T & Hox & _ & _ & <- & _ & HT). destruct (Hname T) as (T' & [Hc Hlf] & HT'); [exists x; by eapply orderly_readable|].
    exists T'. split_and!; [done|done|]. intros [? ?]%Hone. by apply Hlf; [apply HT|].
  - destruct Hl as (T & Hst & <- & _ & HT). exists T. split_and!; [by apply Hname|done|]. intros [? _]%Hone. auto.
Qed.

(** A rollback leaves the database as it was. *)
Lemma Rollback_ends w t tx :
  sane w → dirs w → w_txs w !! t = Some tx → t_managed tx = false → t_db tx = true →
  ∃ w' tx', Rollback t w = (Ret None, w') ∧ quiet w w' ∧ dirs w' ∧ w_txs w' !! t = Some tx' ∧ t_db tx' = false ∧
    db_opened (w_db w') = db_opened (w_db w) ∧ db_readOnly (w_db w') = db_readOnly (w_db w) ∧
    db_rwlock (w_db w') = if t_writable tx then false else db_rwlock (w_db w).
Proof.
  intros Hs Hd Ht Hm Hdb. destruct (Tx_close_run w t tx Ht Hdb) as (d & Hclose & _ & Hop & Hlk). set (w' := set_txs _ _) in Hclose.
  assert (Hr : rollback t w = (Ret tt, w')) by (unfold rollback; by rewrite (bind_Ret _ _ _ _ _ (get_tx_run _ _ _ Ht)), Hdb).
  assert (Hrun : Rollback t w = (Ret None, w')).
  { unfold Rollback. rewrite (bind_Ret _ _ _ _ _ (get_tx_run _ _ _ Ht)), Hm, (bind_Ret (Assert (negb false)) _ w tt w eq_refl), Hdb.
    change (negb true) with false. cbv iota. by rewrite (bind_Ret _ _ _ _ _ Hr). }
  pose proof (proj1 (Rollback_q t w Hs)) as Hq. pose proof (rollback_dirs t w Hd) as Hd'. pose proof (Tx_close_mode t w) as Hmo.
  rewrite Hrun in Hq. rewrite Hr in Hd'. rewrite Hclose in Hmo. simpl in Hq, Hd', Hmo. exists w', (closed_tx tx).
  split_and!; try done. simpl. apply lookup_insert_eq.
Qed.

Lemma session_rollback w0 w t tx st A0 S0 σ N :
  core w0 → db_state (w_db w0) = Some st → state_stores w0 st A0 S0 → quiet w0 w → session w t tx st σ N → t_managed tx = false →
  ∃ w' tx', Rollback t w = (Ret None, w') ∧ idle w' A0 S0 ∧ w_txs w' !! t = Some tx' ∧ t_db tx' = false.
Proof.
  intros Hc0 Hst HA Hq [Hs Hd [Ht Hdb _ _] Hw _ _ _ _ _ [Hro Hop]] Hm.
  destruct (Rollback_ends w t tx Hs Hd Ht Hm Hdb) as (w' & tx' & Hrun & Hq' & Hd' & Ht' & Hdb' & Hop' & Hmo & Hlk). rewrite Hw in Hlk.
  exists w', tx'. split; [done|]. split; [|done]. pose proof (quiet_trans _ _ _ Hq Hq') as Hqq.
  split; [apply Hqq|done|congruence|congruence|done|]. exists st. split; [rewrite <- Hst; apply Hqq|].
  eapply (state_stores_iso w0); [done|apply Hqq|by apply (s_db _ Hc0)|done].
Qed.

Lemma deferred_noop {A} t (body : M A) w a w' tx :
  body w = (Ret a, w') → w_txs w' !! t = Some tx → t_db tx = false → with_rollback t body w = (Ret a, w').
Proof.
  intros Hb Ht Hdb. rewrite (with_rollback_run t body w (Ret a) w' Hb) by eauto. simpl. unfold rollback.
  by rewrite (bind_Ret _ _ _ _ _ (get_tx_run _ _ _ Ht)), Hdb.
Qed.

(** ** Refinement *)

(** [Update] with any function that, inside a transaction that sees [A], returns
    [e] and leaves a transaction that sees [σ]. *)
Lemma Update_by it rt sp w A S K (fn : nat → tid → M (option err)) e σ :
  fair it → idle w A S → (e = None → small_model (a_map σ)) →
  (∀ fuel w1 t tx st N, session w1 t tx st (mkAbs A S ∅) N → N ≤ fuel → K ≤ fuel →
     ∃ w2 tx2, fn fuel t w1 = (Ret e, w2) ∧ quiet w1 w2 ∧ session w2 t tx2 st σ N) →
  ∃ N, ∀ fuel, N ≤ fuel → ∃ w', Update it fuel rt sp (fn fuel) w = (Ret e, w') ∧
    match e with None => idle w' (a_map σ) (still_one σ) | Some _ => idle w' A S end.
Proof.
  intros Hf Hid Hsm Hfn. destruct (idle_begin w A S Hid) as (t & w1 & tx1 & st & N & Hbegin & Hq1 & Hss1 & Hst & HA).
  destruct (map_bound (a_map σ) (λ _ kvs n, length kvs ≤ n)) as [L HL]; [intros; lia|eauto|].
  exists (Datatypes.S N * Datatypes.S N + L + 2 + K). intros fuel Hfu. unfold Update. rewrite (bind_Ret _ _ _ _ _ Hbegin).
  destruct (session_managed w1 t tx1 st _ N true Hss1) as (w2 & Hman & Hq2 & Hss2).
  destruct (Hfn fuel w2 t _ st N Hss2) as (w3 & tx3 & Hrun & Hq3 & Hss3); [nia|lia|].
  destruct (session_managed w3 t tx3 st _ N false Hss3) as (w4 & Hunman & Hq4 & Hss4).
  assert (Hq : quiet w w4) by (eapply quiet_trans, quiet_trans, quiet_trans; [exact Hq1|exact Hq2|exact Hq3|exact Hq4]).
  destruct e as [e|].
  - destruct (session_rollback w w4 t _ st A S σ N (sn_core _ (id_sane _ _ _ Hid)) Hst HA Hq Hss4 eq_refl) as (w5 & tx5 & Hend & Hid5 & Ht5 & Hdb5).
    exists w5. split; [|done]. eapply deferred_noop; [|exact Ht5|exact Hdb5].
    by rewrite (bind_Ret _ _ _ _ _ Hman), (bind_Ret _ _ _ _ _ Hrun), (bind_Ret _ _ _ _ _ Hunman), (bind_Ret _ _ _ _ _ Hend).
  - destruct (session_commit it fuel rt sp w4 t _ st σ N L Hf Hss4 eq_refl (Hsm eq_refl) HL ltac:(lia)) as (w5 & tx5 & Hend & Hid5 & Ht5 & Hdb5).
    exists w5. split; [|done]. eapply deferred_noop; [|exact Ht5|exact Hdb5].
    by rewrite (bind_Ret _ _ _ _ _ Hman), (bind_Ret _ _ _ _ _ Hrun), (bind_Ret _ _ _ _ _ Hunman).
Qed.

(** What [Update] makes of the map and of the buckets that are one node: all of the
    script, or nothing. *)
Definition spec_update (A : model) (S : gset bytes) (s : script) : option err * (model * gset bytes) :=
  match outcome (mkAbs A S ∅) s with
  | (None, σ) => (None, (a_map σ, still_one σ))
  | (Some e, _) => (Some e, (A, S))
  end.

(** [Update] with a script. *)
Lemma Update_script it rt sp w A S s :
  fair it → idle w A S → all_careful (mkAbs A S ∅) s = true → small_model (spec_update A S s).2.1 →
  ∃ N, ∀ fuel, N ≤ fuel →
    ∃ w', Update it fuel rt sp (script_run fuel s) w = (Ret (spec_update A S s).1, w') ∧
      idle w' (spec_update A S s).2.1 (spec_update A S s).2.2.
Proof.
  intros Hf Hid Hnd Hsm. unfold spec_update in *. set (σ0 := mkAbs A S ∅) in *.
  destruct (Update_by it rt sp w A S (longest σ0 s) (λ fuel, script_run fuel s) (outcome σ0 s).1 (outcome σ0 s).2 Hf Hid) as [N HN].
  - intros He. by destruct (outcome σ0 s) as [[]].
  - intros fuel w1 t tx st N Hss Hfu Hlo. destruct (session_script fuel s w1 t tx st σ0 N Hss Hfu Hlo Hnd) as (w2 & tx2 & Hrun & Hss2).
    pose proof (proj1 (script_quiet fuel t s w1 (ss_sane _ _ _ _ _ _ Hss))) as Hq. rewrite Hrun in Hq. by exists w2, tx2.
  - exists N. intros fuel Hfu. destruct (HN fuel Hfu) as (w' & Hrun & Hid'). exists w'. by destruct (outcome σ0 s) as [[]].
Qed.

(** C3. [DB.Update] refines a transaction on a map of maps.  On an open, writable
    database without a writer that stores the map [A], with a function that puts,
    gets and deletes keys, and scans, lists, creates and deletes buckets, as its replies tell it,
    and with enough fuel, [Update] returns the error the function returns on the
    map; the database then stores the map the function makes of [A] if it returns
    nil, and [A] otherwise, and is ready for the next [Update].  The trees may have
    any height; the keys of a bucket must fit one node at the commit.  The function
    must be careful where the code has defects: it deletes keys only in buckets that
    are one node ([S] before; those created in the transaction; those that fit after
    the commit), and does not delete a bucket of one name twice. *)
Theorem Update_refines it rt sp w A S s :
  fair it → idle w A S → all_careful (mkAbs A S ∅) s = true → small_model (spec_update A S s).2.1 →
  ∃ N, ∀ fuel, N ≤ fuel →
    ∃ w', Update it fuel rt sp (script_run fuel s) w = (Ret (spec_update A S s).1, w') ∧
      idle w' (spec_update A S s).2.1 (spec_update A S s).2.2.
Proof. apply Update_script. Qed.

(** ** An example *)

Definition ex_map : model := {[ [x6e] := [([x61], [x01]); ([x62], [x02])] ]}.
Definition ex_one : gset bytes := {[ [x6e] ]}.

Lemma ex_stores : state_stores ex_w0 ex_st ex_map ex_one.
Proof.
  split; [unfold ex_st, ex_map; simpl; by rewrite !dom_singleton_L|]. intros name kvs Hk. unfold ex_map in Hk. apply lookup_singleton_Some in Hk as [<- <-].
  exists ex_view. split; [|done]. eexists. split_and!; [unfold ex_st; simpl; by rewrite lookup_singleton_eq|done| | | |].
  - eexists. split; [vm_compute; reflexivity|done].
  - split; repeat constructor; discriminate.
  - apply NoDup_singleton.
  - intros l n Hl Hn i c Hi Hc. apply list_elem_of_singleton in Hl as ->. vm_compute in Hn. injection Hn as <-.
    repeat (apply elem_of_cons in Hi as [->|Hi]; [discriminate Hc|]). by apply elem_of_nil in Hi.
Qed.

Lemma ex_idle : idle ex_w0 ex_map ex_one.
Proof.
  destruct (reachable_inv _ ex_reachable) as [Hs Hd]. split; [done|done|vm_compute; reflexivity..|]. exists ex_st. split; [vm_compute; reflexivity|apply ex_stores].
Qed.

(** Scan a bucket, move the value of its first key to a new key, create the bucket
    "m", and see a put without a key refused. *)
Definition ex_script : script :=
  Do (TScan [x6e]) (λ r,
    match r with
    | RPairs ((_, v) :: _) => Do (TPut [x6e] [x63] v) (λ _, Do (TDelete [x6e] [x61]) (λ _, Do (TCreate [x6d]) (λ _, Do (TPut [x6d] [] v) (λ r,
        match r with RErr (Some _) => Return None | _ => Return (Some ErrTxClosed) end))))
    | _ => Return (Some ErrBucketNotFound)
    end).

Lemma Update_refines_witness :
  ∃ N, ∀ fuel, N ≤ fuel → ∃ w', Update std_iteration fuel 0 0 (script_run fuel ex_script) ex_w0 = (Ret None, w') ∧
    idle w' {[ [x6e] := [([x62], [x02]); ([x63], [x01])]; [x6d] := [] ]} {[ [x6e]; [x6d] ]}.
Proof.
  assert (Hspec : spec_update ex_map ex_one ex_script =
    (None, ({[ [x6e] := [([x62], [x02]); ([x63], [x01])]; [x6d] := [] ]}, {[ [x6e]; [x6d] ]}))) by (by apply (bool_decide_unpack _); vm_compute).
  destruct (Update_refines std_iteration 0 0 ex_w0 ex_map ex_one ex_script std_iteration_fair ex_idle) as [N HN].
  - vm_compute. reflexivity.
  - rewrite Hspec. intros name kvs Hk. simpl in Hk.
    apply lookup_insert_Some in Hk as [[_ <-]|[_ [_ <-]%lookup_singleton_Some]]; vm_compute; reflexivity.
  - exists N. intros fuel Hf. destruct (HN fuel Hf) as (w' & Hrun & Hid). exists w'. rewrite Hspec in Hrun, Hid. split; [exact Hrun|exact Hid].
Defined.
