(* ===== verification/Check.v ===== *)
(** * The consistency checker (tx_check.go)

    [Tx.Check] walks the committed tree of every bucket.  An error value keeps
    what the message would show: the bucket, the node and the rendered keys.  The
    per-bucket goroutines write to one channel, so the order in which errors of
    different buckets come out is not fixed: [interleaving] is any of them. *)
From S2P Require Import Prelude GoSort Stats World Node KV Tree.
Local Open Scope bytes_scope.

(** ** Options *)

(** [type KVStringer interface]; strings are the bytes of their text. *)
Record KVStringer := mkKVStringer {
  KeyToString : bytes → bytes;
  ValueToString : bytes → bytes
}.

(** [hex.EncodeToString] *)
Definition hex_digit (n : N) : byte :=
  match Byte.of_N (if (n <? 10)%N then 48 + n else 87 + n) with Some b => b | None => x00 end.
Definition hex_encode (b : bytes) : bytes :=
  concat ((λ x, [hex_digit (Byte.to_N x / 16); hex_digit (Byte.to_N x mod 16)]) <$> b).
(** [HexKVStringer] *)
Definition HexKVStringer : KVStringer := mkKVStringer hex_encode hex_encode.

(** [type checkConfig struct]; [None] is a nil interface. *)
Record checkConfig := mkCheckConfig { kvStringer : option KVStringer; pageId : Z }.
(** [type CheckOption] *)
Definition CheckOption : Type := checkConfig → checkConfig.
Definition WithKVStringer (s : option KVStringer) : CheckOption := λ c, mkCheckConfig s (pageId c).
Definition WithPageId (p : Z) : CheckOption := λ c, mkCheckConfig (kvStringer c) p.

(** [newCheckConfig]: apply the options in order, replace a nil renderer *)
Definition newCheckConfig (opts : list CheckOption) : checkConfig :=
  let c := fold_left (λ c o, o c) opts (mkCheckConfig (Some HexKVStringer) 0) in
  match kvStringer c with
  | None => mkCheckConfig (Some HexKVStringer) (pageId c)
  | Some _ => c
  end.

(** ** Errors *)

Inductive checkErr :=
| CkNoSnapshot                                                   (** no pinned snapshot *)
| CkNilState (name : bytes)                                      (** bucket has nil state *)
| CkShared (name : bytes) (n : loc)                              (** reachable via multiple parents *)
| CkEmptyKey (name : bytes) (n : loc) (i : nat)
| CkNotAscending (name : bytes) (n : loc) (i : nat) (prev key : bytes)
| CkLeafChild (name : bytes) (n : loc) (i : nat)                 (** leaf inode with a child *)
| CkNilChild (name : bytes) (n : loc) (i : nat)                  (** branch inode without one *)
| CkBranchValue (name : bytes) (n : loc) (i : nat)               (** branch inode with a value *)
| CkEmptyChild (name : bytes) (child n : loc) (sep : bytes)      (** child has no inodes *)
| CkSeparator (name : bytes) (sep : bytes) (child : loc) (first : bytes).

Definition err_if (b : bool) (e : checkErr) : list checkErr := if b then [e] else [].

Section check.
Context (h : gmap loc node) (ks : KVStringer) (name : bytes).

(** ** One node *)

(** The body of [checkNode]'s loop *)
Definition checkInode (n : loc) (isLeaf : bool) (i : nat) (prev : bytes) (ind : inode) : list checkErr :=
  err_if (length (i_key ind) =? 0) (CkEmptyKey name n i) ++
  (if 0 <? i then
     err_if (Compare (i_key ind) prev <=? 0)%Z
       (CkNotAscending name n i (KeyToString ks prev) (KeyToString ks (i_key ind)))
   else []) ++
  (if isLeaf then err_if (bool_decide (i_child ind ≠ None)) (CkLeafChild name n i)
   else
     err_if (bool_decide (i_child ind = None)) (CkNilChild name n i) ++
     err_if (negb (vlen (i_value ind) =? 0)%Z) (CkBranchValue name n i)).
(** [checkNode] *)
Fixpoint checkNode_loop (n : loc) (isLeaf : bool) (i : nat) (prev : bytes) (l : list inode) : list checkErr :=
  match l with
  | [] => []
  | ind :: l' => checkInode n isLeaf i prev ind ++ checkNode_loop n isLeaf (S i) (i_key ind) l'
  end.
Definition checkNode (n : loc) (nd : node) : list checkErr :=
  checkNode_loop n (n_isLeaf nd) 0 [] (n_inodes nd).

(** ** One tree *)

(** The loop of [checkBucket] over the children of a branch: the errors, and the
    stack (its top first) with the children to visit pushed. *)
Fixpoint checkChildren (n : loc) (i : nat) (l : list inode) (stack : list loc)
    : res (list checkErr * list loc) :=
  match l with
  | [] => Ret ([], stack)
  | ind :: l' =>
      match i_child ind with
      | None =>
          match checkChildren n (S i) l' stack with
          | Ret (es, s) => Ret (CkNilChild name n i :: es, s)
          | r => r
          end
      | Some c =>
          match h !! c with
          | None => Panic PNilDeref
          | Some cn =>
              match n_inodes cn with
              | [] =>
                  match checkChildren n (S i) l' stack with
                  | Ret (es, s) => Ret (CkEmptyChild name c n (KeyToString ks (i_key ind)) :: es, s)
                  | r => r
                  end
              | i0 :: _ =>
                  match checkChildren n (S i) l' (c :: stack) with
                  | Ret (es, s) =>
                      Ret (err_if (negb (Equal (i_key ind) (i_key i0)))
                             (CkSeparator name (KeyToString ks (i_key ind)) c (KeyToString ks (i_key i0))) ++ es, s)
                  | r => r
                  end
              end
          end
      end
  end.

(** The walk of [checkBucket]: pop, skip what was visited, check, push. *)
Fixpoint checkWalk (fuel : nat) (stack : list loc) (visited : gset loc) : res (list checkErr) :=
  match fuel with
  | O => NoFuel
  | S f =>
      match stack with
      | [] => Ret []
      | n :: stack =>
          match h !! n with
          | None => Panic PNilDeref
          | Some nd =>
              if bool_decide (n ∈ visited) then
                match checkWalk f stack visited with
                | Ret es => Ret (CkShared name n :: es)
                | r => r
                end
              else
                match (if n_isLeaf nd then Ret ([], stack) else checkChildren n 0 (n_inodes nd) stack) with
                | Ret (es1, stack) =>
                    match checkWalk f stack ({[n]} ∪ visited) with
                    | Ret es2 => Ret (checkNode n nd ++ es1 ++ es2)
                    | r => r
                    end
                | Panic p => Panic p
                | Blocked => Blocked
                | NoFuel => NoFuel
                end
          end
      end
  end.

(** [checkBucket] *)
Definition checkBucket (fuel : nat) (bs : option bucketState) : res (list checkErr) :=
  match bs with
  | None => Ret [CkNilState name]
  | Some st =>
      match bs_root st with
      | None => Ret []
      | Some r => checkWalk fuel [r] ∅
      end
  end.
End check.

(** ** The whole snapshot *)

(** [checkDBState], ranging over the map in some order *)
Definition checkDBState (buckets : list (bytes * option bucketState)) : list checkErr :=
  concat ((λ p, err_if (bool_decide (p.2 = None)) (CkNilState p.1)) <$> buckets).

(** [sortedBucketNames] *)
Definition sortedBucketNames (bs : gmap bytes (option bucketState)) : list bytes :=
  sort_Strings (elements (dom bs)).

(** What concurrent senders may put on one channel. *)
Inductive interleaving {A} : list (list A) → list A → Prop :=
| il_done ls : Forall (λ l, l = []) ls → interleaving ls []
| il_take ls1 x l ls2 out :
    interleaving (ls1 ++ l :: ls2) out → interleaving (ls1 ++ (x :: l) :: ls2) (x :: out).

(** [Tx.Check]: [out] is what a reader of the channel may receive until it is
    closed. *)
Definition Check (fuel : nat) (w : world) (tx : Tx) (opts : list CheckOption) (out : list checkErr) : Prop :=
  let cfg := newCheckConfig opts in
  match t_base tx with
  | None => out = [CkNoSnapshot]
  | Some st =>
      ∃ order levelA perBucket levelB,
        order ≡ₚ map_to_list (ds_buckets st) ∧ levelA = checkDBState order ∧
        Forall2 (λ name es, ∃ ks, kvStringer cfg = Some ks ∧
            checkBucket (w_nodes w) ks name fuel (mjoin (ds_buckets st !! name)) = Ret es)
          (sortedBucketNames (ds_buckets st)) perBucket ∧
        interleaving perBucket levelB ∧ out = levelA ++ levelB
  end.
