(* ===== verification/CheckSpec.v ===== *)
(** * What the consistency checker decides

    [Tx.Check] terminates on any node graph, also on one with cycles, and is
    silent exactly when every bucket is a tree (no sharing, no cycle) with
    strictly ascending non-empty keys in each node, no empty child, and
    separators equal to the first key of the child. *)
From S2P Require Import Prelude GoSort Stats World Node KV Tree Cursor Cow Bucket Spill Tx DB.
From S2P Require Import CowSpec BucketSpec Frame Publish Isolation System Check.
Local Open Scope bytes_scope.

(** ** The trees the checker accepts *)

Definition node_keys (T : tree) : list bytes :=
  match T with Leaf _ kvs => keys kvs | Branch _ cs => cs.*1 end.

Fixpoint checked (T : tree) : Prop :=
  match T with
  | Leaf _ kvs => ssorted (keys kvs) ∧ Forall (λ k, k ≠ []) (keys kvs)
  | Branch _ cs =>
      ssorted cs.*1 ∧ Forall (λ k, k ≠ []) cs.*1 ∧
      foldr (λ p Q, (head (node_keys p.2) = Some p.1 ∧ checked p.2) ∧ Q) True cs
  end.

(** The store holds [T], whatever the flags of the inodes and whether an empty
    value is nil or not. *)
Definition pair_of (i : inode) : kv := (i_key i, match i_value i with Some v => v | None => [] end).
Definition inode_link (i : inode) : bytes * option loc := (i_key i, i_child i).
Definition child_link (p : bytes * tree) : bytes * option loc := (p.1, Some (tloc p.2)).
Fixpoint holds (h : gmap loc node) (T : tree) : Prop :=
  match T with
  | Leaf l kvs => ∃ n, h !! l = Some n ∧ n_isLeaf n = true ∧ pair_of <$> n_inodes n = kvs ∧
      Forall (λ i, i_child i = None) (n_inodes n)
  | Branch l cs =>
      (∃ n, h !! l = Some n ∧ n_isLeaf n = false ∧ inode_link <$> n_inodes n = child_link <$> cs ∧
         Forall (λ i, vlen (i_value i) = 0%Z) (n_inodes n)) ∧
      foldr (λ p Q, holds h p.2 ∧ Q) True cs
  end.

Lemma checked_Branch l cs :
  checked (Branch l cs) ↔ ssorted cs.*1 ∧ Forall (λ k, k ≠ []) cs.*1 ∧
    Forall (λ p, head (node_keys p.2) = Some p.1 ∧ checked p.2) cs.
Proof.
  simpl. do 2 f_equiv. induction cs as [|p cs IH]; simpl; [done|]. by rewrite Forall_cons, IH.
Qed.

Lemma holds_Branch h l cs :
  holds h (Branch l cs) ↔
  (∃ n, h !! l = Some n ∧ n_isLeaf n = false ∧ inode_link <$> n_inodes n = child_link <$> cs ∧
     Forall (λ i, vlen (i_value i) = 0%Z) (n_inodes n)) ∧ Forall (λ p, holds h p.2) cs.
Proof. simpl. by rewrite (all_children_Forall (holds h)). Qed.

(** Every tree the store represents is held. *)
Lemma rep_holds h T : rep h T → holds h T.
Proof.
  induction T as [l kvs|l cs IH] using tree_nested_ind.
  - intros (n & Hn & Hl & Hi). exists n. rewrite Hi. split_and!; [done|done| |].
    + clear Hi. induction kvs as [|[k v] kvs IH]; [done|]. by rewrite !fmap_cons, IH.
    + apply Forall_fmap, Forall_forall. by intros [].
  - rewrite rep_Branch, holds_Branch. intros [(n & Hn & Hl & Hi) Hc]. split.
    + exists n. rewrite Hi. split_and!; [done|done| |].
      * rewrite <- list_fmap_compose. apply list_fmap_ext. by intros ? [k c].
      * apply Forall_fmap, Forall_forall. by intros [].
    + rewrite Forall_forall in IH, Hc |- *. auto.
Qed.

(** The node of a held tree. *)
Lemma holds_node h T : holds h T → ∃ n, h !! tloc T = Some n ∧ ikeys (n_inodes n) = node_keys T.
Proof.
  destruct T as [l kvs|l cs]; simpl.
  - intros (n & Hn & _ & <- & _). exists n. split; [done|]. unfold keys, ikeys. rewrite <- list_fmap_compose.
    by apply list_fmap_ext.
  - intros [(n & Hn & _ & He & _) _]. exists n. split; [done|]. apply (f_equal (fmap fst)) in He.
    rewrite <- !list_fmap_compose in He. exact He.
Qed.

(** ** One node *)

Definition inode_shape (isLeaf : bool) (i : inode) : Prop :=
  if isLeaf then i_child i = None else i_child i ≠ None ∧ vlen (i_value i) = 0%Z.

Lemma err_if_nil b e : err_if b e = [] ↔ b = false.
Proof. by destruct b. Qed.

Lemma ssorted_cons2 p k ks : ssorted (p :: k :: ks) ↔ p ≺ k ∧ ssorted (k :: ks).
Proof.
  split.
  - intros [Hs Ha]%StronglySorted_inv. split; [by inversion Ha|done].
  - intros [Hp Hs]. constructor; [done|]. pose proof (StronglySorted_inv Hs) as [_ Ha]. constructor; [done|].
    eapply Forall_impl; [exact Ha|]. intros y Hy. by eapply blt_trans.
Qed.

Section spec.
Context (h : gmap loc node) (ks : KVStringer) (name : bytes).

Lemma checkInode_nil n lf i prev ind :
  checkInode ks name n lf i prev ind = [] ↔
  i_key ind ≠ [] ∧ (0 < i → prev ≺ i_key ind) ∧ inode_shape lf ind.
Proof.
  unfold checkInode. rewrite !app_nil, err_if_nil, Nat.eqb_neq, length_zero_iff_nil.
  assert (Hasc : (if 0 <? i then err_if (Compare (i_key ind) prev <=? 0)%Z
      (CkNotAscending name n i (KeyToString ks prev) (KeyToString ks (i_key ind))) else []) = [] ↔
    (0 < i → prev ≺ i_key ind)).
  { destruct (Nat.ltb_spec 0 i); [|split; [lia|done]]. rewrite err_if_nil, Z.leb_gt.
    unfold blt. rewrite (Compare_antisym (i_key ind) prev).
    destruct (Compare_range (i_key ind) prev) as [-> | [-> | ->]]; naive_solver lia. }
  rewrite Hasc. do 2 f_equiv. destruct lf; simpl.
  - rewrite err_if_nil, bool_decide_eq_false. split; [intros H|intros ->; tauto]. destruct (i_child ind); [|done].
    by destruct H.
  - rewrite app_nil, !err_if_nil, bool_decide_eq_false, negb_false_iff, Z.eqb_eq. done.
Qed.

Lemma checkNode_loop_nil n lf l : ∀ i prev,
  checkNode_loop ks name n lf i prev l = [] ↔
  Forall (λ k, k ≠ []) (ikeys l) ∧ Forall (inode_shape lf) l ∧
  ssorted (if 0 <? i then prev :: ikeys l else ikeys l).
Proof.
  induction l as [|ind l IH]; intros i prev; simpl.
  { split; [intros _|done]. split_and!; [constructor..|]. destruct (0 <? i); repeat constructor. }
  rewrite app_nil, checkInode_nil, IH, !Forall_cons. simpl. destruct (Nat.ltb_spec 0 i).
  - rewrite ssorted_cons2. naive_solver.
  - naive_solver lia.
Qed.

Lemma checkNode_nil n nd :
  checkNode ks name n nd = [] ↔
  Forall (λ k, k ≠ []) (ikeys (n_inodes nd)) ∧ Forall (inode_shape (n_isLeaf nd)) (n_inodes nd) ∧
  ssorted (ikeys (n_inodes nd)).
Proof. apply checkNode_loop_nil. Qed.

(** ** The children of a branch *)

Definition child_ok (i : inode) (c : loc) : Prop :=
  i_child i = Some c ∧ ∃ cn, h !! c = Some cn ∧ head (ikeys (n_inodes cn)) = Some (i_key i).

Lemma checkChildren_nil n l : ∀ i stack s,
  checkChildren h ks name n i l stack = Ret ([], s) ↔ ∃ cs, Forall2 child_ok l cs ∧ s = reverse cs ++ stack.
Proof.
  induction l as [|ind l IH]; intros i stack s; simpl.
  { split; [intros [= <-]; by exists []|]. by intros (cs & ->%Forall2_nil_inv_l & ->). }
  destruct (i_child ind) as [c|] eqn:Hc.
  2:{ split; [by destruct (checkChildren _ _ _ _ _ _ _) as [[]| | |]|].
      intros (cs & H & _). apply Forall2_cons_inv_l in H as (c & cs' & [H _] & _). congruence. }
  assert (Hgo : ∀ e, match checkChildren h ks name n (S i) l (c :: stack) with Ret (es, s) => Ret (e ++ es, s) | r => r end = Ret ([], s) ↔
    e = [] ∧ ∃ cs, Forall2 child_ok l cs ∧ s = reverse cs ++ c :: stack).
  { intros e. rewrite <- (IH (S i)). destruct (checkChildren _ _ _ _ _ _ _) as [[es s']| | |]; [|split; [done|by intros [_ ?]]..].
    split; [intros [= [-> ->]%app_nil ->]; done|]. by intros [-> [= -> ->]]. }
  split.
  - destruct (h !! c) as [cn|] eqn:Hcn; [|done]. destruct (n_inodes cn) as [|i0 l0] eqn:Hi.
    { destruct (checkChildren h ks name n (S i) l stack) as [[]| | |]; intros [=]. }
    intros [He (cs & Hcs & ->)]%Hgo. apply err_if_nil, negb_false_iff, Equal_spec in He. exists (c :: cs). split.
    + constructor; [|done]. split; [done|]. exists cn. rewrite Hi. simpl. by rewrite He.
    + by rewrite reverse_cons, <- app_assoc.
  - intros (cs & H & ->). apply Forall2_cons_inv_l in H as (c' & cs' & [Hc' (cn & Hcn & Hhd)] & Hrest & ->).
    simplify_eq. rewrite Hcn. destruct (n_inodes cn) as [|i0 l0]; [done|]. simpl in Hhd. injection Hhd as Hk.
    apply Hgo. split; [apply err_if_nil, negb_false_iff, Equal_spec; congruence|]. exists cs'. split; [done|].
    by rewrite reverse_cons, <- app_assoc.
Qed.

(** The children of a branch that passed, as trees. *)
Lemma children_trees l Ts :
  Forall2 child_ok l (tloc <$> Ts) → Forall (holds h) Ts → Forall checked Ts →
  let cs := zip (ikeys l) Ts in
  cs.*1 = ikeys l ∧ cs.*2 = Ts ∧ inode_link <$> l = child_link <$> cs ∧
  Forall (λ p, head (node_keys p.2) = Some p.1 ∧ checked p.2) cs.
Proof.
  revert Ts. induction l as [|i l IH]; intros Ts H Hh Hc; simpl.
  { apply Forall2_nil_inv_l, fmap_nil_inv in H as ->. by repeat constructor. }
  destruct Ts as [|T Ts]; [by apply Forall2_cons_nil_inv in H|]. simpl in H.
  apply Forall2_cons in H as [[Hi (cn & Hcn & Hhd)] H]. apply Forall_cons in Hh as [Hh1 Hh2]. apply Forall_cons in Hc as [Hc1 Hc2].
  destruct (IH Ts H Hh2 Hc2) as (H1 & H2 & H3 & H4). destruct (holds_node _ _ Hh1) as (m & Hm & Hmk). simplify_eq.
  split; [exact (f_equal (cons (i_key i)) H1)|]. split; [exact (f_equal (cons T) H2)|]. split.
  - change (inode_link i :: (inode_link <$> l) = child_link (i_key i, T) :: (child_link <$> zip (ikeys l) Ts)).
    rewrite H3. unfold inode_link. by rewrite Hi.
  - constructor; [|done]. simpl. by rewrite <- Hmk.
Qed.

Lemma children_ok l cs :
  inode_link <$> l = child_link <$> cs → Forall (λ p, holds h p.2) cs →
  Forall (λ p, head (node_keys p.2) = Some p.1 ∧ checked p.2) cs → Forall2 child_ok l (tloc <$> cs.*2).
Proof.
  revert cs. induction l as [|i l IH]; intros [|[k T] cs]; simpl; try done.
  intros Hlink Hh Hc. injection Hlink as Hk Hi Hlink. apply Forall_cons in Hh as [Hh Hh']. apply Forall_cons in Hc as [[Hc _] Hc'].
  constructor; [|by apply IH]. simpl in *. split; [done|]. destruct (holds_node _ _ Hh) as (m & Hm & Hmk). exists m.
  split; [done|]. by rewrite Hmk, Hk.
Qed.

(** ** The walk *)

Definition accepted (Ts : list tree) (visited : gset loc) : Prop :=
  Forall (holds h) Ts ∧ Forall checked Ts ∧ NoDup (concat (tlocs <$> Ts)) ∧
  ∀ l, l ∈ concat (tlocs <$> Ts) → l ∉ visited.

Lemma concat_tlocs_app Ts1 Ts2 : concat (tlocs <$> (Ts1 ++ Ts2)) = concat (tlocs <$> Ts1) ++ concat (tlocs <$> Ts2).
Proof. by rewrite fmap_app, concat_app. Qed.

Lemma concat_tlocs_reverse Ts : concat (tlocs <$> reverse Ts) ≡ₚ concat (tlocs <$> Ts).
Proof.
  induction Ts as [|T Ts IH]; [done|]. rewrite reverse_cons, concat_tlocs_app. simpl. rewrite app_nil_r, IH.
  apply Permutation_app_comm.
Qed.

(** A branch and the trees next to it, against its children in reverse order. *)
Lemma accepted_branch n cs Ts visited :
  accepted (Branch n cs :: Ts) visited ↔
  holds h (Branch n cs) ∧ checked (Branch n cs) ∧ n ∉ visited ∧
  accepted (reverse cs.*2 ++ Ts) ({[n]} ∪ visited).
Proof.
  unfold accepted. rewrite !Forall_cons, !Forall_app, !Forall_reverse, concat_tlocs_app.
  assert (Hperm : tlocs (Branch n cs) ++ concat (tlocs <$> Ts) ≡ₚ n :: (concat (tlocs <$> reverse cs.*2) ++ concat (tlocs <$> Ts))).
  { simpl. rewrite concat_tlocs_reverse, <- list_fmap_compose. done. }
  cbn [fmap list_fmap concat]. setoid_rewrite Hperm. rewrite NoDup_cons. setoid_rewrite elem_of_cons.
  set (L := concat (tlocs <$> reverse cs.*2) ++ concat (tlocs <$> Ts)).
  assert (Hh : holds h (Branch n cs) → Forall (holds h) cs.*2).
  { rewrite holds_Branch. intros [_ H]. by apply Forall_fmap. }
  assert (Hc : checked (Branch n cs) → Forall checked cs.*2).
  { rewrite checked_Branch. intros (_ & _ & H). apply Forall_fmap. eapply Forall_impl; [exact H|]. by intros ? [_ ?]. }
  split.
  - intros ([H1 H2] & [H3 H4] & [H5 H6] & H7). split_and!; auto.
    intros l Hl. specialize (H7 l (or_intror Hl)). assert (l ≠ n) by (intros ->; done). set_solver.
  - intros (H1 & H2 & H3 & [_ H4] & [_ H5] & H6 & H7). split_and!; auto.
    + intros Hn. specialize (H7 n Hn). set_solver.
    + intros l [->|Hl]; [done|]. specialize (H7 l Hl). set_solver.
Qed.

Lemma checkWalk_sound fuel : ∀ stack visited,
  checkWalk h ks name fuel stack visited = Ret [] → ∃ Ts, tloc <$> Ts = stack ∧ accepted Ts visited.
Proof.
  induction fuel as [|f IH]; intros [|n stack] visited; simpl; try done.
  { intros _. exists []. split; [done|]. split_and!; [constructor..|]. by intros l ?%elem_of_nil. }
  destruct (h !! n) as [nd|] eqn:Hn; [|done]. case_bool_decide as Hv.
  { by destruct (checkWalk _ _ _ _ _ _). }
  destruct (n_isLeaf nd) eqn:Hl.
  - destruct (checkWalk h ks name f stack _) as [es| | |] eqn:Hw; try done. simpl. intros [= [Hck ->]%app_nil].
    destruct (IH _ _ Hw) as (Ts & Hts & Ha1 & Ha2 & Ha3 & Ha4). apply checkNode_nil in Hck as (Hne & Hsh & Hss).
    exists (Leaf n (pair_of <$> n_inodes nd) :: Ts). split; [by rewrite fmap_cons, Hts|].
    rewrite Hl in Hsh. assert (Hk : keys (pair_of <$> n_inodes nd) = ikeys (n_inodes nd)).
    { unfold keys. rewrite <- list_fmap_compose. by apply list_fmap_ext. }
    split_and!.
    + constructor; [|done]. by exists nd.
    + constructor; [|done]. simpl. by rewrite Hk.
    + simpl. apply NoDup_cons. split; [|done]. intros Hin. specialize (Ha4 n Hin). set_solver.
    + simpl. intros l [->|Hin]%elem_of_cons; [done|]. specialize (Ha4 l Hin). set_solver.
  - destruct (checkChildren _ _ _ _ _ _ _) as [[es1 s]| | |] eqn:Hc; try done.
    destruct (checkWalk h ks name f s _) as [es| | |] eqn:Hw; try done. intros [= [Hck [-> ->]%app_nil]%app_nil].
    apply checkChildren_nil in Hc as (cl & Hcl & ->). destruct (IH _ _ Hw) as (Ts & Hts & Hacc).
    apply checkNode_nil in Hck as (Hne & Hsh & Hss). rewrite Hl in Hsh.
    apply fmap_app_inv in Hts as (Cs & Rs & Hcs & -> & ->). apply (f_equal reverse) in Hcs.
    rewrite reverse_involutive, <- fmap_reverse in Hcs.
    rewrite Hcs in Hcl. pose proof Hacc as (Hh & Hk & _). apply Forall_app in Hh as [Hh _]. apply Forall_app in Hk as [Hk _].
    destruct (children_trees _ _ Hcl) as (H1 & H2 & H3 & H4); [by apply Forall_reverse..|].
    set (cs := zip _ _) in *. exists (Branch n cs :: Rs). split; [done|]. apply accepted_branch.
    rewrite H2, reverse_involutive. refine (conj _ (conj _ (conj Hv Hacc))).
    + apply holds_Branch. split.
      * exists nd. split_and!; [done..|]. eapply Forall_impl; [exact Hsh|]. by intros i [_ ?].
      * apply (Forall_fmap snd). rewrite H2. by apply Forall_reverse.
    + apply checked_Branch. by rewrite H1.
Qed.

Lemma checkWalk_complete fuel : ∀ Ts visited,
  accepted Ts visited → list_sum (tsize <$> Ts) < fuel →
  checkWalk h ks name fuel (tloc <$> Ts) visited = Ret [].
Proof.
  induction fuel as [|f IH]; intros Ts visited Hacc Hf; [lia|]. destruct Ts as [|T Ts]; [done|].
  rewrite fmap_cons. cbn [checkWalk].
  pose proof Hacc as (Hh & Hc & Hnd & Hdis). apply Forall_cons in Hh as [Hh Hh']. apply Forall_cons in Hc as [Hc Hc'].
  destruct (holds_node _ _ Hh) as (nd & Hn & Hnk). rewrite Hn.
  rewrite bool_decide_eq_false_2 by (apply Hdis; simpl; apply elem_of_app; left; apply tloc_in).
  destruct T as [n kvs|n cs]; simpl in Hn.
  - destruct Hh as (nd' & Hn' & Hl & Hkv & Hch). simplify_eq. rewrite Hl. rewrite IH; [|clear IH|change (1 + list_sum (tsize <$> Ts) < S f) in Hf; lia].
    + rewrite !app_nil_r. f_equal. apply checkNode_nil. rewrite Hnk, Hl. simpl in Hc. split_and!; [apply Hc|done|apply Hc].
    + simpl in Hnd, Hdis. apply NoDup_cons in Hnd as [Hn1 Hnd]. split_and!; [done..|]. intros l Hin.
      specialize (Hdis l). set_solver.
  - pose proof Hh as [(nd' & Hn' & Hl & Hlink & Hval) Hch]%holds_Branch. simplify_eq. rewrite Hl.
    apply checked_Branch in Hc as (Hss & Hne & Hcs). apply accepted_branch in Hacc as (_ & _ & _ & Hacc).
    assert (E : checkChildren h ks name n 0 (n_inodes nd) (tloc <$> Ts) = Ret ([], tloc <$> reverse cs.*2 ++ Ts)).
    { apply checkChildren_nil. exists (tloc <$> cs.*2). split; [|by rewrite fmap_app, fmap_reverse].
      eapply (children_ok _ cs); done. }
    change (tloc (Branch n cs)) with n. rewrite E, IH; [|done|].
    + rewrite app_nil_r. f_equal. apply checkNode_nil. rewrite Hnk, Hl. split_and!; [done| |done].
      apply Forall_forall. intros i Hi. split.
      * apply (list_elem_of_fmap_2 inode_link) in Hi. rewrite Hlink in Hi. apply list_elem_of_fmap in Hi as (p & Hp & _).
        unfold inode_link, child_link in Hp. injection Hp as _ ->. done.
      * rewrite Forall_forall in Hval. auto.
    + rewrite fmap_app, fmap_reverse, list_sum_app. rewrite <- list_fmap_compose.
      change (S (list_sum (map (λ p, tsize p.2) cs)) + list_sum (tsize <$> Ts) < S f) in Hf.
      replace (list_sum (reverse (tsize ∘ snd <$> cs))) with (list_sum (map (λ p, tsize p.2) cs)); [lia|].
      apply Permutation_list_sum. symmetry. apply reverse_Permutation.
Qed.
End spec.

(** ** Termination *)

(** Inodes of the nodes the walk has not visited. *)
Definition weight (h : gmap loc node) (visited : gset loc) : nat :=
  list_sum ((λ p, length (n_inodes p.2)) <$> map_to_list (filter (λ p, p.1 ∉ visited) h)).

Lemma weight_visit h visited n nd :
  h !! n = Some nd → n ∉ visited → weight h visited = length (n_inodes nd) + weight h ({[n]} ∪ visited).
Proof.
  intros Hn Hv. unfold weight.
  assert (Hd : filter (λ p, p.1 ∉ {[n]} ∪ visited) h = delete n (filter (λ p, p.1 ∉ visited) h)).
  { rewrite <- map_filter_delete. apply map_eq. intros l. apply option_eq. intros m.
    rewrite !map_lookup_filter_Some, lookup_delete_Some. simpl. set_solver. }
  rewrite Hd. rewrite <- (map_to_list_delete (filter (λ p, p.1 ∉ visited) h) n nd); [done|].
  by apply map_lookup_filter_Some.
Qed.

(** Every child pointer leads to a node. *)
Definition closed (h : gmap loc node) : Prop :=
  ∀ l n i c, h !! l = Some n → i ∈ n_inodes n → i_child i = Some c → is_Some (h !! c).

Section termination.
Context (h : gmap loc node) (ks : KVStringer) (name : bytes) (Hclosed : closed h).

Lemma checkChildren_total n l : ∀ i stack,
  (∀ ind c, ind ∈ l → i_child ind = Some c → is_Some (h !! c)) → (∀ c, c ∈ stack → is_Some (h !! c)) →
  ∃ es s, checkChildren h ks name n i l stack = Ret (es, s) ∧ length s ≤ length l + length stack ∧
    ∀ c, c ∈ s → is_Some (h !! c).
Proof.
  induction l as [|ind l IH]; intros i stack Hl Hs; simpl; [by eauto 10|].
  assert (Hl' : ∀ ind c, ind ∈ l → i_child ind = Some c → is_Some (h !! c)) by (intros; eapply Hl; [by right|done]).
  destruct (i_child ind) as [c|] eqn:Hc.
  - destruct (Hl ind c) as [cn Hcn]; [by left|done|]. rewrite Hcn. destruct (n_inodes cn) as [|i0 ?].
    + destruct (IH (S i) stack Hl' Hs) as (es & s & -> & Hlen & Hok). eexists _, s. split_and!; [done|lia|done].
    + destruct (IH (S i) (c :: stack) Hl') as (es & s & -> & Hlen & Hok); [set_solver|]. eexists _, s. simpl in Hlen.
      split_and!; [done|lia|done].
  - destruct (IH (S i) stack Hl' Hs) as (es & s & -> & Hlen & Hok). eexists _, s. split_and!; [done|lia|done].
Qed.

Lemma checkWalk_total fuel : ∀ stack visited,
  (∀ c, c ∈ stack → is_Some (h !! c)) → length stack + weight h visited < fuel →
  ∃ es, checkWalk h ks name fuel stack visited = Ret es.
Proof.
  induction fuel as [|f IH]; intros stack visited Hs Hf; [lia|]. destruct stack as [|n stack]; [by eexists|]. simpl in *.
  destruct (Hs n) as [nd Hn]; [by left|]. rewrite Hn. case_bool_decide as Hv.
  { destruct (IH stack visited) as [es ->]; [set_solver|lia|]. by eexists. }
  pose proof (weight_visit h visited n nd Hn Hv) as Hw.
  destruct (n_isLeaf nd).
  { destruct (IH stack ({[n]} ∪ visited)) as [es ->]; [set_solver|lia|]. by eexists. }
  destruct (checkChildren_total n (n_inodes nd) 0 stack) as (es1 & s & -> & Hlen & Hok); [by eauto|set_solver|].
  destruct (IH s ({[n]} ∪ visited)) as [es ->]; [done|lia|]. by eexists.
Qed.
End termination.

Lemma checkWalk_mono h ks name f1 : ∀ f2 stack visited es,
  f1 ≤ f2 → checkWalk h ks name f1 stack visited = Ret es → checkWalk h ks name f2 stack visited = Ret es.
Proof.
  induction f1 as [|f1 IH]; intros [|f2] [|n stack] visited es Hle; simpl; try done; [lia|lia|].
  destruct (h !! n) as [nd|]; [|done]. case_bool_decide.
  - destruct (checkWalk h ks name f1 stack visited) as [es'| | |] eqn:E; try done. by rewrite (IH f2 _ _ _ ltac:(lia) E).
  - destruct (if n_isLeaf nd then _ else _) as [[es1 s]| | |]; try done.
    destruct (checkWalk h ks name f1 s _) as [es'| | |] eqn:E; try done. by rewrite (IH f2 _ _ _ ltac:(lia) E).
Qed.

(** ** The whole check *)

Lemma interleaving_exists {A} (ls : list (list A)) : ∃ out, interleaving ls out.
Proof.
  remember (length (concat ls)) as n eqn:Hn. revert ls Hn. induction n as [|n IH]; intros ls Hn.
  - exists []. constructor. apply Forall_forall. intros l Hl. apply list_elem_of_split in Hl as (l1 & l2 & ->).
    rewrite concat_app in Hn. simpl in Hn. rewrite !length_app in Hn. by destruct l; simpl in Hn; [|lia].
  - assert (∃ ls1 x l ls2, ls = ls1 ++ (x :: l) :: ls2) as (ls1 & x & l & ls2 & ->).
    { clear IH. induction ls as [|[|x l] ls IHl]; [done| |by exists [], x, l, ls].
      destruct (IHl Hn) as (ls1 & x & l & ls2 & ->). by exists ([] :: ls1), x, l, ls2. }
    destruct (IH (ls1 ++ l :: ls2)) as [out Hout].
    { rewrite concat_app in Hn |- *. cbn [concat app] in Hn |- *. rewrite !length_app in *. cbn [length] in Hn.
      rewrite length_app in Hn. lia. }
    exists (x :: out). by constructor.
Qed.

Lemma interleaving_nil {A} (ls : list (list A)) out : interleaving ls out → (out = [] ↔ Forall (λ l, l = []) ls).
Proof.
  intros [ls' H|ls1 x l ls2 out' _]; [done|]. split; [done|].
  intros [_ [H _]%Forall_cons]%Forall_app. done.
Qed.

Lemma checkDBState_nil bs : checkDBState bs = [] ↔ Forall (λ p, p.2 ≠ None) bs.
Proof.
  induction bs as [|p bs IH]; [done|]. unfold checkDBState in *. simpl. rewrite app_nil, err_if_nil, IH, Forall_cons.
  by rewrite bool_decide_eq_false.
Qed.

Lemma newCheckConfig_stringer opts : ∃ ks, kvStringer (newCheckConfig opts) = Some ks.
Proof. unfold newCheckConfig. cbv zeta. destruct (kvStringer (fold_left _ _ _)) eqn:E; eauto. Qed.

(** A bucket that passes. *)
Definition bucket_ok (h : gmap loc node) (bs : option bucketState) : Prop :=
  ∃ s, bs = Some s ∧ ∀ r, bs_root s = Some r → ∃ T, tloc T = r ∧ holds h T ∧ checked T ∧ NoDup (tlocs T).

Definition check_fuel (h : gmap loc node) : nat := S (S (weight h ∅)).

(** A check of one bucket always ends, and is silent exactly on accepted buckets. *)
Lemma checkBucket_exact h ks name fuel bs :
  closed h → check_fuel h ≤ fuel →
  (∀ s r, bs = Some s → bs_root s = Some r → is_Some (h !! r)) →
  ∃ es, checkBucket h ks name fuel bs = Ret es ∧ (es = [] ↔ bucket_ok h bs).
Proof.
  intros Hc Hf Hr. destruct bs as [s|].
  2:{ eexists. split; [done|]. split; [done|]. by intros (? & ? & _). }
  unfold checkBucket, bucket_ok. destruct (bs_root s) as [r|] eqn:Hroot.
  2:{ eexists. split; [done|]. split; [|done]. intros _. exists s. split; [done|]. by rewrite Hroot. }
  destruct (checkWalk_total h ks name Hc fuel [r] ∅) as [es Hes].
  { intros c ->%list_elem_of_singleton. by eapply Hr. }
  { unfold check_fuel in Hf. simpl. lia. }
  exists es. split; [done|]. split.
  - intros ->. exists s. split; [done|]. intros r' Hr'. rewrite Hroot in Hr'. injection Hr' as <-.
    destruct (checkWalk_sound h ks name _ _ _ Hes) as ([|T [|]] & Hts & Hh & Hck & Hnd & _); simplify_eq/=.
    rewrite app_nil_r in Hnd. apply Forall_cons in Hh as [? _]. apply Forall_cons in Hck as [? _]. by exists T.
  - intros (s' & [= <-] & Hs). destruct (Hs r Hroot) as (T & <- & Hh & Hck & Hnd).
    assert (Hw : checkWalk h ks name (fuel + S (tsize T)) [tloc T] ∅ = Ret []).
    { apply (checkWalk_complete h ks name _ [T]); [|simpl; lia].
      split_and!; [by constructor..|simpl; by rewrite app_nil_r|set_solver]. }
    rewrite (checkWalk_mono h ks name fuel (fuel + S (tsize T)) _ _ _ ltac:(lia) Hes) in Hw. by injection Hw.
Qed.

Lemma core_closed w : core w → closed (w_nodes w).
Proof.
  intros Hc l n i c Hl Hi Hic. destruct (n_bucket n) as [b|] eqn:Hb.
  - destruct (s_child _ Hc _ _ _ _ _ Hl Hb Hi Hic) as [(m & ? & _)|Hd]; [eauto|].
    destruct (s_dirty _ Hc _ _ Hd) as (m & ? & _). eauto.
  - destruct (s_closed _ Hc _ _ _ _ Hl Hb Hi Hic) as (m & ? & _). eauto.
Qed.

(** A check always ends, and is silent exactly on states all of whose buckets pass. *)
Lemma Check_core fuel w t tx st opts :
  core w → w_txs w !! t = Some tx → t_base tx = Some st → check_fuel (w_nodes w) ≤ fuel →
  (∃ out, Check fuel w tx opts out) ∧
  ∀ out, Check fuel w tx opts out →
    (out = [] ↔ ∀ name bs, ds_buckets st !! name = Some bs → bucket_ok (w_nodes w) bs).
Proof.
  intros Hc Ht Hb Hf.
  destruct (newCheckConfig_stringer opts) as [ks Hks].
  assert (Hex : ∀ name, ∃ es, checkBucket (w_nodes w) ks name fuel (mjoin (ds_buckets st !! name)) = Ret es ∧
    (es = [] ↔ bucket_ok (w_nodes w) (mjoin (ds_buckets st !! name)))).
  { intros name. apply checkBucket_exact; [by apply core_closed|done|]. intros s r Hs' Hr.
    destruct (s_base _ Hc _ _ _ Ht Hb name s r) as (m & Hm & _); [|done|eauto].
    destruct (ds_buckets st !! name) as [[]|]; by simplify_eq/=. }
  unfold Check. rewrite Hb. split.
  - assert (∃ pb, Forall2 (λ name es, ∃ ks, kvStringer (newCheckConfig opts) = Some ks ∧
      checkBucket (w_nodes w) ks name fuel (mjoin (ds_buckets st !! name)) = Ret es) (sortedBucketNames (ds_buckets st)) pb) as [pb Hpb].
    { induction (sortedBucketNames (ds_buckets st)) as [|n l [pb IH]]; [by exists []|].
      destruct (Hex n) as (es & He & _). exists (es :: pb). constructor; eauto. }
    destruct (interleaving_exists pb) as [lb Hlb]. eexists _, (map_to_list (ds_buckets st)), _, pb, lb. by split_and!.
  - intros out (order & la & pb & lb & Hord & -> & Hpb & Hlb & ->). rewrite app_nil, checkDBState_nil, (interleaving_nil _ _ Hlb).
    assert (Hall : Forall (λ l, l = []) pb ↔ ∀ name, name ∈ sortedBucketNames (ds_buckets st) →
      bucket_ok (w_nodes w) (mjoin (ds_buckets st !! name))).
    { clear Hlb. induction Hpb as [|n es l pb (ks' & Hks' & He) _ IH]; [split; [intros _; set_solver|by constructor]|].
      rewrite Forall_cons, IH. destruct (Hex n) as (es' & He' & Hiff).
      assert (ks' = ks) as -> by congruence. rewrite He in He'. injection He' as <-. rewrite Hiff. set_solver. }
    rewrite Hall. setoid_rewrite sort_Strings_perm. setoid_rewrite elem_of_elements. setoid_rewrite elem_of_dom. split.
    + intros [_ H] name bs Hn. specialize (H name (ex_intro _ bs Hn)). by rewrite Hn in H.
    + intros H. split.
      * rewrite Hord. apply Forall_forall. intros [n bs] Hin%elem_of_map_to_list. destruct (H n bs Hin) as (s & -> & _). done.
      * intros name [bs Hn]. rewrite Hn. simpl. by apply (H name).
Qed.

(** C17. [Tx.Check] on any reachable state: with fuel for one visit of every inode
    it terminates, whatever the graph looks like, and whichever order the
    channel delivers, it reports nothing exactly when every committed bucket of
    the pinned state is non-nil and is a tree without shared nodes or cycles
    whose nodes have strictly ascending non-empty keys, whose branches have no
    empty child and carry the first key of each child as separator. *)
Theorem Check_exact fuel w t tx st opts :
  reachable w → w_txs w !! t = Some tx → t_base tx = Some st → check_fuel (w_nodes w) ≤ fuel →
  (∃ out, Check fuel w tx opts out) ∧
  ∀ out, Check fuel w tx opts out →
    (out = [] ↔ ∀ name bs, ds_buckets st !! name = Some bs → bucket_ok (w_nodes w) bs).
Proof.
  intros [o Hr0]. destruct (steps_keep _ _ (open_sane o) Hr0) as [Hs _]. apply Check_core, Hs.
Qed.

(** The reader of the example run checks its snapshot. *)
Lemma Check_exact_witness :
  ∃ tx, w_txs ex_w0 !! 2%positive = Some tx ∧ Check (check_fuel (w_nodes ex_w0)) ex_w0 tx [] [].
Proof.
  assert (Hb : t_base <$> w_txs ex_w0 !! 2%positive =
    Some (Some (mkDbState {[ [x6e] := Some (mkBucketState (Some 1%positive)) ]}))) by (vm_compute; reflexivity).
  destruct (w_txs ex_w0 !! 2%positive) as [tx|] eqn:Htx; [|discriminate Hb]. injection Hb as Hb. exists tx. split; [reflexivity|].
  destruct (Check_exact (check_fuel (w_nodes ex_w0)) ex_w0 2 tx _ [] ex_reachable Htx Hb (le_n _)) as [[out Hout] Hiff].
  assert (out = []) as Hnil; [|by rewrite Hnil in Hout]. apply (Hiff out Hout). intros name bs Hn. simpl in Hn.
  apply lookup_singleton_Some in Hn as [_ <-]. eexists. split; [reflexivity|]. intros r [= <-]. exists ex_view.
  split_and!; [reflexivity|apply rep_holds, ex_reader_view| |apply NoDup_singleton].
  apply (rd_wf _ _ _ _ ex_reader_view).
Defined.
