(* ===== verification/Batch.v ===== *)
(** * Batched updates (db.go: [Batch], [batch.trigger], [batch.run])

    Concurrent [Batch] calls are collected and run in one transaction.  The
    goroutines are the steps of a transition system: a caller's critical section,
    a timer or a spawned goroutine entering [trigger], the critical section of
    [run], each round of its retry loop, and a caller taking its result. *)
From S2P Require Import Prelude GoSort Stats World Node KV Tree TreePath Cursor CursorSpec Cow Bucket Spill Tx DB.
From S2P Require Import CowSpec BucketSpec Frame FrameSpill Publish Isolation System.
Local Open Scope st_scope.

(** ** One transaction for many functions *)

(** [safelyCall]: a panic of the function becomes its error *)
Definition safelyCall (fn : tid → M (option err)) (t : tid) : M (option err) := λ w,
  match fn t w with
  | (Panic p, w') => (Ret (Some (ErrPanicked p)), w')
  | r => r
  end.

(** [type call struct]; the channel is the caller's number. *)
Record bcall := mkCall { c_fn : tid → M (option err); c_err : nat }.

(** The function [run] passes to [Update]: run the calls in order; [failIdx] is the
    first that fails, -1 if none does. *)
Fixpoint run_fns (calls : list bcall) (i : nat) (t : tid) : M (Z * option err) :=
  match calls with
  | [] => st_ret ((-1)%Z, None)
  | c :: calls' =>
      let! e := safelyCall (c_fn c) t in
      match e with
      | Some _ => st_ret (Z.of_nat i, e)
      | None => run_fns calls' (S i) t
      end
  end.

Section run.
Context (it : iteration) (fuel : nat) (rebalanceTime spillTime : Z).

(** [b.db.Update(func(tx) { ... })] with the variable [failIdx] it captures *)
Definition batch_update (calls : list bcall) : M (Z * option err) :=
  let! r := Begin true in
  match r with
  | inl e => st_ret ((-1)%Z, Some e)
  | inr t =>
      with_rollback t (
        upd_tx t (set_t_managed true) ;!
        let! (failIdx, e) := run_fns calls 0 t in
        upd_tx t (set_t_managed false) ;!
        match e with
        | Some err => let! _ := Rollback t in st_ret (failIdx, Some err)
        | None => let! e := Commit it fuel rebalanceTime spillTime t in st_ret (failIdx, e)
        end)
  end.
End run.

(** [b.calls[i], b.calls = b.calls[len-1], b.calls[:len-1]] *)
Definition swap_remove {A} (i : nat) (l : list A) : list A :=
  take (length l - 1) (match l !! (length l - 1) with Some x => <[i := x]> l | None => l end).

(** ** The protocol *)

(** Where a batch is: not started; [start.Do] entered; calls detached from the
    database and being run; finished. *)
Inductive bphase := BNew | BStarting | BRunning | BDone.

(** [type batch struct]; [ba_timer]: the timer is armed; [ba_triggers]: goroutines
    spawned to call [trigger] that have not yet done so. *)
Record batch := mkBatch {
  ba_calls : list bcall;
  ba_phase : bphase;
  ba_timer : bool;
  ba_triggers : nat
}.

(** The batching fields of [DB], the batches, the callers' functions, the messages
    in their channels, and what [Batch] returned. *)
Record bstate := mkBstate {
  bs_max : Z;
  bs_batch : option nat;
  bs_batches : gmap nat batch;
  bs_next : nat;
  bs_fns : gmap nat (tid → M (option err));
  bs_chan : gmap nat (option err);
  bs_ret : gmap nat (option err);
  bs_world : world
}.

Definition set_batches (m : gmap nat batch) (s : bstate) : bstate :=
  mkBstate (bs_max s) (bs_batch s) m (bs_next s) (bs_fns s) (bs_chan s) (bs_ret s) (bs_world s).
Definition set_chan (m : gmap nat (option err)) (s : bstate) : bstate :=
  mkBstate (bs_max s) (bs_batch s) (bs_batches s) (bs_next s) (bs_fns s) m (bs_ret s) (bs_world s).
Definition set_cur (o : option nat) (s : bstate) : bstate :=
  mkBstate (bs_max s) o (bs_batches s) (bs_next s) (bs_fns s) (bs_chan s) (bs_ret s) (bs_world s).
Definition set_world (w : world) (s : bstate) : bstate :=
  mkBstate (bs_max s) (bs_batch s) (bs_batches s) (bs_next s) (bs_fns s) (bs_chan s) (bs_ret s) w.

(** [common.DefaultMaxBatchSize], the size [Open] sets. *)
Definition DefaultMaxBatchSize : Z := 1000.

(** [db.batch == nil || len(db.batch.calls) >= db.MaxBatchSize] *)
Definition needs_batch (s : bstate) : bool :=
  match bs_batch s ≫= λ b, bs_batches s !! b with
  | None => true
  | Some ba => (bs_max s <=? Z.of_nat (length (ba_calls ba)))%Z
  end.

(** The critical section of [Batch]: caller [c] joins the current batch, or a new
    one whose timer is armed; a full batch is triggered. *)
Definition enqueue (c : nat) (fn : tid → M (option err)) (s : bstate) : bstate :=
  let s :=
    if needs_batch s then
      mkBstate (bs_max s) (Some (bs_next s)) (<[bs_next s := mkBatch [] BNew true 0]> (bs_batches s))
        (S (bs_next s)) (bs_fns s) (bs_chan s) (bs_ret s) (bs_world s)
    else s in
  match bs_batch s with
  | None => s
  | Some b =>
      mkBstate (bs_max s) (bs_batch s)
        (alter (λ ba,
           let calls := ba_calls ba ++ [mkCall fn c] in
           mkBatch calls (ba_phase ba) (ba_timer ba)
             (if (bs_max s <=? Z.of_nat (length calls))%Z then S (ba_triggers ba) else ba_triggers ba))
           b (bs_batches s))
        (bs_next s) (<[c := fn]> (bs_fns s)) (bs_chan s) (bs_ret s) (bs_world s)
  end.

(** [start.Do(b.run)] up to [run]'s critical section: only the first caller runs. *)
Definition enter (ba : batch) : batch :=
  mkBatch (ba_calls ba) (match ba_phase ba with BNew => BStarting | p => p end) (ba_timer ba) (ba_triggers ba).

(** The critical section of [run] *)
Definition detach (b : nat) (s : bstate) : bstate :=
  set_batches (alter (λ ba, mkBatch (ba_calls ba) BRunning false (ba_triggers ba)) b (bs_batches s))
    (if bool_decide (bs_batch s = Some b) then set_cur None s else s).

(** The messages of one round of the retry loop, and the calls left. *)
Definition round_sends (calls : list bcall) (failIdx : Z) (e : option err) : list (nat * option err) :=
  if (0 <=? failIdx)%Z then
    match calls !! Z.to_nat failIdx with Some c => [(c_err c, Some ErrTrySolo)] | None => [] end
  else (λ c, (c_err c, e)) <$> calls.
Definition round_left (calls : list bcall) (failIdx : Z) : list bcall :=
  if (0 <=? failIdx)%Z then swap_remove (Z.to_nat failIdx) calls else [].

Section steps.
Context (it : iteration) (fuel : nat) (rebalanceTime spillTime : Z).

Inductive bstep (s : bstate) : bstate → Prop :=
| bs_submit c fn :
    bs_fns s !! c = None → bstep s (enqueue c fn s)
| bs_fire_timer b ba :
    bs_batches s !! b = Some ba → ba_timer ba = true →
    bstep s (set_batches (<[b := enter (mkBatch (ba_calls ba) (ba_phase ba) false (ba_triggers ba))]> (bs_batches s)) s)
| bs_fire_goroutine b ba k :
    bs_batches s !! b = Some ba → ba_triggers ba = S k →
    bstep s (set_batches (<[b := enter (mkBatch (ba_calls ba) (ba_phase ba) (ba_timer ba) k)]> (bs_batches s)) s)
| bs_detach b ba :
    bs_batches s !! b = Some ba → ba_phase ba = BStarting → bstep s (detach b s)
| bs_round b ba failIdx e w' :
    bs_batches s !! b = Some ba → ba_phase ba = BRunning → ba_calls ba ≠ [] →
    batch_update it fuel rebalanceTime spillTime (ba_calls ba) (bs_world s) = (Ret (failIdx, e), w') →
    (* a channel holds one message: sending to a full one would block *)
    (∀ p, p ∈ round_sends (ba_calls ba) failIdx e → bs_chan s !! p.1 = None) →
    bstep s (set_world w'
      (set_batches (<[b := mkBatch (round_left (ba_calls ba) failIdx)
                             (if (0 <=? failIdx)%Z then BRunning else BDone) (ba_timer ba) (ba_triggers ba)]> (bs_batches s))
      (set_chan (list_to_map (round_sends (ba_calls ba) failIdx e) ∪ bs_chan s) s)))
| bs_exit b ba :
    bs_batches s !! b = Some ba → ba_phase ba = BRunning → ba_calls ba = [] →
    bstep s (set_batches (<[b := mkBatch [] BDone (ba_timer ba) (ba_triggers ba)]> (bs_batches s)) s)
| bs_recv c e :
    bs_chan s !! c = Some e → bs_ret s !! c = None → e ≠ Some ErrTrySolo →
    bstep s (mkBstate (bs_max s) (bs_batch s) (bs_batches s) (bs_next s) (bs_fns s) (bs_chan s)
               (<[c := e]> (bs_ret s)) (bs_world s))
| bs_solo c fn e w' :
    bs_chan s !! c = Some (Some ErrTrySolo) → bs_ret s !! c = None → bs_fns s !! c = Some fn →
    Update it fuel rebalanceTime spillTime fn (bs_world s) = (Ret e, w') →
    bstep s (mkBstate (bs_max s) (bs_batch s) (bs_batches s) (bs_next s) (bs_fns s) (bs_chan s)
               (<[c := e]> (bs_ret s)) w')
| bs_other w' :
    step (bs_world s) w' → bstep s (set_world w' s).

(** A database that has just been opened: no batch. *)
Definition bs_init (maxSize : Z) (w : world) : bstate := mkBstate maxSize None ∅ 0 ∅ ∅ ∅ w.
End steps.
