(* ===== verification/BatchSpec.v ===== *)
(** * Batching delivers every call exactly one result

    The invariant of the batching protocol, the size bound of a batch, and the
    termination of the retry loop. *)
From S2P Require Import Prelude GoSort Stats World Node KV Tree TreePath Cursor CursorSpec Cow Bucket Spill Tx DB.
From S2P Require Import CowSpec BucketSpec Frame FrameSpill Publish Isolation System Batch.
Local Open Scope st_scope.

(** ** Removing by swapping *)

Lemma swap_remove_perm {A} i (l : list A) x : l !! i = Some x → x :: swap_remove i l ≡ₚ l.
Proof.
  intros Hi. destruct l as [|y l' _] using rev_ind; [done|]. unfold swap_remove.
  rewrite length_app. simpl. replace (length l' + 1 - 1) with (length l') by lia.
  rewrite (list_lookup_middle l' [] y) by done.
  destruct (decide (i = length l')) as [->|Hne].
  - rewrite (list_lookup_middle l' [] y) in Hi by done. injection Hi as ->.
    rewrite insert_app_r_alt, Nat.sub_diag by lia. simpl. rewrite take_app_length. apply Permutation_cons_append.
  - assert (Hlt : i < length l') by (apply lookup_lt_Some in Hi; rewrite length_app in Hi; simpl in Hi; lia).
    rewrite lookup_app_l in Hi by done. rewrite insert_app_l by done.
    rewrite <- (length_insert l' i y), take_app_length. rewrite (insert_take_drop l' i y) by done.
    rewrite (take_drop_lookup l' i x Hi) at 3. rewrite <- Permutation_cons_append, <- !Permutation_middle.
    apply perm_swap.
Qed.

(** ** One round *)

Lemma with_rollback_Ret {A} t (body : M A) w a w' :
  with_rollback t body w = (Ret a, w') → ∃ w1, body w = (Ret a, w1).
Proof.
  unfold with_rollback. destruct (body w) as [[a'|p| |] w1]; try done.
  - intros (u & w2 & _ & [= <- _])%bind_Ret_inv. eauto.
  - by intros (u & w2 & _ & [=])%bind_Ret_inv.
Qed.

(** [failIdx] is -1 or the index of a call, whose error is then reported. *)
Definition idx_ok (calls : list bcall) (r : Z * option err) : Prop :=
  r.1 = (-1)%Z ∨ ∃ i c e, r.1 = Z.of_nat i ∧ calls !! i = Some c ∧ r.2 = Some e.

Lemma run_fns_idx t calls : ∀ i w r w',
  run_fns calls i t w = (Ret r, w') →
  r = ((-1)%Z, None) ∨ ∃ j c e, r.1 = Z.of_nat (i + j) ∧ calls !! j = Some c ∧ r.2 = Some e.
Proof.
  induction calls as [|c calls IH]; intros i w r w'; simpl.
  { intros [= <- _]. by left. }
  intros (e & w1 & _ & H)%bind_Ret_inv. destruct e as [e|].
  - injection H as <- _. right. exists 0, c, e. by rewrite Nat.add_0_r.
  - destruct (IH _ _ _ _ H) as [->|(j & c' & e' & H1 & H2 & H3)]; [by left|]. right. exists (S j), c', e'.
    split_and!; [rewrite H1; lia|done|done].
Qed.

Lemma batch_update_idx it fuel rt sp calls w r w' :
  batch_update it fuel rt sp calls w = (Ret r, w') → idx_ok calls r.
Proof.
  unfold batch_update. intros (t & w1 & _ & H)%bind_Ret_inv. destruct t as [e|t].
  { injection H as <- _. by left. }
  apply with_rollback_Ret in H as [w2 H]. apply bind_Ret_inv in H as (u & w3 & _ & H).
  apply bind_Ret_inv in H as ([fi e] & w4 & Hf & H). apply run_fns_idx in Hf as [[= -> ->]|(j & c & e0 & H1 & H2 & H3)].
  - apply bind_Ret_inv in H as (u' & w5 & _ & H). apply bind_Ret_inv in H as (e' & w6 & _ & H). injection H as <- _. by left.
  - simpl in H1, H3. subst e. apply bind_Ret_inv in H as (u' & w5 & _ & H). apply bind_Ret_inv in H as (e' & w6 & _ & H).
    injection H as <- _. right. exists j, c, e0. by rewrite H1.
Qed.

(** A batch's transaction is an ordinary [Update] of the calls in order. *)
Definition fn_of_calls (calls : list bcall) (t : tid) : M (option err) :=
  let! r := run_fns calls 0 t in st_ret r.2.

Lemma batch_update_Update it fuel rt sp calls w :
  (let! r := batch_update it fuel rt sp calls in st_ret r.2) w = Update it fuel rt sp (fn_of_calls calls) w.
Proof.
  unfold batch_update, Update, st_bind. destruct (Begin true w) as [[[e|t]|p| |] w1]; [done| |done..].
  etrans; [exact (with_rollback_map snd t _ w1)|]. apply with_rollback_ext. unfold fn_of_calls, st_bind.
  destruct (upd_tx t (set_t_managed true) w1) as [[u|p| |] w2]; try done.
  destruct (run_fns calls 0 t w2) as [[[fi e]|p| |] w3]; try done. simpl.
  destruct (upd_tx t (set_t_managed false) w3) as [[u'|p| |] w4]; try done.
  destruct e as [e|]; [by destruct (Rollback t w4) as [[]]|by destruct (Commit it fuel rt sp t w4) as [[]]].
Qed.

(** ** The invariant *)

Definition queued (s : bstate) (b c : nat) : Prop :=
  ∃ ba, bs_batches s !! b = Some ba ∧ c ∈ (c_err <$> ba_calls ba).

(** What holds of one batch. *)
Record batch_ok (s : bstate) (b : nat) (ba : batch) : Prop := mkBatchOk {
  bo_next : b < bs_next s;
  bo_nodup : NoDup (c_err <$> ba_calls ba);
  bo_call : ∀ c, c ∈ ba_calls ba → bs_fns s !! c_err c = Some (c_fn c) ∧ bs_chan s !! c_err c = None;
  bo_size : (Z.of_nat (length (ba_calls ba)) ≤ Z.max 1 (bs_max s))%Z;
  bo_timer : ba_phase ba = BNew → ba_timer ba = true;
  bo_done : ba_phase ba = BDone → ba_calls ba = []
}.

Record binv (s : bstate) : Prop := mkBinv {
  bi_batch : ∀ b ba, bs_batches s !! b = Some ba → batch_ok s b ba;
  bi_cur : ∀ b, bs_batch s = Some b →
    ∃ ba, bs_batches s !! b = Some ba ∧ (ba_phase ba = BNew ∨ ba_phase ba = BStarting);
  bi_one : ∀ b b' c, queued s b c → queued s b' c → b = b';
  bi_where : ∀ c, is_Some (bs_fns s !! c) → is_Some (bs_chan s !! c) ∨ ∃ b, queued s b c;
  bi_chan : ∀ c, is_Some (bs_chan s !! c) → is_Some (bs_fns s !! c);
  bi_ret : ∀ c e, bs_ret s !! c = Some e → ∃ m, bs_chan s !! c = Some m ∧ (m ≠ Some ErrTrySolo → e = m)
}.

Lemma binv_init max w : binv (bs_init max w).
Proof.
  split; simpl; try (intros; by rewrite lookup_empty in * ); try done.
  - intros b b' c (ba & Hb & _). simpl in Hb. by rewrite lookup_empty in Hb.
  - intros c [? Hc]. by rewrite lookup_empty in Hc.
  - intros c [? Hc]. by rewrite lookup_empty in Hc.
Qed.

(** Changing the world or what callers returned. *)
Lemma binv_world s w : binv s → binv (set_world w s).
Proof. intros [H1 H2 H3 H4 H5 H6]. split; [intros b ba Hb; destruct (H1 b ba Hb); by split|done..]. Qed.

(** Changing the phase, timer and triggers of one batch. *)
Lemma binv_meta s b ba ba' cur :
  binv s → bs_batches s !! b = Some ba → ba_calls ba' = ba_calls ba →
  (ba_phase ba' = BNew → ba_timer ba' = true) → (ba_phase ba' = BDone → ba_calls ba = []) →
  (cur = bs_batch s ∧ (ba_phase ba = BNew ∨ ba_phase ba = BStarting → ba_phase ba' = BNew ∨ ba_phase ba' = BStarting) ∨
   cur = None ∨ (cur = bs_batch s ∧ bs_batch s ≠ Some b)) →
  binv (set_batches (<[b := ba']> (bs_batches s)) (set_cur cur s)).
Proof.
  intros [H1 H2 H3 H4 H5 H6] Hb Hc Ht Hd Hcur.
  assert (Hq : ∀ b' c, queued (set_batches (<[b := ba']> (bs_batches s)) (set_cur cur s)) b' c ↔ queued s b' c).
  { intros b' c. unfold queued. simpl. setoid_rewrite lookup_insert. case_decide; [subst b'|done].
    rewrite Hb. split; intros (y & [= <-] & Hy); eexists; (split; [done|]); [by rewrite <- Hc|by rewrite Hc]. }
  split; simpl; [| | | |done|done].
  - intros b' y. rewrite lookup_insert. case_decide; [subst b'; intros [= <-]|intros Hy].
    + destruct (H1 b ba Hb). split; simpl; rewrite ?Hc; auto.
    + destruct (H1 b' y Hy). by split.
  - intros b' Hb'. rewrite lookup_insert. destruct (decide (b = b')) as [<-|Hne].
    + exists ba'. split; [done|]. destruct Hcur as [[-> Hp]|[->|[-> ?]]]; [|done|done].
      destruct (H2 b Hb') as (y & Hy & Hyp). simplify_eq. auto.
    + destruct Hcur as [[-> _]|[->|[-> _]]]; [by apply H2|done|by apply H2].
  - intros b1 b2 c. rewrite !Hq. apply H3.
  - intros c Hf. destruct (H4 c Hf) as [?|[b' Hb']]; [by left|]. right. exists b'. by apply Hq.
Qed.

Lemma set_batches_cur s m : set_batches m (set_cur (bs_batch s) s) = set_batches m s.
Proof. by destruct s. Qed.

Lemma binv_enter s b ba ba' :
  binv s → bs_batches s !! b = Some ba → ba_calls ba' = ba_calls ba → ba_phase ba' = ba_phase ba →
  binv (set_batches (<[b := enter ba']> (bs_batches s)) s).
Proof.
  intros Hi Hb Hc Hp. rewrite <- set_batches_cur. apply (binv_meta s b ba); simpl; rewrite ?Hc, ?Hp; auto.
  - by destruct (ba_phase ba).
  - intros. apply (bo_done _ _ _ (bi_batch _ Hi _ _ Hb)). by destruct (ba_phase ba).
  - left. split; [done|]. destruct (ba_phase ba); naive_solver.
Qed.

Lemma binv_detach s b ba : binv s → bs_batches s !! b = Some ba → ba_phase ba = BStarting → binv (detach b s).
Proof.
  intros Hi Hb Hp. unfold detach.
  assert (Ha : alter (λ ba, mkBatch (ba_calls ba) BRunning false (ba_triggers ba)) b (bs_batches s) =
    <[b := mkBatch (ba_calls ba) BRunning false (ba_triggers ba)]> (bs_batches s)).
  { apply map_eq. intros k. rewrite lookup_alter, lookup_insert. case_decide; [by subst; rewrite Hb|done]. }
  case_bool_decide as Hcur; simpl; rewrite Ha.
  - apply (binv_meta s b ba); simpl; auto; done.
  - rewrite <- set_batches_cur. apply (binv_meta s b ba); simpl; auto; done.
Qed.

Lemma binv_returned s c e m w :
  binv s → bs_chan s !! c = Some m → (m ≠ Some ErrTrySolo → e = m) →
  binv (mkBstate (bs_max s) (bs_batch s) (bs_batches s) (bs_next s) (bs_fns s) (bs_chan s) (<[c := e]> (bs_ret s)) w).
Proof.
  intros [H1 H2 H3 H4 H5 H6] Hm He. split; simpl; auto.
  - intros b ba Hb. destruct (H1 b ba Hb). by split.
  - intros c' e'. rewrite lookup_insert. case_decide; [subst; intros [= <-]; eauto|apply H6].
Qed.

(** A new, empty batch. *)
Lemma binv_new s :
  binv s →
  binv (mkBstate (bs_max s) (Some (bs_next s)) (<[bs_next s := mkBatch [] BNew true 0]> (bs_batches s))
          (S (bs_next s)) (bs_fns s) (bs_chan s) (bs_ret s) (bs_world s)).
Proof.
  intros [H1 H2 H3 H4 H5 H6]. set (s' := mkBstate _ _ _ _ _ _ _ _).
  assert (Hq : ∀ b c, queued s' b c ↔ queued s b c).
  { intros b c. unfold queued. simpl. setoid_rewrite lookup_insert. case_decide; [subst b|done]. split.
    - intros (ba & [= <-] & Hc). by apply elem_of_nil in Hc.
    - intros (ba & Hb & _). destruct (H1 _ _ Hb). lia. }
  split; simpl; [| | | |done|done].
  - intros b ba. rewrite lookup_insert. case_decide.
    + subst b. intros [= <-]. split; simpl; [lia|constructor|by intros c ?%elem_of_nil|lia|done|done].
    + intros Hb. destruct (H1 b ba Hb). split; simpl; auto.
  - intros b [= <-]. rewrite lookup_insert_eq. eauto.
  - intros b1 b2 c. rewrite !Hq. apply H3.
  - intros c Hf. destruct (H4 c Hf) as [?|[b' Hb']]; [by left|]. right. exists b'. by apply Hq.
Qed.

(** Joining the current batch. *)
Lemma binv_join s b ba c fn k :
  binv s → bs_batches s !! b = Some ba → (ba_phase ba = BNew ∨ ba_phase ba = BStarting) → bs_fns s !! c = None →
  (ba_calls ba = [] ∨ (Z.of_nat (length (ba_calls ba)) < bs_max s)%Z) →
  binv (mkBstate (bs_max s) (bs_batch s)
    (<[b := mkBatch (ba_calls ba ++ [mkCall fn c]) (ba_phase ba) (ba_timer ba) k]> (bs_batches s))
    (bs_next s) (<[c := fn]> (bs_fns s)) (bs_chan s) (bs_ret s) (bs_world s)).
Proof.
  intros [H1 H2 H3 H4 H5 H6] Hb Hp Hc Hlen. set (s' := mkBstate _ _ _ _ _ _ _ _).
  assert (Hnq : ∀ b', ¬ queued s b' c).
  { intros b' (y & Hy & (x & -> & Hx)%list_elem_of_fmap). destruct (bo_call _ _ _ (H1 _ _ Hy) x Hx). congruence. }
  assert (Hq : ∀ b' c', queued s' b' c' ↔ queued s b' c' ∨ (b' = b ∧ c' = c)).
  { intros b' c'. unfold queued. simpl. setoid_rewrite lookup_insert. case_decide as Hbb; [subst b'|].
    - rewrite Hb. split.
      + intros (y & [= <-] & Hy). simpl in Hy. rewrite fmap_app in Hy. set_solver.
      + intros [(y & [= <-] & Hy)|[_ ->]]; eexists; (split; [done|]); simpl; rewrite fmap_app; set_solver.
    - naive_solver. }
  assert (Hold : ∀ c' x, bs_fns s !! c' = Some x → <[c := fn]> (bs_fns s) !! c' = Some x).
  { intros c' x Hx. rewrite lookup_insert_ne; [done|]. intros ->. congruence. }
  split; simpl; [| | | | |done].
  - intros b' y. rewrite lookup_insert. case_decide; [subst b'; intros [= <-]|intros Hy].
    + destruct (H1 b ba Hb) as [? Hnd Hcall Hsz ? ?]. split; simpl; auto.
      * rewrite fmap_app. apply NoDup_app. split_and!; [done| |apply NoDup_singleton].
        simpl. intros x Hx ->%list_elem_of_singleton. apply (Hnq b). by exists ba.
      * intros x [Hx|Hx%list_elem_of_singleton]%elem_of_app; [|subst x].
        -- destruct (Hcall x Hx). auto.
        -- simpl. rewrite lookup_insert_eq. split; [done|]. destruct (bs_chan s !! c) eqn:E; [|done].
           destruct (H5 c) as [? ?]; [eauto|]. congruence.
      * rewrite length_app. simpl. destruct Hlen as [Hnil|Hlt]; [rewrite Hnil; simpl; lia|lia].
      * intros Hd. destruct Hp; congruence.
    + destruct (H1 b' y Hy) as [? ? Hcall ? ? ?]. split; auto. intros x Hx. destruct (Hcall x Hx). simpl. auto.
  - intros b' Hb'. rewrite lookup_insert. destruct (decide (b = b')) as [<-|Hne]; [by eexists|by apply H2].
  - intros b1 b2 c'. rewrite !Hq. intros [H|[H1' H2']] [H'|[H3' H4']]; subst; try done; [by eapply H3|by destruct (Hnq b1)|by destruct (Hnq b2)].
  - intros c'. destruct (decide (c' = c)) as [->|Hne].
    + intros _. right. exists b. apply Hq. by right.
    + rewrite lookup_insert_ne by done. intros [?|[b' ?]]%H4; [by left|]. right. exists b'. apply Hq. by left.
  - intros c' [? ?]%H5. eauto.
Qed.

Lemma binv_enqueue s c fn : binv s → bs_fns s !! c = None → binv (enqueue c fn s).
Proof.
  intros Hi Hc. unfold enqueue. set (s1 := if needs_batch s then _ else s). cbv zeta. fold s1.
  assert (Hs1 : binv s1 ∧ bs_fns s1 = bs_fns s ∧ bs_max s1 = bs_max s ∧ ∃ b ba, bs_batch s1 = Some b ∧ bs_batches s1 !! b = Some ba ∧
    (ba_calls ba = [] ∨ (Z.of_nat (length (ba_calls ba)) < bs_max s)%Z)).
  { subst s1. unfold needs_batch. destruct (bs_batch s) as [b|] eqn:Hcur; simpl.
    - destruct (bi_cur _ Hi b Hcur) as (ba & Hb & _). rewrite Hb. destruct (Z.leb_spec (bs_max s) (Z.of_nat (length (ba_calls ba)))).
      + split_and!; [by apply binv_new|done|done|]. eexists _, _. split; [done|]. simpl. rewrite lookup_insert_eq. eauto.
      + split_and!; [done|done|done|]. exists b, ba. auto.
    - split_and!; [by apply binv_new|done|done|]. eexists _, _. split; [done|]. simpl. rewrite lookup_insert_eq. eauto. }
  destruct Hs1 as (Hi1 & Hf1 & Hm1 & b & ba & Hcur & Hb & Hlen). rewrite Hcur.
  destruct (bi_cur _ Hi1 b Hcur) as (ba' & Hb' & Hp). simplify_eq.
  erewrite (map_eq (alter _ _ _) (<[b := mkBatch (ba_calls ba ++ [mkCall fn c]) (ba_phase ba) (ba_timer ba) _]> (bs_batches s1))).
  - rewrite <- Hcur. apply binv_join; auto; [by rewrite Hf1|by rewrite Hm1].
  - intros k. rewrite lookup_alter, lookup_insert. case_decide; [by subst; rewrite Hb|done].
Qed.

(** The calls of a batch are split into those answered in this round and those
    that stay. *)
Lemma round_perm calls r :
  idx_ok calls r →
  (round_sends calls r.1 r.2).*1 ++ (c_err <$> round_left calls r.1) ≡ₚ c_err <$> calls ∧
  (∀ c, c ∈ round_left calls r.1 → c ∈ calls) ∧
  (calls ≠ [] → length (round_left calls r.1) < length calls).
Proof.
  unfold round_sends, round_left. intros [Hi|(i & c & e & Hi & Hc & He)]; rewrite Hi.
  - simpl. split_and!; [by rewrite app_nil_r, <- list_fmap_compose|by intros ? ?%elem_of_nil|by destruct calls; simpl; [|lia]].
  - destruct (Z.leb_spec 0 (Z.of_nat i)); [|lia]. rewrite Nat2Z.id, Hc. simpl.
    pose proof (swap_remove_perm i calls c Hc) as Hp. split_and!.
    + change (c_err <$> c :: swap_remove i calls ≡ₚ c_err <$> calls). exact (fmap_Permutation c_err _ _ Hp).
    + intros x Hx. rewrite <- Hp. by right.
    + intros _. rewrite <- (Permutation_length Hp). simpl. lia.
Qed.

Lemma list_to_map_union_Some (l : list (nat * option err)) (m : gmap nat (option err)) c :
  is_Some ((list_to_map l ∪ m) !! c) ↔ c ∈ l.*1 ∨ is_Some (m !! c).
Proof.
  rewrite lookup_union_is_Some, <- !elem_of_dom, dom_list_to_map_L. by rewrite elem_of_list_to_set.
Qed.

Lemma list_to_map_union_None (l : list (nat * option err)) (m : gmap nat (option err)) c :
  c ∉ l.*1 → (list_to_map l ∪ m) !! c = m !! c.
Proof. intros Hc. rewrite lookup_union_r; [done|]. by apply not_elem_of_list_to_map_1. Qed.

Lemma binv_round s b ba r w' ph :
  binv s → bs_batches s !! b = Some ba → ba_phase ba = BRunning → idx_ok (ba_calls ba) r →
  ph = (if (0 <=? r.1)%Z then BRunning else BDone) →
  binv (set_world w'
      (set_batches (<[b := mkBatch (round_left (ba_calls ba) r.1) ph (ba_timer ba) (ba_triggers ba)]> (bs_batches s))
      (set_chan (list_to_map (round_sends (ba_calls ba) r.1 r.2) ∪ bs_chan s) s))).
Proof.
  intros [H1 H2 H3 H4 H5 H6] Hb Hp Hidx Hph. apply binv_world.
  destruct (round_perm _ _ Hidx) as (Hperm & Hsub & _). set (sends := round_sends _ _ _) in *. set (left := round_left _ _) in *.
  set (s' := set_batches _ _). destruct (H1 b ba Hb) as [Hn Hnd Hcall Hsz _ _].
  rewrite <- Hperm in Hnd. apply NoDup_app in Hnd as (_ & Hdis & Hndl).
  assert (Hq : ∀ b' c, queued s' b' c ↔ queued s b' c ∧ (b' = b → c ∉ sends.*1)).
  { intros b' c. unfold queued. simpl. setoid_rewrite lookup_insert. case_decide as Hbb; [subst b'|].
    - rewrite Hb. split.
      + intros (y & [= <-] & Hy). simpl in Hy. split; [exists ba; split; [done|]; rewrite <- Hperm; by apply elem_of_app; right|].
        intros _ Hc. by destruct (Hdis _ Hc).
      + intros [(y & [= <-] & Hy) Hc]. eexists. split; [done|]. simpl. rewrite <- Hperm in Hy.
        apply elem_of_app in Hy as [?|?]; [by destruct (Hc eq_refl)|done].
    - split; [intros H; split; [exact H|congruence]|by intros [? _]]. }
  assert (Hqb : ∀ c, c ∈ sends.*1 → queued s b c).
  { intros c Hc. exists ba. split; [done|]. rewrite <- Hperm. by apply elem_of_app; left. }
  assert (Hchan : ∀ b' c, queued s' b' c → bs_chan s' !! c = bs_chan s !! c).
  { intros b' c [Hqc Hns]%Hq. simpl. apply list_to_map_union_None. intros Hc. apply Hns; [|done].
    by eapply H3; [|apply Hqb]. }
  assert (Hcnone : ∀ b' c, queued s b' c → bs_chan s !! c = None).
  { intros b' c (y & Hy & (x & -> & Hx)%list_elem_of_fmap). by destruct (bo_call _ _ _ (H1 _ _ Hy) x Hx). }
  split; simpl.
  - intros b' y Hy0. assert (Hcl : ∀ x, x ∈ ba_calls y → bs_chan s' !! c_err x = None).
    { intros x Hx. assert (Hqx : queued s' b' (c_err x)) by (exists y; split; [exact Hy0|by apply list_elem_of_fmap_2]).
      rewrite (Hchan _ _ Hqx). apply Hq in Hqx as [Hqx _]. by eapply Hcnone. }
    revert Hy0. rewrite lookup_insert. case_decide; [subst b'; intros [= <-]|intros Hy].
    + split; simpl; auto.
      * intros x Hx. split; [by apply Hcall, Hsub|by apply Hcl].
      * apply Permutation_length in Hperm. rewrite length_app, !length_fmap in Hperm. lia.
      * subst ph. by destruct (0 <=? r.1)%Z.
      * subst ph left. unfold round_left. by destruct (0 <=? r.1)%Z.
    + destruct (H1 b' y Hy) as [? ? Hc' ? ? ?]. split; auto. intros x Hx. split; [by apply Hc'|by apply Hcl].
  - intros b' Hb'. destruct (H2 b' Hb') as (y & Hy & Hyp). rewrite lookup_insert_ne; [eauto|].
    intros <-. simplify_eq. rewrite Hp in Hyp. naive_solver.
  - intros b1 b2 c [? _]%Hq [? _]%Hq. by eapply H3.
  - intros c Hf. destruct (decide (c ∈ sends.*1)) as [Hc|Hc].
    + left. apply list_to_map_union_Some. by left.
    + destruct (H4 c Hf) as [?|[b' ?]]; [left; apply list_to_map_union_Some; by right|]. right. exists b'. by apply Hq.
  - intros c [Hc|?]%list_to_map_union_Some; [|by apply H5]. destruct (Hqb c Hc) as (y & Hy & (x & -> & Hx)%list_elem_of_fmap).
    destruct (bo_call _ _ _ (H1 _ _ Hy) x Hx). eauto.
  - intros c e Hr. destruct (H6 c e Hr) as (m & Hm & ?). exists m. split; [|done]. rewrite list_to_map_union_None; [done|].
    intros Hc. specialize (Hcnone _ _ (Hqb c Hc)). congruence.
Qed.

Lemma bstep_inv it fuel rt sp s s' : binv s → bstep it fuel rt sp s s' → binv s'.
Proof.
  intros Hi [c fn Hc|b ba Hb Ht|b ba k Hb Hk|b ba Hb Hp|b ba fi e w' Hb Hp Hne Hrun _|b ba Hb Hp Hnil|c e Hc Hr He|c fn e w' Hc Hr Hf Hrun|w' Hw].
  - by apply binv_enqueue.
  - by apply (binv_enter s b ba).
  - by apply (binv_enter s b ba).
  - by eapply binv_detach.
  - by apply (binv_round s b ba (fi, e)); [..|eapply batch_update_idx|].
  - rewrite <- set_batches_cur. apply (binv_meta s b ba); simpl; auto; [done|]. rewrite Hp. left. naive_solver.
  - by eapply binv_returned.
  - by eapply binv_returned.
  - by apply binv_world.
Qed.

(** ** Theorems *)

Lemma reachable_binv it fuel rt sp max w s : rtc (bstep it fuel rt sp) (bs_init max w) s → binv s.
Proof.
  intros Hr. cut (∀ s0, rtc (bstep it fuel rt sp) s0 s → binv s0 → binv s); [intros H; apply (H _ Hr), binv_init|].
  clear Hr. intros s0 Hr. induction Hr as [|s0 s1 s2 H1 _ IH]; [done|]. intros Hi. apply IH. by eapply bstep_inv.
Qed.

(** C15. Batching loses and duplicates nothing: in every state the goroutines can
    reach, a submitted call is either waiting, in exactly one batch and once in
    it, with nothing in its channel (so that a send never blocks), or it has got
    its one message and is in no batch, and [Batch] returned that message unless
    it asked for a solo run.  No batch exceeds [MaxBatchSize] (or 1). *)
Theorem Batch_exactly_once it fuel rt sp max w s c fn :
  rtc (bstep it fuel rt sp) (bs_init max w) s → bs_fns s !! c = Some fn →
  ((∃ b ba, bs_batches s !! b = Some ba ∧ c ∈ (c_err <$> ba_calls ba) ∧ NoDup (c_err <$> ba_calls ba) ∧
      (∀ b', queued s b' c → b' = b) ∧ bs_chan s !! c = None ∧ bs_ret s !! c = None) ∨
   (∃ m, bs_chan s !! c = Some m ∧ (∀ b, ¬ queued s b c) ∧
      ∀ e, bs_ret s !! c = Some e → m ≠ Some ErrTrySolo → e = m)) ∧
  ∀ b ba, bs_batches s !! b = Some ba → (Z.of_nat (length (ba_calls ba)) ≤ Z.max 1 (bs_max s))%Z.
Proof.
  intros Hi%reachable_binv Hf. split; [|intros b ba Hb; by apply (bo_size _ _ _ (bi_batch _ Hi b ba Hb))].
  assert (Hnone : ∀ b, queued s b c → bs_chan s !! c = None).
  { intros b (y & Hy & (x & -> & Hx)%list_elem_of_fmap). by destruct (bo_call _ _ _ (bi_batch _ Hi _ _ Hy) x Hx). }
  destruct (bs_chan s !! c) as [m|] eqn:Hm.
  - right. exists m. split_and!; [done|by intros b ?%Hnone|]. intros e He. destruct (bi_ret _ Hi c e He) as (m' & Hm' & ?). by simplify_eq.
  - left. destruct (bi_where _ Hi c) as [[? ?]|[b Hb]]; [by eauto|congruence|]. pose proof Hb as (ba & Hba & Hc). exists b, ba.
    split_and!; [done|done|apply (bi_batch _ Hi b ba Hba)| |done|].
    + intros b' Hb'. by eapply (bi_one _ Hi).
    + destruct (bs_ret s !! c) eqn:E; [|done]. destruct (bi_ret _ Hi c _ E) as (m' & ? & _). congruence.
Qed.

(** A message stays in its channel until its caller returns with it. *)
Lemma chan_grows it fuel rt sp s s' c :
  rtc (bstep it fuel rt sp) s s' → is_Some (bs_chan s !! c) → is_Some (bs_chan s' !! c).
Proof.
  induction 1 as [|x y z Hxy _ IH]; [done|]. intros Hx. apply IH.
  destruct Hxy; simpl; try done; [|by destruct (bool_decide _)|apply list_to_map_union_Some; by right].
  unfold enqueue. destruct (needs_batch x); simpl; [done|]. by destruct (bs_batch x).
Qed.

Section progress.
Context (it : iteration) (fuel : nat) (rt sp : Z).
Context (fns : gmap nat (tid → M (option err))) (P : world → Prop).
(* transactions of the submitted functions return, from the states [P] allows *)
Context (Hret : ∀ calls w, P w → (∀ x, x ∈ calls → fns !! c_err x = Some (c_fn x)) →
  ∃ r w', batch_update it fuel rt sp calls w = (Ret r, w') ∧ P w').

(** The retry loop answers every call of its batch. *)
Lemma run_drains b k : ∀ s ba,
  binv s → bs_fns s = fns → P (bs_world s) → bs_batches s !! b = Some ba → ba_phase ba = BRunning →
  length (ba_calls ba) ≤ k →
  ∃ s', rtc (bstep it fuel rt sp) s s' ∧ ∀ c, c ∈ (c_err <$> ba_calls ba) → is_Some (bs_chan s' !! c).
Proof.
  induction k as [|k IH]; intros s ba Hi Hfn HP Hb Hp Hk.
  { exists s. split; [apply rtc_refl|]. destruct (ba_calls ba); [|simpl in Hk; lia]. by intros c ?%elem_of_nil. }
  destruct (decide (ba_calls ba = [])) as [Hnil|Hne].
  { exists s. split; [apply rtc_refl|]. rewrite Hnil. by intros c ?%elem_of_nil. }
  pose proof (bi_batch _ Hi b ba Hb) as Hok.
  destruct (Hret (ba_calls ba) (bs_world s) HP) as ([fi e] & w' & Hrun & HP').
  { intros x Hx. rewrite <- Hfn. by apply (bo_call _ _ _ Hok). }
  pose proof (batch_update_idx _ _ _ _ _ _ _ _ Hrun) as Hidx. destruct (round_perm _ _ Hidx) as (Hperm & _ & Hlt).
  simpl in Hperm, Hlt. specialize (Hlt Hne).
  assert (Hempty : ∀ p, p ∈ round_sends (ba_calls ba) fi e → bs_chan s !! p.1 = None).
  { intros p Hin. assert (Hin' : p.1 ∈ c_err <$> ba_calls ba).
    { rewrite <- Hperm. apply elem_of_app. left. by apply list_elem_of_fmap_2. }
    apply list_elem_of_fmap in Hin' as (x & -> & Hx). by apply (bo_call _ _ _ Hok). }
  pose proof (bs_round it fuel rt sp s b ba fi e w' Hb Hp Hne Hrun Hempty) as Hstep.
  set (s1 := set_world _ _) in Hstep. pose proof (bstep_inv _ _ _ _ _ _ Hi Hstep) as Hi1.
  assert (Hsent : ∀ c, c ∈ (round_sends (ba_calls ba) fi e).*1 → is_Some (bs_chan s1 !! c)).
  { intros c Hc. simpl. apply list_to_map_union_Some. by left. }
  destruct (Z.leb_spec 0 fi) as [Hfi|Hfi].
  - destruct (IH s1 (mkBatch (round_left (ba_calls ba) fi) BRunning (ba_timer ba) (ba_triggers ba))) as (s' & Hst & Hall);
      [done|done|done| |done|simpl; lia|].
    { simpl. rewrite lookup_insert_eq. by destruct (Z.leb_spec 0 fi); [|lia]. }
    exists s'. split; [by eapply rtc_l|]. intros c. rewrite <- Hperm, elem_of_app. intros [Hc|Hc]; [|by apply Hall].
    eapply chan_grows; [exact Hst|]. by apply Hsent.
  - exists s1. split; [by apply rtc_once|]. intros c Hc. apply Hsent. rewrite <- Hperm, elem_of_app in Hc.
    destruct Hc as [?|Hc]; [done|]. unfold round_left in Hc. destruct (Z.leb_spec 0 fi); [lia|]. by apply elem_of_nil in Hc.
Qed.
End progress.

(** C16. No call is left behind: from every state the goroutines can reach, a
    submitted call can get its message by steps that are enabled now (its batch's
    timer is armed or its run has begun, the retry loop ends because each round
    answers a call, and no send blocks), as long as transactions running the
    submitted functions return. *)
Theorem Batch_answers it fuel rt sp max w0 s c (P : world → Prop) :
  rtc (bstep it fuel rt sp) (bs_init max w0) s → is_Some (bs_fns s !! c) → P (bs_world s) →
  (∀ calls w, P w → (∀ x, x ∈ calls → bs_fns s !! c_err x = Some (c_fn x)) →
     ∃ r w', batch_update it fuel rt sp calls w = (Ret r, w') ∧ P w') →
  ∃ s', rtc (bstep it fuel rt sp) s s' ∧ is_Some (bs_chan s' !! c).
Proof.
  intros Hi%reachable_binv Hc HP Hret.
  destruct (bi_where _ Hi c Hc) as [?|(b & ba & Hb & Hin)]; [exists s; split; [apply rtc_refl|done]|].
  assert (Hgo : ∀ s1 ba1, rtc (bstep it fuel rt sp) s s1 → binv s1 → bs_fns s1 = bs_fns s → bs_world s1 = bs_world s →
    bs_batches s1 !! b = Some ba1 → ba_phase ba1 = BRunning → ba_calls ba1 = ba_calls ba →
    ∃ s', rtc (bstep it fuel rt sp) s s' ∧ is_Some (bs_chan s' !! c)).
  { intros s1 ba1 Hst Hi1 Hf1 Hw1 Hb1 Hp1 Hc1.
    destruct (run_drains it fuel rt sp (bs_fns s) P Hret b (length (ba_calls ba1)) s1 ba1) as (s' & Hst' & Hall); try done.
    { by rewrite Hw1. }
    exists s'. split; [by eapply (transitivity Hst)|]. apply Hall. by rewrite Hc1. }
  assert (Hdet : ∀ s1 ba1, rtc (bstep it fuel rt sp) s s1 → binv s1 → bs_fns s1 = bs_fns s → bs_world s1 = bs_world s →
    bs_batches s1 !! b = Some ba1 → ba_phase ba1 = BStarting → ba_calls ba1 = ba_calls ba →
    ∃ s', rtc (bstep it fuel rt sp) s s' ∧ is_Some (bs_chan s' !! c)).
  { intros s1 ba1 Hst Hi1 Hf1 Hw1 Hb1 Hp1 Hc1. pose proof (bs_detach it fuel rt sp s1 b ba1 Hb1 Hp1) as Hstep.
    eapply (Hgo (detach b s1) (mkBatch (ba_calls ba1) BRunning false (ba_triggers ba1))); [|by eapply bstep_inv|..].
    - eapply (transitivity Hst). by apply rtc_once.
    - unfold detach. by destruct (bool_decide _).
    - unfold detach. by destruct (bool_decide _).
    - unfold detach. simpl. by rewrite lookup_alter_eq, Hb1.
    - done.
    - done. }
  destruct (ba_phase ba) eqn:Hp.
  - assert (Ht : ba_timer ba = true) by (by apply (bo_timer _ _ _ (bi_batch _ Hi b ba Hb))).
    pose proof (bs_fire_timer it fuel rt sp s b ba Hb Ht) as Hstep.
    eapply (Hdet _ (enter (mkBatch (ba_calls ba) (ba_phase ba) false (ba_triggers ba)))); [by apply rtc_once|by eapply bstep_inv|done|done| | |done].
    + simpl. apply lookup_insert_eq.
    + simpl. by rewrite Hp.
  - by eapply (Hdet s ba); [apply rtc_refl|..].
  - by eapply (Hgo s ba); [apply rtc_refl|..].
  - rewrite (bo_done _ _ _ (bi_batch _ Hi b ba Hb) Hp) in Hin. by apply elem_of_nil in Hin.
Qed.

(** ** Instances *)

(** A caller whose function does nothing, on an open database. *)
Definition ex_noop (_ : tid) : M (option err) := st_ret None.
Definition ex_bs : bstate := enqueue 0 ex_noop (bs_init DefaultMaxBatchSize (open_mem None empty_world).2).

Lemma ex_bs_steps : rtc (bstep std_iteration 9 0 0) (bs_init DefaultMaxBatchSize (open_mem None empty_world).2) ex_bs.
Proof. apply rtc_once, bs_submit. reflexivity. Qed.

Lemma Batch_exactly_once_witness :
  ∃ b ba, bs_batches ex_bs !! b = Some ba ∧ 0 ∈ (c_err <$> ba_calls ba) ∧ bs_chan ex_bs !! 0 = None.
Proof.
  destruct (Batch_exactly_once std_iteration 9 0 0 DefaultMaxBatchSize (open_mem None empty_world).2 ex_bs 0 ex_noop ex_bs_steps eq_refl)
    as [[(b & ba & H1 & H2 & _ & _ & H3 & _)|(m & Hm & _)] _]; [by exists b, ba|discriminate Hm].
Defined.

(** On a read-only database every batch is answered, with the error of [Begin]. *)
Definition ex_bs_ro : bstate :=
  enqueue 0 ex_noop (bs_init DefaultMaxBatchSize (open_mem (Some (mkOptions true false)) empty_world).2).

Lemma Batch_answers_witness : ∃ s', rtc (bstep std_iteration 9 0 0) ex_bs_ro s' ∧ is_Some (bs_chan s' !! 0).
Proof.
  apply (Batch_answers std_iteration 9 0 0 DefaultMaxBatchSize (open_mem (Some (mkOptions true false)) empty_world).2 ex_bs_ro 0
    (λ w, db_readOnly (w_db w) = true)).
  - apply rtc_once, bs_submit. reflexivity.
  - eexists. reflexivity.
  - reflexivity.
  - intros calls w Hro _. exists ((-1)%Z, Some ErrDatabaseReadOnly), w. split; [|exact Hro].
    unfold batch_update, Begin, beginRWTx, st_bind, get_db, st_gets. rewrite Hro. reflexivity.
Defined.
