(* ===== verification/Shown.v ===== *)
(** * What a transaction sees, and Tx.Inspect

    The buckets an open transaction sees, as trees in the order of its directory.
    Opening and walking a bucket keeps that view, so the calls that visit every
    bucket ([Tx.Inspect] here, the snapshot writer in [SnapshotSpec]) report it. *)
From S2P Require Import Prelude GoSort Stats World Node KV Tree TreePath Cursor CursorSpec Cow Bucket Spill Tx DB.
From S2P Require Import CowSpec BucketSpec BucketThm Frame FrameSpill Publish Isolation System TxSpec Directory LeafBucket CommitSpec.
Local Open Scope st_scope.

Definition sees_tree (w : world) (t : tid) (tx : Tx) (st : dbState) (name : bytes) (T : tree) : Prop :=
  match t_bctx tx !! name with
  | Some b => ∃ x, readable w b x T ∧ b_tx x = t ∧ b_name x = name
  | None => ∃ bs, ds_buckets st !! name = Some (Some bs) ∧ bs_root bs = Some (tloc T) ∧ rep (w_nodes w) T ∧ wf T
  end.

(** The transaction [t] is open and sees the trees [L], in the order of the
    directory. *)
Record showing (w : world) (t : tid) (st : dbState) (L : list (bytes * tree)) : Prop := mkShowing {
  sh_sane : sane w;
  sh_tx : ∃ tx, open_tx w t tx st ∧ listing tx = L.*1 ∧ ∀ q, q ∈ L → sees_tree w t tx st q.1 q.2
}.

Lemma showing_Bucket w t st L name T :
  showing w t st L → (name, T) ∈ L →
  ∃ b x w', Tx_Bucket t name w = (Ret (Some b), w') ∧ showing w' t st L ∧ readable w' b x T ∧ b_tx x = t ∧ b_name x = name.
Proof.
  intros [Hs (tx & Ho & Hlist & Hsee)] Hin. pose proof (sn_core _ Hs) as Hc.
  assert (Hv : name ∈ visible tx) by (apply listing_spec; rewrite Hlist; by apply (list_elem_of_fmap_2 fst L (name, T))).
  pose proof (Tx_Bucket_run w t tx st name Ho) as Hrun. rewrite decide_True in Hrun by done.
  pose proof (q_sane _ _ (proj1 (Tx_Bucket_q t name w Hs))) as Hs'. pose proof (Hsee _ Hin) as HT. unfold sees_tree in HT. simpl in HT.
  destruct (t_bctx tx !! name) as [b|] eqn:Hb.
  { destruct HT as (x & Hr & Hx & Hxn). exists b, x, w. split_and!; try done. split; [done|]. by exists tx. }
  rewrite Hrun in Hs'. simpl in Hs'. destruct (opened_dir w t name tx st Ho Hv) as [Ho' Hvis]. destruct HT as (bs & Hbs & Hroot & Hrep & Hwf).
  assert (Hnew : readable (opened_world t name tx w) (w_nextb w) (mkBucket t name None (if t_writable tx then Some ∅ else None) DefaultFillPercent) T).
  { split; simpl; [apply lookup_insert_eq|rewrite lookup_insert_eq; eauto| |done|done].
    unfold rootView, baseState. simpl. rewrite lookup_insert_eq. simpl. by rewrite (ot_base _ _ _ _ Ho), Hbs. }
  eexists _, _, _. split; [exact Hrun|]. split; [|split; [exact Hnew|done]]. split; [done|]. eexists. split; [exact Ho'|]. split.
  { unfold listing. by rewrite Hvis. }
  intros [name' T'] Hin'. specialize (Hsee _ Hin'). unfold sees_tree in *. simpl in *. rewrite lookup_insert. case_decide as Hn.
  - subst name'. rewrite Hb in Hsee. destruct Hsee as (bs' & Hbs' & Hroot' & Hrep' & Hwf'). exists (mkBucket t name None (if t_writable tx then Some ∅ else None) DefaultFillPercent).
    split; [|done]. split; simpl; [apply lookup_insert_eq|rewrite lookup_insert_eq; eauto| |done|done].
    unfold rootView, baseState. simpl. rewrite lookup_insert_eq. simpl. by rewrite (ot_base _ _ _ _ Ho), Hbs'.
  - destruct (t_bctx tx !! name') as [b'|]; [|done]. destruct Hsee as (x' & [Hx' Htx' Hr' Hrep' Hwf'] & Ht' & Hn'). exists x'. split; [|done]. split.
    + simpl. rewrite lookup_insert_ne; [done|]. apply (s_fresh_b _ Hc) in Hx'. lia.
    + simpl. rewrite Ht', lookup_insert_eq. eauto.
    + rewrite <- Hr'. unfold rootView, baseState. simpl. rewrite Ht', lookup_insert_eq, (ot_tx _ _ _ _ Ho). done.
    + done.
    + done.
Qed.

Lemma showing_stat w w' t st L :
  evo w w' → w_nodes w' = w_nodes w → w_bkts w' = w_bkts w → showing w t st L → showing w' t st L.
Proof.
  intros He Hn Hb [Hs (tx & [Ht Hdb Hba Hok] & Hlist & Hsee)]. split; [by eapply sane_evo|].
  destruct (strip_lookup _ _ _ _ (e_txs _ _ He) Ht) as (tx' & Ht' & Hst). pose proof (strip_same _ _ Hst) as Hsame.
  destruct (same_dir_ok _ _ Hsame Hok) as [Hok' Hvis]. destruct Hsame as (Hdb' & Hba' & _ & _ & Hbc'). exists tx'.
  split; [split; [done|congruence|congruence|done]|]. split; [unfold listing; by rewrite Hvis|].
  intros [name T] Hin. specialize (Hsee _ Hin). unfold sees_tree in *. simpl in *. rewrite Hbc'.
  destruct (t_bctx tx !! name) as [b|]; [|by rewrite Hn]. destruct Hsee as (x & [Hx [y Hy] Hr Hrep Hwf] & Hxt & Hxn). exists x. split; [|done]. split.
  - by rewrite Hb.
  - destruct (strip_lookup _ _ _ _ (e_txs _ _ He) Hy) as (? & ? & _). eauto.
  - by rewrite (rootView_strip _ _ _ (e_txs _ _ He)).
  - by rewrite Hn.
  - done.
Qed.

Lemma Tx_Bucket_db w t tx st name : open_tx w t tx st → w_db (Tx_Bucket t name w).2 = w_db w.
Proof. intros Ho. rewrite (Tx_Bucket_run w t tx st name Ho). case_decide; [|done]. by destruct (t_bctx tx !! name). Qed.

(** Reading leaves the view, the published state and the lock as they are. *)
Record browses (t : tid) (st : dbState) (L : list (bytes * tree)) (w w' : world) : Prop := mkBrowses {
  br_showing : showing w' t st L;
  br_quiet : quiet w w';
  br_dirs : dirs w → dirs w';
  br_db : w_db w' = w_db w
}.

Lemma browses_refl t st L w : showing w t st L → browses t st L w w.
Proof. intros Hsh. split; [done|apply quiet_refl, Hsh|done|done]. Qed.
Lemma browses_trans t st L w1 w2 w3 : browses t st L w1 w2 → browses t st L w2 w3 → browses t st L w1 w3.
Proof. intros [] []. split; [done|by eapply quiet_trans|auto|congruence]. Qed.

Lemma browses_Bucket w t st L name T :
  showing w t st L → (name, T) ∈ L →
  ∃ b x w', Tx_Bucket t name w = (Ret (Some b), w') ∧ browses t st L w w' ∧ readable w' b x T ∧ b_tx x = t ∧ b_name x = name.
Proof.
  intros Hsh Hin. destruct (showing_Bucket w t st L name T Hsh Hin) as (b & x & w' & Hrun & Hsh' & Hx). exists b, x, w'. split_and!; try apply Hx; [done|].
  pose proof (proj1 (Tx_Bucket_q t name w (sh_sane _ _ _ _ Hsh))) as Hq. pose proof (λ Hd, Tx_Bucket_dirs t name w (sh_sane _ _ _ _ Hsh) Hd) as Hd.
  destruct Hsh as [_ (tx & Ho & _)]. pose proof (Tx_Bucket_db w t tx st name Ho) as Hdb. rewrite Hrun in Hq, Hd, Hdb. by split.
Qed.

(** Trees a walk with [fuel] covers. *)
Definition walkable (fuel : nat) (T : tree) : Prop := tsize T ≤ fuel ∧ length (contents T) < fuel.

Definition shown (L : list (bytes * tree)) : list (bytes * list kv) := (λ q, (q.1, contents q.2)) <$> L.

(** ** Tx.Inspect *)

Definition structure_of (q : bytes * list kv) : BucketStructure := mkBucketStructure q.1 (Z.of_nat (length q.2)) [].

Lemma showing_count w t st L b x tx :
  showing w t st L → w_bkts w !! b = Some x → b_tx x = t → w_txs w !! t = Some tx → showing (count_cursor t tx w) t st L.
Proof.
  intros Hsh Hx Hxt Ht. destruct (stat_run w t (IncCursorCount 1) tx (sn_core _ (sh_sane _ _ _ _ Hsh)) Ht) as (w' & Hst & He & Hn & Hb).
  unfold tx_stat in Hst. rewrite (upd_tx_run _ _ _ _ Ht) in Hst. injection Hst as <-. by eapply showing_stat.
Qed.

Lemma browses_count w t st L b x tx :
  showing w t st L → w_bkts w !! b = Some x → b_tx x = t → w_txs w !! t = Some tx → browses t st L w (count_cursor t tx w).
Proof.
  intros Hsh Hx Hxt Ht. destruct (stat_run w t (IncCursorCount 1) tx (sn_core _ (sh_sane _ _ _ _ Hsh)) Ht) as (w' & Hst & He & _).
  unfold tx_stat in Hst. rewrite (upd_tx_run _ _ _ _ Ht) in Hst. injection Hst as <-.
  split; [by eapply showing_count|apply evo_quiet; [apply Hsh|done]|by apply dirs_evo|done].
Qed.

Lemma Inspect_run fuel w b x T tx :
  readable w b x T → w_txs w !! b_tx x = Some tx → walkable fuel T →
  Inspect fuel b w = (Ret (structure_of (b_name x, contents T)), count_cursor (b_tx x) tx w).
Proof.
  intros Hr Htx [Hf Hl]. unfold Inspect. rewrite (bind_Ret _ _ _ _ _ (get_bkt_run _ _ _ (rd_bkt _ _ _ _ Hr))).
  rewrite (bind_Ret _ _ _ _ _ (Bucket_Cursor_run _ _ _ _ (rd_bkt _ _ _ _ Hr) Htx)).
  pose proof (count_cursor_readable _ _ _ _ _ Hr Htx) as [Hx _ Hroot Hrep Hwf].
  destruct (each_run (λ n _ _, (n + 1, None))%Z _ T fuel 0%Z [] Hrep Hwf Hf Hl) as [s' Hs].
  erewrite bind_Ret by (eapply walk_run; [exact Hx|]; rewrite Hroot; exact Hs). by rewrite kv_fold_count.
Qed.

Lemma inspect_loop fuel t st L (fn := λ cs (_ : bytes) ob, let! b := st_deref ob in let! s := Inspect fuel b in st_ret (cs ++ [s], (None : option err))) rest : ∀ w cs,
  showing w t st L → (∀ q, q ∈ rest → q ∈ L) → (∀ q, q ∈ L → walkable fuel q.2) →
  ∃ w', visit t fn rest.*1 cs w = (Ret (cs ++ (structure_of <$> shown rest), None), w') ∧ showing w' t st L.
Proof.
  induction rest as [|[name T] rest IH]; intros w cs Hsh Hin Hwalk.
  { exists w. simpl. by rewrite app_nil_r. }
  cbn [fmap list_fmap visit fst]. destruct (showing_Bucket w t st L name T Hsh) as (b & x & w1 & Hrun & Hsh1 & Hr & Hxt & Hxn); [apply Hin; by left|].
  rewrite (bind_Ret _ _ _ _ _ Hrun). pose proof (sh_tx _ _ _ _ Hsh1) as (tx & Ho & _).
  rewrite (bind_Ret _ _ w1 (cs ++ [structure_of (name, contents T)], None) (count_cursor t tx w1)).
  2:{ unfold fn. rewrite (bind_Ret (st_deref (Some b)) _ w1 b w1 eq_refl).
      erewrite bind_Ret by (eapply Inspect_run; [exact Hr|rewrite Hxt; apply Ho|apply (Hwalk (name, T)), Hin; by left]). by rewrite Hxn, Hxt. }
  destruct (IH (count_cursor t tx w1) (cs ++ [structure_of (name, contents T)])) as (w2 & Hrun2 & Hsh2).
  - eapply showing_count; [done|apply Hr|done|apply Ho].
  - intros q Hq. apply Hin. by right.
  - done.
  - exists w2. split; [|done]. rewrite Hrun2. by rewrite <- app_assoc.
Qed.

(** [Tx.Inspect] reports the structure of the database the transaction sees:
    under "root", every visible bucket in name order with its number of keys. *)
Theorem Inspect_correct fuel w t st L :
  showing w t st L → (∀ q, q ∈ L → walkable fuel q.2) →
  ∃ w', Tx_Inspect fuel t w = (Ret (mkBucketStructure root_name 0 (structure_of <$> shown L)), w') ∧ showing w' t st L.
Proof.
  intros Hsh Hwalk. destruct (inspect_loop fuel t st L L w [] Hsh ltac:(done) Hwalk) as (w' & Hrun & Hsh').
  exists w'. split; [|done]. unfold Tx_Inspect. pose proof Hsh as [_ (tx & Ho & Hlist & _)].
  rewrite (bind_Ret _ _ w ([] ++ (structure_of <$> shown L), None) w'); [done|].
  rewrite (ForEach_visit w t tx st _ _ Ho), Hlist. exact Hrun.
Qed.

(** The reader of [System] sees one bucket with two pairs. *)
Definition ex_shown : list (bytes * tree) := [([x6e], ex_view)].

Lemma ex_reader_tx : ∃ tx, w_txs ex_w0 !! 2%positive = Some tx ∧ t_db tx = true ∧ t_bctx tx !! [x6e] = Some 2%positive ∧ listing tx = [[x6e]].
Proof.
  assert ((λ tx, (t_db tx, t_bctx tx !! [x6e], listing tx)) <$> w_txs ex_w0 !! 2%positive = Some (true, Some 2%positive, [[x6e]])) as H
    by (vm_compute; reflexivity).
  destruct (w_txs ex_w0 !! 2%positive) as [tx|]; [|discriminate H]. exists tx. injection H as H1 H2 H3. by rewrite H1, H2, H3.
Qed.

Lemma ex_showing : ∃ st, showing ex_w0 2 st ex_shown.
Proof.
  destruct (reachable_inv _ ex_reachable) as [Hs Hd]. destruct ex_reader_tx as (tx & Ht & Hdb & Hb & Hl).
  destruct (dirs_open _ _ _ Hd Ht Hdb) as [st Ho]. exists st. split; [exact Hs|]. exists tx. split; [exact Ho|]. split; [exact Hl|].
  clear Ht Ho Hs Hd. intros q ->%list_elem_of_singleton. unfold sees_tree. cbn [fst snd]. rewrite Hb.
  exists ex_reader. split; [exact ex_reader_view|split; reflexivity].
Qed.

Lemma ex_walkable : ∀ q, q ∈ ex_shown → walkable 9 q.2.
Proof. intros q ->%list_elem_of_singleton. split; cbn; lia. Qed.


Lemma Inspect_correct_witness :
  ∃ w', Tx_Inspect 9 2 ex_w0 = (Ret (mkBucketStructure root_name 0 [mkBucketStructure [x6e] 2 []]), w').
Proof.
  destruct ex_showing as [st Hsh]. destruct (Inspect_correct 9 ex_w0 2 st ex_shown Hsh ex_walkable) as (w' & H & _). exists w'. exact H.
Defined.
