(* ===== verification/ViewRefine.v ===== *)
(** * Reading the map: [DB.View]

    [DB.View] answers from the map the database stores, whatever writer is active,
    and refuses every change; it leaves the map as it is. *)
From S2P Require Import Prelude GoSort Stats World Node KV Tree TreePath Cursor CursorSpec Cow Bucket Spill Tx DB.
From S2P Require Import CowSpec BucketSpec BucketThm Regroup Frame FrameSpill SpillSpec Publish Isolation System TxSpec Directory DBSpec LeafBucket CommitSpec KeysFit Orderly Session Managed Refine Shown.
Local Open Scope st_scope.

(** ** The specification of a read *)

Definition view_op (A : model) (o : txop) : reply :=
  match o with
  | TPut name _ _ => RErr (Some (match A !! name with Some _ => ErrTxNotWritable | None => ErrBucketNotFound end))
  | TGet name key => RVal (match A !! name with Some kvs => kv_lookup key kvs | None => None end)
  | TDelete name _ => RErr (Some (match A !! name with Some _ => ErrTxNotWritable | None => ErrBucketNotFound end))
  | TScan name => match A !! name with Some kvs => RPairs kvs | None => RErr (Some ErrBucketNotFound) end
  | TNames => RNames (names_of A)
  | TCreate _ | TDrop _ => RErr (Some ErrTxNotWritable)
  end.

Fixpoint spec_view (A : model) (s : script) : option err :=
  match s with
  | Return e => e
  | Do o k => spec_view A (k (view_op A o))
  end.

(** ** The simulation *)

(** The open read transaction [t] sees [A], as the trees [L]. *)
Record viewing (w : world) (t : tid) (st : dbState) (A : model) (N : nat) (L : list (bytes * tree)) : Prop := mkViewing {
  vw_showing : showing w t st L;
  vw_dirs : dirs w;
  vw_map : ∀ name T, (name, T) ∈ L → A !! name = Some (contents T) ∧ tsize T ≤ N;
  vw_dom : ∀ name, is_Some (A !! name) → name ∈ L.*1;
  vw_read : ∃ tx, w_txs w !! t = Some tx ∧ t_writable tx = false
}.

Lemma viewing_read w t st A N L : viewing w t st A N L →
  ∃ tx, open_tx w t tx st ∧ t_writable tx = false ∧ ∀ name, name ∈ visible tx ↔ is_Some (A !! name).
Proof.
  intros [[Hs (tx & Ho & Hlist & _)] _ Hm Hdom (tx' & Htx & Hr)]. pose proof (ot_tx _ _ _ _ Ho). simplify_eq. exists tx'. split_and!; [done|done|].
  intros name. rewrite <- (proj2 (listing_spec tx')), Hlist. split; [|apply Hdom].
  intros ([name' T] & -> & Hin)%list_elem_of_fmap. simpl. destruct (Hm _ _ Hin) as [-> _]. eauto.
Qed.

(** Reading keeps the view. *)
Lemma viewing_browses w w' t st A N L : viewing w t st A N L → browses t st L w w' → viewing w' t st A N L.
Proof.
  intros [_ Hd Hm Hdom (tx & Ht & Hw)] Hbr. split; [apply Hbr|by apply Hbr|done|done|].
  destruct (i_txs _ _ (q_iso _ _ (br_quiet _ _ _ _ _ Hbr)) _ _ Ht) as (tx' & Ht' & Hw' & _). exists tx'. split; [done|congruence].
Qed.

Lemma viewing_open w t st A N L name : viewing w t st A N L →
  match A !! name with
  | Some kvs => ∃ b x T w', Tx_Bucket t name w = (Ret (Some b), w') ∧ viewing w' t st A N L ∧ w_db w' = w_db w ∧
      readable w' b x T ∧ b_tx x = t ∧ contents T = kvs ∧ (name, T) ∈ L
  | None => Tx_Bucket t name w = (Ret None, w)
  end.
Proof.
  intros Hv. destruct (A !! name) as [kvs|] eqn:HA.
  - pose proof (vw_dom _ _ _ _ _ _ Hv name ltac:(eauto)) as ([name' T] & -> & Hin)%list_elem_of_fmap.
    destruct (vw_map _ _ _ _ _ _ Hv _ _ Hin) as [HT _]. simpl in *.
    destruct (browses_Bucket w t st L name' T (vw_showing _ _ _ _ _ _ Hv) Hin) as (b & x & w' & Hrun & Hbr & Hx & Hxt & _).
    exists b, x, T, w'. split_and!; try done; [by eapply viewing_browses|apply Hbr|congruence].
  - pose proof (viewing_read _ _ _ _ _ _ Hv) as (tx & Ho & _ & Hvis).
    rewrite (Tx_Bucket_run w t tx st name Ho), decide_False; [done|]. rewrite Hvis, HA. by intros [? ?].
Qed.

Lemma Put_readonly fuel w b x t tx key value :
  w_bkts w !! b = Some x → b_tx x = t → w_txs w !! t = Some tx → t_db tx = true → t_writable tx = false →
  Put fuel b key value w = (Ret (Some ErrTxNotWritable), w).
Proof.
  intros Hx <- Htx Hdb Hw. unfold Put. by rewrite (bind_Ret _ _ _ _ _ (get_bkt_run _ _ _ Hx)), (bind_Ret _ _ _ _ _ (get_tx_run _ _ _ Htx)), Hdb, Hw.
Qed.

Lemma Delete_readonly fuel w b x t tx key :
  w_bkts w !! b = Some x → b_tx x = t → w_txs w !! t = Some tx → t_db tx = true → t_writable tx = false →
  Delete fuel b key w = (Ret (Some ErrTxNotWritable), w).
Proof.
  intros Hx <- Htx Hdb Hw. unfold Delete. by rewrite (bind_Ret _ _ _ _ _ (get_bkt_run _ _ _ Hx)), (bind_Ret _ _ _ _ _ (get_tx_run _ _ _ Htx)), Hdb, Hw.
Qed.

Lemma viewing_count w t st A N L b x tx :
  viewing w t st A N L → w_bkts w !! b = Some x → b_tx x = t → w_txs w !! t = Some tx → viewing (count_cursor t tx w) t st A N L.
Proof. intros Hv Hx Hxt Htx. eapply viewing_browses; [done|]. eapply browses_count; [apply Hv|done..]. Qed.

Lemma viewing_visit t st A N L names : ∀ w acc,
  viewing w t st A N L → (∀ name, name ∈ names → is_Some (A !! name)) →
  ∃ w', visit t collect_name names acc w = (Ret (acc ++ names, None), w') ∧ viewing w' t st A N L ∧ w_db w' = w_db w.
Proof.
  induction names as [|name names IH]; intros w acc Hv Hin; simpl; [exists w; by rewrite app_nil_r|].
  destruct (Hin name ltac:(by left)) as [kvs HA]. pose proof (viewing_open _ _ _ _ _ _ name Hv) as Hop. rewrite HA in Hop.
  destruct Hop as (b & x & T & w1 & Hrun & Hv1 & Hdb1 & _).
  destruct (IH w1 (acc ++ [name]) Hv1) as (w2 & Hrun2 & Hv2 & Hdb2); [intros n Hn; apply Hin; by right|].
  exists w2. split; [|split; [done|congruence]]. rewrite (bind_Ret _ _ _ _ _ Hrun). unfold collect_name at 1.
  rewrite (bind_Ret (st_ret _) _ w1 _ w1 eq_refl), Hrun2. by rewrite <- app_assoc.
Qed.

Lemma viewing_step fuel w t st A N L o :
  viewing w t st A N L → (∀ q, q ∈ L → walkable fuel q.2) →
  ∃ w', op_run fuel t o w = (Ret (view_op A o), w') ∧ viewing w' t st A N L ∧ w_db w' = w_db w.
Proof.
  intros Hv Hwalk. pose proof (viewing_read _ _ _ _ _ _ Hv) as (tx & Ho & Hr & Hvis). destruct o as [name key value|name key|name key|name| |name|name]; cbn [op_run view_op].
  - pose proof (viewing_open _ _ _ _ _ _ name Hv) as Hop. destruct (A !! name) as [kvs|]; [|rewrite (bind_Ret _ _ _ _ _ Hop); by exists w].
    destruct Hop as (b & x & T & w1 & Hrun & Hv1 & Hdb1 & Hx & Hxt & _). pose proof (viewing_read _ _ _ _ _ _ Hv1) as (tx1 & [Ht1 Hd1 _ _] & Hr1 & _).
    rewrite (bind_Ret _ _ _ _ _ Hrun), (bind_Ret _ _ _ _ _ (Put_readonly fuel w1 b x t tx1 key value (rd_bkt _ _ _ _ Hx) Hxt Ht1 Hd1 Hr1)). by exists w1.
  - pose proof (viewing_open _ _ _ _ _ _ name Hv) as Hop. destruct (A !! name) as [kvs|]; [|rewrite (bind_Ret _ _ _ _ _ Hop); by exists w].
    destruct Hop as (b & x & T & w1 & Hrun & Hv1 & Hdb1 & Hx & Hxt & <- & Hin). destruct (Hwalk _ Hin) as [Hsz _]. pose proof (viewing_read _ _ _ _ _ _ Hv1) as (tx1 & [Ht1 _ _ _] & _).
    rewrite <- Hxt in Ht1. rewrite (bind_Ret _ _ _ _ _ Hrun), (bind_Ret _ _ _ _ _ (Get_run fuel b key w1 x T tx1 Hx Ht1 Hsz)). rewrite Hxt in *.
    eexists. split; [done|]. split; [|done]. eapply viewing_count; [done|apply Hx|done|done].
  - pose proof (viewing_open _ _ _ _ _ _ name Hv) as Hop. destruct (A !! name) as [kvs|]; [|rewrite (bind_Ret _ _ _ _ _ Hop); by exists w].
    destruct Hop as (b & x & T & w1 & Hrun & Hv1 & Hdb1 & Hx & Hxt & _). pose proof (viewing_read _ _ _ _ _ _ Hv1) as (tx1 & [Ht1 Hd1 _ _] & Hr1 & _).
    rewrite (bind_Ret _ _ _ _ _ Hrun), (bind_Ret _ _ _ _ _ (Delete_readonly fuel w1 b x t tx1 key (rd_bkt _ _ _ _ Hx) Hxt Ht1 Hd1 Hr1)). by exists w1.
  - pose proof (viewing_open _ _ _ _ _ _ name Hv) as Hop. destruct (A !! name) as [kvs|]; [|rewrite (bind_Ret _ _ _ _ _ Hop); by exists w].
    destruct Hop as (b & x & T & w1 & Hrun & Hv1 & Hdb1 & Hx & Hxt & <- & Hin). destruct (Hwalk _ Hin) as [Hsz Hlen].
    pose proof (viewing_read _ _ _ _ _ _ Hv1) as (tx1 & [Ht1 Hd1 _ _] & _). rewrite <- Hxt in Ht1.
    rewrite (bind_Ret _ _ _ _ _ Hrun), (bind_Ret _ _ _ _ _ (ForEach_run collect fuel b [] w1 x T tx1 Hx Ht1 Hd1 Hsz Hlen)), kv_fold_collect. rewrite Hxt in *.
    eexists. split; [done|]. split; [|done]. eapply viewing_count; [done|apply Hx|done|done].
  - assert (Hnames : listing tx = names_of A).
    { unfold listing, names_of. do 2 f_equal. apply set_eq. intros name. by rewrite Hvis, elem_of_dom. }
    destruct (viewing_visit t st A N L (listing tx) w [] Hv) as (w1 & Hrun & Hv1); [intros name Hn; by apply Hvis, listing_spec|].
    rewrite <- (ForEach_visit w t tx st collect_name [] Ho) in Hrun. exists w1. by rewrite (bind_Ret _ _ _ _ _ Hrun), Hnames.
  - assert (Hrun : CreateBucket t name w = (Ret (inl ErrTxNotWritable), w)).
    { unfold CreateBucket. by rewrite (bind_Ret _ _ _ _ _ (get_tx_run _ _ _ (ot_tx _ _ _ _ Ho))), (ot_db _ _ _ _ Ho), Hr. }
    rewrite (bind_Ret _ _ _ _ _ Hrun). by exists w.
  - assert (Hrun : DeleteBucket t name w = (Ret (Some ErrTxNotWritable), w)).
    { unfold DeleteBucket. by rewrite (bind_Ret _ _ _ _ _ (get_tx_run _ _ _ (ot_tx _ _ _ _ Ho))), (ot_db _ _ _ _ Ho), Hr. }
    rewrite (bind_Ret _ _ _ _ _ Hrun). by exists w.
Qed.

Lemma viewing_script fuel s : ∀ w t st A N L,
  viewing w t st A N L → (∀ q, q ∈ L → walkable fuel q.2) →
  ∃ w', script_run fuel s t w = (Ret (spec_view A s), w') ∧ viewing w' t st A N L ∧ w_db w' = w_db w.
Proof.
  induction s as [e|o k IH]; intros w t st A N L Hv Hf; simpl; [by exists w|].
  destruct (viewing_step fuel w t st A N L o Hv Hf) as (w1 & Hrun & Hv1 & Hdb1). rewrite (bind_Ret _ _ _ _ _ Hrun).
  destruct (IH (view_op A o) w1 t st A N L Hv1 Hf) as (w2 & Hrun2 & Hv2 & Hdb2). exists w2. split_and!; [done|done|congruence].
Qed.

(** ** The ends of [View] *)

Lemma beginTx_run w st :
  db_opened (w_db w) = true → db_state (w_db w) = Some st →
  ∃ d, Begin false w = (Ret (inr (w_nextt w)), (new_tx (begun false st) (set_db d w)).2) ∧
    db_opened d = db_opened (w_db w) ∧ db_readOnly d = db_readOnly (w_db w) ∧ db_rwlock d = db_rwlock (w_db w).
Proof.
  intros Hop Hst. unfold Begin, beginTx, st_bind, get_db, st_gets, upd_db, st_modify. simpl. rewrite Hop. simpl. rewrite Hst. simpl.
  eexists. split; [reflexivity|]. destruct (db_stats (w_db w)); by split_and!.
Qed.

Lemma list_choose {X Y} (P : X → Y → Prop) (l : list X) :
  (∀ x, x ∈ l → ∃ y, P x y) → ∃ l' : list (X * Y), l'.*1 = l ∧ ∀ x y, (x, y) ∈ l' → P x y.
Proof.
  induction l as [|x l IH]; intros Hl; [exists []; split; [done|]; intros x y Hin; by apply elem_of_nil in Hin|].
  destruct (Hl x ltac:(by left)) as [y Hy]. destruct IH as (l' & <- & Hl'); [intros z Hz; apply Hl; by right|].
  exists ((x, y) :: l'). split; [done|]. intros x' y' [[= -> ->]|Hin]%elem_of_cons; auto.
Qed.

(** An open database that stores [A], with or without a writer. *)
Record serving (w : world) (st : dbState) (A : model) (S : gset bytes) : Prop := mkServing {
  sv_sane : sane w;
  sv_dirs : dirs w;
  sv_opened : db_opened (w_db w) = true;
  sv_state : db_state (w_db w) = Some st;
  sv_stores : state_stores w st A S
}.

Lemma idle_serving w A S : idle w A S → ∃ st, serving w st A S.
Proof. intros [Hs Hd _ Ho _ (st & Hst & HA)]. by exists st. Qed.

Lemma serving_begin w st A S : serving w st A S →
  ∃ t w' N L, Begin false w = (Ret (inr t), w') ∧ quiet w w' ∧ viewing w' t st A N L ∧
    db_opened (w_db w') = db_opened (w_db w) ∧ db_readOnly (w_db w') = db_readOnly (w_db w) ∧ db_rwlock (w_db w') = db_rwlock (w_db w).
Proof.
  intros [Hs Hd Ho Hst HA]. pose proof HA as [Hdom _]. destruct (beginTx_run w st Ho Hst) as (d & Hrun & Hsame).
  destruct (state_stores_bound _ _ _ _ HA) as [N HN].
  pose proof (proj1 (Begin_q false w Hs)) as Hq. pose proof (Begin_dirs false w Hd) as Hd'. rewrite Hrun in Hq, Hd'. simpl in Hq, Hd'.
  destruct (begun_open (new_tx (begun false st) (set_db d w)).2 (w_nextt w) false st) as [Hop Hv]; [simpl; apply lookup_insert_eq|by apply (dv_db _ Hd)|].
  destruct (list_choose (λ name T, stored_as w st name T ∧ A !! name = Some (contents T) ∧ tsize T ≤ N) (listing (begun false st))) as (L & HL & Hin).
  { intros name Hn. apply listing_spec in Hn. rewrite Hv, Hdom in Hn. apply elem_of_dom in Hn as [kvs Hk].
    destruct (HN _ _ Hk) as (T & ? & <- & ? & _). exists T. by split_and!. }
  eexists _, _, N, L. split; [exact Hrun|]. split; [exact Hq|]. split; [|exact Hsame]. split; [|exact Hd'| | |].
  - split; [apply Hq|]. exists (begun false st). split; [exact Hop|]. split; [done|]. intros [name T] Hq0. unfold sees_tree. simpl.
    rewrite lookup_empty. destruct (Hin _ _ Hq0) as [(bs & ? & ? & ? & ? & _) _]. by exists bs.
  - intros name T Hq0. by destruct (Hin _ _ Hq0).
  - intros name Hk. rewrite HL. apply listing_spec. rewrite Hv, Hdom. by apply elem_of_dom.
  - exists (begun false st). split; [simpl; apply lookup_insert_eq|done].
Qed.

Lemma viewing_managed w t st A N L m : viewing w t st A N L →
  ∃ w', upd_tx t (set_t_managed m) w = (Ret tt, w') ∧ quiet w w' ∧ viewing w' t st A N L ∧ w_db w' = w_db w ∧
    ∃ tx, w_txs w' !! t = Some tx ∧ t_managed tx = m ∧ t_db tx = true ∧ t_writable tx = false.
Proof.
  intros [[Hs (tx & Ho & Hlist & Hsee)] Hd Hm Hdom (tx' & Htx & Hr)]. pose proof Ho as [Ht Hdb Hba Hok]. rewrite Ht in Htx. injection Htx as <-.
  pose proof (upd_tx_run _ _ (set_t_managed m) _ Ht) as Hrun.
  destruct (set_managed_q t m w Hs) as [Hq _]. pose proof (upd_tx_dirs t (set_t_managed m) w Hd) as Hd'. rewrite Hrun in Hq, Hd'. simpl in Hq, Hd'.
  eexists. split; [exact Hrun|]. split; [exact Hq|]. split; [|split; [done|]; eexists; split; [simpl; apply lookup_insert_eq|done]].
  split; [|by apply Hd'|done|done|eexists; split; [simpl; apply lookup_insert_eq|done]].
  split; [apply Hq|]. exists (set_t_managed m tx). split; [|split; [done|]].
  - split; [simpl; apply lookup_insert_eq|done|done|by eapply (same_dir_ok tx)].
  - intros q Hin. specialize (Hsee q Hin). unfold sees_tree in *. simpl. destruct (t_bctx tx !! q.1) as [b|]; [|done].
    destruct Hsee as (x & [Hx Hxt Hroot Hrep Hwf] & Hb & Hn). exists x. split; [|done]. split; try done.
    + simpl. rewrite Hb, lookup_insert_eq. eauto.
    + rewrite <- Hroot. unfold rootView, baseState. simpl. by rewrite Hb, lookup_insert_eq, Ht.
Qed.

(** ** A view whose function also hands something out *)

(** [DB.View] with a function that also sets a variable of its caller: a buffer it
    fills, a verdict it reaches. *)
Definition ViewWith {C} (fn : tid → M (option err * C)) : M (option err * option C) :=
  let! r := Begin false in
  match r with
  | inl e => st_ret (Some e, None)
  | inr t =>
      with_rollback t (
        upd_tx t (set_t_managed true) ;!
        let! (e, c) := fn t in
        upd_tx t (set_t_managed false) ;!
        match e with
        | Some err => let! _ := Rollback t in st_ret (Some err, Some c)
        | None => let! e := Rollback t in st_ret (e, Some c)
        end)
  end.

(** It is [View] with the variable left out. *)
Lemma View_ViewWith {C} (fn : tid → M (option err * C)) (g : tid → M (option err)) w :
  (∀ t w, g t w = (let! q := fn t in st_ret q.1) w) → View g w = (let! q := ViewWith fn in st_ret q.1) w.
Proof.
  intros Hg. unfold View, ViewWith. destruct (Begin false w) as [r w1] eqn:Hb.
  destruct r as [[e|t]| | |]; [| |by unfold st_bind; rewrite Hb..].
  { by rewrite (bind_Ret _ _ _ _ _ Hb), (bind_Ret _ _ w (Some e, None) w1 (bind_Ret _ _ _ _ _ Hb)). }
  rewrite (bind_Ret _ _ _ _ _ Hb). unfold st_bind at 5. rewrite (bind_Ret _ _ _ _ _ Hb).
  etrans; [|exact (eq_sym (with_rollback_map fst t _ w1))]. apply with_rollback_ext. unfold st_bind, st_ret. destruct (upd_tx t _ w1) as [[| | |] w2]; simpl; try done.
  rewrite Hg. unfold st_bind, st_ret. destruct (fn t w2) as [[[e c]| | |] w3]; simpl; try done.
  destruct (upd_tx t _ w3) as [[| | |] w4]; simpl; try done. by destruct e; simpl; destruct (Rollback t w4) as [[| | |] w5].
Qed.

(** [View] with any function that, inside a read transaction that sees [A], returns
    [e] and hands out what [Q] says. *)
Lemma View_by {C} w st A S (fn : nat → tid → M (option err * C)) e (Q : C → Prop) :
  serving w st A S →
  (∀ fuel w1 t N L, quiet w w1 → viewing w1 t st A N L → N ≤ fuel → (∀ q, q ∈ L → walkable fuel q.2) →
     ∃ c w2, fn fuel t w1 = (Ret (e, c), w2) ∧ Q c ∧ quiet w1 w2 ∧ viewing w2 t st A N L ∧ w_db w2 = w_db w1) →
  ∃ N, ∀ fuel, N ≤ fuel → ∃ c w', ViewWith (fn fuel) w = (Ret (e, Some c), w') ∧ Q c ∧ serving w' st A S ∧
    db_readOnly (w_db w') = db_readOnly (w_db w) ∧ db_rwlock (w_db w') = db_rwlock (w_db w).
Proof.
  intros Hsv Hfn. destruct (serving_begin w st A S Hsv) as (t & w1 & N & L & Hbegin & Hq1 & Hv1 & Ho1 & Hr1 & Hl1).
  destruct (map_bound A (λ _ kvs n, length kvs < n)) as [K HK]; [intros; lia|intros k v _; exists (1 + length v); lia|].
  exists (N `max` K). intros fuel Hf. unfold ViewWith. rewrite (bind_Ret _ _ _ _ _ Hbegin).
  destruct (viewing_managed w1 t st A N L true Hv1) as (w2 & Hman & Hq2 & Hv2 & Hdb2 & _).
  destruct (Hfn fuel w2 t N L) as (c & w3 & Hrun & HQ & Hq3 & Hv3 & Hdb3); [by eapply quiet_trans|done|lia| |].
  { intros [name T] Hin. destruct (vw_map _ _ _ _ _ _ Hv2 _ _ Hin) as [HA Hsz]. specialize (HK _ _ HA). simpl. split; lia. }
  destruct (viewing_managed w3 t st A N L false Hv3) as (w4 & Hun & Hq4 & Hv4 & Hdb4 & tx & Ht & Hm & Hdb & Hw).
  destruct (Rollback_ends w4 t tx (q_sane _ _ Hq4) (vw_dirs _ _ _ _ _ _ Hv4) Ht Hm Hdb) as (w5 & tx5 & Hend & Hq5 & Hd5 & Ht5 & Hdb5 & Ho5 & Hr5 & Hl5).
  rewrite Hw in Hl5. assert (Hq : quiet w w5) by (eapply quiet_trans, quiet_trans, quiet_trans, quiet_trans; [exact Hq1|exact Hq2|exact Hq3|exact Hq4|exact Hq5]).
  assert (Hd1 : w_db w4 = w_db w1) by congruence. rewrite Hd1 in Ho5, Hr5, Hl5. destruct Hsv as [Hs Hd Ho Hst HA]. exists c, w5. split_and!.
  - eapply deferred_noop; [|exact Ht5|exact Hdb5]. rewrite (bind_Ret _ _ _ _ _ Hman), (bind_Ret _ _ _ _ _ Hrun), (bind_Ret _ _ _ _ _ Hun).
    by destruct e; rewrite (bind_Ret _ _ _ _ _ Hend).
  - done.
  - split; [apply Hq|done|congruence|rewrite <- Hst; apply Hq|]. eapply (state_stores_iso w); [apply Hs|apply Hq|by apply (s_db _ (sn_core _ Hs))|done].
  - congruence.
  - congruence.
Qed.

(** [View] with a script. *)
Lemma View_script w st A S s :
  serving w st A S →
  ∃ N, ∀ fuel, N ≤ fuel →
    ∃ w', View (script_run fuel s) w = (Ret (spec_view A s), w') ∧ serving w' st A S ∧
      db_readOnly (w_db w') = db_readOnly (w_db w) ∧ db_rwlock (w_db w') = db_rwlock (w_db w).
Proof.
  intros Hsv.
  destruct (View_by w st A S (λ fuel t, let! e := script_run fuel s t in st_ret (e, tt)) (spec_view A s) (λ _, True) Hsv) as [N HN].
  - intros fuel w1 t N L _ Hv _ Hf. destruct (viewing_script fuel s w1 t st A N L Hv Hf) as (w2 & Hrun & Hv2 & Hdb2). exists tt, w2.
    pose proof (proj1 (script_quiet fuel t s w1 (sh_sane _ _ _ _ (vw_showing _ _ _ _ _ _ Hv)))) as Hq. rewrite Hrun in Hq.
    split; [by rewrite (bind_Ret _ _ _ _ _ Hrun)|by split_and!].
  - exists N. intros fuel Hf. destruct (HN fuel Hf) as (c & w' & Hrun & _ & Hsv'). exists w'. split; [|done].
    rewrite (View_ViewWith (λ t, let! e := script_run fuel s t in st_ret (e, tt))).
    + by rewrite (bind_Ret _ _ _ _ _ Hrun).
    + intros t w1. unfold st_bind, st_ret. by destruct (script_run fuel s t w1) as [[| | |] w2].
Qed.

(** C7. [DB.View] answers from the stored map.  On an open database that stores
    the map [A], whether or not a writer is active, a function that reads as its
    replies tell it gets the values of [A], and every change it tries is refused;
    [View] returns what the function returns, and the database serves the same
    map, with the same writer, after it. *)
Theorem View_refines w st A S s :
  serving w st A S →
  ∃ N, ∀ fuel, N ≤ fuel →
    ∃ w', View (script_run fuel s) w = (Ret (spec_view A s), w') ∧ serving w' st A S ∧
      db_readOnly (w_db w') = db_readOnly (w_db w) ∧ db_rwlock (w_db w') = db_rwlock (w_db w).
Proof. apply View_script. Qed.

(** ** An example: reading beside a writer *)

Lemma ex_serving : serving ex_before ex_st ex_map ex_one.
Proof.
  assert (Hsteps : rtc step ex_w0 ex_before) by (apply run_calls_steps; repeat constructor).
  assert (Hreach : reachable ex_before) by (destruct ex_reachable as [o Ho]; exists o; by eapply (transitivity Ho)).
  destruct (reachable_inv _ Hreach) as [Hs Hd]. pose proof (id_sane _ _ _ ex_idle) as Hs0.
  split; [done|done|vm_compute; reflexivity..|]. eapply (state_stores_iso ex_w0); [apply Hs0|by apply steps_keep|apply (s_db _ (sn_core _ Hs0)); vm_compute; reflexivity|apply ex_stores].
Qed.

Definition ex_reading : script :=
  Do (TGet [x6e] [x62]) (λ r, match r with
    | RVal (Some _) => Do (TPut [x6e] [x62] []) (λ r, match r with RErr e => Return e | _ => Return None end)
    | _ => Return None
    end).

Lemma View_refines_witness :
  db_rwlock (w_db ex_before) = true ∧
  ∃ N, ∀ fuel, N ≤ fuel → ∃ w', View (script_run fuel ex_reading) ex_before = (Ret (Some ErrTxNotWritable), w') ∧ serving w' ex_st ex_map ex_one.
Proof.
  split; [vm_compute; reflexivity|]. destruct (View_refines ex_before ex_st ex_map ex_one ex_reading ex_serving) as [N HN]. exists N. intros fuel Hf.
  destruct (HN fuel Hf) as (w' & Hrun & Hsv & _). exists w'. split; [exact Hrun|exact Hsv].
Defined.
