(* ===== verification/Passing.v ===== *)
(** * Published states pass the consistency check

    The trees a commit publishes are the trees [Tx.Check] accepts: the invariant
    that the refinement of [Update] keeps implies the one the checker decides. *)
From S2P Require Import Prelude GoSort Stats World Node KV Tree TreePath Cursor CursorSpec Cow Bucket Spill Tx DB Check.
From S2P Require Import CowSpec BucketSpec BucketThm Regroup Frame FrameSpill SpillSpec Publish Isolation System TxSpec Directory DBSpec LeafBucket CommitSpec KeysFit Orderly Session Managed Refine Shown ViewRefine CheckSpec.
Local Open Scope st_scope.

Lemma exact_head T : exact T → wf T → head (node_keys T) = Some (first_key (tree_inodes T)).
Proof.
  destruct T as [l kvs|l cs]; simpl; intros Hex Hwf.
  - by destruct kvs as [|[k v] kvs].
  - destruct Hwf as (Hne & _). by destruct cs as [|[k c] cs].
Qed.

Lemma exact_checked T : wf T → exact T → checked T.
Proof.
  induction T as [l kvs|l cs IH] using tree_nested_ind; intros Hwf Hex; [exact Hwf|].
  apply wf_Branch in Hwf as (_ & Hs & Hne & _ & Hwf). apply exact_Branch in Hex. apply checked_Branch. split_and!; [done|done|].
  rewrite Forall_forall in IH, Hwf, Hex |- *. intros p Hp. destruct (Hex p Hp) as [Hk Hx]. rewrite Hk. split; [|by apply IH; auto]. apply exact_head; auto.
Qed.

Lemma stored_passes w st name T : stored_as w st name T → ∀ bs, ds_buckets st !! name = Some bs → bucket_ok (w_nodes w) bs.
Proof.
  intros (s & Hs & Hroot & Hrep & Hwf & Hnd & HK) bs Hbs. simplify_eq. exists s. split; [done|].
  intros r Hr. rewrite Hroot in Hr. injection Hr as <-. exists T. split_and!; [done|by apply rep_holds| |done].
  destruct T as [l kvs'|l cs]; [exact Hwf|]. apply exact_checked; [done|]. eapply keyed_exact; [done..|].
  apply wf_Branch in Hwf as (Hne & _ & Hkne & _). destruct cs as [|[k c] cs]; [done|]. by apply Forall_cons in Hkne as [? _].
Qed.

Lemma state_passes w st A S : state_stores w st A S → ∀ name bs, ds_buckets st !! name = Some bs → bucket_ok (w_nodes w) bs.
Proof.
  intros [Hdom HA] name bs Hbs. assert (is_Some (A !! name)) as [kvs Hk].
  { apply elem_of_dom. rewrite <- Hdom. by apply elem_of_dom_2 in Hbs. }
  destruct (HA _ _ Hk) as (T & HT & _). by eapply stored_passes.
Qed.

(** C18. Whatever has been stored passes the check: on a database that serves a
    map, in particular after any [Update] that refines it, [Tx.Check] of any
    transaction on the current state ends and reports nothing, in whatever order
    its goroutines run. *)
Theorem serving_checks fuel w st A S t tx opts :
  serving w st A S → w_txs w !! t = Some tx → t_base tx = Some st → check_fuel (w_nodes w) ≤ fuel →
  (∃ out, Check fuel w tx opts out) ∧ ∀ out, Check fuel w tx opts out → out = [].
Proof.
  intros [Hs _ _ _ HA] Ht Hb Hf. destruct (Check_core fuel w t tx st opts (sn_core _ Hs) Ht Hb Hf) as [Hex Hiff]. split; [done|].
  intros out Hout. apply (Hiff out Hout). by eapply state_passes.
Qed.

Lemma serving_checks_witness :
  ∃ tx, w_txs ex_before !! 2%positive = Some tx ∧ Check (check_fuel (w_nodes ex_before)) ex_before tx [] [].
Proof.
  assert (Hb : t_base <$> w_txs ex_before !! 2%positive = Some (Some ex_st)) by (vm_compute; reflexivity).
  destruct (w_txs ex_before !! 2%positive) as [tx|] eqn:Htx; [|discriminate Hb]. injection Hb as Hb. exists tx. split; [reflexivity|].
  destruct (serving_checks (check_fuel (w_nodes ex_before)) ex_before ex_st ex_map ex_one 2 tx [] ex_serving Htx Hb (le_n _)) as [[out Hout] Hnil].
  by rewrite (Hnil out Hout) in Hout.
Defined.
