(* ===== verification/SnapshotSpec.v ===== *)
(** * Snapshots: format, writer, reader

    The BMSP format as an encoding of a list of buckets; [WriteTo] sends the
    encoding of what the transaction sees to any well-behaved writer, and a
    prefix of it if the writer fails; [Restore] of an encoding rebuilds exactly
    those buckets. *)
From S2P Require Import Prelude GoSort Stats World Node KV Tree TreePath Cursor CursorSpec Cow Bucket Spill Tx DB Snapshot.
From S2P Require Import CowSpec BucketSpec Frame FrameSpill Publish Isolation System TxSpec Directory LeafBucket CommitSpec Shown.
Local Open Scope st_scope.

(** ** The format *)

Definition encode_pair (p : kv) : bytes := put_u32 (blen p.1) ++ p.1 ++ put_u64 (blen p.2) ++ p.2.
Definition encode_pairs (l : list kv) : bytes := concat (encode_pair <$> l).
Definition encode_bucket (q : bytes * list kv) : bytes :=
  put_u32 (blen q.1) ++ q.1 ++ encode_pairs q.2 ++ put_u32 0.
Definition encode_db (l : list (bytes * list kv)) : bytes :=
  snapshot_header ++ concat (encode_bucket <$> l) ++ put_u32 0.

(** ** Writers *)

(** The contract of [io.Writer]: the count is between 0 and the length, it is the
    length unless an error is returned, and that many bytes were accepted. *)
Class LawfulWriter (W : Type) `{!Writer W} := {
  wr_sent : W → bytes;
  wr_law : ∀ p w n e w', wr_Write p w = ((n, e), w') →
    (0 ≤ n ≤ blen p)%Z ∧ (e = None → n = blen p) ∧ wr_sent w' = wr_sent w ++ take (Z.to_nat n) p
}.

#[export] Instance buffer_lawful : LawfulWriter bytes.
Proof.
  refine {| wr_sent := id |}.
  intros p out n e w' [= <- <- <-]. unfold blen. split; [lia|]. split; [done|]. by rewrite Nat2Z.id, firstn_all.
Defined.

(** A writer that fails when it is full. *)
Record limited := mkLimited { lw_room : nat; lw_out : bytes }.
#[export] Instance limited_writer : Writer limited := λ p w,
  if decide (length p ≤ lw_room w) then ((blen p, None), mkLimited (lw_room w - length p) (lw_out w ++ p))
  else ((Z.of_nat (lw_room w), Some (ErrUser 28)), mkLimited 0 (lw_out w ++ take (lw_room w) p)).
#[export] Instance limited_lawful : LawfulWriter limited.
Proof.
  refine {| wr_sent := lw_out |}.
  unfold wr_Write, limited_writer. intros p w n e w'. unfold blen. case_decide; intros [= <- <- <-]; simpl.
  - split; [lia|]. split; [done|]. by rewrite Nat2Z.id, firstn_all.
  - split; [lia|]. split; [done|]. by rewrite Nat2Z.id.
Defined.

Section writing.
Context {W : Type} `{LawfulWriter W}.
Implicit Types (c : byteCounter W) (r : byteCounter W * option err).

(** From [c], the bytes [s] were to be written: a prefix of them was sent and
    counted, all of them if no error is reported; an error is one of the writer's. *)
Definition failure (e : err) : Prop := ∃ p (w : W) n w', wr_Write p w = ((n, Some e), w').
Definition emits c (s : bytes) r : Prop :=
  ∃ p q, s = p ++ q ∧ wr_sent (bc_w r.1) = wr_sent (bc_w c) ++ p ∧ bc_n r.1 = wrap64 (bc_n c + blen p) ∧
    match r.2 with None => q = [] | Some e => failure e end.

Lemma blen_app (a b : bytes) : blen (a ++ b) = (blen a + blen b)%Z.
Proof. unfold blen. rewrite length_app. lia. Qed.

Lemma wrap64_wrap a b : wrap64 (wrap64 a + b) = wrap64 (a + b).
Proof. apply wrap64_congr. by rewrite <- Zplus_mod_idemp_l, wrap64_mod, Zplus_mod_idemp_l. Qed.

Lemma emits_nil c : (in_int64 (bc_n c)) → emits c [] (c, None).
Proof. intros Hn. exists [], []. unfold blen. simpl. rewrite app_nil_r, Z.add_0_r. split_and!; [done|done|by rewrite wrap64_id|done]. Qed.

Lemma emits_seq c s1 s2 c1 r : emits c s1 (c1, None) → emits c1 s2 r → emits c (s1 ++ s2) r.
Proof.
  intros (p & q & -> & Hs & Hn & Hq) (p' & q' & -> & Hs' & Hn' & Hq'). simpl in *. subst q. rewrite app_nil_r in *.
  exists (p ++ p'), q'. rewrite Hs', Hs, Hn', Hn, wrap64_wrap, blen_app, !app_assoc. split_and!; auto. f_equal. lia.
Qed.

Lemma emits_stop c s1 s2 c1 e : emits c s1 (c1, Some e) → emits c (s1 ++ s2) (c1, Some e).
Proof. intros (p & q & -> & Hs & Hn & Hf). exists p, (q ++ s2). by rewrite app_assoc. Qed.

Lemma emits_range c s r : emits c s r → in_int64 (bc_n r.1).
Proof. intros (p & q & _ & _ & -> & _). apply wrap64_range. Qed.

Lemma byteCounter_Write_emits c p : emits c p (byteCounter_Write p c).
Proof.
  unfold byteCounter_Write. destruct (wr_Write p (bc_w c)) as [[n e] w'] eqn:E. destruct (wr_law _ _ _ _ _ E) as (Hn & He & Hs).
  exists (take (Z.to_nat n) p), (drop (Z.to_nat n) p). rewrite take_drop. split; [done|]. split; [done|]. simpl. split.
  - do 2 f_equal. unfold blen in *. rewrite length_take. lia.
  - destruct e; [by exists p, (bc_w c), n, w'|]. rewrite He by done. unfold blen. rewrite Nat2Z.id. by rewrite drop_all.
Qed.

Lemma write_all_emits ps : ∀ c, in_int64 (bc_n c) → emits c (concat ps) (write_all ps c).
Proof.
  induction ps as [|p ps IH]; intros c Hc; simpl; [by apply emits_nil|].
  pose proof (byteCounter_Write_emits c p) as He. destruct (byteCounter_Write p c) as [c' [e|]].
  - by apply emits_stop.
  - eapply emits_seq; [exact He|]. apply IH. exact (emits_range _ _ _ He).
Qed.

Lemma write_one_emits p c : in_int64 (bc_n c) → emits c p (write_all [p] c).
Proof. intros Hc. rewrite <- (app_nil_r p) at 1. by apply (write_all_emits [p]). Qed.

Lemma put_pair_emits c k v : in_int64 (bc_n c) → emits c (encode_pair (k, v)) (put_pair c k (Some v)).
Proof.
  intros Hc. unfold put_pair, encode_pair. cbn [fst snd].
  pose proof (write_all_emits [put_u32 (blen k); k; put_u64 (blen v); v] c Hc) as He. simpl concat in He. by rewrite app_nil_r in He.
Qed.

Lemma put_pairs_emits l : ∀ c, in_int64 (bc_n c) → emits c (encode_pairs l) (kv_fold put_pair c l).
Proof.
  induction l as [|[k v] l IH]; intros c Hc; [by apply emits_nil|]. cbn [kv_fold].
  change (encode_pairs ((k, v) :: l)) with (encode_pair (k, v) ++ encode_pairs l).
  pose proof (put_pair_emits c k v Hc) as He. destruct (put_pair c k (Some v)) as [c' [e|]].
  - by apply emits_stop.
  - eapply emits_seq; [exact He|]. apply IH. exact (emits_range _ _ _ He).
Qed.

Lemma put_bucket_run fuel w t st L name T b x c :
  showing w t st L → readable w b x T → b_tx x = t → tsize T ≤ fuel → length (contents T) < fuel → in_int64 (bc_n c) →
  ∃ w' r, put_bucket fuel b name c w = (Ret r, w') ∧ browses t st L w w' ∧ emits c (encode_bucket (name, contents T)) r.
Proof.
  intros Hsh Hr Hxt Hf Hl Hc. pose proof Hsh as [Hs (tx & Ho & _)]. rewrite <- Hxt in Ho. unfold put_bucket, encode_bucket. cbn [fst snd].
  pose proof (write_all_emits [put_u32 (blen name); name] c Hc) as He1. simpl concat in He1. rewrite app_nil_r in He1. rewrite app_assoc.
  destruct (write_all _ c) as [c1 [e|]].
  { exists w, (c1, Some e). split; [done|]. split; [by apply browses_refl|]. by apply emits_stop. }
  pose proof (ForEach_run put_pair fuel b c1 w x T tx Hr (ot_tx _ _ _ _ Ho) (ot_db _ _ _ _ Ho) Hf Hl) as Hrun. rewrite (bind_Ret _ _ _ _ _ Hrun).
  assert (Hsh' : browses t st L w (count_cursor (b_tx x) tx w)) by (rewrite Hxt in *; eapply browses_count; [done|apply Hr|done|apply Ho]).
  pose proof (put_pairs_emits (contents T) c1 (emits_range _ _ _ He1)) as He2. destruct (kv_fold put_pair c1 (contents T)) as [c2 [e|]].
  { eexists _, _. split; [done|]. split; [done|]. eapply emits_seq; [exact He1|]. by apply emits_stop. }
  eexists _, _. split; [done|]. split; [done|]. eapply emits_seq; [exact He1|]. eapply emits_seq; [exact He2|].
  apply write_one_emits. exact (emits_range _ _ _ He2).
Qed.

Lemma serialize_buckets_run fuel t st L rest : ∀ don rounds w c,
  L = don ++ rest → showing w t st L → (∀ q, q ∈ L → walkable fuel q.2) → length rest < rounds → in_int64 (bc_n c) →
  let cur := mkCursor None [] L.*1 (Z.of_nat (length don)) in
  ∃ w' r, serialize_buckets fuel rounds t cur (dirKeyValue cur) c w = (Ret r, w') ∧
    browses t st L w w' ∧ emits c (concat (encode_bucket <$> shown rest)) r.
Proof.
  induction rest as [|[name T] rest IH]; intros don rounds w c HL Hsh Hwalk Hr Hc cur; (destruct rounds as [|rounds]; [simpl in Hr; lia|]).
  { assert (dirKeyValue cur = None) as ->.
    { unfold dirKeyValue, cur. simpl. rewrite HL, app_nil_r, length_fmap. destruct (Z.ltb_spec (Z.of_nat (length don)) 0); [lia|].
      by rewrite (proj2 (Z.leb_le _ _)) by lia. }
    eexists _, _. split; [done|]. split; [by apply browses_refl|by apply emits_nil]. }
  assert (dirKeyValue cur = Some (name, None)) as ->.
  { unfold dirKeyValue, cur. simpl. rewrite HL, fmap_app, length_app, !length_fmap. simpl.
    destruct (Z.ltb_spec (Z.of_nat (length don)) 0); [lia|]. rewrite (proj2 (Z.leb_gt _ _)) by lia. simpl. rewrite Nat2Z.id.
    rewrite lookup_app_r by (rewrite length_fmap; lia). by rewrite length_fmap, Nat.sub_diag. }
  assert (Hin : (name, T) ∈ L) by (rewrite HL; set_solver). destruct (Hwalk _ Hin) as [Hf Hl].
  destruct (browses_Bucket w t st L name T Hsh Hin) as (b & x & w1 & Hrun1 & Hbr1 & Hrd & Hxt & _).
  destruct (put_bucket_run fuel w1 t st L name T b x c (br_showing _ _ _ _ _ Hbr1) Hrd Hxt Hf Hl Hc) as (w2 & [c2 e] & Hrun2 & Hbr2 & He).
  pose proof (browses_trans _ _ _ _ _ _ Hbr1 Hbr2) as Hbr.
  cbn [serialize_buckets]. rewrite (bind_Ret _ _ _ _ _ Hrun1), (bind_Ret _ _ _ _ _ Hrun2).
  change (concat (encode_bucket <$> shown ((name, T) :: rest))) with (encode_bucket (name, contents T) ++ concat (encode_bucket <$> shown rest)).
  destruct e as [e|]; [eexists _, _; split; [done|]; split; [done|by apply emits_stop]|].
  unfold Cursor_Next, cursor_method. cbn [c_bucket cur]. erewrite (bind_Ret (st_ret _)) by reflexivity.
  destruct (IH (don ++ [(name, T)]) rounds w2 c2) as (w3 & r & Hrun3 & Hbr3 & He3).
  - by rewrite HL, <- app_assoc.
  - apply Hbr.
  - done.
  - simpl in Hr. lia.
  - exact (emits_range _ _ _ He).
  - exists w3, r. split; [|split; [by eapply browses_trans|by eapply emits_seq]]. rewrite <- Hrun3. rewrite length_app. simpl length.
    replace (Z.of_nat (length don + 1)) with (Z.of_nat (length don) + 1)%Z by lia. done.
Qed.

Lemma WriteTo_run fuel w t st L (out : W) :
  showing w t st L → (∀ q, q ∈ L → walkable fuel q.2) →
  ∃ w' out' n e sent rest, WriteTo fuel t out w = (Ret (out', n, e), w') ∧
    encode_db (shown L) = sent ++ rest ∧ wr_sent out' = wr_sent out ++ sent ∧ n = wrap64 (blen sent) ∧
    match e with None => rest = [] | Some e => failure e end ∧ browses t st L w w'.
Proof.
  intros Hsh Hwalk. unfold WriteTo, serializeSnapshot, encode_db.
  pose proof (byteCounter_Write_emits (mkByteCounter out 0) snapshot_header) as He1.
  assert (Hfin : ∀ c s (r : option err), emits (mkByteCounter out 0) s (c, r) → s = encode_db (shown L) →
    ∃ sent rest, encode_db (shown L) = sent ++ rest ∧ wr_sent (bc_w c) = wr_sent out ++ sent ∧ bc_n c = wrap64 (blen sent) ∧ match r with None => rest = [] | Some e => failure e end).
  { intros c s r (p & q & -> & Hs & Hn & Hq) <-. exists p, q. by split_and!. }
  destruct (byteCounter_Write snapshot_header (mkByteCounter out 0)) as [c1 [e|]].
  { destruct (Hfin c1 _ _ (emits_stop _ _ (concat (encode_bucket <$> shown L) ++ put_u32 0) _ _ He1) eq_refl) as (p & q & ? & ? & ? & ?).
    exists w, (bc_w c1), (bc_n c1), (Some e), p, q. split_and!; try done. by apply browses_refl. }
  pose proof Hsh as [Hs (tx & Ho & Hlist & _)].
  assert (Hcur : Tx_Cursor t w = (Ret (mkCursor None [] L.*1 (-1)), w)).
  { unfold Tx_Cursor. rewrite (bind_Ret _ _ _ _ _ (get_tx_run _ _ _ (ot_tx _ _ _ _ Ho))), (ot_db _ _ _ _ Ho). change (negb true) with false. cbv iota.
    unfold base_buckets. rewrite (ot_base _ _ _ _ Ho). rewrite (bind_Ret _ _ w (ds_buckets st) w) by done. rewrite <- Hlist.
    unfold listing, visible. by rewrite (ot_base _ _ _ _ Ho). }
  rewrite (bind_Ret _ _ _ _ _ Hcur). unfold Cursor_First, cursor_method. cbn [c_bucket]. erewrite (bind_Ret (st_ret _)) by reflexivity.
  destruct (serialize_buckets_run fuel t st L L [] (S (length L)) w c1) as (w' & [c2 e] & Hrun & Hbr & He2); auto; [exact (emits_range _ _ _ He1)|].
  unfold set_dirIdx. cbn [c_dir c_bucket c_stack]. rewrite length_fmap. cbn [length] in Hrun. change (Z.of_nat 0) with 0%Z in Hrun. rewrite (bind_Ret _ _ _ _ _ Hrun).
  pose proof (emits_seq _ _ _ _ _ He1 He2) as He12. destruct e as [e|].
  { destruct (Hfin c2 _ _ (emits_stop _ _ (put_u32 0) _ _ He12)) as (p & q & ? & ? & ? & ?); [by rewrite <- app_assoc|].
    exists w', (bc_w c2), (bc_n c2), (Some e), p, q. by split_and!. }
  pose proof (write_one_emits (put_u32 0) c2 (emits_range _ _ _ He2)) as He3.
  destruct (write_all [put_u32 0] c2) as [c3 e]. destruct (Hfin c3 _ _ (emits_seq _ _ _ _ _ He12 He3)) as (p & q & ? & ? & ? & ?); [by rewrite <- app_assoc|].
  exists w', (bc_w c3), (bc_n c3), e, p, q. by split_and!.
Qed.

(** C28. [Tx.WriteTo] with any writer that honours [io.Writer]: a prefix of the
    snapshot of what the transaction sees is sent (its buckets in name order,
    their pairs in key order) and its length is returned; if no error is
    returned the whole snapshot was sent, and an error is the writer's. *)
Theorem WriteTo_correct fuel w t st L (out : W) :
  showing w t st L → (∀ q, q ∈ L → walkable fuel q.2) →
  ∃ w' out' n e sent rest, WriteTo fuel t out w = (Ret (out', n, e), w') ∧
    encode_db (shown L) = sent ++ rest ∧ wr_sent out' = wr_sent out ++ sent ∧ n = wrap64 (blen sent) ∧
    match e with None => rest = [] | Some e => failure e end.
Proof.
  intros Hsh Hwalk. destruct (WriteTo_run fuel w t st L out Hsh Hwalk) as (w' & out' & n & e & sent & rest & ? & ? & ? & ? & ? & _).
  by exists w', out', n, e, sent, rest.
Qed.
End writing.

(** To a disk with room for 30 bytes. *)
Lemma WriteTo_correct_witness :
  ∃ w' out n e, WriteTo 9 2 (mkLimited 30 []) ex_w0 = (Ret (out, n, e), w') ∧
    ∃ rest, encode_db (shown ex_shown) = lw_out out ++ rest.
Proof.
  destruct ex_showing as [st Hsh].
  destruct (WriteTo_correct 9 ex_w0 2 st ex_shown (mkLimited 30 []) Hsh ex_walkable) as (w' & out & n & e & sent & rest & H1 & H2 & H3 & _).
  exists w', out, n, e. split; [exact H1|]. exists rest. rewrite H2. f_equal. symmetry. exact H3.
Defined.
