(* ===== verification/RestoreSpec.v ===== *)
(** * Restoring a snapshot

    [Restore] of the encoding of a list of buckets creates exactly those buckets
    with exactly those pairs in one transaction and publishes them; what [WriteTo]
    wrote is therefore what [Restore] rebuilds. *)
From S2P Require Import Prelude GoSort Stats World Node KV Tree TreePath Cursor CursorSpec Cow Bucket Spill Tx DB Snapshot.
From S2P Require Import CowSpec BucketSpec Regroup Frame FrameSpill Publish Isolation System TxSpec Directory DBSpec LeafBucket Ripe CommitSpec Managed Shown SnapshotSpec.
Local Open Scope st_scope.

(** ** Little-endian integers *)

Lemma byte_of_Z_spec z : Z.of_N (Byte.to_N (byte_of_Z z)) = (z mod 256)%Z.
Proof.
  unfold byte_of_Z. pose proof (Z.mod_pos_bound z 256 ltac:(lia)) as Hb.
  destruct (Byte.of_N (Z.to_N (z mod 256))) as [b|] eqn:E.
  - apply Byte.to_of_N in E. rewrite E, Z2N.id; lia.
  - apply Byte.of_N_None_iff in E. lia.
Qed.

Lemma length_le_bytes n z : length (le_bytes n z) = n.
Proof. revert z. induction n as [|n IH]; intros z; simpl; [done|]. by rewrite IH. Qed.

Lemma le_Z_bytes n : ∀ z, (0 ≤ z < 256 ^ Z.of_nat n)%Z → le_Z (le_bytes n z) = z.
Proof.
  induction n as [|n IH]; intros z Hz; cbn [le_bytes le_Z].
  - change (256 ^ Z.of_nat 0)%Z with 1%Z in Hz. lia.
  - rewrite byte_of_Z_spec, IH.
    + pose proof (Z.div_mod z 256 ltac:(lia)). lia.
    + rewrite Nat2Z.inj_succ, Z.pow_succ_r in Hz by lia. split; [apply Z.div_pos; lia|]. apply Z.div_lt_upper_bound; lia.
Qed.

(** The decoder inverts the encoder on lengths that fit. *)
Lemma get_put_u32 z : (0 ≤ z < 2 ^ 32)%Z → le_Z (put_u32 z) = z.
Proof. intros Hz. unfold put_u32. rewrite Z.mod_small by done. apply le_Z_bytes. by change (256 ^ Z.of_nat 4)%Z with (2 ^ 32)%Z. Qed.
Lemma get_put_u64 z : (0 ≤ z < 2 ^ 64)%Z → le_Z (put_u64 z) = z.
Proof. intros Hz. unfold put_u64. rewrite Z.mod_small by done. apply le_Z_bytes. by change (256 ^ Z.of_nat 8)%Z with (2 ^ 64)%Z. Qed.

Lemma ReadFull_app n a r : length a = n → ReadFull n (a ++ r) = inr (a, r).
Proof.
  intros <-. unfold ReadFull. destruct (Nat.eqb_spec (length a) 0) as [E|E].
  { by apply nil_length_inv in E as ->. }
  rewrite length_app. destruct (Nat.eqb_spec (length a + length r) 0); [lia|]. destruct (Nat.ltb_spec (length a + length r) (length a)); [lia|].
  by rewrite take_app_length, drop_app_length.
Qed.

Lemma ReadFull_u32 z r : ReadFull 4 (put_u32 z ++ r) = inr (put_u32 z, r).
Proof. apply ReadFull_app, length_le_bytes. Qed.
Lemma ReadFull_u64 z r : ReadFull 8 (put_u64 z ++ r) = inr (put_u64 z, r).
Proof. apply ReadFull_app, length_le_bytes. Qed.

(** ** The pairs of one bucket *)

(** Pairs [Put] accepts, and names a length field holds. *)
Definition pair_ok (p : kv) : Prop := (0 < blen p.1 ≤ MaxKeySize)%Z ∧ (blen p.2 ≤ MaxValueSize)%Z.
Definition bucket_fits (maxAlloc : Z) (q : bytes * list kv) : Prop :=
  (0 < blen q.1 < 2 ^ 32)%Z ∧ (blen q.1 ≤ maxAlloc)%Z ∧ ssorted (keys q.2) ∧ Forall pair_ok q.2.

Definition kv_inserts (acc l : list kv) : list kv := foldl (λ a p, kv_insert p.1 p.2 a) acc l.

Lemma kv_insert_last k v l : (∀ y, y ∈ keys l → blt y k) → kv_insert k v l = l ++ [(k, v)].
Proof.
  induction l as [|[k' v'] l IH]; intros Hl; simpl; [done|]. assert (Hk : blt k' k) by (apply Hl; by left).
  rewrite decide_False by (by apply blt_asym). rewrite decide_False by (intros ->; by apply blt_irrefl in Hk).
  f_equal. apply IH. intros y Hy. apply Hl. by right.
Qed.

(** Inserting sorted pairs one by one rebuilds the list. *)
Lemma kv_inserts_sorted l : ∀ acc, ssorted (keys (acc ++ l)) → kv_inserts acc l = acc ++ l.
Proof.
  induction l as [|[k v] l IH]; intros acc Hs; simpl; [by rewrite app_nil_r|].
  rewrite keys_app in Hs. pose proof Hs as (_ & _ & Hlt)%ssorted_app. rewrite kv_insert_last.
  - rewrite IH, <- app_assoc; [done|]. rewrite <- app_assoc, keys_app. exact Hs.
  - intros y Hy. apply Hlt; [done|]. by left.
Qed.

#[local] Arguments put_u32 : simpl never.
#[local] Arguments put_u64 : simpl never.
#[local] Arguments ReadFull : simpl never.
#[local] Arguments le_Z : simpl never.

Lemma ssorted_NoDup l : ssorted l → NoDup l.
Proof.
  induction 1 as [|k l Hs IH Hall]; constructor; [|done]. intros Hk. rewrite Forall_forall in Hall. by apply (blt_irrefl k), Hall.
Qed.

Section restoring.
Context (it : iteration) (fuel : nat) (rebalanceTime spillTime : Z) (maxAlloc : Z).
Hypothesis alloc_ok : (MaxValueSize ≤ maxAlloc)%Z.
Hypothesis fuel_ok : 1 ≤ fuel.

Lemma make_bytes_run n w : (n ≤ maxAlloc)%Z → make_bytes maxAlloc n w = (Ret (Z.to_nat n), w).
Proof. intros Hn. unfold make_bytes. by destruct (Z.ltb_spec maxAlloc n); [lia|]. Qed.

Lemma restore_pairs_run b l : ∀ rounds w x lf acc rest,
  sane w → leafy w b x lf acc → Forall pair_ok l → length l < rounds →
  ∃ w' x' lf', restore_pairs fuel maxAlloc rounds b (encode_pairs l ++ put_u32 0 ++ rest) w = (Ret (inl rest), w') ∧
    leafy w' b x' lf' (kv_inserts acc l) ∧ acts b w w' ∧ b_tx x' = b_tx x ∧ b_name x' = b_name x.
Proof.
  induction l as [|[k v] l IH]; intros rounds w x lf acc rest Hs Hl Hok Hr; (destruct rounds as [|rounds]; [simpl in Hr; lia|]); cbn [restore_pairs].
  { change (encode_pairs [] ++ put_u32 0 ++ rest) with (put_u32 0 ++ rest). rewrite ReadFull_u32, get_put_u32 by lia.
    exists w, x, lf. split_and!; try done. apply acts_refl, Hs. }
  apply Forall_cons in Hok as [[Hk Hv] Hok]. simpl in Hk, Hv. unfold MaxKeySize in Hk.
  assert (Hvl : (0 ≤ blen v)%Z) by (unfold blen; lia). assert (Hmk : (MaxValueSize <= 2 ^ 31)%Z) by (unfold MaxValueSize; lia).
  change (encode_pairs ((k, v) :: l)) with ((put_u32 (blen k) ++ k ++ put_u64 (blen v) ++ v) ++ encode_pairs l). rewrite <- !app_assoc.
  rewrite ReadFull_u32, get_put_u32 by lia. destruct (Z.eqb_spec (blen k) 0); [lia|].
  rewrite (bind_Ret _ _ _ _ _ (make_bytes_run (blen k) w ltac:(unfold MaxValueSize in *; lia))).
  rewrite ReadFull_app by (unfold blen; lia). rewrite ReadFull_u64, get_put_u64 by (unfold MaxValueSize in *; lia).
  rewrite (bind_Ret _ _ _ _ _ (make_bytes_run (blen v) w ltac:(lia))), ReadFull_app by (unfold blen; lia).
  destruct (Put_leafy fuel w b x lf acc k v Hs Hl fuel_ok) as (w1 & x1 & lf1 & Hrun & Hl1 & Ha1 & Ht1 & Hn1); [unfold MaxKeySize; lia|done|].
  rewrite (bind_Ret _ _ _ _ _ Hrun).
  destruct (IH rounds w1 x1 lf1 (kv_insert k v acc) rest) as (w2 & x2 & lf2 & Hrun2 & Hl2 & Ha2 & Ht2 & Hn2); auto.
  { eapply sane_evo; [exact Hs|apply Ha1]. } { simpl in Hr. lia. }
  exists w2, x2, lf2. split_and!; [done|done|by eapply acts_trans|congruence|congruence].
Qed.

(** ** All buckets *)

(** The open write transaction [t], over the state [st], with the buckets it has
    opened: single leaves with the pairs [C] tells. *)
Record filling (w : world) (t : tid) (tx : Tx) (st : dbState) (C : gmap bytes (list kv)) : Prop := mkFilling {
  fi_sane : sane w;
  fi_dirs : dirs w;
  fi_open : open_tx w t tx st;
  fi_writable : t_writable tx = true;
  fi_names : dom (t_bctx tx) = dom C;
  fi_leafy : ∀ name b kvs, t_bctx tx !! name = Some b → C !! name = Some kvs →
    ∃ x l, leafy w b x l kvs ∧ b_tx x = t ∧ b_name x = name
}.

Lemma leafy_fill w b x l kvs q :
  leafy w b x l kvs → leafy (set_bkts (<[b := set_b_FillPercent q x]> (w_bkts w)) w) b (set_b_FillPercent q x) l kvs.
Proof.
  intros [[Hx Htx Hr Hrep Hwf] Ho Hroot]. split; [split|..]; try done. simpl. apply lookup_insert_eq.
Qed.

Lemma created_step w t tx st C name :
  filling w t tx st C → name ≠ [] → name ∉ visible tx →
  ∃ b w' tx' x l, CreateBucket t name w = (Ret (inr b), w') ∧ filling w' t tx' st (<[name := []]> C) ∧
    visible tx' = {[name]} ∪ visible tx ∧ t_managed tx' = t_managed tx ∧ w_db w' = w_db w ∧
    t_bctx tx' !! name = Some b ∧ leafy w' b x l [] ∧ b_tx x = t ∧ b_name x = name.
Proof.
  intros [Hs Hd Ho Hw Hn Hl] Hne Hv. pose proof (CreateBucket_run w t tx st name Ho Hw Hne) as Hrun. rewrite decide_False in Hrun by done.
  pose proof (q_sane _ _ (proj1 (CreateBucket_q t name w Hs))) as Hs'. pose proof (CreateBucket_dirs t name w Hs Hd) as Hd'. rewrite Hrun in Hs', Hd'.
  destruct (created_visible t name tx w _ st Ho (lookup_insert_eq _ _ _)) as (H1 & H2 & H3).
  destruct (created_leafy t name tx w (ot_db _ _ _ _ Ho) Hw) as (x & Hlx & Hxt & Hxn).
  eexists _, _, _, x, _. split; [exact Hrun|]. split; [|split; [exact H2|split; [done|split; [done|split; [exact H3|by split_and!]]]]]. split; simpl; auto.
  - by rewrite !dom_insert_L, Hn.
  - intros name' b kvs. rewrite !lookup_insert. case_decide as E; [|].
    + subst name'. intros [= <-] [= <-]. eauto 10.
    + intros Hb Hk. destruct (Hl _ _ _ Hb Hk) as (x' & l' & Hl' & ? & ?). exists x', l'. split; [|done].
      apply created_keeps; [apply Hs|apply Ho|done].
Qed.

(** Work on one handle of a filling transaction. *)
Lemma filling_acts w w' t tx st C name b x l kvs :
  filling w t tx st C → t_bctx tx !! name = Some b → acts b w w' →
  leafy w' b x l kvs → b_tx x = t → b_name x = name →
  ∃ tx', strip tx' = strip tx ∧ filling w' t tx' st (<[name := kvs]> C).
Proof.
  intros [Hs Hd Ho Hw Hn Hl] Hb Ha Hlx Hxt Hxn. pose proof (a_evo _ _ _ Ha) as He. pose proof Ho as [Ht Hdb Hba Hok].
  destruct (strip_lookup _ _ _ _ (e_txs _ _ He) Ht) as (tx' & Ht' & Hst). pose proof (strip_same _ _ Hst) as Hsame.
  destruct (same_dir_ok _ _ Hsame Hok) as [Hok' Hvis]. pose proof Hsame as (Hdb' & Hba' & _ & _ & Hbc').
  destruct (strip_fields _ _ Hst) as (Hw' & _). exists tx'. split; [done|]. split.
  - by eapply sane_evo.
  - by eapply dirs_evo.
  - split; [done|congruence|congruence|done].
  - congruence.
  - rewrite Hbc', dom_insert_L, <- Hn. assert (name ∈ dom (t_bctx tx)) by (apply elem_of_dom; eauto). set_solver.
  - intros name' b' kvs'. rewrite Hbc', lookup_insert. case_decide as E.
    + subst name'. intros Hb' [= <-]. simplify_eq. eauto 10.
    + intros Hb' Hk. destruct (Hl _ _ _ Hb' Hk) as (x' & l' & Hl' & Hx't & Hx'n). exists x', l'. split; [|done].
      eapply leafy_acts; [apply Hs|exact Ha| |done]. intros ->.
      destruct (dv_tx _ Hd _ _ Ht Hdb) as (_ & _ & _ & Hh). destruct (Hh _ _ Hb) as (y & Hy & _ & Hyn & _).
      destruct (Hh _ _ Hb') as (y' & Hy' & _ & Hyn' & _). congruence.
Qed.

(** The start of a bucket record: the bucket is created, the pairs follow. *)
Lemma restore_open_run w t tx st C name r :
  filling w t tx st C → (0 < blen name < 2 ^ 32)%Z → (blen name ≤ maxAlloc)%Z → name ∉ visible tx →
  ∃ b w' tx' x l, (∀ rounds, restore_buckets fuel maxAlloc (S rounds) (put_u32 (blen name) ++ name ++ r) t w =
      (let! o := restore_pairs fuel maxAlloc (S (length r)) b r in
       match o with inr e => st_ret (Some e) | inl r => restore_buckets fuel maxAlloc rounds r t end) w') ∧
    filling w' t tx' st (<[name := []]> C) ∧ visible tx' = {[name]} ∪ visible tx ∧ t_managed tx' = t_managed tx ∧
    w_db w' = w_db w ∧ t_bctx tx' !! name = Some b ∧ leafy w' b x l [] ∧ b_tx x = t ∧ b_name x = name.
Proof.
  intros Hfi Hnl Hna Hv. assert (Hne : name ≠ []) by (intros ->; unfold blen in Hnl; simpl in Hnl; lia).
  destruct (created_step w t tx st C name Hfi Hne Hv) as (b & w1 & tx1 & x & l & Hrun1 & Hfi1 & Hvis1 & Hm1 & Hdb1 & Hb1 & Hl1 & Hxt & Hxn).
  set (q := (8106479329266893 # 9007199254740992)%Q). pose proof (rd_bkt _ _ _ _ (ly_read _ _ _ _ _ Hl1)) as Hx.
  pose proof (leafy_fill _ _ _ _ _ q Hl1) as Hl2. set (w2 := set_bkts _ w1) in *.
  assert (Ha2 : acts b w1 w2).
  { split; [apply evo_set_fill; [apply Hfi1|done|by eapply leafy_dirty]|done|]. intros b' Hb'. simpl. by rewrite lookup_insert_ne. }
  destruct (filling_acts w1 w2 t tx1 st (<[name := []]> C) name b _ l [] Hfi1 Hb1 Ha2 Hl2 Hxt Hxn) as (tx2 & Hst2 & Hfi2).
  pose proof (strip_same _ _ Hst2) as Hsame. destruct (same_dir_ok _ _ Hsame (ot_dir _ _ _ _ (fi_open _ _ _ _ _ Hfi1))) as [_ Hvis2].
  rewrite insert_insert_eq in Hfi2. exists b, w2, tx2, (set_b_FillPercent q x), l. split_and!; auto.
  - intros rounds. cbn [restore_buckets]. rewrite ReadFull_u32, get_put_u32 by lia. destruct (Z.eqb_spec (blen name) 0); [lia|].
    rewrite (bind_Ret _ _ _ _ _ (make_bytes_run (blen name) w Hna)), ReadFull_app by (unfold blen; lia).
    rewrite (bind_Ret _ _ _ _ _ Hrun1). fold q. by rewrite (bind_Ret _ _ _ _ _ (upd_bkt_run _ _ _ _ Hx)).
  - congruence.
  - rewrite <- Hm1. clear -Hst2. destruct tx2, tx1. unfold strip in Hst2. simpl in *. by simplify_eq.
  - destruct Hsame as (_ & _ & _ & _ & ->). done.
Qed.

Lemma length_encode_pairs (kvs : list kv) : length kvs ≤ length (encode_pairs kvs).
Proof.
  induction kvs as [|p l IH]; [simpl; lia|].
  change (encode_pairs (p :: l)) with (encode_pair p ++ encode_pairs l). rewrite length_app. unfold encode_pair.
  rewrite !length_app. unfold put_u32 at 1. rewrite length_le_bytes. simpl. lia.
Qed.

(** Work on one handle, for the record of the transaction. *)
Lemma filling_work w w' t tx st C name b x l kvs :
  filling w t tx st C → t_bctx tx !! name = Some b → acts b w w' → leafy w' b x l kvs → b_tx x = t → b_name x = name →
  ∃ tx', filling w' t tx' st (<[name := kvs]> C) ∧ visible tx' = visible tx ∧ t_managed tx' = t_managed tx ∧ w_db w' = w_db w.
Proof.
  intros Hfi Hb Ha Hl Hxt Hxn. destruct (filling_acts _ _ _ _ _ _ _ _ _ _ _ Hfi Hb Ha Hl Hxt Hxn) as (tx' & Hst & Hfi').
  pose proof (strip_same _ _ Hst) as Hsame. destruct (same_dir_ok _ _ Hsame (ot_dir _ _ _ _ (fi_open _ _ _ _ _ Hfi))) as [_ Hvis].
  exists tx'. split_and!; [done|done| |apply (e_db _ _ (a_evo _ _ _ Ha))]. clear -Hst. destruct tx', tx. unfold strip in Hst. simpl in *. by simplify_eq.
Qed.

Lemma restore_bucket_run w t tx st C name kvs rest :
  filling w t tx st C → bucket_fits maxAlloc (name, kvs) → name ∉ visible tx →
  ∃ w' tx', (∀ rounds, restore_buckets fuel maxAlloc (S rounds) (encode_bucket (name, kvs) ++ rest) t w =
      restore_buckets fuel maxAlloc rounds rest t w') ∧
    filling w' t tx' st (<[name := kvs]> C) ∧ visible tx' = {[name]} ∪ visible tx ∧ t_managed tx' = t_managed tx ∧ w_db w' = w_db w.
Proof.
  intros Hfi (Hnl & Hna & Hsort & Hpairs) Hv. cbn [fst snd] in Hnl, Hna, Hsort, Hpairs.
  destruct (restore_open_run w t tx st C name (encode_pairs kvs ++ put_u32 0 ++ rest) Hfi Hnl Hna Hv)
    as (b & w2 & tx2 & x & l & Hrun2 & Hfi2 & Hvis2 & Hm2 & Hdb2 & Hb2 & Hl2 & Hxt & Hxn).
  destruct (restore_pairs_run b kvs (S (length (encode_pairs kvs ++ put_u32 0 ++ rest))) w2 _ l [] rest (fi_sane _ _ _ _ _ Hfi2) Hl2 Hpairs)
    as (w3 & x3 & l3 & Hrun3 & Hl3 & Ha3 & Hxt3 & Hxn3).
  { pose proof (length_encode_pairs kvs). rewrite length_app. lia. }
  rewrite kv_inserts_sorted in Hl3 by done. simpl in Hl3.
  destruct (filling_work w2 w3 t tx2 st (<[name := []]> C) name b x3 l3 kvs Hfi2 Hb2 Ha3 Hl3) as (tx3 & Hfi3 & Hvis3 & Hm3 & Hdb3); [congruence..|].
  rewrite insert_insert_eq in Hfi3. exists w3, tx3. split; [|split_and!; [done|congruence..]].
  intros rounds. assert (Heq : encode_bucket (name, kvs) ++ rest = put_u32 (blen name) ++ name ++ encode_pairs kvs ++ put_u32 0 ++ rest).
  { unfold encode_bucket. by rewrite <- !app_assoc. }
  rewrite Heq, Hrun2. by rewrite (bind_Ret _ _ _ _ _ Hrun3).
Qed.

Lemma restore_buckets_run t st l : ∀ rounds w tx C rest,
  filling w t tx st C → Forall (bucket_fits maxAlloc) l → NoDup l.*1 → (∀ n, n ∈ l.*1 → n ∉ visible tx) → length l < rounds →
  ∃ w' tx' C', restore_buckets fuel maxAlloc rounds (concat (encode_bucket <$> l) ++ put_u32 0 ++ rest) t w = (Ret None, w') ∧
    filling w' t tx' st C' ∧ visible tx' = list_to_set l.*1 ∪ visible tx ∧ t_managed tx' = t_managed tx ∧
    (∀ q, q ∈ l → C' !! q.1 = Some q.2) ∧ (∀ n, n ∉ l.*1 → C' !! n = C !! n) ∧ w_db w' = w_db w.
Proof.
  induction l as [|[name kvs] l IH]; intros rounds w tx C rest Hfi Hok Hnd Hv Hr; (destruct rounds as [|rounds]; [simpl in Hr; lia|]).
  { exists w, tx, C. split_and!; [|done|set_solver|done|by intros q ?%elem_of_nil|done|done]. cbn [fmap list_fmap concat app restore_buckets].
    by rewrite ReadFull_u32, get_put_u32 by lia. }
  apply Forall_cons in Hok as [Hq Hok]. apply NoDup_cons in Hnd as [Hname Hnd]. simpl in Hr.
  change (concat (encode_bucket <$> (name, kvs) :: l)) with (encode_bucket (name, kvs) ++ concat (encode_bucket <$> l)). rewrite <- app_assoc.
  destruct (restore_bucket_run w t tx st C name kvs (concat (encode_bucket <$> l) ++ put_u32 0 ++ rest) Hfi Hq (Hv name ltac:(by left)))
    as (w1 & tx1 & Hrun1 & Hfi1 & Hvis1 & Hm1 & Hdb1).
  rewrite Hrun1. destruct (IH rounds w1 tx1 _ rest Hfi1 Hok Hnd) as (w2 & tx2 & C2 & Hrun2 & Hfi2 & Hvis2 & Hm2 & Hin2 & Hout2 & Hdb2).
  - intros n Hn. rewrite Hvis1. intros [->%elem_of_singleton|Hnv]%elem_of_union; [by destruct Hname|].
    apply (Hv n); [by right|done].
  - lia.
  - exists w2, tx2, C2. split_and!; [done|done| |congruence| | |congruence].
    + rewrite Hvis2, Hvis1. simpl. set_solver.
    + intros [n k] [[= -> ->]|Hq']%elem_of_cons; [|by apply Hin2]. simpl. rewrite Hout2 by done. apply lookup_insert_eq.
    + intros n Hn. simpl in Hn. rewrite Hout2 by set_solver. rewrite lookup_insert_ne by set_solver. done.
Qed.

(** The transaction [Update] starts [Restore] with. *)
Lemma begin_filling w st :
  sane w → dirs w → db_readOnly (w_db w) = false → db_rwlock (w_db w) = false → db_opened (w_db w) = true → db_state (w_db w) = Some st →
  ∃ w1 w2, Begin true w = (Ret (inr (w_nextt w)), w1) ∧ upd_tx (w_nextt w) (set_t_managed true) w1 = (Ret tt, w2) ∧
    filling w2 (w_nextt w) (set_t_managed true (begun true st)) st ∅ ∧ w_db w2 = set_db_rwlock true (w_db w).
Proof.
  intros Hs Hd H1 H2 H3 H4. pose proof (beginRWTx_run w st H1 H2 H3 H4) as Hrun.
  pose proof (q_sane _ _ (proj1 (Begin_q true w Hs))) as Hs1. pose proof (Begin_dirs true w Hd) as Hd1. simpl in Hs1, Hd1. rewrite Hrun in Hs1, Hd1.
  set (w1 := (new_tx _ _).2) in *. simpl in Hs1, Hd1. assert (Ht : w_txs w1 !! w_nextt w = Some (begun true st)) by (simpl; apply lookup_insert_eq).
  pose proof (q_sane _ _ (proj1 (set_managed_q (w_nextt w) true w1 Hs1))) as Hs2.
  pose proof (upd_tx_dirs (w_nextt w) (set_t_managed true) w1 Hd1 ltac:(done)) as Hd2. rewrite (upd_tx_run _ _ _ _ Ht) in Hs2, Hd2.
  exists w1, (set_txs (<[w_nextt w := set_t_managed true (begun true st)]> (w_txs w1)) w1).
  split; [exact Hrun|]. split; [by apply upd_tx_run|]. split; [|done].
  split; [done|done| |done|by rewrite !dom_empty_L|intros ? ? ?; simpl; by rewrite lookup_empty].
  split; [apply lookup_insert_eq|done|done|]. split; simpl; [set_solver|intros ? ?; by rewrite lookup_empty|set_solver|].
  intros st0 n bs [= <-]. by apply (dv_db _ Hd).
Qed.

(** A bucket as a restore leaves it: one node if the pairs fit one. *)
Definition packed (w : world) (st : dbState) (name : bytes) (kvs : list kv) : Prop :=
  ∃ T, stored_as w st name T ∧ contents T = kvs ∧ (fits_leaf kvs = true → tleaf T = true).

(** [Commit] of a filling transaction that is no longer managed. *)
Lemma filling_commit w t tx st C :
  fair it → filling w t tx st C → (∀ n kvs, C !! n = Some kvs → length kvs + 2 ≤ fuel) →
  ∃ w1 w2 st', upd_tx t (set_t_managed false) w = (Ret tt, w1) ∧
    Commit it fuel rebalanceTime spillTime t w1 = (Ret None, w2) ∧ db_state (w_db w2) = Some st' ∧
    dom (ds_buckets st') = visible tx ∧ (∀ n kvs, C !! n = Some kvs → packed w2 st' n kvs) ∧
    (∃ tx', w_txs w2 !! t = Some tx' ∧ t_db tx' = false) ∧ sane w2 ∧ dirs w2 ∧ db_rwlock (w_db w2) = false ∧
    db_opened (w_db w2) = db_opened (w_db w) ∧ db_readOnly (w_db w2) = db_readOnly (w_db w).
Proof.
  intros Hf [Hs Hd Ho Hw Hn Hl] HC. pose proof Ho as [Ht Hdb Hba Hok]. set (tx1 := set_t_managed false tx).
  pose proof (q_sane _ _ (proj1 (set_managed_q t false w Hs))) as Hs1. pose proof (upd_tx_dirs t (set_t_managed false) w Hd ltac:(done)) as Hd1.
  rewrite (upd_tx_run _ _ _ _ Ht) in Hs1, Hd1. simpl in Hs1, Hd1. fold tx1 in Hs1, Hd1. set (w1 := set_txs (<[t := tx1]> (w_txs w)) w) in *.
  assert (Ho1 : open_tx w1 t tx1 st).
  { split; [apply lookup_insert_eq|done|done|]. eapply same_dir_ok; [|exact Hok]. done. }
  assert (Hl1 : ∀ name b kvs, t_bctx tx1 !! name = Some b → C !! name = Some kvs → ∃ x l, leafy w1 b x l kvs).
  { intros name b kvs Hb Hk. destruct (Hl _ _ _ Hb Hk) as (x & l & Hlx & Hxt & _). exists x, l. eapply leafy_extend; [| | |exact Hlx].
    - done.
    - exact (rd_bkt _ _ _ _ (ly_read _ _ _ _ _ Hlx)).
    - intros tx0. rewrite Hxt. simpl. rewrite lookup_insert_eq. intros Htx0. simplify_eq. by exists tx1. }
  assert (Hdom : ∀ name, is_Some (t_bctx tx1 !! name) ↔ is_Some (C !! name)).
  { intros name. rewrite <- !elem_of_dom. simpl. by rewrite Hn. }
  destruct (Commit_trees it fuel rebalanceTime spillTime t w1 tx1 st Hf Hs1 Hd1 Ho1 Hw eq_refl) as (w2 & st' & Hrun & Hst' & Hdm & Hsee & _ & Hcl & Hlk & Hro).
  { intros name b Hb. destruct (proj1 (Hdom name) (ex_intro _ _ Hb)) as [kvs Hk]. destruct (Hl1 _ _ _ Hb Hk) as (x & l & Hlx).
    exists x, (Leaf l kvs). apply leafy_ripe; [done|]. by eapply HC. }
  destruct (Commit_commits it fuel rebalanceTime spillTime t w1 Hf Hs1) as [Hs2 _ _ _ Hop].
  pose proof (Commit_dirs it fuel rebalanceTime spillTime t w1 Hf Hs1 Hd1) as Hd2. rewrite Hrun in Hs2, Hop, Hd2. simpl in Hs2, Hop, Hd2.
  exists w1, w2, st'. split; [by apply upd_tx_run|]. split_and!; auto. intros n kvs Hk.
  destruct (proj2 (Hdom n) (ex_intro _ _ Hk)) as [b Hb]. destruct (Hl1 _ _ _ Hb Hk) as (x & l & Hlx).
  pose proof (Hsee n (Leaf l kvs) (do_bctx tx1 (ot_dir _ _ _ _ Ho1) _ _ Hb)) as Hn1. rewrite Hb in Hn1.
  destruct Hn1 as (T & [Hc Hlf] & HT); [exists x; apply Hlx|]. exists T. split_and!; [done|done|by apply Hlf].
Qed.

(** ** A restore is a sequence of calls *)

Lemma CreateBucket_writes t name w b w' :
  CreateBucket t name w = (Ret (inr b), w') → ∃ x, w_bkts w' !! b = Some x ∧ is_Some (b_dirty x).
Proof.
  unfold CreateBucket. destruct (w_txs w !! t) as [tx|] eqn:Ht; [|unfold get_tx, st_bind, st_get, st_deref; by rewrite Ht].
  rewrite (bind_Ret _ _ _ _ _ (get_tx_run _ _ _ Ht)). destruct (negb (t_db tx)); [done|]. destruct (t_writable tx) eqn:Hw; [|done]. simpl.
  destruct (length name =? 0); [done|]. intros (ex & w1 & Hex & Hrest)%bind_Ret_inv. destruct ex; [done|].
  assert (w1 = w) as ->.
  { destruct (bool_decide (name ∈ t_deleted tx)); [by injection Hex|]. destruct (bool_decide (name ∈ t_created tx)); [by injection Hex|].
    unfold bucketExistsCommitted, base_buckets, st_bind, st_deref, st_ret in Hex. destruct (t_base tx); [by injection Hex|done]. }
  unfold newBucket in Hrest. rewrite (bind_Ret _ _ w (w_nextb w) (new_bkt (mkBucket t name None (Some ∅) DefaultFillPercent) w).2) in Hrest.
  2:{ by rewrite (bind_Ret _ _ _ _ _ (get_tx_run _ _ _ Ht)), Hw. }
  unfold new_node, new_bkt, putBctx, mark_dirty, upd_bkt, upd_tx, get_tx, get_bkt, st_bind, st_get, st_put, st_deref, st_ret, st_modify, st_gets in Hrest.
  simpl in Hrest. repeat (rewrite ?lookup_insert_eq in Hrest; simpl in Hrest). rewrite Ht in Hrest. simpl in Hrest.
  repeat (rewrite ?lookup_insert_eq in Hrest; simpl in Hrest). injection Hrest as <- <-. simpl. rewrite lookup_insert_eq. eauto.
Qed.

Lemma make_bytes_steps n w : rtc step w (make_bytes maxAlloc n w).2.
Proof. unfold make_bytes. by destruct (_ <? _)%Z. Qed.

Lemma restore_pairs_steps rounds : ∀ b r w, rtc step w (restore_pairs fuel maxAlloc rounds b r w).2.
Proof.
  induction rounds as [|rounds IH]; intros b r w; simpl; [done|]. destruct (ReadFull 4 r) as [|[buf r1]]; [done|]. destruct (_ =? _)%Z; [done|].
  apply steps_bind; [apply make_bytes_steps|]. intros n w1 _. destruct (ReadFull n r1) as [|[key r2]]; [done|]. destruct (ReadFull 8 r2) as [|[buf2 r3]]; [done|].
  apply steps_bind; [apply make_bytes_steps|]. intros n2 w2 _. destruct (ReadFull n2 r3) as [|[val r4]]; [done|].
  apply steps_bind; [rewrite <- ignore_state; by apply (steps_call (CPut fuel b key val))|]. intros [e|] w3 _; [done|apply IH].
Qed.

Lemma restore_buckets_steps rounds : ∀ r t w, rtc step w (restore_buckets fuel maxAlloc rounds r t w).2.
Proof.
  induction rounds as [|rounds IH]; intros r t w; simpl; [done|]. destruct (ReadFull 4 r) as [|[buf r1]]; [done|]. destruct (_ =? _)%Z; [done|].
  apply steps_bind; [apply make_bytes_steps|]. intros n w1 _. destruct (ReadFull n r1) as [|[name r2]]; [done|].
  apply steps_bind; [rewrite <- ignore_state; by apply (steps_call (CCreateBucket t name))|]. intros [e|b] w2 Hcr; [done|].
  destruct (CreateBucket_writes _ _ _ _ _ Hcr) as (x & Hx & [D HD]). apply steps_bind.
  - pose proof (steps_call (CSetFillPercent b (8106479329266893 # 9007199254740992)) w2 I) as Hst. simpl in Hst. unfold set_FillPercent in Hst.
    by rewrite (bind_Ret _ _ _ _ _ (get_bkt_run _ _ _ Hx)), HD in Hst.
  - intros _ w3 _. apply steps_bind; [apply (restore_pairs_steps (S (length r2)))|]. intros [r'|e] w4 _; [apply IH|done].
Qed.

(** The states after a restore, whatever the stream, are states of [System]. *)
Lemma Restore_steps r w : fair it → rtc step w (Restore it fuel rebalanceTime spillTime maxAlloc r w).2.
Proof.
  intros Hf. unfold Restore. destruct (ReadFull 16 r) as [|[hdr r1]]; [done|]. destruct (negb _); [done|]. destruct (negb _); [done|].
  apply Update_steps; [done|]. intros t w1. apply restore_buckets_steps.
Qed.

(** ** Truncated streams *)

(** [p] is a proper prefix of [s]. *)
Definition cut (p s : bytes) : Prop := ∃ x q, s = p ++ x :: q.

Lemma cut_app p a r : cut p (a ++ r) → (∃ p', p = a ++ p' ∧ cut p' r) ∨ length p < length a.
Proof.
  intros (x & q & Heq). destruct (decide (length p < length a)) as [|Hge]; [by right|left].
  exists (drop (length a) p). assert (Hp : p = a ++ drop (length a) p).
  { rewrite <- (take_drop (length a) p) at 1. f_equal. apply (f_equal (take (length a))) in Heq.
    rewrite take_app_length, take_app_le in Heq by lia. done. }
  split; [done|]. exists x, q. rewrite Hp, <- app_assoc in Heq. by apply app_inv_head in Heq.
Qed.

Lemma ReadFull_short n p : length p < n → ∃ e, ReadFull n p = inl e.
Proof.
  intros Hp. unfold ReadFull. destruct (Nat.eqb_spec n 0); [lia|]. destruct (length p =? 0); [eauto|].
  rewrite (proj2 (Nat.ltb_lt _ _)) by done. eauto.
Qed.

Lemma cut_nil p : ¬ cut p [].
Proof. intros (x & q & Heq). by destruct p. Qed.

Definition io_failure (e : err) : Prop := ∃ c i, e = ErrSnapshot c (ErrIO i).

Lemma restore_pairs_cut b l : ∀ rounds w x lf acc rest p,
  sane w → leafy w b x lf acc → Forall pair_ok l → cut p (encode_pairs l ++ put_u32 0 ++ rest) → length p < rounds →
  (∃ p', p = encode_pairs l ++ put_u32 0 ++ p' ∧ cut p' rest) ∨
  ∃ w' x' lf' kvs e, restore_pairs fuel maxAlloc rounds b p w = (Ret (inr e), w') ∧ io_failure e ∧
    leafy w' b x' lf' kvs ∧ acts b w w' ∧ b_tx x' = b_tx x ∧ b_name x' = b_name x.
Proof.
  induction l as [|[k v] l IH]; intros rounds w x lf acc rest p Hs Hl Hok Hcut Hr; (destruct rounds as [|rounds]; [lia|]).
  { change (encode_pairs [] ++ put_u32 0 ++ rest) with (put_u32 0 ++ rest) in *.
    destruct (cut_app _ _ _ Hcut) as [?|Hlt]; [by left|right]. unfold put_u32 in Hlt. rewrite length_le_bytes in Hlt.
    destruct (ReadFull_short 4 p Hlt) as [e He]. cbn [restore_pairs]. rewrite He. eexists w, x, lf, acc, _.
    split_and!; try done; [eexists _, _; done|apply acts_refl, Hs]. }
  apply Forall_cons in Hok as [[Hk Hv] Hok]. simpl in Hk, Hv. unfold MaxKeySize in Hk.
  assert (Hvl : (0 ≤ blen v)%Z) by (unfold blen; lia). assert (Hmk : (MaxValueSize <= 2 ^ 31)%Z) by (unfold MaxValueSize; lia).
  assert (Hstop : ∀ e, restore_pairs fuel maxAlloc (S rounds) b p w = (Ret (inr e), w) → io_failure e →
    ∃ w' x' lf' kvs e, restore_pairs fuel maxAlloc (S rounds) b p w = (Ret (inr e), w') ∧ io_failure e ∧
      leafy w' b x' lf' kvs ∧ acts b w w' ∧ b_tx x' = b_tx x ∧ b_name x' = b_name x).
  { intros e Hrun He. exists w, x, lf, acc, e. split_and!; try done. apply acts_refl, Hs. }
  assert (Henc : ∀ r, encode_pairs ((k, v) :: l) ++ r = put_u32 (blen k) ++ k ++ put_u64 (blen v) ++ v ++ encode_pairs l ++ r).
  { intros r. change (encode_pairs ((k, v) :: l)) with ((put_u32 (blen k) ++ k ++ put_u64 (blen v) ++ v) ++ encode_pairs l). by rewrite <- !app_assoc. }
  rewrite Henc in *. cbn [restore_pairs] in *.
  destruct (cut_app _ _ _ Hcut) as [(p1 & -> & Hc1)|Hlt].
  2:{ right. unfold put_u32 in Hlt. rewrite length_le_bytes in Hlt. destruct (ReadFull_short 4 p Hlt) as [e He]. rewrite He in *.
      eapply Hstop; [done|]. eexists _, _. done. }
  rewrite ReadFull_u32, get_put_u32 in * by lia. destruct (Z.eqb_spec (blen k) 0); [lia|].
  rewrite (bind_Ret _ _ _ _ _ (make_bytes_run (blen k) w ltac:(unfold MaxValueSize in *; lia))) in *.
  destruct (cut_app _ _ _ Hc1) as [(p2 & -> & Hc2)|Hlt].
  2:{ right. destruct (ReadFull_short (Z.to_nat (blen k)) p1) as [e He]; [unfold blen; lia|]. rewrite He in *. eapply Hstop; [done|]. eexists _, _. done. }
  rewrite ReadFull_app in * by (unfold blen; lia). destruct (cut_app _ _ _ Hc2) as [(p3 & -> & Hc3)|Hlt].
  2:{ right. unfold put_u64 in Hlt. rewrite length_le_bytes in Hlt. destruct (ReadFull_short 8 p2 Hlt) as [e He]. rewrite He in *.
      eapply Hstop; [done|]. eexists _, _. done. }
  rewrite ReadFull_u64, get_put_u64 in * by (unfold MaxValueSize in *; lia). rewrite (bind_Ret _ _ _ _ _ (make_bytes_run (blen v) w ltac:(lia))) in *.
  destruct (cut_app _ _ _ Hc3) as [(p4 & -> & Hc4)|Hlt].
  2:{ right. destruct (ReadFull_short (Z.to_nat (blen v)) p3) as [e He]; [unfold blen; lia|]. rewrite He in *. eapply Hstop; [done|]. eexists _, _. done. }
  rewrite ReadFull_app in * by (unfold blen; lia).
  destruct (Put_leafy fuel w b x lf acc k v Hs Hl fuel_ok) as (w1 & x1 & lf1 & Hrun & Hl1 & Ha1 & Ht1 & Hn1); [unfold MaxKeySize; lia|done|].
  rewrite (bind_Ret _ _ _ _ _ Hrun).
  destruct (IH rounds w1 x1 lf1 (kv_insert k v acc) rest p4) as [(p' & -> & Hcp)|(w2 & x2 & lf2 & kvs & e & Hrun2 & He & Hl2 & Ha2 & Ht2 & Hn2)]; auto.
  { eapply sane_evo; [exact Hs|apply Ha1]. } { rewrite !length_app in Hr. unfold put_u32, put_u64 in Hr. rewrite !length_le_bytes in Hr. lia. }
  { left. exists p'. split; [by rewrite Henc|done]. }
  right. exists w2, x2, lf2, kvs, e. split_and!; [done|done|done|by eapply acts_trans|congruence|congruence].
Qed.

Lemma restore_buckets_cut t st l : ∀ rounds w tx C p,
  filling w t tx st C → Forall (bucket_fits maxAlloc) l → NoDup l.*1 → (∀ n, n ∈ l.*1 → n ∉ visible tx) →
  cut p (concat (encode_bucket <$> l) ++ put_u32 0) → length p < rounds →
  ∃ w' tx' C' e, restore_buckets fuel maxAlloc rounds p t w = (Ret (Some e), w') ∧ io_failure e ∧
    filling w' t tx' st C' ∧ t_managed tx' = t_managed tx ∧ w_db w' = w_db w.
Proof.
  induction l as [|[name kvs] l IH]; intros rounds w tx C p Hfi Hok Hnd Hv Hcut Hr; (destruct rounds as [|rounds]; [lia|]).
  { change (concat (encode_bucket <$> []) ++ put_u32 0) with (put_u32 0) in Hcut. rewrite <- (app_nil_r (put_u32 0)) in Hcut.
    destruct (cut_app _ _ _ Hcut) as [(p' & _ & Hc)|Hlt]; [by apply cut_nil in Hc|].
    unfold put_u32 in Hlt. rewrite length_le_bytes in Hlt. destruct (ReadFull_short 4 p Hlt) as [e He]. cbn [restore_buckets]. rewrite He.
    eexists w, tx, C, _. split_and!; try done. eexists _, _. done. }
  apply Forall_cons in Hok as [Hq Hok]. apply NoDup_cons in Hnd as [Hname Hnd]. pose proof Hq as (Hnl & Hna & Hsort & Hpairs). cbn [fst snd] in Hnl, Hna, Hsort, Hpairs.
  assert (Hnv : name ∉ visible tx) by (apply Hv; by left).
  assert (Henc : concat (encode_bucket <$> (name, kvs) :: l) ++ put_u32 0 =
    put_u32 (blen name) ++ name ++ encode_pairs kvs ++ put_u32 0 ++ concat (encode_bucket <$> l) ++ put_u32 0).
  { change (concat (encode_bucket <$> (name, kvs) :: l)) with (encode_bucket (name, kvs) ++ concat (encode_bucket <$> l)). unfold encode_bucket at 1. by rewrite <- !app_assoc. }
  rewrite Henc in Hcut. destruct (cut_app _ _ _ Hcut) as [(p1 & -> & Hc1)|Hlt].
  2:{ unfold put_u32 in Hlt. rewrite length_le_bytes in Hlt. destruct (ReadFull_short 4 p Hlt) as [e He]. cbn [restore_buckets]. rewrite He.
      eexists w, tx, C, _. split_and!; try done. eexists _, _. done. }
  destruct (cut_app _ _ _ Hc1) as [(p2 & -> & Hc2)|Hlt].
  2:{ cbn [restore_buckets]. rewrite ReadFull_u32, get_put_u32 by lia. destruct (Z.eqb_spec (blen name) 0); [lia|].
      rewrite (bind_Ret _ _ _ _ _ (make_bytes_run (blen name) w Hna)).
      destruct (ReadFull_short (Z.to_nat (blen name)) p1) as [e He]; [unfold blen; lia|]. rewrite He.
      eexists w, tx, C, _. split_and!; try done. eexists _, _. done. }
  destruct (restore_open_run w t tx st C name p2 Hfi Hnl Hna Hnv) as (b & w2 & tx2 & x & lf & Hrun2 & Hfi2 & Hvis2 & Hm2 & Hdb2 & Hb2 & Hl2 & Hxt & Hxn).
  rewrite !length_app in Hr. unfold put_u32 in Hr at 1. rewrite length_le_bytes in Hr.
  destruct (restore_pairs_cut b kvs (S (length p2)) w2 x lf [] _ p2 (fi_sane _ _ _ _ _ Hfi2) Hl2 Hpairs Hc2 ltac:(lia))
    as [(p' & -> & Hc3)|(w3 & x3 & lf3 & kvs3 & e & Hrun3 & He & Hl3 & Ha3 & Hxt3 & Hxn3)].
  - destruct (restore_bucket_run w t tx st C name kvs p' Hfi Hq Hnv) as (w4 & tx4 & Hrun4 & Hfi4 & Hvis4 & Hm4 & Hdb4).
    destruct (IH rounds w4 tx4 _ p' Hfi4 Hok Hnd) as (w5 & tx5 & C5 & e & Hrun5 & He5 & Hfi5 & Hm5 & Hdb5); [|done| |].
    + intros n Hn. rewrite Hvis4. intros [->%elem_of_singleton|Hnv']%elem_of_union; [by destruct Hname|]. apply (Hv n); [by right|done].
    + rewrite !length_app in Hr. unfold put_u32 in Hr. rewrite length_le_bytes in Hr. lia.
    + exists w5, tx5, C5, e. split_and!; [|done|done|congruence|congruence].
      rewrite <- Hrun5, <- Hrun4. unfold encode_bucket. by rewrite <- !app_assoc.
  - destruct (filling_work w2 w3 t tx2 st _ name b x3 lf3 kvs3 Hfi2 Hb2 Ha3 Hl3) as (tx3 & Hfi3 & Hvis3 & Hm3 & Hdb3); [congruence..|].
    eexists w3, tx3, _, e. split_and!; [|done|exact Hfi3|congruence|congruence]. rewrite Hrun2. by rewrite (bind_Ret _ _ _ _ _ Hrun3).
Qed.

(** A fresh database: open, writable, nobody writing, no buckets. *)
Definition fresh_db (w : world) : Prop :=
  reachable w ∧ db_readOnly (w_db w) = false ∧ db_rwlock (w_db w) = false ∧ db_opened (w_db w) = true ∧
  db_state (w_db w) = Some (mkDbState ∅).

(** The database [w] is open, ready for a writer, and holds exactly the buckets [l],
    each that fits one node as one. *)
Record holds_db (w : world) (l : list (bytes * list kv)) : Prop := mkHolds {
  hd_sane : sane w;
  hd_dirs : dirs w;
  hd_mode : db_readOnly (w_db w) = false;
  hd_opened : db_opened (w_db w) = true;
  hd_lock : db_rwlock (w_db w) = false;
  hd_state : ∃ st, db_state (w_db w) = Some st ∧ dom (ds_buckets st) = list_to_set l.*1 ∧ ∀ q, q ∈ l → packed w st q.1 q.2
}.

Lemma Restore_run l rest w :
  fair it → fresh_db w → Forall (bucket_fits maxAlloc) l → NoDup l.*1 → (∀ q, q ∈ l → length q.2 + 2 ≤ fuel) →
  ∃ w', Restore it fuel rebalanceTime spillTime maxAlloc (encode_db l ++ rest) w = (Ret None, w') ∧ holds_db w' l.
Proof.
  intros Hf (Hreach & Hro & Hlk & Hop & Hst) Hok Hnd Hfl. destruct (reachable_inv _ Hreach) as [Hs Hd].
  destruct (begin_filling w (mkDbState ∅) Hs Hd Hro Hlk Hop Hst) as (w1 & w2 & Hrun1 & Hrun2 & Hfi2 & Hdb2). set (t := w_nextt w) in *.
  set (r := concat (encode_bucket <$> l) ++ put_u32 0 ++ rest).
  assert (Hlen : length l ≤ length (concat (encode_bucket <$> l))).
  { clear. induction l as [|q l IH]; [simpl; lia|]. change (concat (encode_bucket <$> q :: l)) with (encode_bucket q ++ concat (encode_bucket <$> l)).
    rewrite length_app. unfold encode_bucket at 1. rewrite length_app. unfold put_u32 at 1. rewrite length_le_bytes. simpl. lia. }
  destruct (restore_buckets_run t (mkDbState ∅) l (S (length r)) w2 _ _ rest Hfi2 Hok Hnd) as (w3 & tx3 & C3 & Hrun3 & Hfi3 & Hvis3 & _ & HC3 & HC3' & Hdb3).
  { intros n _. unfold visible, dir_names. simpl. set_solver. } { unfold r. rewrite length_app. lia. }
  destruct (filling_commit w3 t tx3 (mkDbState ∅) C3 Hf Hfi3) as (w4 & w5 & st' & Hrun4 & Hrun5 & Hst' & Hdom & Hstored & (tx5 & Htx5 & Hcl5) & Hs5 & Hd5 & Hlk5 & Hop5 & Hro5).
  { intros n kvs Hk. destruct (decide (n ∈ l.*1)) as [Hn|Hn].
    - apply list_elem_of_fmap in Hn as (q & -> & Hq). rewrite (HC3 q Hq) in Hk. simplify_eq. by apply Hfl.
    - rewrite HC3' in Hk by done. by rewrite lookup_empty in Hk. }
  assert (HRest : Restore it fuel rebalanceTime spillTime maxAlloc (encode_db l ++ rest) w =
    Update it fuel rebalanceTime spillTime (restore_buckets fuel maxAlloc (S (length r)) r) w).
  { unfold Restore, encode_db. rewrite <- !app_assoc. fold r. rewrite ReadFull_app by reflexivity. reflexivity. }
  exists w5. split.
  - rewrite HRest. unfold Update. rewrite (bind_Ret _ _ _ _ _ Hrun1). unfold with_rollback.
    rewrite (bind_Ret _ _ _ _ _ Hrun2), (bind_Ret _ _ _ _ _ Hrun3), (bind_Ret _ _ _ _ _ Hrun4), Hrun5.
    unfold rollback. unfold st_bind at 1. by rewrite (bind_Ret _ _ _ _ _ (get_tx_run _ _ _ Htx5)), Hcl5.
  - split; [done|done|by rewrite Hro5, Hdb3, Hdb2|by rewrite Hop5, Hdb3, Hdb2|done|]. exists st'. split; [done|]. split; [|intros q Hq; apply Hstored; by apply HC3].
    rewrite Hdom, Hvis3. unfold visible, dir_names. simpl. set_solver.
Qed.

(** [Update] when the function fails: the transaction is rolled back. *)
Lemma filling_rollback w t tx st C (e : err) :
  filling w t tx st C →
  ∃ w1 w2, upd_tx t (set_t_managed false) w = (Ret tt, w1) ∧
    (let! _ := Rollback t in st_ret (Some e)) w1 = (Ret (Some e), w2) ∧
    db_state (w_db w2) = db_state (w_db w) ∧ db_rwlock (w_db w2) = false ∧
    (∃ tx', w_txs w2 !! t = Some tx' ∧ t_db tx' = false) ∧ db_opened (w_db w2) = db_opened (w_db w).
Proof.
  intros [Hs Hd [Ht Hdb Hba Hok] Hw Hn Hl]. set (tx1 := set_t_managed false tx). set (w1 := set_txs (<[t := tx1]> (w_txs w)) w).
  assert (Ht1 : w_txs w1 !! t = Some tx1) by apply lookup_insert_eq. destruct (Tx_close_run w1 t tx1 Ht1 Hdb) as (d & Hrun & Hst & Hop & Hlk).
  eexists w1, _. split; [by apply upd_tx_run|]. split.
  - rewrite (bind_Ret _ _ w1 None (set_txs (<[t := closed_tx tx1]> (w_txs w1)) (set_db d w1))); [done|]. unfold Rollback.
    rewrite (bind_Ret _ _ _ _ _ (get_tx_run _ _ _ Ht1)). rewrite (bind_Ret (Assert (negb (t_managed tx1))) _ w1 tt w1 eq_refl).
    replace (t_db tx1) with true by done. change (negb true) with false. cbv iota.
    rewrite (bind_Ret _ _ _ tt (set_txs (<[t := closed_tx tx1]> (w_txs w1)) (set_db d w1))); [done|]. unfold rollback.
    rewrite (bind_Ret _ _ _ _ _ (get_tx_run _ _ _ Ht1)). replace (t_db tx1) with true by done. exact Hrun.
  - split; [exact Hst|]. split; [simpl; rewrite Hlk; by simpl; rewrite Hw|]. split; [|exact Hop].
    eexists. simpl. rewrite lookup_insert_eq. done.
Qed.

Lemma Restore_cut_run l p w :
  fresh_db w → Forall (bucket_fits maxAlloc) l → NoDup l.*1 → cut p (encode_db l) →
  ∃ e w', Restore it fuel rebalanceTime spillTime maxAlloc p w = (Ret (Some e), w') ∧ io_failure e ∧
    db_state (w_db w') = db_state (w_db w) ∧ db_rwlock (w_db w') = false ∧ db_opened (w_db w') = true.
Proof.
  intros (Hreach & Hro & Hlk & Hop & Hst) Hok Hnd Hcut. destruct (reachable_inv _ Hreach) as [Hs Hd]. unfold Restore.
  destruct (cut_app _ _ _ Hcut) as [(r & -> & Hc)|Hlt].
  2:{ destruct (ReadFull_short 16 p Hlt) as [e He]. rewrite He. eexists _, w. split_and!; try done. eexists _, _. done. }
  rewrite ReadFull_app by reflexivity. change (Equal (take 4 snapshot_header) snapshotMagic) with true.
  change (le_Z (take 4 (drop 4 snapshot_header)) =? snapshotVersion)%Z with true. change (negb true) with false. cbv iota.
  destruct (begin_filling w (mkDbState ∅) Hs Hd Hro Hlk Hop Hst) as (w1 & w2 & Hrun1 & Hrun2 & Hfi2 & Hdb2). set (t := w_nextt w) in *.
  destruct (restore_buckets_cut t (mkDbState ∅) l (S (length r)) w2 _ _ r Hfi2 Hok Hnd) as (w3 & tx3 & C3 & e & Hrun3 & He & Hfi3 & _ & Hdb3).
  { intros n _. unfold visible, dir_names. simpl. set_solver. } { done. } { lia. }
  destruct (filling_rollback w3 t tx3 _ C3 e Hfi3) as (w4 & w5 & Hrun4 & Hrun5 & Hst5 & Hlk5 & (tx5 & Htx5 & Hcl5) & Hop5).
  exists e, w5. split_and!; [|done| |done|by rewrite Hop5, Hdb3, Hdb2].
  - unfold Update. rewrite (bind_Ret _ _ _ _ _ Hrun1). unfold with_rollback.
    rewrite (bind_Ret _ _ _ _ _ Hrun2), (bind_Ret _ _ _ _ _ Hrun3), (bind_Ret _ _ _ _ _ Hrun4), Hrun5.
    unfold rollback. unfold st_bind at 1. by rewrite (bind_Ret _ _ _ _ _ (get_tx_run _ _ _ Htx5)), Hcl5.
  - by rewrite Hst5, Hdb3, Hdb2.
Qed.

(** A truncated snapshot is rejected: [Restore] of any proper prefix of a
    snapshot reports a read error, publishes nothing and gives the writer lock
    back. *)
Theorem Restore_truncated l p w :
  fresh_db w → Forall (bucket_fits maxAlloc) l → NoDup l.*1 → cut p (encode_db l) →
  ∃ e w', Restore it fuel rebalanceTime spillTime maxAlloc p w = (Ret (Some e), w') ∧ io_failure e ∧
    db_state (w_db w') = db_state (w_db w) ∧ db_rwlock (w_db w') = false.
Proof.
  intros H1 H2 H3 H4. destruct (Restore_cut_run l p w H1 H2 H3 H4) as (e & w' & ? & ? & ? & ? & _). by exists e, w'.
Qed.

(** C6. A snapshot round trip: what [WriteTo] writes of a transaction to a buffer
    is a complete snapshot, and [Restore] of it into a fresh database gives a
    database with the same buckets and the same pairs. *)
Theorem snapshot_roundtrip fuel' src t st L dst :
  showing src t st L → (∀ q, q ∈ L → walkable fuel' q.2) →
  fair it → fresh_db dst → Forall (bucket_fits maxAlloc) (shown L) → (∀ q, q ∈ L → length (contents q.2) + 2 ≤ fuel) →
  ∃ out n src' dst', WriteTo fuel' t ([] : bytes) src = (Ret (out, n, None), src') ∧
    Restore it fuel rebalanceTime spillTime maxAlloc out dst = (Ret None, dst') ∧ holds_db dst' (shown L).
Proof.
  intros Hsh Hwalk Hf Hfresh Hok Hfl.
  destruct (WriteTo_run fuel' src t st L ([] : bytes) Hsh Hwalk) as (src' & out & n & e & sent & rest & Hrun & Henc & Hsent & _ & He & _).
  destruct e as [e|]; [by destruct He as (p & w & m & w' & He)|]. subst rest. rewrite app_nil_r in Henc. change (out = sent) in Hsent.
  destruct (Restore_run (shown L) [] dst Hf Hfresh Hok) as (dst' & Hrest & Hh).
  - destruct Hsh as [_ (tx & _ & Hlist & _)]. assert ((shown L).*1 = L.*1) as -> by (unfold shown; rewrite <- list_fmap_compose; done).
    rewrite <- Hlist. apply ssorted_NoDup, listing_spec.
  - intros q ([name T] & -> & Hq)%list_elem_of_fmap. by apply (Hfl (name, T)).
  - rewrite app_nil_r, Henc, <- Hsent in Hrest. by exists out, n, src', dst'.
Qed.
End restoring.

(** ** Examples *)

Definition ex_fresh : world := (open_mem None empty_world).2.
Definition ex_buckets : list (bytes * list kv) := [([x6d], []); ([x6e], [([x61], [x01]); ([x62], [x02])])].

Lemma ex_fresh_db : fresh_db ex_fresh.
Proof. split; [exists None; constructor|]. by split_and!. Qed.

Lemma ex_buckets_fit : Forall (bucket_fits (2 ^ 40)) ex_buckets.
Proof.
  repeat (apply Forall_cons; split; [split; [split; reflexivity|split; [discriminate|split]]|]); [| | | |constructor].
  - constructor.
  - constructor.
  - vm_compute. repeat constructor.
  - repeat (apply Forall_cons; split; [split; [split; [reflexivity|discriminate]|discriminate]|]). constructor.
Qed.

Lemma ex_buckets_nodup : NoDup ex_buckets.*1.
Proof. apply ssorted_NoDup. vm_compute. repeat constructor. Qed.

Lemma Restore_truncated_witness :
  ∃ e w', Restore std_iteration 9 0 0 (2 ^ 40) (take 40 (encode_db ex_buckets)) ex_fresh = (Ret (Some e), w') ∧ io_failure e.
Proof.
  destruct (Restore_truncated std_iteration 9 0 0 (2 ^ 40) ltac:(discriminate) ltac:(lia) ex_buckets (take 40 (encode_db ex_buckets)) ex_fresh
    ex_fresh_db ex_buckets_fit ex_buckets_nodup) as (e & w' & H1 & H2 & _).
  - eexists _, _. vm_compute. reflexivity.
  - exists e, w'. split; [exact H1|exact H2].
Defined.

Lemma snapshot_roundtrip_witness :
  ∃ out n src' dst', WriteTo 9 2 ([] : bytes) ex_w0 = (Ret (out, n, None), src') ∧
    Restore std_iteration 9 0 0 (2 ^ 40) out ex_fresh = (Ret None, dst') ∧ holds_db dst' (shown ex_shown).
Proof.
  destruct ex_showing as [st Hsh].
  apply (snapshot_roundtrip std_iteration 9 0 0 (2 ^ 40) ltac:(discriminate) ltac:(lia) 9 ex_w0 2 st ex_shown ex_fresh Hsh ex_walkable);
    [apply std_iteration_fair|apply ex_fresh_db| |].
  - pose proof ex_buckets_fit as H. apply Forall_cons in H as [_ H]. exact H.
  - intros q ->%list_elem_of_singleton. simpl. lia.
Defined.
