(* ===== verification/OpenSpec.v ===== *)
(** * Opening a database (db.go: [Open], [maybeRestore])

    What [Open] does with every kind of file at the path: nothing, something that
    is not a snapshot, a snapshot, a truncated snapshot, and a snapshot with the
    read-only option. *)
From S2P Require Import Prelude GoSort Stats World Node KV Tree TreePath Cursor CursorSpec Cow Bucket Spill Tx DB Snapshot.
From S2P Require Import CowSpec BucketSpec Frame FrameSpill Publish Isolation System TxSpec Directory LeafBucket CommitSpec DBSpec Shown SnapshotSpec RestoreSpec.
Local Open Scope st_scope.

Definition options_of (o : option Options) : Options := match o with Some o => o | None => DefaultOptions end.

(** An open, empty database with the options [o]. *)
Definition opened_empty (o : option Options) : world := (open_mem o empty_world).2.
Definition closed_db (w : world) : Prop := db_opened (w_db w) = false ∧ db_state (w_db w) = None.

Lemma open_mem_run o : open_mem o empty_world = (Ret tt, opened_empty o).
Proof. done. Qed.

Lemma opened_empty_fresh o : ReadOnly (options_of o) = false → fresh_db (opened_empty o).
Proof. intros Ho. split; [exists o; constructor|]. by split_and!. Qed.

Lemma DB_close_run w : db_opened (w_db w) = true → ∃ w', DB_close w = (Ret tt, w') ∧ closed_db w'.
Proof. intros Hop. unfold DB_close, st_bind, get_db, st_gets, upd_db, st_modify. simpl. rewrite Hop. simpl. by eexists. Qed.

Lemma DB_Close_run w : db_opened (w_db w) = true → db_rwlock (w_db w) = false → ∃ w', DB_Close w = (Ret tt, w') ∧ closed_db w'.
Proof.
  intros Hop Hlk. unfold DB_Close, DB_close, lock, unlock, st_bind, get_db, st_gets, upd_db, st_modify. simpl. rewrite Hlk. simpl. rewrite Hop. simpl. by eexists.
Qed.

Lemma encode_db_magic l rest : take 4 (encode_db l ++ rest) = snapshotMagic.
Proof. done. Qed.

Lemma cut_magic l p : 4 ≤ length p → cut p (encode_db l) → take 4 p = snapshotMagic.
Proof.
  intros Hp (x & q & Heq). rewrite <- (encode_db_magic l []), app_nil_r, Heq.
  rewrite take_app_le by done. done.
Qed.

Section opening.
Context (it : iteration) (fuel : nat) (rebalanceTime spillTime : Z) (maxAlloc : Z).
Hypothesis alloc_ok : (MaxValueSize ≤ maxAlloc)%Z.
Hypothesis fuel_ok : 1 ≤ fuel.
#[local] Abbreviation Open := (Open it fuel rebalanceTime spillTime maxAlloc).
#[local] Abbreviation Restore := (Restore it fuel rebalanceTime spillTime maxAlloc).

(** [Open] of a file that has the magic is [Restore]; its error closes the database. *)
Lemma Open_snapshot o f e w' :
  take 4 f = snapshotMagic → Restore f (opened_empty o) = (Ret e, w') → db_opened (w_db w') = true →
  ∃ w2, Open o false (Some f) empty_world = (Ret (ErrRestore <$> e), w2) ∧ match e with None => w2 = w' | Some _ => closed_db w2 end.
Proof.
  intros Hm Hrun Hop. unfold Snapshot.Open. rewrite (bind_Ret _ _ _ _ _ (open_mem_run o)). unfold maybeRestore.
  destruct f as [|c f]; [done|]. change (length (c :: f) =? 0) with false. cbv iota. rewrite Hm.
  change (negb (Equal snapshotMagic snapshotMagic)) with false. cbv iota.
  rewrite (bind_Ret _ _ (opened_empty o) (ErrRestore <$> e) w') by (by rewrite (bind_Ret _ _ _ _ _ Hrun)).
  destruct e as [e|]; [|by exists w']. destruct (DB_close_run w' Hop) as (w2 & Hcl & Hc). exists w2.
  split; [|done]. simpl. by rewrite (bind_Ret _ _ _ _ _ Hcl).
Qed.

(** A file that is not a snapshot is ignored. *)
Lemma Open_other o pathEmpty file :
  pathEmpty = true ∨ file = None ∨ (∃ f, file = Some f ∧ take 4 f ≠ snapshotMagic) →
  Open o pathEmpty file empty_world = (Ret None, opened_empty o).
Proof.
  intros Hfile. unfold Snapshot.Open. rewrite (bind_Ret _ _ _ _ _ (open_mem_run o)). destruct pathEmpty; [done|].
  destruct Hfile as [?|[->|(f & -> & Hf)]]; [done|done|]. unfold maybeRestore.
  destruct (length f =? 0); [done|]. destruct (Equal (take 4 f) snapshotMagic) eqn:E; [by apply Equal_spec in E|done].
Qed.

(** A read-only database cannot be filled. *)
Lemma Restore_readonly o l rest :
  ReadOnly (options_of o) = true → Restore (encode_db l ++ rest) (opened_empty o) = (Ret (Some ErrDatabaseReadOnly), opened_empty o).
Proof.
  intros Ho. unfold Snapshot.Restore, encode_db. rewrite <- !app_assoc, ReadFull_app by reflexivity.
  change (Equal (take 4 snapshot_header) snapshotMagic) with true.
  change (le_Z (take 4 (drop 4 snapshot_header)) =? snapshotVersion)%Z with true. change (negb true) with false. cbv iota.
  unfold Update. rewrite (bind_Ret (Begin true) _ (opened_empty o) (inl ErrDatabaseReadOnly) (opened_empty o)); [done|].
  unfold Begin, beginRWTx, st_bind, get_db, st_gets. simpl. unfold options_of in Ho. by rewrite Ho.
Qed.

(** A complete snapshot is loaded. *)
Lemma Open_loads o l rest :
  fair it → Forall (bucket_fits maxAlloc) l → NoDup l.*1 → (∀ q, q ∈ l → length q.2 + 2 ≤ fuel) → ReadOnly (options_of o) = false →
  ∃ w', Open o false (Some (encode_db l ++ rest)) empty_world = (Ret None, w') ∧ holds_db w' l.
Proof.
  intros Hf Hok Hnd Hfl Ho.
  destruct (Restore_run it fuel rebalanceTime spillTime maxAlloc alloc_ok fuel_ok l rest _ Hf (opened_empty_fresh o Ho) Hok Hnd Hfl) as (w' & Hrun & Hh).
  destruct (Open_snapshot o _ _ _ (encode_db_magic l rest) Hrun (hd_opened _ _ Hh)) as (w2 & Hrun2 & ->). by exists w'.
Qed.

(** C20. [Open] on every kind of path.  Without a snapshot there, the database
    starts empty.  A complete snapshot (whatever follows it) is loaded: the
    database is open and holds exactly its buckets and pairs.  A truncated one is
    an error, and so is any snapshot when the read-only option is set; the
    database is then closed. *)
Theorem Open_correct o l :
  fair it → Forall (bucket_fits maxAlloc) l → NoDup l.*1 → (∀ q, q ∈ l → length q.2 + 2 ≤ fuel) →
  (∀ pathEmpty file, pathEmpty = true ∨ file = None ∨ (∃ f, file = Some f ∧ take 4 f ≠ snapshotMagic) →
     Open o pathEmpty file empty_world = (Ret None, opened_empty o)) ∧
  (ReadOnly (options_of o) = false → ∀ rest,
     ∃ w', Open o false (Some (encode_db l ++ rest)) empty_world = (Ret None, w') ∧ holds_db w' l) ∧
  (ReadOnly (options_of o) = false → ∀ p, 4 ≤ length p → cut p (encode_db l) →
     ∃ e w', Open o false (Some p) empty_world = (Ret (Some (ErrRestore e)), w') ∧ io_failure e ∧ closed_db w') ∧
  (ReadOnly (options_of o) = true → ∀ rest,
     ∃ w', Open o false (Some (encode_db l ++ rest)) empty_world = (Ret (Some (ErrRestore ErrDatabaseReadOnly)), w') ∧ closed_db w').
Proof.
  intros Hf Hok Hnd Hfl. split; [apply Open_other|]. split; [|split].
  - intros Ho rest. by apply Open_loads.
  - intros Ho p Hp Hcut. destruct (Restore_cut_run it fuel rebalanceTime spillTime maxAlloc alloc_ok fuel_ok l p _ (opened_empty_fresh o Ho) Hok Hnd Hcut)
      as (e & w' & Hrun & He & _ & _ & Hop). destruct (Open_snapshot o p _ _ ltac:(by eapply cut_magic) Hrun Hop) as (w2 & Hrun2 & Hc). by exists e, w2.
  - intros Ho rest. destruct (Open_snapshot o _ _ _ (encode_db_magic l rest) (Restore_readonly o l rest Ho)) as (w2 & Hrun2 & Hc); [done|].
    by exists w2.
Qed.
End opening.

Lemma Open_correct_witness :
  (∃ w', Open std_iteration 9 0 0 (2 ^ 40) None false (Some (encode_db ex_buckets ++ [xff])) empty_world = (Ret None, w') ∧ holds_db w' ex_buckets) ∧
  (∃ w', Open std_iteration 9 0 0 (2 ^ 40) (Some (mkOptions true false)) false (Some (encode_db ex_buckets ++ [])) empty_world =
     (Ret (Some (ErrRestore ErrDatabaseReadOnly)), w') ∧ closed_db w').
Proof.
  assert (Hfl : ∀ q, q ∈ ex_buckets → length q.2 + 2 ≤ 9).
  { intros q [->|[->|[]%elem_of_nil]%elem_of_cons]%elem_of_cons; simpl; lia. }
  assert (Hal : (MaxValueSize ≤ 2 ^ 40)%Z) by discriminate.
  destruct (Open_correct std_iteration 9 0 0 (2 ^ 40) Hal ltac:(lia) None ex_buckets std_iteration_fair ex_buckets_fit ex_buckets_nodup Hfl)
    as (_ & H1 & _).
  destruct (Open_correct std_iteration 9 0 0 (2 ^ 40) Hal ltac:(lia) (Some (mkOptions true false)) ex_buckets std_iteration_fair ex_buckets_fit ex_buckets_nodup Hfl)
    as (_ & _ & _ & H2).
  split; [exact (H1 eq_refl [xff])|exact (H2 eq_refl [])].
Defined.
