(* ===== verification/Fixture.v ===== *)
(** * The test helper: internal/btesting

    The wrapper tests use around a database: opening, closing and reopening, filling
    a bucket over several transactions, the consistency check after a test, copying
    to a file of the machine.  Filling is a client of [DB.Update] whose effect follows from the
    refinement of a map; the check passes on what is then stored.  A failed
    [require.NoError] ends the test and is the left side of a sum; the test's log,
    the cleanup list of the test and the printing of statistics are left out. *)
From S2P Require Import Prelude GoSort Stats World Node KV Tree TreePath Cursor CursorSpec Cow Bucket Spill Tx DB Check Snapshot.
From S2P Require Import CowSpec BucketSpec BucketThm Regroup Frame FrameSpill SpillSpec Publish Isolation System TxSpec Directory DBSpec LeafBucket CommitSpec KeysFit Orderly Session Managed Refine Shown ViewRefine CheckSpec Passing SnapshotSpec RestoreSpec OpenSpec.
Local Open Scope st_scope.

(** [type DB struct] of the wrapper: whether the embedded database is there, the
    path and the options. *)
Record TestDB := mkTestDB { td_DB : bool; td_f : bytes; td_o : option Options }.

Definition Path (db : TestDB) : bytes := td_f db.
Definition SetOptions (o : option Options) (db : TestDB) : TestDB := mkTestDB (td_DB db) (td_f db) o.

(** [OpenDBWithOption]: [file] is what is at the path. *)
Definition OpenDBWithOption (it : iteration) (fuel : nat) (rebalanceTime spillTime maxAlloc : Z)
    (f : bytes) (o : option Options) (file : option bytes) : M (err + TestDB) :=
  let o := match o with None => DefaultOptions | Some o => o end in
  let! e := Open it fuel rebalanceTime spillTime maxAlloc (Some o) (bool_decide (f = [])) file in
  match e with
  | Some err => st_ret (inl err)
  | None => st_ret (inr (mkTestDB true f (Some o)))
  end.

(** [MustOpenDBWithOption], and [MustCreateDB] in an empty temporary directory. *)
Definition MustOpenDBWithOption := OpenDBWithOption.
Definition MustCreateDBWithOption (it : iteration) (fuel : nat) (rebalanceTime spillTime maxAlloc : Z)
    (tempDir : bytes) (o : option Options) : M (err + TestDB) :=
  MustOpenDBWithOption it fuel rebalanceTime spillTime maxAlloc (tempDir ++ [x2f; x64; x62]) o None.
Definition MustCreateDB (it : iteration) (fuel : nat) (rebalanceTime spillTime maxAlloc : Z) (tempDir : bytes) : M (err + TestDB) :=
  MustCreateDBWithOption it fuel rebalanceTime spillTime maxAlloc tempDir None.

(** [DB.MustReopen]: the path and the options of the wrapper, as they are now. *)
Definition MustReopen (it : iteration) (fuel : nat) (rebalanceTime spillTime maxAlloc : Z)
    (db : TestDB) (files : gmap bytes bytes) : M (err + TestDB) :=
  if td_DB db then st_panic (PUser 0)
  else
    let! e := Open it fuel rebalanceTime spillTime maxAlloc (td_o db) (bool_decide (Path db = [])) (files !! Path db) in
    match e with
    | Some err => st_ret (inl err)
    | None => st_ret (inr (mkTestDB true (td_f db) (td_o db)))
    end.

(** [DB.MustDeleteFile] on the files of the machine; [None] when there is no file to
    remove. *)
Definition MustDeleteFile (db : TestDB) (files : gmap bytes bytes) : option (gmap bytes bytes) :=
  match files !! Path db with
  | Some _ => Some (delete (Path db) files)
  | None => None
  end.

(** [db.View(func(tx *Tx) error { return tx.CopyFile(path, 0600) })] on the files of
    the machine; the file is created, or truncated if it exists. *)
Definition copy_to (fuel : nat) (path : bytes) (files : gmap bytes bytes) : M (option err * gmap bytes bytes) :=
  let! (e, out) := ViewWith (λ t, let! (out, e) := CopyFile fuel t (inr ([] : bytes)) in st_ret (e, out)) in
  st_ret (e, match mjoin out with Some file => <[path := file]> files | None => files end).

(** [DB.CopyTempFile]: the copy is "db.copy" in a temporary directory. *)
Definition CopyTempFile (fuel : nat) (tempDir : bytes) (files : gmap bytes bytes) : M (option err * gmap bytes bytes) :=
  copy_to fuel (tempDir ++ [x2f; x64; x62; x2e; x63; x6f; x70; x79]) files.

(** [DB.Close] of the wrapper: the database is closed once. *)
Definition TestDB_Close (db : TestDB) : M (option err * TestDB) :=
  if td_DB db then DB_Close ;! st_ret (None, mkTestDB false (td_f db) (td_o db))
  else st_ret (None, db).

(** [DB.MustCheck]: the errors collected from the channel, at most eleven; with any
    of them the test process exits. *)
Definition MustCheck_errors (out : list checkErr) : list checkErr := take 11 out.
Definition MustCheck_exits (out : list checkErr) : bool := negb (length (MustCheck_errors out) =? 0).

(** What a check makes of the test: it goes on, its process exits, or it fails. *)
Inductive verdict := Passed | Exits | Fails (e : err).

Section cleanup.
(** What arrives on the channel of [Tx.Check], in the order this run has. *)
Context (check : world → Tx → list checkErr).

(** [DB.MustCheck]; after [os.Exit] nothing of the model matters. *)
Definition MustCheck : M verdict :=
  let! (e, c) := ViewWith (λ t,
    let! tx := get_tx t in
    let! out := st_gets (λ w, check w tx) in
    st_ret (None, MustCheck_exits out)) in
  st_ret (match c, e with Some true, _ => Exits | _, Some err => Fails err | _, None => Passed end).

(** [DB.MustClose] and [DB.PostTestCleanup] *)
Definition MustClose (db : TestDB) : M (verdict * TestDB) :=
  let! (e, db) := TestDB_Close db in
  st_ret (match e with Some err => Fails err | None => Passed end, db).
Definition PostTestCleanup (db : TestDB) : M (verdict * TestDB) :=
  if td_DB db then
    let! v := MustCheck in
    match v with
    | Passed => MustClose db
    | _ => st_ret (v, db)
    end
  else st_ret (Passed, db).

(** The outputs are outputs of the check, in whatever order its goroutines run. *)
Definition honest : Prop :=
  ∀ w tx out, Check (check_fuel (w_nodes w)) w tx [] out → Check (check_fuel (w_nodes w)) w tx [] (check w tx).

Lemma MustCheck_run w st A S :
  honest → serving w st A S → ∃ w', MustCheck w = (Ret Passed, w') ∧ serving w' st A S ∧
    db_readOnly (w_db w') = db_readOnly (w_db w) ∧ db_rwlock (w_db w') = db_rwlock (w_db w).
Proof.
  intros Hh Hsv. destruct Hsv as [Hs Hd Ho Hst HA] eqn:E. clear E.
  destruct (View_by w st A S (λ _ t, let! tx := get_tx t in let! out := st_gets (λ w, check w tx) in st_ret (None, MustCheck_exits out)) None (λ c, c = false) Hsv) as [N HN].
  { intros fuel w1 t N L Hq Hv _ _. pose proof (viewing_read _ _ _ _ _ _ Hv) as (tx & [Ht Hdb Hba _] & _). exists (MustCheck_exits (check w1 tx)), w1.
    split; [by rewrite (bind_Ret _ _ _ _ _ (get_tx_run _ _ _ Ht))|]. split; [|split_and!; [apply quiet_refl, Hq|done|done]].
    pose proof (state_stores_iso w w1 st A S (sn_core _ Hs) (q_iso _ _ Hq) (s_db _ (sn_core _ Hs) _ Hst) HA) as HA1.
    destruct (Check_core (check_fuel (w_nodes w1)) w1 t tx st [] (sn_core _ (q_sane _ _ Hq)) Ht Hba (le_n _)) as [[out Hout] Hiff].
    rewrite (proj2 (Hiff (check w1 tx) (Hh _ _ _ Hout))); [done|by eapply state_passes]. }
  destruct (HN N (le_n _)) as (c & w' & Hrun & -> & Hsv' & Hmode). exists w'. split; [|done]. unfold MustCheck. by rewrite (bind_Ret _ _ _ _ _ Hrun).
Qed.

(** The cleanup of a test on a database that stores a map. *)
Lemma PostTestCleanup_run w A S f o :
  honest → idle w A S → ∃ w', PostTestCleanup (mkTestDB true f o) w = (Ret (Passed, mkTestDB false f o), w') ∧ closed_db w'.
Proof.
  intros Hh Hid. destruct (idle_serving _ _ _ Hid) as [st Hsv]. destruct (MustCheck_run w st A S Hh Hsv) as (w1 & Hrun & Hsv1 & _ & Hlk).
  rewrite (id_lock _ _ _ Hid) in Hlk. destruct (DB_Close_run w1 (sv_opened _ _ _ _ Hsv1) Hlk) as (w2 & Hcl & Hc). exists w2. split; [|done].
  unfold PostTestCleanup, MustClose, TestDB_Close. simpl. rewrite (bind_Ret _ _ _ _ _ Hrun).
  by rewrite (bind_Ret _ _ _ (None, mkTestDB false f o) w2 (bind_Ret _ _ _ _ _ Hcl)).
Qed.
End cleanup.

Section fill.
Context (it : iteration) (rebalanceTime spillTime : Z).
Context (bucket : bytes) (numTx numKeysPerTx : nat) (keyGen valueGen : nat → nat → bytes).

(** The inner loop of [DB.Fill]; the handle is nil when the bucket could not be
    created. *)
Fixpoint fill_keys (fuel : nat) (b : option bid) (tr i rounds : nat) : M (option err) :=
  match rounds with
  | 0 => st_ret None
  | S rounds' =>
      let! b' := st_deref b in
      let! e := Put fuel b' (keyGen tr i) (valueGen tr i) in
      match e with
      | Some err => st_ret (Some err)
      | None => fill_keys fuel b tr (S i) rounds'
      end
  end.
Definition fill_tx (fuel tr : nat) (t : tid) : M (option err) :=
  let! r := CreateBucketIfNotExists t bucket in
  fill_keys fuel (match r with inr b => Some b | inl _ => None end) tr 0 numKeysPerTx.

(** The outer loop; [fuel tr] is for the transaction [tr]. *)
Fixpoint fill_txs (fuel : nat → nat) (tr rounds : nat) : M (option err) :=
  match rounds with
  | 0 => st_ret None
  | S rounds' =>
      let! e := Update it (fuel tr) rebalanceTime spillTime (fill_tx (fuel tr) tr) in
      match e with
      | Some err => st_ret (Some err)
      | None => fill_txs fuel (S tr) rounds'
      end
  end.
Definition Fill (fuel : nat → nat) : M (option err) := fill_txs fuel 0 numTx.

(** ** What it stores *)

Definition fill_pairs (tr : nat) : list kv := (λ i, (keyGen tr i, valueGen tr i)) <$> seq 0 numKeysPerTx.
Definition put_pairs (ps : list kv) (kvs : list kv) : list kv := foldl (λ l p, kv_insert p.1 p.2 l) kvs ps.
Definition filled (tr : nat) (A : model) : model :=
  <[bucket := put_pairs (fill_pairs tr) (default [] (A !! bucket))]> A.

Lemma fill_keys_run fuel tr rounds : ∀ i w t tx st σ N b kvs,
  session w t tx st σ N → N ≤ fuel → a_map σ !! bucket = Some kvs → t_bctx tx !! bucket = Some b →
  (∀ j, i ≤ j < i + rounds → put_check (keyGen tr j) (valueGen tr j) = None) →
  ∃ w' tx', fill_keys fuel (Some b) tr i rounds w = (Ret None, w') ∧
    session w' t tx' st (set_map (<[bucket := put_pairs ((λ j, (keyGen tr j, valueGen tr j)) <$> seq i rounds) kvs]> (a_map σ)) σ) N.
Proof.
  induction rounds as [|rounds IH]; intros i w t tx st σ N b kvs Hss Hf HA Hb Hok; simpl.
  { exists w, tx. rewrite insert_id by done. split; [done|by destruct σ]. }
  rewrite (bind_Ret (st_deref (Some b)) _ w b w eq_refl).
  destruct (session_Put fuel w t tx st σ N bucket b kvs (keyGen tr i) (valueGen tr i) Hss Hf HA Hb) as (w1 & tx1 & Hput & Hb1 & Hss1).
  rewrite (Hok i ltac:(lia)) in Hput, Hss1. rewrite (bind_Ret _ _ _ _ _ Hput).
  destruct (IH (S i) w1 t tx1 st _ N b _ Hss1 Hf (lookup_insert_eq _ _ _) Hb1) as (w2 & tx2 & Hrun & Hss2); [intros j Hj; apply Hok; lia|].
  cbn [a_map set_map] in Hss2. rewrite insert_insert_eq in Hss2. exists w2, tx2. by split.
Qed.

Lemma fill_keys_safe fuel b tr rounds : ∀ i w, sane w → qsafe anything (fill_keys fuel b tr i rounds) w.
Proof.
  induction rounds as [|rounds IH]; intros i w Hs; simpl; [by apply qsafe_ret|]. destruct b as [b|].
  2:{ eapply qsafe_stop; [done|reflexivity|done]. }
  eapply qsafe_eq; [exact (bind_Ret (st_deref (Some b)) _ w b w eq_refl)|].
  eapply qsafe_bind; [apply qsafe_safe; [done|by apply Put_safe]|]. intros [e|] w1 Hq1 _; [apply qsafe_ret; [apply Hq1|done]|apply IH, Hq1].
Qed.

Lemma fill_tx_run fuel tr w t tx st A S0 N :
  session w t tx st (mkAbs A S0 ∅) N → N ≤ fuel → bucket ≠ [] → (∀ j, j < numKeysPerTx → put_check (keyGen tr j) (valueGen tr j) = None) →
  ∃ w' tx', fill_tx fuel tr t w = (Ret None, w') ∧ quiet w w' ∧
    session w' t tx' st (set_map (filled tr A) (ensure bucket (mkAbs A S0 ∅))) N.
Proof.
  intros Hss Hf Hne Hok. destruct (session_ensure w t tx st _ N bucket Hss Hne) as (b & w1 & tx1 & Hrun & Hss1 & Hb). set (σ := ensure _ _) in *.
  assert (Hen : a_map σ !! bucket = Some (default [] (A !! bucket)) ∧ ∀ kvs, <[bucket := kvs]> (a_map σ) = <[bucket := kvs]> A).
  { unfold σ, ensure. simpl. destruct (A !! bucket) as [kvs|] eqn:E; simpl; [done|]. split; [apply lookup_insert_eq|]. intros kvs. apply insert_insert_eq. }
  destruct Hen as [Hen Hins].
  destruct (fill_keys_run fuel tr numKeysPerTx 0 w1 t tx1 st σ N b _ Hss1 Hf Hen Hb) as (w2 & tx2 & Hrun2 & Hss2); [intros j Hj; apply Hok; lia|].
  rewrite Hins in Hss2. pose proof (proj1 (CreateBucketIfNotExists_q t bucket w (ss_sane _ _ _ _ _ _ Hss))) as Hq1.
  pose proof (proj1 (fill_keys_safe fuel (Some b) tr numKeysPerTx 0 w1 (ss_sane _ _ _ _ _ _ Hss1))) as Hq2. rewrite Hrun in Hq1. rewrite Hrun2 in Hq2.
  exists w2, tx2. split; [unfold fill_tx; by rewrite (bind_Ret _ _ _ _ _ Hrun)|]. split; [by eapply quiet_trans|done].
Qed.

Fixpoint fills (tr rounds : nat) (A : model) : model :=
  match rounds with 0 => A | S rounds' => fills (S tr) rounds' (filled tr A) end.

Lemma fill_txs_fuel f g rounds : ∀ tr w, (∀ k, tr ≤ k → f k = g k) → fill_txs f tr rounds w = fill_txs g tr rounds w.
Proof.
  induction rounds as [|rounds IH]; intros tr w Hfg; [done|]. simpl. rewrite (Hfg tr) by lia. unfold st_bind.
  destruct (Update _ _ _ _ _ w) as [[[e|]| | |] w']; try done. apply IH. intros k Hk. apply Hfg. lia.
Qed.

Lemma fill_txs_run rounds : ∀ tr w A S0,
  fair it → idle w A S0 → bucket ≠ [] → (∀ k j, k < tr + rounds → j < numKeysPerTx → put_check (keyGen k j) (valueGen k j) = None) →
  (∀ n, n ≤ rounds → small_model (fills tr n A)) →
  ∃ fuel w' S1, fill_txs fuel tr rounds w = (Ret None, w') ∧ idle w' (fills tr rounds A) S1.
Proof.
  induction rounds as [|rounds IH]; intros tr w A S0 Hf Hid Hne Hok Hsm; [by exists (λ _, 0), w, S0|].
  destruct (Update_by it rebalanceTime spillTime w A S0 0 (λ fuel, fill_tx fuel tr) None (set_map (filled tr A) (ensure bucket (mkAbs A S0 ∅))) Hf Hid) as [N HN].
  { intros _. exact (Hsm 1 ltac:(lia)). }
  { intros fuel w1 t tx st N Hss Hfu _. apply (fill_tx_run fuel tr w1 t tx st A S0 N Hss Hfu Hne). intros j Hj. apply Hok; lia. }
  destruct (HN N (le_n _)) as (w1 & Hrun & Hid1).
  destruct (IH (S tr) w1 (filled tr A) _ Hf Hid1 Hne) as (fuel & w2 & S1 & Hrun2 & Hid2).
  - intros k j Hk. apply Hok. lia.
  - intros n Hn. exact (Hsm (S n) ltac:(lia)).
  - exists (λ k, if decide (k = tr) then N else fuel k), w2, S1. split; [|done]. simpl. rewrite decide_True by done.
    rewrite (bind_Ret _ _ _ _ _ Hrun). rewrite <- Hrun2. apply fill_txs_fuel. intros k Hk. by rewrite decide_False by lia.
Qed.
End fill.

(** C19. [Fill] of the test helper stores every pair it generates, over several
    transactions, each of which builds on the trees the last one published: on a
    database that stores [A], with legal keys and values, and as long as the keys of
    every bucket (without the values) fit one node after each transaction, it
    returns nil and the database stores [A] with all the pairs put in order into
    the bucket, which is created if it is missing.  The cleanup of the test then
    passes, in whatever order the goroutines of its check run, and closes the
    database. *)
Theorem Fill_correct it rt sp bucket numTx numKeysPerTx keyGen valueGen w A S0 :
  fair it → idle w A S0 → bucket ≠ [] →
  (∀ tr i, tr < numTx → i < numKeysPerTx → put_check (keyGen tr i) (valueGen tr i) = None) →
  (∀ n, n ≤ numTx → small_model (fills bucket numKeysPerTx keyGen valueGen 0 n A)) →
  ∃ fuel w' S1, Fill it rt sp bucket numTx numKeysPerTx keyGen valueGen fuel w = (Ret None, w') ∧
    idle w' (fills bucket numKeysPerTx keyGen valueGen 0 numTx A) S1 ∧
    ∀ check f o, honest check →
      ∃ w'', PostTestCleanup check (mkTestDB true f o) w' = (Ret (Passed, mkTestDB false f o), w'') ∧ closed_db w''.
Proof.
  intros Hf Hid Hne Hok Hsm.
  destruct (fill_txs_run it rt sp bucket numKeysPerTx keyGen valueGen numTx 0 w A S0 Hf Hid Hne) as (fuel & w' & S1 & Hrun & Hid').
  { intros tr i Htr. by apply Hok. }
  { done. }
  exists fuel, w', S1. split_and!; [done|done|]. intros check f o Hh. by eapply PostTestCleanup_run.
Qed.

(** Two transactions of two pairs in a new bucket "f". *)
Definition ex_key (tr i : nat) : bytes := [match Byte.of_nat (97 + 2 * tr + i) with Some c => c | None => x00 end].

Lemma Fill_correct_witness :
  ∃ fuel w' S1, Fill std_iteration 0 0 [x66] 2 2 ex_key (λ _ _, [x76]) fuel ex_w0 = (Ret None, w') ∧
    idle w' (<[ [x66] := [([x61], [x76]); ([x62], [x76]); ([x63], [x76]); ([x64], [x76])] ]> ex_map) S1.
Proof.
  destruct (Fill_correct std_iteration 0 0 [x66] 2 2 ex_key (λ _ _, [x76]) ex_w0 ex_map ex_one std_iteration_fair ex_idle) as (fuel & w' & S1 & Hrun & Hid & _).
  - discriminate.
  - intros tr i Htr Hi. destruct tr as [|[|tr]], i as [|[|i]]; try lia; vm_compute; reflexivity.
  - assert (Hold : small_model ex_map).
    { intros name kvs Hk. unfold ex_map in Hk. apply lookup_singleton_Some in Hk as [_ <-]. vm_compute. reflexivity. }
    assert (Hins : ∀ B kvs, small_model B → small_keys (keys kvs) → small_model (<[ [x66] := kvs ]> B)).
    { intros B kvs HB Hk name kvs'. rewrite lookup_insert. case_decide; [by intros [= <-]|apply HB]. }
    intros n Hn. destruct n as [|[|[|n]]]; [done| | |lia]; cbn [fills]; unfold filled; rewrite ?lookup_insert_eq; repeat apply Hins; try done; vm_compute; reflexivity.
  - exists fuel, w', S1. split; [exact Hrun|]. cbn [fills] in Hid. unfold filled in Hid. rewrite lookup_insert_eq, insert_insert_eq in Hid.
    replace (default [] (ex_map !! [x66])) with ([] : list kv) in Hid by (unfold ex_map; by rewrite lookup_singleton_ne). exact Hid.
Defined.

(** A database opened at a path without a snapshot stores the empty map. *)
Lemma opened_idle o : ReadOnly (options_of o) = false → idle (opened_empty o) ∅ ∅.
Proof.
  intros Ho. split; [apply open_sane|apply open_dirs|exact Ho|done|done|]. exists (mkDbState ∅). split; [done|]. split; [simpl; by rewrite !dom_empty_L|].
  intros name kvs. by rewrite lookup_empty.
Qed.

Lemma OpenDBWithOption_empty it fuel rt sp maxAlloc f o file :
  ReadOnly (options_of o) = false → f = [] ∨ file = None ∨ (∃ c, file = Some c ∧ take 4 c ≠ snapshotMagic) →
  ∃ w, OpenDBWithOption it fuel rt sp maxAlloc f o file empty_world = (Ret (inr (mkTestDB true f (Some (options_of o)))), w) ∧ idle w ∅ ∅.
Proof.
  intros Ho Hfile. exists (opened_empty (Some (options_of o))). split; [|by apply opened_idle]. unfold OpenDBWithOption. fold (options_of o).
  rewrite (bind_Ret _ _ _ _ _ (Open_other it fuel rt sp maxAlloc (Some (options_of o)) (bool_decide (f = [])) file ltac:(rewrite bool_decide_eq_true; done))). done.
Qed.

(** Closing twice is closing once. *)
Lemma TestDB_Close_once w db w1 db1 :
  TestDB_Close db w = (Ret (None, db1), w1) → TestDB_Close db1 w1 = (Ret (None, db1), w1) ∧ td_DB db1 = false.
Proof.
  unfold TestDB_Close. destruct db as [[] f o]; simpl.
  - unfold st_bind at 1. destruct (DB_Close w) as [[[]| | |] w2]; intros [=]. subst. done.
  - intros [=]. subst. done.
Qed.
