(* ===== verification/History.v ===== *)
(** * Histories of a database

    The whole library as a client sees it: a history of [Update], [View] and of
    copying the database to a file, closing it and opening that file answers like
    the same history on a map of maps. *)
From S2P Require Import Prelude GoSort Stats World Node KV Tree TreePath Cursor CursorSpec Cow Bucket Spill Tx DB Check Snapshot.
From S2P Require Import CowSpec BucketSpec BucketThm Regroup Frame FrameSpill SpillSpec Publish Isolation System TxSpec Directory DBSpec LeafBucket Ripe CommitSpec KeysFit Orderly Session Managed Refine Shown ViewRefine CheckSpec Passing SnapshotSpec RestoreSpec OpenSpec Fixture.
Local Open Scope st_scope.

(** ** The specification *)

Inductive call :=
| CUpdate (s : script)
| CView (s : script)
| CReopen.

(** The buckets a restore leaves as one node. *)
Definition compact (A : model) : gset bytes := still_one (mkAbs A (dom A) ∅).

Definition spec_call (A : model) (S : gset bytes) (c : call) : option err * (model * gset bytes) :=
  match c with
  | CUpdate s => spec_update A S s
  | CView s => (spec_view A s, (A, S))
  | CReopen => (None, (A, compact A))
  end.

(** What the pairs [Put] accepted and the names [CreateBucket] accepted are. *)
Definition legal (A : model) : Prop := ∀ name kvs, A !! name = Some kvs → name ≠ [] ∧ Forall pair_ok kvs.

(** Every name fits its length field and a buffer. *)
Definition short_names (maxAlloc : Z) (A : model) : Prop :=
  ∀ name, is_Some (A !! name) → (blen name < 2 ^ 32)%Z ∧ (blen name ≤ maxAlloc)%Z.

(** The histories the specification covers: their functions are careful, the keys of
    a bucket fit one node, names are short when a snapshot is taken. *)
Fixpoint proper (maxAlloc : Z) (A : model) (S : gset bytes) (cs : list call) : Prop :=
  match cs with
  | [] => True
  | c :: cs =>
      match c with
      | CUpdate s => all_careful (mkAbs A S ∅) s = true ∧ small_model (spec_update A S s).2.1
      | CView _ => True
      | CReopen => short_names maxAlloc A
      end ∧ proper maxAlloc (spec_call A S c).2.1 (spec_call A S c).2.2 cs
  end.

(** ** Legal maps stay legal *)

Lemma pair_ok_insert key value kvs : put_check key value = None → Forall pair_ok kvs → Forall pair_ok (kv_insert key value kvs).
Proof.
  intros [Hk Hv]%put_check_None Hok. induction Hok as [|[k v] kvs Hkv Hok IH]; simpl.
  - by apply Forall_singleton.
  - repeat case_decide; by repeat apply Forall_cons_2.
Qed.
Lemma pair_ok_delete key kvs : Forall pair_ok kvs → Forall pair_ok (kv_delete key kvs).
Proof. induction 1 as [|[k v] kvs Hkv Hok IH]; simpl; [done|]. case_decide; [done|by apply Forall_cons_2]. Qed.

Lemma legal_insert A name kvs : legal A → name ≠ [] → Forall pair_ok kvs → legal (<[name := kvs]> A).
Proof. intros HA Hn Hk name' kvs'. rewrite lookup_insert. case_decide; [by intros [= <-]; subst|apply HA]. Qed.

Lemma apply_op_legal A o : legal A → legal (apply_op A o).2.
Proof.
  intros HA. destruct o as [name key value|name key|name key|name| |name|name]; simpl.
  - destruct (A !! name) as [kvs|] eqn:E; [|done]. destruct (HA _ _ E). destruct (put_check key value) eqn:Ep; [done|].
    apply legal_insert; [done|done|by apply pair_ok_insert].
  - done.
  - destruct (A !! name) as [kvs|] eqn:E; [|done]. destruct (HA _ _ E). apply legal_insert; [done|done|by apply pair_ok_delete].
  - done.
  - done.
  - case_decide; [done|]. destruct (A !! name); [done|]. by apply legal_insert.
  - destruct (A !! name); [|done]. simpl. intros name' kvs' [_ Hk]%lookup_delete_Some. by apply HA.
Qed.

Lemma outcome_legal s : ∀ σ, legal (a_map σ) → legal (a_map (outcome σ s).2).
Proof.
  induction s as [e|o k IH]; intros σ Hσ; simpl; [done|].
  assert (Hm : a_map (abs_step σ o).2 = (apply_op (a_map σ) o).2) by (unfold abs_step; by destruct (apply_op (a_map σ) o), o).
  destruct (abs_step σ o) as [r σ']. apply IH. simpl in Hm. rewrite Hm. by apply apply_op_legal.
Qed.

Lemma spec_call_legal A S c : legal A → legal (spec_call A S c).2.1.
Proof.
  intros HA. destruct c as [s|s|]; [|done|done]. simpl. unfold spec_update. pose proof (outcome_legal s (mkAbs A S ∅) HA) as Ho.
  by destruct (outcome (mkAbs A S ∅) s) as [[e|] σ].
Qed.

(** ** Copying a database *)

Definition lists (A : model) (l : list (bytes * list kv)) : Prop :=
  NoDup l.*1 ∧ ∀ name kvs, (name, kvs) ∈ l ↔ A !! name = Some kvs.

Lemma viewing_lists w t st A N L : viewing w t st A N L → lists A (shown L).
Proof.
  intros [[_ (tx & _ & Hlist & _)] _ Hm Hdom _]. assert (Hfst : (shown L).*1 = L.*1) by (unfold shown; by rewrite <- list_fmap_compose).
  assert (Hnd : NoDup (shown L).*1) by (rewrite Hfst, <- Hlist; apply ssorted_NoDup, listing_spec). split; [done|]. intros name kvs. split.
  - intros ([name' T] & [= -> ->] & Hin)%list_elem_of_fmap. by destruct (Hm _ _ Hin).
  - intros HA. pose proof (Hdom name ltac:(eauto)) as ([name' T] & -> & Hin)%list_elem_of_fmap. destruct (Hm _ _ Hin) as [HA' _]. simpl in *.
    rewrite HA in HA'. injection HA' as ->. apply list_elem_of_fmap. by exists (name', T).
Qed.

(** A copy is the snapshot of the map. *)
Lemma copy_to_run w st A S path files :
  serving w st A S →
  ∃ N, ∀ fuel, N ≤ fuel → ∃ l w', copy_to fuel path files w = (Ret (None, <[path := encode_db l]> files), w') ∧ lists A l ∧ serving w' st A S ∧
    db_readOnly (w_db w') = db_readOnly (w_db w) ∧ db_rwlock (w_db w') = db_rwlock (w_db w).
Proof.
  intros Hsv. destruct (View_by w st A S (λ fuel t, let! (out, e) := CopyFile fuel t (inr ([] : bytes)) in st_ret (e, out)) None
    (λ out, ∃ l, out = Some (encode_db l) ∧ lists A l) Hsv) as [N HN].
  - intros fuel w1 t N L Hq Hv _ Hwalk.
    destruct (WriteTo_run fuel w1 t st L ([] : bytes) (vw_showing _ _ _ _ _ _ Hv) Hwalk) as (w2 & out & n & e & sent & rest & Hrun & Henc & Hsent & _ & He & Hbr).
    destruct e as [e|]; [by destruct He as (p & u & m & u' & He)|]. subst rest. rewrite app_nil_r in Henc. change (out = sent) in Hsent. subst sent.
    exists (Some out), w2. split; [|split; [|split_and!; [apply Hbr| |apply Hbr]]].
    + unfold CopyFile. by rewrite (bind_Ret _ _ _ (Some out, None) w2 (bind_Ret _ _ _ _ _ Hrun)).
    + exists (shown L). split; [by f_equal|by eapply viewing_lists].
    + by eapply viewing_browses.
  - exists N. intros fuel Hf. destruct (HN fuel Hf) as (c & w' & Hrun & (l & -> & Hl) & Hrest). exists l, w'. split; [|done].
    unfold copy_to. by rewrite (bind_Ret _ _ _ _ _ Hrun).
Qed.

(** ** Closing a database and opening its copy *)

Section history.
Context (it : iteration) (rebalanceTime spillTime maxAlloc : Z) (path : bytes) (files : gmap bytes bytes) (o : option Options).

(** The reopened database has a heap of its own. *)
Definition new_heap : M unit := λ _, (Ret tt, empty_world).

(** [tx.CopyFile(path)] in a [View], [db.Close()], [Open(path, ...)]. *)
Definition reopen (fuel : nat) : M (option err) :=
  let! (e, files) := copy_to fuel path files in
  match e with
  | Some err => st_ret (Some err)
  | None =>
      DB_Close ;!
      new_heap ;!
      Open it fuel rebalanceTime spillTime maxAlloc o (bool_decide (path = [])) (files !! path)
  end.

Definition run_call (fuel : nat) (c : call) : M (option err) :=
  match c with
  | CUpdate s => Update it fuel rebalanceTime spillTime (script_run fuel s)
  | CView s => View (script_run fuel s)
  | CReopen => reopen fuel
  end.

(** Every call of the history, with enough fuel, answers as the specification, and
    so do the rest in the state it leaves. *)
Fixpoint answers (cs : list call) (A : model) (S : gset bytes) (w : world) : Prop :=
  match cs with
  | [] => idle w A S
  | c :: cs =>
      ∃ N, ∀ fuel, N ≤ fuel →
        ∃ w', run_call fuel c w = (Ret (spec_call A S c).1, w') ∧ answers cs (spec_call A S c).2.1 (spec_call A S c).2.2 w'
  end.

Hypothesis fair_it : fair it.
Hypothesis alloc_ok : (MaxValueSize ≤ maxAlloc)%Z.
Hypothesis path_ok : path ≠ [].
Hypothesis mode_ok : ReadOnly (options_of o) = false.

Lemma lists_fit A S w st l : state_stores w st A S → legal A → short_names maxAlloc A → lists A l → Forall (bucket_fits maxAlloc) l.
Proof.
  intros [_ HA] Hle Hsh [_ Hl]. apply Forall_forall. intros [name kvs] Hin%Hl. destruct (Hle _ _ Hin) as [Hne Hok].
  destruct (Hsh name ltac:(eauto)). destruct (HA _ _ Hin) as (T & (bs & _ & _ & _ & Hwf & _) & <- & _).
  assert (0 < blen name)%Z by (destruct name; [done|]; unfold blen; simpl; lia). split_and!; try done; by apply wf_sorted.
Qed.

Lemma holds_idle w A l : holds_db w l → lists A l → idle w A (compact A).
Proof.
  intros [Hs Hd Hro Hop Hlk (st & Hst & Hdom & Hpk)] [Hnd Hl]. split; try done. exists st. split; [done|]. split.
  - apply set_eq. intros name. rewrite Hdom, elem_of_list_to_set, elem_of_dom. split.
    + intros ([name' kvs] & -> & Hin)%list_elem_of_fmap. apply Hl in Hin. eauto.
    + intros [kvs Hin%Hl]. by apply (list_elem_of_fmap_2 fst) in Hin.
  - intros name kvs HA. destruct (Hpk (name, kvs)) as (T & HT & Hc & Hf); [by apply Hl|]. exists T. split_and!; [done|done|].
    unfold compact, still_one. rewrite elem_of_filter. simpl. rewrite HA. intros [Hfit _]. by apply Hf.
Qed.

Lemma reopen_run w A S :
  idle w A S → legal A → short_names maxAlloc A →
  ∃ N, ∀ fuel, N ≤ fuel → ∃ w', reopen fuel w = (Ret None, w') ∧ idle w' A (compact A).
Proof.
  intros Hid Hle Hsh. destruct (idle_serving _ _ _ Hid) as [st Hsv]. destruct (copy_to_run w st A S path files Hsv) as [N HN].
  destruct (map_bound A (λ _ kvs n, length kvs + 2 ≤ n)) as [K HK]; [intros; lia|eauto|].
  exists (1 + N `max` K). intros fuel Hf. destruct (HN fuel ltac:(lia)) as (l & w1 & Hcopy & Hl & Hsv1 & _ & Hlk). rewrite (id_lock _ _ _ Hid) in Hlk.
  destruct (DB_Close_run w1 (sv_opened _ _ _ _ Hsv1) Hlk) as (w2 & Hclose & _).
  destruct (Open_loads it fuel rebalanceTime spillTime maxAlloc alloc_ok ltac:(lia) o l [] fair_it) as (w3 & Hopen & Hh); try done.
  { eapply lists_fit; [apply (sv_stores _ _ _ _ Hsv)|done..]. }
  { apply Hl. }
  { intros [name kvs] Hin%Hl. specialize (HK _ _ Hin). simpl. lia. }
  exists w3. split; [|by eapply holds_idle]. unfold reopen. rewrite (bind_Ret _ _ _ _ _ Hcopy), (bind_Ret _ _ _ _ _ Hclose).
  rewrite (bind_Ret new_heap _ w2 tt empty_world eq_refl), bool_decide_eq_false_2 by done. rewrite lookup_insert_eq. by rewrite app_nil_r in Hopen.
Qed.

Lemma run_call_spec w A S c cs :
  idle w A S → legal A → proper maxAlloc A S (c :: cs) →
  ∃ N, ∀ fuel, N ≤ fuel →
    ∃ w', run_call fuel c w = (Ret (spec_call A S c).1, w') ∧ idle w' (spec_call A S c).2.1 (spec_call A S c).2.2.
Proof.
  intros Hid Hle [Hc _]. destruct c as [s|s|]; simpl.
  - destruct Hc. by apply Update_script.
  - destruct (idle_serving _ _ _ Hid) as [st Hsv]. destruct (View_script w st A S s Hsv) as [N HN]. exists N. intros fuel Hf.
    destruct (HN fuel Hf) as (w' & Hrun & [Hs Hd Ho Hst HA] & Hro & Hlk). exists w'. split; [done|]. destruct Hid.
    split; [done|done|congruence|done|congruence|by exists st].
  - by apply (reopen_run w A S).
Qed.

(** C2. A history of the database refines the same history of a map of maps: on an
    open, writable database without a writer that stores the map [A], a sequence of
    calls of [Update] and [View] with functions that choose each operation by the
    replies to the earlier ones, and of copying the database to the file [path],
    closing it and opening [path], gets from every call, given enough fuel, the reply
    the map gives, and the database stores the map at the end.  The history has to be
    [proper]: no function deletes a key in a bucket of more than one node or deletes
    one bucket name twice ([all_careful]), after each [Update] the keys of every
    bucket fit one node ([small_model]), and names are short when the database is
    copied; the first map holds only names and pairs the code accepts ([legal]). *)
Theorem history_refines cs : ∀ w A S,
  idle w A S → legal A → proper maxAlloc A S cs → answers cs A S w.
Proof.
  induction cs as [|c cs IH]; intros w A S Hid Hle Hp; [done|]. destruct (run_call_spec w A S c cs Hid Hle Hp) as [N HN].
  exists N. intros fuel Hf. destruct (HN fuel Hf) as (w' & Hrun & Hid'). exists w'. split; [done|].
  apply IH; [done|by apply spec_call_legal|apply Hp].
Qed.
End history.

(** Create the bucket "m", put a pair, copy and reopen, delete the pair, read it. *)
Definition ex_create : script := Do (TCreate [x6d]) (λ _, Do (TPut [x6d] [x6b] [x76]) (λ _, Return None)).
Definition ex_remove : script := Do (TDelete [x6d] [x6b]) (λ _, Return None).
Definition ex_read : script := Do (TGet [x6d] [x6b]) (λ r, match r with RVal None => Return None | _ => Return (Some ErrTxClosed) end).
Definition ex_history : list call := [CUpdate ex_create; CReopen; CUpdate ex_remove; CView ex_read].

Definition ex_with (kvs : list kv) : model := <[ [x6d] := kvs ]> ex_map.

Lemma ex_with_lookup kvs name kvs' : ex_with kvs !! name = Some kvs' →
  (name = [x6d] ∧ kvs' = kvs) ∨ (name = [x6e] ∧ kvs' = [([x61], [x01]); ([x62], [x02])]).
Proof. unfold ex_with, ex_map. intros [[<- <-]|[_ [<- <-]%lookup_singleton_Some]]%lookup_insert_Some; auto. Qed.

Lemma history_refines_witness :
  answers std_iteration 0 0 (2 ^ 40) [x66] ∅ None ex_history ex_map ex_one ex_w0.
Proof.
  assert (Hsmall : ∀ kvs, small_keys (keys kvs) → small_model (ex_with kvs)).
  { intros kvs Hk name kvs' [[_ ->]|[_ ->]]%ex_with_lookup; [done|vm_compute; reflexivity]. }
  apply (history_refines std_iteration 0 0 (2 ^ 40) [x66] ∅ None std_iteration_fair ltac:(discriminate) ltac:(discriminate) eq_refl ex_history ex_w0 ex_map ex_one ex_idle).
  - intros name kvs Hk. unfold ex_map in Hk. apply lookup_singleton_Some in Hk as [<- <-]. split; [discriminate|].
    repeat apply Forall_cons_2; [split; [split|]; vm_compute; (reflexivity || discriminate)..|constructor].
  - assert (H1 : spec_update ex_map ex_one ex_create = (None, (ex_with [([x6b], [x76])], {[ [x6d]; [x6e] ]}))) by (by apply (bool_decide_unpack _); vm_compute).
    assert (H2 : compact (ex_with [([x6b], [x76])]) = {[ [x6d]; [x6e] ]}) by (by apply (bool_decide_unpack _); vm_compute).
    assert (H3 : spec_update (ex_with [([x6b], [x76])]) {[ [x6d]; [x6e] ]} ex_remove = (None, (ex_with [], {[ [x6d]; [x6e] ]}))) by (by apply (bool_decide_unpack _); vm_compute).
    cbn [proper ex_history spec_call fst snd]. rewrite H1. cbn [fst snd]. rewrite H2, H3. cbn [fst snd].
    split_and!; [vm_compute; reflexivity| | |vm_compute; reflexivity| |done|done].
    + apply Hsmall. vm_compute. reflexivity.
    + intros name [kvs [[-> _]|[-> _]]%ex_with_lookup]; vm_compute; split; (reflexivity || discriminate).
    + apply Hsmall. vm_compute. reflexivity.
Defined.
