(* ===== verification/Defects.v ===== *)
(** * Where the code departs from its intent

    Concrete runs of the model, from an empty database through the public calls,
    on which the code panics, does not return, or skips data.  Each is a finding
    about the sources; the theorems of the other files say under which conditions
    the same operations are correct. *)
From S2P Require Import Prelude GoSort Stats World Node KV Tree TreePath Cursor CursorSpec Cow Bucket Spill Tx DB.
From S2P Require Import CowSpec BucketSpec Frame FrameSpill Publish Isolation System.
Local Open Scope st_scope.

Definition zeros (n : nat) : bytes := replicate n x00.
(** The one-byte keys "0", "1", ... *)
Definition digit (i : nat) : bytes := match Byte.of_nat (48 + i) with Some b => [b] | None => [] end.

(** A bucket committed with [n] pairs of 13,200 bytes, then opened by a second
    write transaction that deletes the keys [ds]. *)
Definition thinned (n : nat) (ds : list nat) : list call :=
  [CBegin true; CCreateBucket 1 [x6e]] ++ ((λ i, CPut 99 1 (digit i) (zeros 13200)) <$> seq 0 n) ++
  [CCommit std_iteration 99 0 0 1; CBegin true; CBucket 2 [x6e]] ++ ((λ i, CDelete 99 2 (digit i)) <$> ds).
Definition after (l : list call) : world := run_calls l (open_mem None empty_world).2.

Lemma after_reachable l : Forall fair_call l → reachable (after l).
Proof. intros Hl. exists None. by apply run_calls_steps. Qed.

Lemma thinned_fair n ds : Forall fair_call (thinned n ds).
Proof.
  unfold thinned. repeat (apply Forall_app; split); repeat constructor; try apply std_iteration_fair;
    apply Forall_fmap, Forall_forall; done.
Qed.

(** ** Rebalancing a node that a merge has emptied *)

Definition reversed_iteration : iteration := mkIteration (λ d, reverse (elements d)) (λ _, map_to_list).

(** C37. A commit may panic, depending on the order in which Go iterates over the
    dirty nodes: after deletes in two sibling leaves, a merge leaves the merged
    node in the dirty set, still marked unbalanced and pointing to its parent;
    when that parent has meanwhile been collapsed into a leaf, rebalancing the
    merged node asks a leaf for its children.  With another order the same commit
    succeeds. *)
Theorem rebalance_order_matters : ∃ w, reachable w ∧
  (Commit std_iteration 99 0 0 2 w).1 = Panic PChildAtLeaf ∧ fair std_iteration ∧
  (Commit reversed_iteration 99 0 0 2 w).1 = Ret None ∧ fair reversed_iteration.
Proof.
  exists (after (thinned 10 [0; 1; 2; 4; 5; 6; 7; 8])). split_and!.
  - apply after_reachable, thinned_fair.
  - vm_compute. reflexivity.
  - apply std_iteration_fair.
  - vm_compute. reflexivity.
  - split; [|done]. intros d. simpl. by rewrite reverse_Permutation.
Qed.

(** The keys [ForEach] lists in the bucket [b]. *)
Definition listed (b : bid) (w : world) : res (list bytes * option err) :=
  (Bucket_ForEach 99 b (λ acc k _, (acc ++ [k], None)) [] w).1.

(** C36. A commit may publish a bucket with a key twice: when the parent survives,
    rebalancing the merged node appends its pairs to its left neighbour once more.
    The commit returns nil; before it, the transaction listed every key once, and
    a read transaction begun after it lists "7" twice. *)
Theorem merge_duplicates : ∃ w, reachable w ∧
  listed 2 w = Ret (digit <$> 3 :: seq 7 13, None) ∧
  (Commit std_iteration 99 0 0 2 w).1 = Ret None ∧
  listed 3 (run_calls [CCommit std_iteration 99 0 0 2; CBegin false; CBucket 3 [x6e]] w) = Ret (digit <$> 3 :: 7 :: seq 7 13, None).
Proof.
  exists (after (thinned 20 [0; 1; 2; 4; 5; 6])). split; [apply after_reachable, thinned_fair|].
  split_and!; vm_compute; reflexivity.
Qed.

(** ** Splitting a branch while its parent is iterating over it *)

(** 32 KB keys: a branch of four children is full. *)
Definition wide (i j : nat) : bytes := digit i ++ digit j ++ zeros 32000.
Definition wide_calls : list call :=
  [CBegin true; CCreateBucket 1 [x6e]] ++ ((λ i, CPut 99 1 (wide i 5) (zeros 30000)) <$> seq 0 10) ++
  [CCommit std_iteration 99 0 0 1; CBegin true; CBucket 2 [x6e]] ++ ((λ j, CPut 99 2 (wide 0 j) (zeros 30000)) <$> seq 6 4).

(** C38. A commit that only inserts may panic: a child that is finalized finalizes
    its parent, which splits; the parent's own loop over its children then reads
    past the end of the shortened list. *)
Theorem branch_split_panics : ∃ w, reachable w ∧ (Commit std_iteration 99 0 0 2 w).1 = Panic PIndexOutOfRange.
Proof.
  exists (after wide_calls). split.
  - apply after_reachable. unfold wide_calls. repeat (apply Forall_app; split); repeat constructor; try apply std_iteration_fair;
      apply Forall_fmap, Forall_forall; done.
  - vm_compute. reflexivity.
Qed.

(** ** Cursors over empty leaves *)

Section empty_leaves.
Context (h : gmap loc node) (r l1 l2 : loc) (rn n1 n2 : node) (k1 k2 : bytes).
Hypothesis Hr : h !! r = Some rn.
Hypothesis Hrl : n_isLeaf rn = false.
Hypothesis Hri : n_inodes rn = [mkInode 0 k1 None (Some l1); mkInode 0 k2 None (Some l2)].
Hypothesis H1 : h !! l1 = Some n1.
Hypothesis H1l : n_isLeaf n1 = true.
Hypothesis H1i : n_inodes n1 = [].
Hypothesis H2 : h !! l2 = Some n2.
Hypothesis H2l : n_isLeaf n2 = true.
Hypothesis H2i : n_inodes n2 = [].

#[local] Definition at_first : list elemRef := [mkRef (Some l1) (-1); mkRef (Some r) 0].
#[local] Definition at_last (i : Z) : list elemRef := [mkRef (Some l2) i; mkRef (Some r) 1].

Ltac walk_cursor :=
  repeat (first [progress unfold ref_node, top, push, count, keyValue, st_bind, st_get, st_put, st_ret, st_deref, st_index in *
    |progress simpl|progress rewrite ?Hr, ?Hrl, ?Hri, ?H1, ?H1l, ?H1i, ?H2, ?H2l, ?H2i]).

Lemma prev_at_last fuel i : (i ≤ 0)%Z → prev h (Some r) (S (S fuel)) (at_last i) = (Ret None, at_first).
Proof.
  intros Hi. unfold prev, at_last. simpl. destruct (Z.ltb_spec 0 i); [lia|]. unfold last. walk_cursor. done.
Qed.

Lemma prev_at_first fuel : prev h (Some r) (S (S fuel)) at_first = (Ret None, at_last 0).
Proof. unfold prev, at_first. simpl. unfold first, next, goToFirstElementOnTheStack. walk_cursor. done. Qed.

Lemma Last_cycles fuel rounds : ∀ s, s = at_first ∨ (∃ i, (i ≤ 0)%Z ∧ s = at_last i) →
  (Last_loop h (Some r) (S (S fuel)) rounds s).1 = NoFuel.
Proof.
  induction rounds as [|n IH]; intros s Hs; [done|].
  assert (Hgo : ∀ ref e s1 s2, s = ref :: e :: s1 → count h ref s = (Ret 0%Z, s) → prev h (Some r) (S (S fuel)) s = (Ret None, s2) →
    (Last_loop h (Some r) (S (S fuel)) (S n) s) = Last_loop h (Some r) (S (S fuel)) n s2).
  { intros ref e s1 s2 -> Hc Hp. cbn [Last_loop]. rewrite (bind_Ret _ _ _ _ _ Hc). simpl. by rewrite (bind_Ret _ _ _ _ _ Hp). }
  destruct Hs as [->|(i & Hi & ->)].
  - rewrite (Hgo _ _ _ (at_last 0) eq_refl); [apply IH; right; by exists 0%Z|walk_cursor; done|apply prev_at_first].
  - rewrite (Hgo _ _ _ at_first eq_refl); [apply IH; by left|walk_cursor; done|by apply prev_at_last].
Qed.

Lemma Last_never_returns fuel s : (tree_Last h (Some r) fuel s).1 = NoFuel.
Proof.
  assert (Hc : count h (mkRef (Some r) 0) s = (Ret 2%Z, s)) by (walk_cursor; done).
  unfold tree_Last. rewrite (bind_Ret _ _ _ _ _ Hc). rewrite (bind_Ret (st_put _) _ s tt [mkRef (Some r) (2 - 1)] eq_refl).
  destruct fuel as [|[|fuel]]; [done|unfold last; walk_cursor; done|].
  assert (Hl : last h (S (S fuel)) [mkRef (Some r) (2 - 1)] = (Ret tt, at_last (-1))) by (unfold last; walk_cursor; done).
  rewrite (bind_Ret _ _ _ _ _ Hl).
  pose proof (Last_cycles fuel (S (S fuel)) (at_last (-1)) ltac:(right; by exists (-1)%Z)) as Hn. unfold st_bind.
  destruct (Last_loop h (Some r) (S (S fuel)) (S (S fuel)) (at_last (-1))) as [o s']. simpl in Hn. by subst o.
Qed.
End empty_leaves.

(** C39. [Cursor.Last] does not return on a bucket whose two leaves the transaction
    has emptied: the loop that skips empty nodes goes back and forth between
    them, whatever the bound on its rounds. *)
Theorem Last_diverges : ∃ w x, reachable w ∧ w_bkts w !! 2%positive = Some x ∧
  ∀ fuel s, (tree_Last (w_nodes w) (rootView w x) fuel s).1 = NoFuel.
Proof.
  set (w := after (thinned 10 (seq 0 10))).
  assert (Hx : (rootView w <$> w_bkts w !! 2%positive) = Some (Some 4%positive)) by (vm_compute; reflexivity).
  destruct (w_bkts w !! 2%positive) as [x|] eqn:E; [|discriminate Hx]. exists w, x. injection Hx as Hx. rewrite Hx.
  split; [apply after_reachable, thinned_fair|]. split; [exact E|]. clear E Hx x. intros fuel s.
  eapply Last_never_returns; vm_compute; reflexivity.
Qed.

(** The second transaction empties the second of the bucket's leaves and puts a
    cursor on the first key of the third. *)
Definition back_from (key : nat) (w : world) : option (option bytes) :=
  match Cursor_Seek 99 (digit key) (mkCursor (Some 2%positive) [] [] 0) w with
  | (Ret (_, c), w') => match Cursor_Prev 99 c w' with (Ret (r, _), _) => Some (fst <$> r) | _ => None end
  | _ => None
  end.

(** C40. [Cursor.Prev] does not skip an empty leaf: from the first key after it, it
    returns nil although smaller keys are there. *)
Theorem Prev_stops_early : ∃ w, reachable w ∧ back_from 8 w = Some None ∧ (Get 99 2 (digit 3) w).1 = Ret (Some (zeros 13200)).
Proof.
  exists (after (thinned 20 [4; 5; 6; 7])). split; [apply after_reachable, thinned_fair|]. split; vm_compute; reflexivity.
Qed.
