(* ===== verification/Verify.v ===== *)
(** * The verification switch: internal/common/verify.go

    The environment of the process as a map from names to values, the variable
    [BBOLT_VERIFY] that turns verifications on, and the functions that return a
    function to bring the setting back.  [strings.ToLower] is modelled on ASCII
    text. *)
From S2P Require Import Prelude.
Local Open Scope N_scope.

(** ** os and strings *)

Abbreviation environ := (gmap bytes bytes).

Definition Getenv (key : bytes) (env : environ) : bytes := default [] (env !! key).

(** [os.Setenv] refuses an empty name, a name with '=' or NUL and a value with NUL;
    the callers below ignore the error. *)
Definition settable (key value : bytes) : bool :=
  negb (bool_decide (key = [])) && bool_decide (x3d ∉ key) && bool_decide (x00 ∉ key) && bool_decide (x00 ∉ value).
Definition Setenv (key value : bytes) (env : environ) : environ :=
  if settable key value then <[key := value]> env else env.
Definition Unsetenv (key : bytes) (env : environ) : environ := delete key env.

(** [strings.ToLower] *)
Definition lower (c : byte) : byte :=
  let n := Byte.to_N c in
  if (65 <=? n) && (n <=? 90) then default c (Byte.of_N (n + 32)) else c.
Definition ToLower (s : bytes) : bytes := lower <$> s.

(** ** verify.go *)

(** "BBOLT_VERIFY", "all" and "assert" *)
Definition ENV_VERIFY : bytes := [x42; x42; x4f; x4c; x54; x5f; x56; x45; x52; x49; x46; x59].
Abbreviation VerificationType := bytes (only parsing).
Definition ENV_VERIFY_VALUE_ALL : VerificationType := [x61; x6c; x6c].
Definition ENV_VERIFY_VALUE_ASSERT : VerificationType := [x61; x73; x73; x65; x72; x74].

Definition getEnvVerify (env : environ) : bytes := ToLower (Getenv ENV_VERIFY env).

Definition IsVerificationEnabled (verification : VerificationType) (env : environ) : bool :=
  bool_decide (getEnvVerify env = ENV_VERIFY_VALUE_ALL) || bool_decide (getEnvVerify env = ToLower verification).

(** The new environment, and the function that is returned. *)
Definition EnableVerifications (verification : VerificationType) (env : environ) : environ * (environ → environ) :=
  let previousEnv := getEnvVerify env in
  (Setenv ENV_VERIFY verification env, Setenv ENV_VERIFY previousEnv).
Definition EnableAllVerifications (env : environ) : environ * (environ → environ) :=
  EnableVerifications ENV_VERIFY_VALUE_ALL env.
Definition DisableVerifications (env : environ) : environ * (environ → environ) :=
  let previousEnv := getEnvVerify env in
  (Unsetenv ENV_VERIFY env, Setenv ENV_VERIFY previousEnv).

(** [Verify]: [f] is the caller's function on the state [S]. *)
Definition Verify {S} (f : S → S) (env : environ) (s : S) : S :=
  if IsVerificationEnabled ENV_VERIFY_VALUE_ASSERT env then f s else s.

(** ** Properties *)

Lemma lower_lower c : lower (lower c) = lower c.
Proof. by destruct c. Qed.
Lemma ToLower_ToLower s : ToLower (ToLower s) = ToLower s.
Proof. unfold ToLower. rewrite <- list_fmap_compose. apply list_fmap_ext. intros ? c _. apply lower_lower. Qed.

Lemma lower_nul c : lower c = x00 → c = x00.
Proof. by destruct c. Qed.
Lemma settable_value v : x00 ∉ v → settable ENV_VERIFY v = true.
Proof.
  intros Hv. unfold settable. rewrite !andb_true_iff. split; [split; [split|]; vm_compute; reflexivity|]. by apply bool_decide_eq_true.
Qed.
Lemma lower_proper v : x00 ∉ v → x00 ∉ ToLower v.
Proof. intros Hv (c & Hc & Hin)%list_elem_of_fmap. symmetry in Hc. apply lower_nul in Hc. by subst c. Qed.

(** A process has no value with a NUL in its environment. *)
Definition proper (env : environ) : Prop := ∀ key value, env !! key = Some value → x00 ∉ value.

Lemma proper_Getenv env key : proper env → x00 ∉ Getenv key env.
Proof. intros Hp. unfold Getenv. destruct (env !! key) as [v|] eqn:E; simpl; [by eapply Hp|apply not_elem_of_nil]. Qed.

Lemma enabled_setting v env env' : getEnvVerify env' = getEnvVerify env → IsVerificationEnabled v env' = IsVerificationEnabled v env.
Proof. intros H. unfold IsVerificationEnabled. by rewrite H. Qed.

(** What both restoring functions do, whatever was set in between. *)
Lemma restored_setting env env' : proper env →
  let env'' := Setenv ENV_VERIFY (getEnvVerify env) env' in
  getEnvVerify env'' = getEnvVerify env ∧ delete ENV_VERIFY env'' = delete ENV_VERIFY env'.
Proof.
  intros Hp. cbv zeta. assert (settable ENV_VERIFY (getEnvVerify env) = true) as Hs by (by apply settable_value, lower_proper, proper_Getenv). unfold Setenv. rewrite Hs. split.
  - unfold getEnvVerify at 1. unfold Getenv. rewrite lookup_insert_eq. apply ToLower_ToLower.
  - apply delete_insert_eq.
Qed.

(** C34. Bringing the verification setting back.  In a process environment, after
    [EnableVerifications], [EnableAllVerifications] or [DisableVerifications] and
    whatever the caller sets in between, the returned function makes every
    verification enabled exactly if it was before, and touches no other variable;
    in between, the verification that was enabled is on, and after a disabling
    every named verification is off. *)
Theorem verifications_restored v env env' :
  proper env → x00 ∉ v →
  (∀ u, IsVerificationEnabled u ((EnableVerifications v env).2 env') = IsVerificationEnabled u env) ∧
  (∀ u, IsVerificationEnabled u ((EnableAllVerifications env).2 env') = IsVerificationEnabled u env) ∧
  (∀ u, IsVerificationEnabled u ((DisableVerifications env).2 env') = IsVerificationEnabled u env) ∧
  (∀ key, key ≠ ENV_VERIFY → (EnableVerifications v env).2 env' !! key = env' !! key ∧ (DisableVerifications env).2 env' !! key = env' !! key) ∧
  IsVerificationEnabled v (EnableVerifications v env).1 = true ∧
  (∀ u, IsVerificationEnabled u (EnableAllVerifications env).1 = true) ∧
  (∀ u, u ≠ [] → IsVerificationEnabled u (DisableVerifications env).1 = false).
Proof.
  intros Hp Hv. pose proof (restored_setting env env' Hp) as [Hget Hdel].
  assert (Hset : ∀ u, x00 ∉ u → getEnvVerify (Setenv ENV_VERIFY u env) = ToLower u).
  { intros u Hu. unfold getEnvVerify, Getenv, Setenv. by rewrite settable_value, lookup_insert_eq by done. }
  split_and!; try (intros u; by apply enabled_setting).
  - assert (Hkey : ∀ key, key ≠ ENV_VERIFY → Setenv ENV_VERIFY (getEnvVerify env) env' !! key = env' !! key).
    { intros key Hne. rewrite <- (lookup_delete_ne _ ENV_VERIFY) by done. rewrite Hdel. by apply lookup_delete_ne. }
    intros key Hne. split; by apply Hkey.
  - unfold IsVerificationEnabled. simpl. rewrite Hset by done. apply orb_true_iff. right. by apply bool_decide_eq_true.
  - intros u. unfold IsVerificationEnabled. simpl. by rewrite Hset by (apply (bool_decide_unpack _); vm_compute; exact I).
  - intros u Hu. unfold IsVerificationEnabled, getEnvVerify, Getenv. simpl. unfold Unsetenv. rewrite lookup_delete_eq. simpl.
    apply bool_decide_eq_false. destruct u; done.
Qed.

Lemma verifications_restored_witness :
  let env : environ := {[ ENV_VERIFY := [x41; x6c; x6c]; [x48] := [x2f] ]} in
  (∀ u, IsVerificationEnabled u ((DisableVerifications env).2 (DisableVerifications env).1) = true) ∧
  IsVerificationEnabled ENV_VERIFY_VALUE_ASSERT (DisableVerifications env).1 = false.
Proof.
  intros env. destruct (verifications_restored ENV_VERIFY_VALUE_ASSERT env (DisableVerifications env).1) as (_ & _ & H1 & _ & _ & _ & H2).
  - intros key value Hk. apply (bool_decide_unpack _). apply lookup_insert_Some in Hk as [[_ <-]|[_ Hk]]; [vm_compute; exact I|].
    apply lookup_singleton_Some in Hk as [_ <-]. vm_compute. exact I.
  - apply (bool_decide_unpack _). vm_compute. exact I.
  - split; [intros u; rewrite H1; vm_compute; reflexivity|]. apply H2. discriminate.
Defined.

(** The variable itself is not brought back: an unset variable ends up set to the
    empty string, and a value in capitals in lower case. *)
Lemma variable_not_restored :
  (DisableVerifications ∅).2 (DisableVerifications ∅).1 = {[ ENV_VERIFY := [] ]} ∧
  (EnableAllVerifications {[ ENV_VERIFY := [x41] ]}).2 (EnableAllVerifications {[ ENV_VERIFY := [x41] ]}).1 = {[ ENV_VERIFY := [x61] ]}.
Proof.
  assert (Hset : ∀ v env, x00 ∉ v → Setenv ENV_VERIFY v env = <[ENV_VERIFY := v]> env) by (intros v env Hv; unfold Setenv; by rewrite settable_value).
  split; unfold DisableVerifications, EnableAllVerifications, EnableVerifications, getEnvVerify, Getenv; simpl.
  - rewrite lookup_empty. simpl. rewrite Hset by apply not_elem_of_nil. unfold Unsetenv. by rewrite delete_empty.
  - rewrite lookup_singleton_eq. simpl. rewrite !Hset by (apply (bool_decide_unpack _); vm_compute; exact I). by rewrite insert_insert_eq, insert_singleton_eq.
Qed.
