(* ===== verification/Logger.v ===== *)
(** * The logger: logger.go

    The interface [Logger] as a class, [DefaultLogger] as its instance, and what a
    sequence of calls writes.  Messages are formatted by [fmt] and stamped by [log]:
    [Sprint], [Sprintf] and [stamp] are parameters. *)
From S2P Require Import Prelude.
From Stdlib Require Import String.

Definition of_string (s : string) : bytes := String.list_byte_of_string s.
Local Open Scope Z_scope.

(** [log.Ldate], [log.Ltime] and [log.Lmsgprefix] *)
Definition Ldate : Z := 1.
Definition Ltime : Z := 2.
Definition Lmsgprefix : Z := 64.

(** [log.Logger]: prefix, flags, and the entries written; [None] is [io.Discard]. *)
Record log_Logger := mkLog { lg_prefix : bytes; lg_flags : Z; lg_out : option (list bytes) }.

(** [type DefaultLogger struct] *)
Record DefaultLogger := mkDefaultLogger { dl_Logger : log_Logger; dl_debug : bool }.

(** How a call of a logger ends. *)
Inductive ending := Continues | Exits (code : Z) | Panics (msg : bytes).

(** [type Logger interface] *)
Class Logger (any L : Type) := mkLogger {
  Debug : list any → L → ending * L;
  Debugf : bytes → list any → L → ending * L;
  Error : list any → L → ending * L;
  Errorf : bytes → list any → L → ending * L;
  Info : list any → L → ending * L;
  Infof : bytes → list any → L → ending * L;
  Warning : list any → L → ending * L;
  Warningf : bytes → list any → L → ending * L;
  Fatal : list any → L → ending * L;
  Fatalf : bytes → list any → L → ending * L;
  Panic : list any → L → ending * L;
  Panicf : bytes → list any → L → ending * L
}.

(** [getDiscardLogger] *)
Definition discardLogger : DefaultLogger := mkDefaultLogger (mkLog [] 0 None) false.
Definition getDiscardLogger : DefaultLogger := discardLogger.

(** [DB.Logger]: the logger of the database; of a nil database, or one without a
    logger, the discarding one. *)
Definition DB_Logger (db : option (option DefaultLogger)) : DefaultLogger :=
  match db with Some (Some logger) => logger | _ => getDiscardLogger end.

(** [header] *)
Definition header (lvl msg : bytes) : bytes := lvl ++ of_string ": " ++ msg.

Definition EnableTimestamps (l : DefaultLogger) : DefaultLogger :=
  let g := dl_Logger l in
  mkDefaultLogger (mkLog (lg_prefix g) (Z.lor (Z.lor (lg_flags g) Ldate) Ltime) (lg_out g)) (dl_debug l).
Definition EnableDebug (l : DefaultLogger) : DefaultLogger := mkDefaultLogger (dl_Logger l) true.

Section logger.
Context {any : Type} (Sprint : list any → bytes) (Sprintf : bytes → list any → bytes) (stamp : Z → bytes).

(** An entry of [log.Logger.Output]: prefix and time in the order of the flags, the
    text, and a newline if it has none. *)
Definition newline (s : bytes) : bytes := if bool_decide (last s = Some x0a) then s else s ++ [x0a].
Definition entry (g : log_Logger) (s : bytes) : bytes :=
  (if Z.land (lg_flags g) Lmsgprefix =? 0 then lg_prefix g ++ stamp (lg_flags g) else stamp (lg_flags g) ++ lg_prefix g) ++ newline s.

Definition log_Output (s : bytes) (g : log_Logger) : log_Logger :=
  match lg_out g with
  | None => g
  | Some out => mkLog (lg_prefix g) (lg_flags g) (Some (out ++ [entry g s]))
  end.
Definition Output (s : bytes) (l : DefaultLogger) : DefaultLogger := mkDefaultLogger (log_Output s (dl_Logger l)) (dl_debug l).

(** [log.Logger.Panic]: no level in the entry. *)
Definition log_Panic (s : bytes) (l : DefaultLogger) : ending * DefaultLogger := (Panics s, Output s l).

Definition dl_Debug (v : list any) (l : DefaultLogger) : ending * DefaultLogger :=
  (Continues, if dl_debug l then Output (header (of_string "DEBUG") (Sprint v)) l else l).
Definition dl_Debugf (format : bytes) (v : list any) (l : DefaultLogger) : ending * DefaultLogger :=
  (Continues, if dl_debug l then Output (header (of_string "DEBUG") (Sprintf format v)) l else l).
Definition dl_Info (v : list any) (l : DefaultLogger) : ending * DefaultLogger :=
  (Continues, Output (header (of_string "INFO") (Sprint v)) l).
Definition dl_Infof (format : bytes) (v : list any) (l : DefaultLogger) : ending * DefaultLogger :=
  (Continues, Output (header (of_string "INFO") (Sprintf format v)) l).
Definition dl_Error (v : list any) (l : DefaultLogger) : ending * DefaultLogger :=
  (Continues, Output (header (of_string "ERROR") (Sprint v)) l).
Definition dl_Errorf (format : bytes) (v : list any) (l : DefaultLogger) : ending * DefaultLogger :=
  (Continues, Output (header (of_string "ERROR") (Sprintf format v)) l).
Definition dl_Warning (v : list any) (l : DefaultLogger) : ending * DefaultLogger :=
  (Continues, Output (header (of_string "WARN") (Sprint v)) l).
Definition dl_Warningf (format : bytes) (v : list any) (l : DefaultLogger) : ending * DefaultLogger :=
  (Continues, Output (header (of_string "WARN") (Sprintf format v)) l).
Definition dl_Fatal (v : list any) (l : DefaultLogger) : ending * DefaultLogger :=
  (Exits 1, Output (header (of_string "FATAL") (Sprint v)) l).
Definition dl_Fatalf (format : bytes) (v : list any) (l : DefaultLogger) : ending * DefaultLogger :=
  (Exits 1, Output (header (of_string "FATAL") (Sprintf format v)) l).
Definition dl_Panic (v : list any) (l : DefaultLogger) : ending * DefaultLogger := log_Panic (Sprint v) l.
Definition dl_Panicf (format : bytes) (v : list any) (l : DefaultLogger) : ending * DefaultLogger :=
  log_Panic (Sprintf format v) l.

#[local] Instance DefaultLogger_Logger : Logger any DefaultLogger := {|
  Debug := dl_Debug; Debugf := dl_Debugf; Error := dl_Error; Errorf := dl_Errorf; Info := dl_Info; Infof := dl_Infof;
  Warning := dl_Warning; Warningf := dl_Warningf; Fatal := dl_Fatal; Fatalf := dl_Fatalf; Panic := dl_Panic; Panicf := dl_Panicf
|}.

(** ** A client of the interface *)

Inductive level := LDebug | LError | LInfo | LWarning | LFatal | LPanic.
Inductive lcall := LPlain (lv : level) (v : list any) | LFormat (lv : level) (format : bytes) (v : list any).

Definition log_call {L} `{Logger any L} (c : lcall) : L → ending * L :=
  match c with
  | LPlain LDebug v => Debug v | LPlain LError v => Error v | LPlain LInfo v => Info v
  | LPlain LWarning v => Warning v | LPlain LFatal v => Fatal v | LPlain LPanic v => Panic v
  | LFormat LDebug f v => Debugf f v | LFormat LError f v => Errorf f v | LFormat LInfo f v => Infof f v
  | LFormat LWarning f v => Warningf f v | LFormat LFatal f v => Fatalf f v | LFormat LPanic f v => Panicf f v
  end.

Fixpoint log_calls {L} `{Logger any L} (cs : list lcall) (l : L) : ending * L :=
  match cs with
  | [] => (Continues, l)
  | c :: cs' => match log_call c l with (Continues, l') => log_calls cs' l' | r => r end
  end.

(** ** What is written *)

Definition level_of (c : lcall) : level := match c with LPlain lv _ | LFormat lv _ _ => lv end.
Definition text_of (c : lcall) : bytes := match c with LPlain _ v => Sprint v | LFormat _ f v => Sprintf f v end.

(** The tag of a level; the panics of [log.Logger] have none. *)
Definition tag (lv : level) : option bytes :=
  match lv with
  | LDebug => Some (of_string "DEBUG") | LError => Some (of_string "ERROR") | LInfo => Some (of_string "INFO")
  | LWarning => Some (of_string "WARN") | LFatal => Some (of_string "FATAL") | LPanic => None
  end.
Definition message (c : lcall) : bytes :=
  match tag (level_of c) with Some lvl => header lvl (text_of c) | None => text_of c end.
Definition finish (c : lcall) : ending :=
  match level_of c with LFatal => Exits 1 | LPanic => Panics (text_of c) | _ => Continues end.
Definition silent (debug : bool) (c : lcall) : bool := match level_of c with LDebug => negb debug | _ => false end.

(** The calls up to the first that does not come back. *)
Fixpoint made (cs : list lcall) : list lcall :=
  match cs with
  | [] => []
  | c :: cs' => c :: match finish c with Continues => made cs' | _ => [] end
  end.

Lemma log_call_run c l :
  log_call c l = (finish c, if silent (dl_debug l) c then l else Output (message c) l).
Proof. by destruct c as [[] v|[] f v], l as [g []]. Qed.

Lemma Output_entry s l : dl_debug (Output s l) = dl_debug l ∧ lg_prefix (dl_Logger (Output s l)) = lg_prefix (dl_Logger l) ∧
  lg_flags (dl_Logger (Output s l)) = lg_flags (dl_Logger l) ∧
  lg_out (dl_Logger (Output s l)) = (λ out, out ++ [entry (dl_Logger l) s]) <$> lg_out (dl_Logger l).
Proof. unfold Output, log_Output. by destruct l as [[p f [out|]] d]. Qed.

(** A sequence of calls writes one entry per call that is made, debug calls only
    if debugging is on, and ends at the first call that exits or panics; a logger
    on [io.Discard] writes nothing. *)
Theorem log_transcript cs : ∀ l,
  let r := log_calls cs l in
  lg_out (dl_Logger r.2) =
    (λ out, out ++ (entry (dl_Logger l) ∘ message <$> filter (λ c, silent (dl_debug l) c = false) (made cs))) <$> lg_out (dl_Logger l) ∧
  (r.1 = Continues ↔ Forall (λ c, finish c = Continues) cs).
Proof.
  induction cs as [|c cs IH]; intros l; cbv zeta.
  { simpl. split; [|done]. destruct (lg_out _); simpl; [by rewrite app_nil_r|done]. }
  cbn [log_calls made]. rewrite log_call_run. set (l1 := if silent _ _ then l else _).
  assert (Hl1 : lg_out (dl_Logger l1) = (λ out, out ++ (entry (dl_Logger l) ∘ message <$> filter (λ c, silent (dl_debug l) c = false) [c])) <$> lg_out (dl_Logger l) ∧
    dl_debug l1 = dl_debug l ∧ ∀ s, entry (dl_Logger l1) s = entry (dl_Logger l) s).
  { subst l1. rewrite filter_cons. destruct (silent (dl_debug l) c).
    - rewrite decide_False by done. split_and!; [|done|done]. destruct (lg_out _); simpl; [by rewrite app_nil_r|done].
    - rewrite decide_True by done. destruct (Output_entry (message c) l) as (H1 & H2 & H3 & H4). split_and!; [done|done|].
      intros s. unfold entry. by rewrite H2, H3. }
  destruct Hl1 as (Ho & Hd & He). rewrite Forall_cons. destruct (finish c) eqn:Hf.
  - destruct (IH l1) as [H1 H2]. split; [|rewrite H2; naive_solver]. rewrite H1, Ho, Hd. destruct (lg_out (dl_Logger l)) as [out|]; [|done]. simpl. f_equal.
    rewrite (filter_cons _ c (made cs)), (filter_cons _ c []), filter_nil. rewrite <- app_assoc. f_equal.
    assert (Hx : ∀ cs' : list lcall, entry (dl_Logger l1) ∘ message <$> cs' = entry (dl_Logger l) ∘ message <$> cs').
    { intros cs'. apply list_fmap_ext. intros ? x _. simpl. apply He. }
    rewrite Hx. by destruct (decide _).
  - simpl. split; [exact Ho|]. split; [done|]. by intros [? _].
  - simpl. split; [exact Ho|]. split; [done|]. by intros [? _].
Qed.
End logger.
