(* ===== verification/Errors.v ===== *)
(** * The error variables: errors/errors.go and errors.go

    The variables of the package [errors] with the text of their errors, and the
    deprecated variables of the package [vmbolt] that are initialized from them.
    An error variable is a pointer, so it is the constructor of [World.err] and not
    its text that identifies it. *)
From S2P Require Import Prelude World.
From Stdlib Require Import String.
Local Open Scope string_scope.

(** errors/errors.go: name, error, text *)
Definition errors_pkg : list (string * (err * string)) := [
  ("ErrDatabaseNotOpen", (ErrDatabaseNotOpen, "database not open"));
  ("ErrInvalid", (ErrInvalid, "invalid database"));
  ("ErrInvalidMapping", (ErrInvalidMapping, "database isn't correctly mapped"));
  ("ErrVersionMismatch", (ErrVersionMismatch, "version mismatch"));
  ("ErrChecksum", (ErrChecksum, "checksum error"));
  ("ErrTimeout", (ErrTimeout, "timeout"));
  ("ErrTxNotWritable", (ErrTxNotWritable, "tx not writable"));
  ("ErrTxClosed", (ErrTxClosed, "tx closed"));
  ("ErrDatabaseReadOnly", (ErrDatabaseReadOnly, "database is in read-only mode"));
  ("ErrBucketNotFound", (ErrBucketNotFound, "bucket not found"));
  ("ErrBucketExists", (ErrBucketExists, "bucket already exists"));
  ("ErrBucketNameRequired", (ErrBucketNameRequired, "bucket name required"));
  ("ErrKeyRequired", (ErrKeyRequired, "key required"));
  ("ErrKeyTooLarge", (ErrKeyTooLarge, "key too large"));
  ("ErrValueTooLarge", (ErrValueTooLarge, "value too large"));
  ("ErrMaxSizeReached", (ErrMaxSizeReached, "database reached maximum size"));
  ("ErrIncompatibleValue", (ErrIncompatibleValue, "incompatible value"))].

(** errors.go: name, error *)
Definition vmbolt_pkg : list (string * err) := [
  ("ErrDatabaseNotOpen", ErrDatabaseNotOpen);
  ("ErrInvalid", ErrInvalid);
  ("ErrInvalidMapping", ErrInvalidMapping);
  ("ErrVersionMismatch", ErrVersionMismatch);
  ("ErrChecksum", ErrChecksum);
  ("ErrTimeout", ErrTimeout);
  ("ErrTxNotWritable", ErrTxNotWritable);
  ("ErrTxClosed", ErrTxClosed);
  ("ErrDatabaseReadOnly", ErrDatabaseReadOnly);
  ("ErrBucketNotFound", ErrBucketNotFound);
  ("ErrBucketExists", ErrBucketExists);
  ("ErrBucketNameRequired", ErrBucketNameRequired);
  ("ErrKeyRequired", ErrKeyRequired);
  ("ErrKeyTooLarge", ErrKeyTooLarge);
  ("ErrValueTooLarge", ErrValueTooLarge);
  ("ErrIncompatibleValue", ErrIncompatibleValue)].

Fixpoint declared {V} (name : string) (pkg : list (string * V)) : option V :=
  match pkg with
  | [] => None
  | (n, x) :: pkg' => if String.eqb n name then Some x else declared name pkg'
  end.

(** A variable of [vmbolt] is the variable of [errors] of the same name, so
    comparing with either gives the same answer; the names and the texts of
    [errors] are distinct, and only [ErrMaxSizeReached] is not exported again. *)
Theorem reexports_same name :
  match declared name errors_pkg with
  | Some (e, _) => declared name vmbolt_pkg = if decide (e = ErrMaxSizeReached) then None else Some e
  | None => declared name vmbolt_pkg = None
  end ∧ base.NoDup (errors_pkg.*1) ∧ base.NoDup (snd <$> errors_pkg.*2) ∧ base.NoDup (fst <$> errors_pkg.*2).
Proof.
  split; [|split_and!; apply (bool_decide_unpack _); vm_compute; exact I]. unfold errors_pkg, vmbolt_pkg. cbn [declared].
  repeat match goal with |- context [String.eqb ?s name] => destruct (String.eqb_spec s name) as [<-|?]; [reflexivity|] end. done.
Qed.
